(** * Switchboard tunnel protocol: framing, connection and handshake

    A shallow embedding of [internal/protocol] (types.go, frame codec,
    conn.go) and of the agent/proxy handshake of [internal/auth].

    Integers are [Z] with the wrap-around of the Go conversions written
    out ([uint32], [asByte], [int64]); byte slices are [list byte]; the
    [net.Conn] owned by a connection is an explicit state that every
    operation threads through. *)

From Stdlib Require Import String Ascii.
From Stdlib Require DecimalString DecimalZ DecimalPos.
From Stdlib Require Import ZArith List Lia Bool.
From Stdlib Require Import Strings.Byte.
Import ListNotations.
Local Open Scope Z_scope.

(* ================================================================== *)
(** * Bytes and fixed-width integers *)
(* ================================================================== *)

Module Bytes.

(** [uint8(b)] widened to an integer. *)
Definition b2z (b : byte) : Z := Z.of_N (Byte.to_N b).

(** The Go conversion [byte(v)]: keeps the low eight bits. *)
Definition asByte (v : Z) : byte :=
  match Byte.of_N (Z.to_N (v mod 256)) with
  | Some b => b
  | None => x00
  end.

(** The Go conversions [uint16(v)], [uint32(v)], [uint64(v)], [int64(v)]. *)
Definition uint16 (v : Z) : Z := v mod 2 ^ 16.
Definition uint32 (v : Z) : Z := v mod 2 ^ 32.
Definition uint64 (v : Z) : Z := v mod 2 ^ 64.
Definition int64 (v : Z) : Z := (v + 2 ^ 63) mod 2 ^ 64 - 2 ^ 63.

(** Indexing into a fixed-size array, [hdr[i]]. *)
Definition idx (l : list byte) (i : nat) : Z := b2z (nth i l x00).

(** A sub-slice [l[lo:hi]]. *)
Definition slice (l : list byte) (lo hi : nat) : list byte :=
  firstn (hi - lo) (skipn lo l).

(** [binary.BigEndian.PutUint16/32/64]. *)
Definition PutUint16 (v : Z) : list byte :=
  [asByte (Z.shiftr v 8); asByte v].

Definition PutUint32 (v : Z) : list byte :=
  [asByte (Z.shiftr v 24); asByte (Z.shiftr v 16);
   asByte (Z.shiftr v 8); asByte v].

Definition PutUint64 (v : Z) : list byte :=
  [asByte (Z.shiftr v 56); asByte (Z.shiftr v 48);
   asByte (Z.shiftr v 40); asByte (Z.shiftr v 32);
   asByte (Z.shiftr v 24); asByte (Z.shiftr v 16);
   asByte (Z.shiftr v 8); asByte v].

(** [binary.BigEndian.Uint16/32/64]. *)
Definition Uint16 (b : list byte) : Z :=
  Z.lor (idx b 1) (Z.shiftl (idx b 0) 8).

Definition Uint32 (b : list byte) : Z :=
  Z.lor (Z.lor (Z.lor (idx b 3) (Z.shiftl (idx b 2) 8))
               (Z.shiftl (idx b 1) 16))
        (Z.shiftl (idx b 0) 24).

Definition Uint64 (b : list byte) : Z :=
  Z.lor (Z.lor (Z.lor (Z.lor (Z.lor (Z.lor (Z.lor
    (idx b 7)
    (Z.shiftl (idx b 6) 8))
    (Z.shiftl (idx b 5) 16))
    (Z.shiftl (idx b 4) 24))
    (Z.shiftl (idx b 3) 32))
    (Z.shiftl (idx b 2) 40))
    (Z.shiftl (idx b 1) 48))
    (Z.shiftl (idx b 0) 56).

End Bytes.
Import Bytes.

(* ================================================================== *)
(** * The transport endpoint ([net.Conn]) *)
(* ================================================================== *)

Module Net.

(** Errors a transport read or write can return. *)
Inductive ioerr : Type :=
| EOF                (* io.EOF *)
| ErrUnexpectedEOF   (* io.ErrUnexpectedEOF *)
| ErrClosed          (* use of closed network connection *)
| ErrTimeout         (* os.ErrDeadlineExceeded: i/o timeout *)
| ErrReset.          (* any other transport failure *)

(** One endpoint.  [rx] holds the bytes the peer has made available,
    and [rx_end] is what a read reports once they are used up (the peer
    closed, the deadline fired, the link broke).  [tx] collects what has
    been written; [tx_room], when set, is the number of bytes the
    endpoint still accepts before a write fails with [tx_fail]. *)
Record netConn : Type := mkNet {
  rx : list byte;
  rx_end : ioerr;
  tx : list byte;
  tx_room : option nat;
  tx_fail : ioerr;
  closed : bool;
  readDeadline : option Z;
  writeDeadline : option Z
}.

Definition set_rx (nc : netConn) (l : list byte) : netConn :=
  mkNet l (rx_end nc) (tx nc) (tx_room nc) (tx_fail nc) (closed nc)
        (readDeadline nc) (writeDeadline nc).

Definition set_tx (nc : netConn) (l : list byte) (room : option nat) : netConn :=
  mkNet (rx nc) (rx_end nc) l room (tx_fail nc) (closed nc)
        (readDeadline nc) (writeDeadline nc).

Definition Close (nc : netConn) : netConn :=
  mkNet (rx nc) (rx_end nc) (tx nc) (tx_room nc) (tx_fail nc) true
        (readDeadline nc) (writeDeadline nc).

Definition SetReadDeadline (nc : netConn) (d : option Z) : netConn :=
  mkNet (rx nc) (rx_end nc) (tx nc) (tx_room nc) (tx_fail nc) (closed nc)
        d (writeDeadline nc).

Definition SetWriteDeadline (nc : netConn) (d : option Z) : netConn :=
  mkNet (rx nc) (rx_end nc) (tx nc) (tx_room nc) (tx_fail nc) (closed nc)
        (readDeadline nc) d.

(** [io.ReadFull(r, buf)] with [len(buf) = n]: the bytes read, the error
    if fewer than [n] could be read, and the endpoint afterwards.  As in
    [io.ReadAtLeast], an [EOF] after at least one byte becomes
    [ErrUnexpectedEOF], and an empty buffer is filled without touching
    the reader. *)
Definition ReadFull (r : netConn) (n : nat) : list byte * option ioerr * netConn :=
  match n with
  | O => ([], None, r)
  | _ =>
    if closed r then ([], Some ErrClosed, r)
    else if (n <=? length (rx r))%nat
    then (firstn n (rx r), None, set_rx r (skipn n (rx r)))
    else (rx r,
          Some (match rx r, rx_end r with
                | _ :: _, EOF => ErrUnexpectedEOF
                | _, e => e
                end),
          set_rx r [])
  end.

(** [w.Write(p)]: all of [p] is written, or the endpoint fails after
    taking what still fits. *)
Definition Write (w : netConn) (p : list byte) : option ioerr * netConn :=
  if closed w then (Some ErrClosed, w)
  else match tx_room w with
       | None => (None, set_tx w (tx w ++ p) None)
       | Some room =>
         if (length p <=? room)%nat
         then (None, set_tx w (tx w ++ p) (Some (room - length p)%nat))
         else (Some (tx_fail w), set_tx w (tx w ++ firstn room p) (Some O))
       end.

End Net.
Import Net.

(* ================================================================== *)
(** * internal/protocol *)
(* ================================================================== *)

Module Protocol.

(** ** Errors (errors.go) *)

Inductive sentinel : Type :=
| ErrBadMagic
| ErrBadVersion
| ErrFrameTooLarge
| ErrUnknownType
| ErrInvalidFlags
| ErrFragmentation
| ErrEnvelope
| ErrInvalidStreamID.

(** [context.Canceled] and [context.DeadlineExceeded]. *)
Inductive ctxerr : Type := Canceled | DeadlineExceeded.

(** The error values the package returns: a transport error passed on
    as it is, the context's error, [errors.Join(ErrProtocol, s)], and
    [fmt.Errorf("%w: ...", ErrProtocol, ...)]. *)
Inductive error : Type :=
| IOError (e : ioerr)
| CtxError (e : ctxerr)
| Joined (s : sentinel)
| Wrapped (msg : string) (arg : option Z).

(** Targets of [errors.Is]. *)
Inductive target : Type :=
| ErrProtocol
| Sentinel (s : sentinel).

Definition sentinel_eqb (a b : sentinel) : bool :=
  match a, b with
  | ErrBadMagic, ErrBadMagic | ErrBadVersion, ErrBadVersion
  | ErrFrameTooLarge, ErrFrameTooLarge | ErrUnknownType, ErrUnknownType
  | ErrInvalidFlags, ErrInvalidFlags | ErrFragmentation, ErrFragmentation
  | ErrEnvelope, ErrEnvelope | ErrInvalidStreamID, ErrInvalidStreamID => true
  | _, _ => false
  end.

(** [errors.Is(err, t)]. *)
Definition errorsIs (err : error) (t : target) : bool :=
  match err, t with
  | Joined _, ErrProtocol => true
  | Joined s, Sentinel s' => sentinel_eqb s s'
  | Wrapped _ _, ErrProtocol => true
  | _, _ => false
  end.

(** ** Types (types.go) *)

Definition TypeAuthBegin : Z := 0x01.
Definition TypeAuthChallenge : Z := 0x02.
Definition TypeAuthProof : Z := 0x03.
Definition TypeAuthOK : Z := 0x04.
Definition TypeAuthError : Z := 0x05.
Definition TypeMessagePayload : Z := 0x10.
Definition TypePing : Z := 0xFE.
Definition TypePong : Z := 0xFF.

Definition PayloadKindRequest : Z := 0x01.
Definition PayloadKindResponse : Z := 0x02.
Definition PayloadKindOneway : Z := 0x03.

Definition PayloadFormatOpaqueBytes : Z := 0x00.

Definition flagStart : Z := 0x0001.
Definition flagEnd : Z := 0x0002.
Definition startEndFlags : Z := Z.lor flagStart flagEnd.

(** One logical tunnel message.  [MsgType], [Kind] and [Format] are
    bytes, [StreamID] is a [uint64]. *)
Record Message : Type := mkMessage {
  MsgType : Z;
  StreamID : Z;
  Payload : list byte;
  Kind : Z;
  Format : Z;
  Data : list byte
}.

(** The zero value [Message{}]. *)
Definition Message0 : Message := mkMessage 0 0 [] 0 0 [].

(** ** Frame codec *)

Definition v1Magic0 : Z := 0x53.
Definition v1Magic1 : Z := 0x42.
Definition v1Version : Z := 0x01.
Definition headerLen : nat := 18.

Record frame : Type := mkFrame {
  typ : Z;
  flags : Z;
  streamID : Z;
  payload : list byte;
  payloadLn : Z
}.

Definition isKnownType (t : Z) : bool :=
  match t with
  | 0x01 | 0x02 | 0x03 | 0x04 | 0x05 => true
  | 0x10 => true
  | 0xFE | 0xFF => true
  | _ => false
  end.

(** The eighteen header bytes [encodeFrameTo] builds. *)
Definition header (typ flags streamID : Z) (payload : list byte) : list byte :=
  [asByte v1Magic0; asByte v1Magic1; asByte v1Version; asByte typ]
  ++ PutUint16 flags
  ++ PutUint64 streamID
  ++ PutUint32 (uint32 (Z.of_nat (length payload))).

Definition encodeFrameTo (w : netConn) (typ flags streamID : Z)
           (payload : list byte) : option error * netConn :=
  match Write w (header typ flags streamID payload) with
  | (Some e, w1) => (Some (IOError e), w1)
  | (None, w1) =>
    if (length payload =? 0)%nat then (None, w1)
    else match Write w1 payload with
         | (Some e, w2) => (Some (IOError e), w2)
         | (None, w2) => (None, w2)
         end
  end.

Definition decodeFrameFrom (r : netConn) (maxPayload : Z)
  : (frame + error) * netConn :=
  match ReadFull r headerLen with
  | (_, Some e, r1) => (inr (IOError e), r1)
  | (hdr, None, r1) =>
    if negb (idx hdr 0 =? v1Magic0) || negb (idx hdr 1 =? v1Magic1)
    then (inr (Joined ErrBadMagic), r1)
    else if negb (idx hdr 2 =? v1Version)
    then (inr (Joined ErrBadVersion), r1)
    else
      let typ := idx hdr 3 in
      if negb (isKnownType typ)
      then (inr (Joined ErrUnknownType), r1)
      else
        let flags := Uint16 (slice hdr 4 6) in
        if negb (Z.ldiff flags (Z.lor flagStart flagEnd) =? 0)
        then (inr (Joined ErrInvalidFlags), r1)
        else
          let streamID := Uint64 (slice hdr 6 14) in
          let payloadLn := Uint32 (slice hdr 14 18) in
          if payloadLn >? uint32 maxPayload
          then (inr (Joined ErrFrameTooLarge), r1)
          else if payloadLn >? 0
          then match ReadFull r1 (Z.to_nat payloadLn) with
               | (_, Some e, r2) => (inr (IOError e), r2)
               | (payload, None, r2) =>
                 (inl (mkFrame typ flags streamID payload payloadLn), r2)
               end
          else (inl (mkFrame typ flags streamID [] payloadLn), r1)
  end.

(** ** Connection (conn.go) *)

Definition defaultMaxFramePayload : Z := Z.shiftl 16 20.

(** [Conn]: the endpoint it owns and the frame payload limit.  The two
    mutexes only serialise callers and carry no state of their own. *)
Record Conn : Type := mkConn {
  nc : netConn;
  maxFramePayload : Z
}.

Definition Option : Type := Conn -> Conn.

Definition WithMaxFramePayloadBytes (n : Z) : Option :=
  fun c => if n >? 0 then mkConn (nc c) n else c.

Definition New (n : netConn) (opts : list Option) : Conn :=
  fold_left (fun c opt => opt c) opts (mkConn n defaultMaxFramePayload).

Definition with_nc (c : Conn) (n : netConn) : Conn :=
  mkConn n (maxFramePayload c).

Definition ConnClose (c : Conn) : Conn := with_nc c (Close (nc c)).

(** A [context.Context] as the connection sees it: its deadline, and
    [ctx.Err()] at the moment the code looks at [ctx.Done()] ([None]
    while the context is not done). *)
Record context : Type := mkContext {
  ctxDeadline : option Z;
  ctxErr : option ctxerr
}.

Definition Background : context := mkContext None None.

(** [ctx == nil] is replaced with [context.Background()]. *)
Definition ctxOrBackground (ctx : option context) : context :=
  match ctx with
  | Some c => c
  | None => Background
  end.

(** [applyWriteContext] / [applyReadContext]: the context's deadline, if
    any, is installed on the endpoint; the deferred [restore] clears it
    again on return.  The hook that [context.AfterFunc] adds sets the
    deadline to [time.Now()] once the context is done, from a goroutine
    of its own: what it does to a pending read is the [ErrTimeout] of
    [rx_end], and the deadline it may leave behind when it runs after
    [restore] is not tracked here.  The deadlines after a call are
    therefore those of a call whose context is not done. *)
Definition applyWriteContext (c : Conn) (ctx : context) : Conn :=
  match ctxDeadline ctx with
  | Some d => with_nc c (SetWriteDeadline (nc c) (Some d))
  | None => c
  end.

Definition restoreWriteDeadline (c : Conn) : Conn :=
  with_nc c (SetWriteDeadline (nc c) None).

Definition applyReadContext (c : Conn) (ctx : context) : Conn :=
  match ctxDeadline ctx with
  | Some d => with_nc c (SetReadDeadline (nc c) (Some d))
  | None => c
  end.

Definition restoreReadDeadline (c : Conn) : Conn :=
  with_nc c (SetReadDeadline (nc c) None).

(** *** Sending *)

(** [chunk := remaining; if len(chunk) > max { chunk = chunk[:max] }]. *)
Definition takeChunk (maxp : Z) (remaining : list byte) : list byte :=
  if Z.of_nat (length remaining) >? maxp
  then firstn (Z.to_nat maxp) remaining
  else remaining.

(** The loop of [sendWithFragmentation].  [None] is the answer when
    the fuel runs out, which only a limit below one brings about: the
    Go loop then never advances (limit zero) or panics in the slice
    expression (negative limit).  [New] and [WithMaxFramePayloadBytes]
    keep the limit positive, and then [length remaining] iterations
    are enough. *)
Fixpoint fragmentLoop (fuel : nat) (w : netConn) (maxp typ streamID : Z)
         (remaining : list byte) (first : bool)
  : option (option error * netConn) :=
  if (length remaining =? 0)%nat then Some (None, w)
  else match fuel with
       | O => None
       | S fuel' =>
         let chunk := takeChunk maxp remaining in
         let remaining' := skipn (length chunk) remaining in
         let flags := 0 in
         let flags := if first then Z.lor flags flagStart else flags in
         let flags := if (length remaining' =? 0)%nat
                      then Z.lor flags flagEnd else flags in
         match encodeFrameTo w typ flags streamID chunk with
         | (Some e, w1) => Some (Some e, w1)
         | (None, w1) =>
           fragmentLoop fuel' w1 maxp typ streamID remaining' false
         end
       end.

Definition sendWithFragmentation (w : netConn) (maxp typ streamID : Z)
           (payload : list byte) : option (option error * netConn) :=
  if Z.of_nat (length payload) <=? maxp
  then Some (encodeFrameTo w typ startEndFlags streamID payload)
  else fragmentLoop (length payload) w maxp typ streamID payload true.

(** The continuation loop of a fragmented [message_payload] send. *)
Fixpoint payloadLoop (fuel : nat) (w : netConn) (maxp streamID : Z)
         (remaining : list byte) : option (option error * netConn) :=
  if (length remaining =? 0)%nat then Some (None, w)
  else match fuel with
       | O => None
       | S fuel' =>
         let chunk := takeChunk maxp remaining in
         let remaining' := skipn (length chunk) remaining in
         let flags := if (length remaining' =? 0)%nat then flagEnd else 0 in
         match encodeFrameTo w TypeMessagePayload flags streamID chunk with
         | (Some e, w1) => Some (Some e, w1)
         | (None, w1) => payloadLoop fuel' w1 maxp streamID remaining'
         end
       end.

Definition isAuthType (t : Z) : bool :=
  (t =? TypeAuthBegin) || (t =? TypeAuthChallenge) || (t =? TypeAuthProof)
  || (t =? TypeAuthOK) || (t =? TypeAuthError).

(** The [switch msg.Type] of [Send]. *)
Definition sendSwitch (w : netConn) (maxp : Z) (msg : Message)
  : option (option error * netConn) :=
  if (MsgType msg =? TypePing) || (MsgType msg =? TypePong) then
    if negb (StreamID msg =? 0)
    then Some (Some (Joined ErrInvalidStreamID), w)
    else if negb (length (Payload msg) =? 0)%nat
            || negb (length (Data msg) =? 0)%nat
    then Some (Some (Wrapped "ping/pong payload must be empty" None), w)
    else Some (encodeFrameTo w (MsgType msg) startEndFlags 0 [])
  else if isAuthType (MsgType msg) then
    if negb (StreamID msg =? 0)
    then Some (Some (Joined ErrInvalidStreamID), w)
    else sendWithFragmentation w maxp (MsgType msg) 0 (Payload msg)
  else if MsgType msg =? TypeMessagePayload then
    if StreamID msg =? 0
    then Some (Some (Joined ErrInvalidStreamID), w)
    else
      let format := Format msg in
      let format := if format =? 0 then PayloadFormatOpaqueBytes else format in
      if negb (format =? PayloadFormatOpaqueBytes)
      then Some (Some (Wrapped "unsupported payload format" (Some format)), w)
      else if negb (Kind msg =? PayloadKindRequest)
              && negb (Kind msg =? PayloadKindResponse)
              && negb (Kind msg =? PayloadKindOneway)
      then Some (Some (Wrapped "unsupported payload kind" (Some (Kind msg))), w)
      else
        let envelope := [asByte (Kind msg); asByte format; x00; x00] in
        if Z.of_nat (length envelope) >? maxp
        then Some (Some (Wrapped "maxFramePayload too small for envelope" None), w)
        else
          let firstDataCap := maxp - Z.of_nat (length envelope) in
          let firstData := Data msg in
          let firstData := if Z.of_nat (length firstData) >? firstDataCap
                           then firstn (Z.to_nat firstDataCap) firstData
                           else firstData in
          let firstPayload := envelope ++ firstData in
          let remaining := skipn (length firstData) (Data msg) in
          if (length remaining =? 0)%nat
          then Some (encodeFrameTo w TypeMessagePayload startEndFlags
                                   (StreamID msg) firstPayload)
          else match encodeFrameTo w TypeMessagePayload flagStart
                                   (StreamID msg) firstPayload with
               | (Some e, w1) => Some (Some e, w1)
               | (None, w1) =>
                 payloadLoop (length remaining) w1 maxp (StreamID msg) remaining
               end
  else Some (Some (Joined ErrUnknownType), w).

(** [Conn.Send]. *)
Definition Send (c : Conn) (ctx : option context) (msg : Message)
  : option (option error * Conn) :=
  let ctx := ctxOrBackground ctx in
  let c1 := applyWriteContext c ctx in
  match sendSwitch (nc c1) (maxFramePayload c1) msg with
  | None => None
  | Some (err, w) => Some (err, restoreWriteDeadline (with_nc c1 w))
  end.

(** *** Receiving *)

Definition isProtocolErr (err : error) : bool :=
  errorsIs err ErrProtocol
  || errorsIs err (Sentinel ErrBadMagic)
  || errorsIs err (Sentinel ErrBadVersion)
  || errorsIs err (Sentinel ErrFrameTooLarge)
  || errorsIs err (Sentinel ErrUnknownType)
  || errorsIs err (Sentinel ErrInvalidFlags)
  || errorsIs err (Sentinel ErrFragmentation)
  || errorsIs err (Sentinel ErrEnvelope)
  || errorsIs err (Sentinel ErrInvalidStreamID).

Definition readFrame (c : Conn) (ctx : context) : (frame + error) * Conn :=
  match decodeFrameFrom (nc c) (maxFramePayload c) with
  | (inl fr, r) => (inl fr, with_nc c r)
  | (inr err, r) =>
    match ctxErr ctx with
    | Some e => (inr (CtxError e), with_nc c r)
    | None =>
      if isProtocolErr err
      then (inr err, ConnClose (with_nc c r))
      else (inr err, with_nc c r)
    end
  end.

(** The reassembly loop, [for !isDone { ... }].  [ReadNext] has it twice,
    for [message_payload] and for the other types; the two copies differ
    only in that the second skips the append of an empty payload.  Every
    frame read takes at least the eighteen header bytes off the stream,
    so one iteration more than [length rx] is enough and [None] is never
    reached from [ReadNext]. *)
Fixpoint reassemble (fuel : nat) (c : Conn) (ctx : context) (typ0 streamID0 : Z)
         (isDone : bool) (buf : list byte)
  : option ((list byte + error) * Conn) :=
  if isDone then Some (inl buf, c)
  else match fuel with
       | O => None
       | S fuel' =>
         match readFrame c ctx with
         | (inr err, c1) => Some (inr err, c1)
         | (inl next, c1) =>
           if negb (typ next =? typ0) || negb (streamID next =? streamID0)
           then Some (inr (Joined ErrFragmentation), ConnClose c1)
           else if negb (Z.land (flags next) flagStart =? 0)
           then Some (inr (Joined ErrFragmentation), ConnClose c1)
           else if negb (flags next =? 0) && negb (flags next =? flagEnd)
           then Some (inr (Joined ErrFragmentation), ConnClose c1)
           else reassemble fuel' c1 ctx typ0 streamID0
                           (negb (Z.land (flags next) flagEnd =? 0))
                           (buf ++ payload next)
         end
       end.

(** The body of [ReadNext] between taking the lock and the deferred
    restore. *)
Definition readBody (c : Conn) (ctx : context)
  : option ((Message + error) * Conn) :=
  match readFrame c ctx with
  | (inr err, c1) => Some (inr err, c1)
  | (inl fr, c1) =>
    if Z.land (flags fr) flagStart =? 0
    then Some (inr (Joined ErrFragmentation), ConnClose c1)
    else
      let typ := typ fr in
      let streamID := streamID fr in
      let fuel := S (length (rx (nc c1))) in
      if (typ =? TypePing) || (typ =? TypePong) then
        if negb (streamID =? 0) || negb (length (payload fr) =? 0)%nat
           || negb (flags fr =? startEndFlags)
        then Some (inr (Wrapped "ping/pong must have stream_id=0, empty payload, START|END" None),
                   ConnClose c1)
        else Some (inl (mkMessage typ 0 [] 0 0 []), c1)
      else if isAuthType typ && negb (streamID =? 0)
      then Some (inr (Joined ErrInvalidStreamID), ConnClose c1)
      else if (typ =? TypeMessagePayload) && (streamID =? 0)
      then Some (inr (Joined ErrInvalidStreamID), ConnClose c1)
      else
        let isDone := negb (Z.land (flags fr) flagEnd =? 0) in
        if typ =? TypeMessagePayload then
          if (length (payload fr) <? 4)%nat
          then Some (inr (Joined ErrEnvelope), ConnClose c1)
          else
            let kind := idx (payload fr) 0 in
            let format := idx (payload fr) 1 in
            let reserved := Z.lor (Z.shiftl (idx (payload fr) 2) 8)
                                  (idx (payload fr) 3) in
            if negb (reserved =? 0)
            then Some (inr (Joined ErrEnvelope), ConnClose c1)
            else if negb (format =? PayloadFormatOpaqueBytes)
            then Some (inr (Joined ErrEnvelope), ConnClose c1)
            else if negb (kind =? PayloadKindRequest)
                    && negb (kind =? PayloadKindResponse)
                    && negb (kind =? PayloadKindOneway)
            then Some (inr (Joined ErrEnvelope), ConnClose c1)
            else
              match reassemble fuel c1 ctx typ streamID isDone
                               (skipn 4 (payload fr)) with
              | None => None
              | Some (inr err, c2) => Some (inr err, c2)
              | Some (inl data, c2) =>
                Some (inl (mkMessage TypeMessagePayload streamID []
                                     kind format data), c2)
              end
        else
          match reassemble fuel c1 ctx typ streamID isDone (payload fr) with
          | None => None
          | Some (inr err, c2) => Some (inr err, c2)
          | Some (inl payload, c2) =>
            Some (inl (mkMessage typ streamID payload 0 0 []), c2)
          end
  end.

(** [Conn.ReadNext]. *)
Definition ReadNext (c : Conn) (ctx : option context)
  : option ((Message + error) * Conn) :=
  let ctx := ctxOrBackground ctx in
  let c1 := applyReadContext c ctx in
  match readBody c1 ctx with
  | None => None
  | Some (res, c2) => Some (res, restoreReadDeadline c2)
  end.

End Protocol.

(* ================================================================== *)
(** * crypto/sha256 and encoding/hex *)
(* ================================================================== *)

(** [sha256.Sum256] as FIPS 180-4 defines it, on 32-bit words held in
    [Z]. *)
Module Sha256.

Definition w32 (x : Z) : Z := x mod 2 ^ 32.

Definition rotr (n x : Z) : Z :=
  Z.lor (Z.shiftr x n) (w32 (Z.shiftl x (32 - n))).

Definition Ch (x y z : Z) : Z := Z.lxor (Z.land x y) (Z.ldiff z x).

Definition Maj (x y z : Z) : Z :=
  Z.lxor (Z.lxor (Z.land x y) (Z.land x z)) (Z.land y z).

Definition bigSigma0 (x : Z) : Z :=
  Z.lxor (Z.lxor (rotr 2 x) (rotr 13 x)) (rotr 22 x).

Definition bigSigma1 (x : Z) : Z :=
  Z.lxor (Z.lxor (rotr 6 x) (rotr 11 x)) (rotr 25 x).

Definition smallSigma0 (x : Z) : Z :=
  Z.lxor (Z.lxor (rotr 7 x) (rotr 18 x)) (Z.shiftr x 3).

Definition smallSigma1 (x : Z) : Z :=
  Z.lxor (Z.lxor (rotr 17 x) (rotr 19 x)) (Z.shiftr x 10).

(** The constants of FIPS 180-4, sections 4.2.2 and 5.3.3: the first
    32 bits of the fractional parts of the cube roots of the first 64
    primes, and of the square roots of the first 8. *)
Definition isPrime (n : nat) : bool :=
  (1 <? n)%nat && forallb (fun d => negb (n mod d =? 0)%nat) (seq 2 (n - 2)).

Definition primes : list Z :=
  map Z.of_nat (firstn 64 (filter isPrime (seq 2 310))).

(** The largest [r] below [2 ^ bits] with [r ^ 3 <= n], bit by bit. *)
Fixpoint cubeRoot (n : Z) (bits : nat) (r : Z) : Z :=
  match bits with
  | O => r
  | S b =>
    let c := r + 2 ^ Z.of_nat b in
    cubeRoot n b (if c * c * c <=? n then c else r)
  end.

Definition K : list Z :=
  Eval vm_compute in map (fun p => w32 (cubeRoot (p * 2 ^ 96) 36 0)) primes.

Definition H0 : list Z :=
  Eval vm_compute in map (fun p => w32 (Z.sqrt (p * 2 ^ 64))) (firstn 8 primes).

(** Padding: a one bit, zeros up to 56 mod 64, the bit length on eight
    bytes. *)
Definition pad (msg : list byte) : list byte :=
  let n := length msg in
  let zeros := ((119 - n mod 64) mod 64)%nat in
  msg ++ [x80] ++ repeat x00 zeros ++ PutUint64 (8 * Z.of_nat n).

(** The sixteen big-endian words of a 64-byte block. *)
Fixpoint words (k : nat) (block : list byte) : list Z :=
  match k with
  | O => []
  | S k' => Uint32 (firstn 4 block) :: words k' (skipn 4 block)
  end.

(** The message schedule, extended from 16 to 64 words. *)
Fixpoint extend (k : nat) (w : list Z) : list Z :=
  match k with
  | O => w
  | S k' =>
    let n := length w in
    let at_ i := nth (n - i) w 0 in
    extend k' (w ++ [w32 (smallSigma1 (at_ 2%nat) + at_ 7%nat
                          + smallSigma0 (at_ 15%nat) + at_ 16%nat)])
  end.

Definition round (s : list Z) (kw : Z * Z) : list Z :=
  match s with
  | [a; b; c; d; e; f; g; h] =>
    let t1 := h + bigSigma1 e + Ch e f g + fst kw + snd kw in
    let t2 := bigSigma0 a + Maj a b c in
    [w32 (t1 + t2); a; b; c; w32 (d + t1); e; f; g]
  | _ => s
  end.

Definition compress (h : list Z) (block : list byte) : list Z :=
  let w := extend 48 (words 16 block) in
  let s := fold_left round (combine K w) h in
  map (fun xy => w32 (fst xy + snd xy)) (combine h s).

Fixpoint blocks (k : nat) (h : list Z) (data : list byte) : list Z :=
  match k with
  | O => h
  | S k' => blocks k' (compress h (firstn 64 data)) (skipn 64 data)
  end.

Definition Sum256 (msg : list byte) : list byte :=
  let p := pad msg in
  flat_map PutUint32 (blocks (length p / 64) H0 p).

End Sha256.

(** [hex.EncodeToString] and [hex.DecodeString]. *)
Module Hex.

Definition hextable : list ascii := list_ascii_of_string "0123456789abcdef".

Definition digit (v : Z) : ascii := nth (Z.to_nat v) hextable "0"%char.

Fixpoint EncodeToString (src : list byte) : string :=
  match src with
  | [] => EmptyString
  | b :: rest =>
    String (digit (Z.shiftr (b2z b) 4))
           (String (digit (Z.land (b2z b) 0x0f)) (EncodeToString rest))
  end.

(** The value of a hexadecimal digit, either case, as
    [hex.DecodeString] reads it. *)
Definition fromHexChar (c : ascii) : option Z :=
  let n := Z.of_nat (nat_of_ascii c) in
  if (48 <=? n) && (n <=? 57) then Some (n - 48)
  else if (97 <=? n) && (n <=? 102) then Some (n - 97 + 10)
  else if (65 <=? n) && (n <=? 70) then Some (n - 65 + 10)
  else None.

Fixpoint DecodeString (s : string) : option (list byte) :=
  match s with
  | EmptyString => Some []
  | String hi (String lo rest) =>
    match fromHexChar hi, fromHexChar lo, DecodeString rest with
    | Some a, Some b, Some bs => Some (asByte (Z.lor (Z.shiftl a 4) b) :: bs)
    | _, _, _ => None
    end
  | String _ EmptyString => None
  end.

(** A digit as [EncodeToString] writes it: [0-9] or [a-f]. *)
Definition isLowerHex (c : ascii) : bool :=
  let n := Z.of_nat (nat_of_ascii c) in
  ((48 <=? n) && (n <=? 57)) || ((97 <=? n) && (n <=? 102)).

End Hex.

(* ================================================================== *)
(** * internal/auth *)
(* ================================================================== *)

Module Auth.
Import Protocol.

(** ** Identity (crypto.go) *)

(** [ed25519.PublicKeySize] and [ed25519.SignatureSize]. *)
Definition PublicKeySize : nat := 32.
Definition SignatureSize : nat := 64.

(** Error values of the package: [errors.New(s)], [fmt.Errorf(format,
    args...)] with the arguments kept apart from the format, an error
    passed up from the connection, and one from [encoding/json]. *)
Inductive herror : Type :=
| ErrorNew (s : string)
| Errorf (format : string) (args : list string)
| ConnError (e : error)
| JsonError (s : string).

(** [strconv.FormatInt(v, 10)]. *)
Definition FormatInt (v : Z) : string :=
  DecimalString.NilZero.string_of_int (Z.to_int v).

Definition agentIDFromPublicKey (pub : list byte) : string + herror :=
  if negb (length pub =? PublicKeySize)%nat
  then inr (Errorf "invalid public key length %d"
                   [FormatInt (Z.of_nat (length pub))])
  else inl (Hex.EncodeToString (Sha256.Sum256 pub)).

Definition LF : string := String (ascii_of_nat 10) EmptyString.

Definition stringToSignV1 (agentID challengeID nonce : string)
           (issuedAtMS : Z) : string :=
  ("switchboard-auth-v1" ++ LF ++
   "agent_id=" ++ agentID ++ LF ++
   "challenge_id=" ++ challengeID ++ LF ++
   "nonce=" ++ nonce ++ LF ++
   "issued_at_ms=" ++ FormatInt issuedAtMS ++ LF)%string.

(** ** Messages (messages.go) *)

Definition authVersion : Z := 1.

Record authBegin : Type := mkAuthBegin {
  begin_Type : string;
  begin_V : Z;
  begin_AgentID : string;
  begin_ClientTimeMS : Z
}.

Record authChallenge : Type := mkAuthChallenge {
  challenge_Type : string;
  challenge_V : Z;
  challenge_ChallengeID : string;
  challenge_Nonce : string;
  challenge_IssuedAtMS : Z;
  challenge_ExpiresAtMS : Z
}.

Record authProof : Type := mkAuthProof {
  proof_Type : string;
  proof_V : Z;
  proof_AgentID : string;
  proof_ChallengeID : string;
  proof_Nonce : string;
  proof_IssuedAtMS : Z;
  proof_Signature : string
}.

Record authOK : Type := mkAuthOK {
  ok_Type : string;
  ok_V : Z;
  ok_AgentID : string;
  ok_AuthenticatedAtMS : Z
}.

Record authError : Type := mkAuthError {
  error_Type : string;
  error_V : Z;
  error_Code : string;
  error_Message : string
}.

(** The anonymous [struct { Type string; V int }] that
    [unmarshalAndValidate] decodes a second time. *)
Record header : Type := mkHeader {
  header_Type : string;
  header_V : Z
}.

(** [encoding/json] for one struct type. *)
Class JSON (T : Type) : Type := {
  json_Marshal : T -> list byte + string;
  json_Unmarshal : list byte -> T + string
}.

(** The other packages the handshake calls into. *)
Class Externals : Type := {
  ed25519_Verify : list byte -> list byte -> list byte -> bool;
  b64Encode : list byte -> string;
  b64Decode : string -> option (list byte);
  TrimSpace : string -> string
}.

Definition mustMarshalJSON {T : Type} `{JSON T} (v : T) : list byte + herror :=
  match json_Marshal v with
  | inr e => inr (JsonError e)
  | inl b =>
    if (length b =? 0)%nat then inr (ErrorNew "json payload empty")
    else inl b
  end.

Definition unmarshalAndValidate {T : Type} `{JSON T} `{JSON header}
           (payload : list byte) (wantType : string) : T + herror :=
  if (length payload =? 0)%nat then inr (ErrorNew "empty payload")
  else match json_Unmarshal (T := T) payload with
       | inr e => inr (JsonError e)
       | inl zero =>
         match json_Unmarshal (T := header) payload with
         | inr e => inr (JsonError e)
         | inl h =>
           if negb (header_Type h =? wantType)%string
           then inr (Errorf "unexpected auth message type %q (want %q)"
                            [header_Type h; wantType])
           else if negb (header_V h =? authVersion)
           then inr (Errorf "unsupported auth version %d (want %d)"
                            [FormatInt (header_V h); FormatInt authVersion])
           else inl zero
         end
       end.

(** ** The handshake (handshake.go) *)

(** [time.Duration] values, in nanoseconds. *)
Definition Millisecond : Z := 1000000.
Definition Second : Z := 1000 * Millisecond.

(** The package variables [readTimeout], [writeTimeout] and
    [challengeTTL]. *)
Record Timeouts : Type := mkTimeouts {
  readTimeout : Z;
  writeTimeout : Z;
  challengeTTL : Z
}.

Definition defaultTimeouts : Timeouts :=
  mkTimeouts (30 * Second) (5 * Second) (30 * Second).

(** What the handshake runs against: the connection, the system clock
    (the instants, in Unix nanoseconds, that successive calls of
    [time.Now] observe), what successive calls of [rand.Read] deliver
    ([None] for a failure), and the error of the timeout contexts at
    the moment an I/O operation fails ([None] while they have not
    expired). *)
Record World : Type := mkWorld {
  connection : Conn;
  clock : nat -> Z;
  ticks : nat;
  entropy : list (option (list byte));
  ctxState : option ctxerr
}.

Definition set_connection (w : World) (c : Conn) : World :=
  mkWorld c (clock w) (ticks w) (entropy w) (ctxState w).

(** A computation on the world that returns a value or an error, or
    does not return ([None]; only a connection with a frame limit
    below one can make [Send] do that). *)
Definition M (A : Type) : Type := World -> option ((A + herror) * World).

Definition ret {A : Type} (a : A) : M A := fun w => Some (inl a, w).

Definition fail {A : Type} (e : herror) : M A := fun w => Some (inr e, w).

Definition bind {A B : Type} (m : M A) (k : A -> M B) : M B :=
  fun w =>
    match m w with
    | None => None
    | Some (inr e, w1) => Some (inr e, w1)
    | Some (inl a, w1) => k a w1
    end.

(** [m] with its error, if any, handed to [h]. *)
Definition try {A B : Type} (m : M A) (k : A -> M B) (h : herror -> M B) : M B :=
  fun w =>
    match m w with
    | None => None
    | Some (inr e, w1) => h e w1
    | Some (inl a, w1) => k a w1
    end.

(** [_ = m]: the outcome of [m] is dropped. *)
Definition discard {A : Type} (m : M A) : M unit :=
  fun w =>
    match m w with
    | None => None
    | Some (_, w1) => Some (inl tt, w1)
    end.

Definition lift {A : Type} (r : A + herror) : M A :=
  fun w => Some (r, w).

Declare Scope auth_scope.
Delimit Scope auth_scope with auth.
Notation "x <- m ;; k" := (bind m (fun x => k))
  (at level 61, m at next level, right associativity) : auth_scope.
Notation "m ;;; k" := (bind m (fun _ => k))
  (at level 61, right associativity) : auth_scope.
Local Open Scope auth_scope.

(** [time.Now()], in Unix nanoseconds. *)
Definition timeNow : M Z :=
  fun w => Some (inl (clock w (ticks w)),
                 mkWorld (connection w) (clock w) (S (ticks w)) (entropy w)
                         (ctxState w)).

(** [time.Now().UnixMilli()]. *)
Definition nowMS : M Z :=
  t <- timeNow ;; ret (int64 (t / Millisecond)).

Definition Close : M unit :=
  fun w => Some (inl tt, set_connection w (ConnClose (connection w))).

Section Handshake.

Context {jsonBegin : JSON authBegin} {jsonChallenge : JSON authChallenge}
        {jsonProof : JSON authProof} {jsonOK : JSON authOK}
        {jsonError : JSON authError} {jsonHeader : JSON header}
        {ext : Externals}.
Variable timeouts : Timeouts.

(** [context.WithTimeout(context.Background(), d)]. *)
Definition withTimeout (d : Z) : M context :=
  t <- timeNow ;;
  fun w => Some (inl (mkContext (Some (t + d)) (ctxState w)), w).

Definition randomBytes (n : Z) : M (list byte) :=
  if n <=? 0 then fail (ErrorNew "randomBytes: n must be > 0")
  else fun w =>
         match entropy w with
         | Some b :: rest =>
           Some (inl (firstn (Z.to_nat n) (b ++ repeat x00 (Z.to_nat n))),
                 mkWorld (connection w) (clock w) (ticks w) rest (ctxState w))
         | None :: rest =>
           Some (inr (ErrorNew "rand.Read failed"),
                 mkWorld (connection w) (clock w) (ticks w) rest (ctxState w))
         | [] => Some (inr (ErrorNew "rand.Read failed"), w)
         end.

Definition sendAuth (typ : Z) (payload : list byte) : M unit :=
  ctx <- withTimeout (writeTimeout timeouts) ;;
  fun w =>
    match Send (connection w) (Some ctx) (mkMessage typ 0 payload 0 0 []) with
    | None => None
    | Some (Some e, c) => Some (inr (ConnError e), set_connection w c)
    | Some (None, c) => Some (inl tt, set_connection w c)
    end.

Definition readNextWithTimeout (timeout : Z) : M Message :=
  ctx <- withTimeout timeout ;;
  fun w =>
    match ReadNext (connection w) (Some ctx) with
    | None => None
    | Some (inr e, c) => Some (inr (ConnError e), set_connection w c)
    | Some (inl msg, c) => Some (inl msg, set_connection w c)
    end.

Definition readAuth (wantType : Z) : M Message :=
  msg <- readNextWithTimeout (readTimeout timeouts) ;;
  if negb (MsgType msg =? wantType)
  then Close ;;;
       fail (Errorf "unexpected frame type %d (want %d)"
                    [FormatInt (MsgType msg); FormatInt wantType])
  else ret msg.

Definition failAuth {A : Type} (code message : string) : M A :=
  let ae := mkAuthError "auth_error" authVersion code message in
  let payload := match mustMarshalJSON ae with
                 | inl b => b
                 | inr _ => []
                 end in
  discard (sendAuth TypeAuthError payload) ;;;
  discard Close ;;;
  if negb (message =? EmptyString)%string
  then fail (Errorf "auth failed: %s (%s)" [code; message])
  else fail (Errorf "auth failed: %s" [code]).

(** [WaitForAgentAuthentication], first part: receive [auth_begin] and
    find the agent's public key. *)
Definition awaitBegin (lookupPublicKey : string -> option (list byte))
  : M (string * list byte) :=
  beginMsg <- readAuth TypeAuthBegin ;;
  try (lift (unmarshalAndValidate (T := authBegin) (Payload beginMsg) "auth_begin"))
      (fun begin =>
         let agentID := begin_AgentID begin in
         if (TrimSpace agentID =? EmptyString)%string
         then failAuth "protocol_error" "missing agent_id"
         else match lookupPublicKey agentID with
              | None => failAuth "unknown_agent" EmptyString
              | Some pub =>
                match agentIDFromPublicKey pub with
                | inr _ => failAuth "internal_error" "invalid configured public key"
                | inl expectedAgentID =>
                  if negb (agentID =? expectedAgentID)%string
                  then failAuth "unknown_agent" EmptyString
                  else ret (agentID, pub)
                end
              end)
      (fun err => Close ;;; fail err).

(** Second part: mint the challenge and send it. *)
Definition issueChallenge : M authChallenge :=
  issuedAt <- nowMS ;;
  let expiresAt := int64 (issuedAt + int64 (Z.quot (challengeTTL timeouts) Millisecond)) in
  try (randomBytes 32)
      (fun nonceBytes =>
         try (randomBytes 24)
             (fun challengeIDBytes =>
                let ch := mkAuthChallenge "auth_challenge" authVersion
                                          (b64Encode challengeIDBytes)
                                          (b64Encode nonceBytes)
                                          issuedAt expiresAt in
                chPayload <- lift (mustMarshalJSON ch) ;;
                try (sendAuth TypeAuthChallenge chPayload)
                    (fun _ => ret ch)
                    (fun err => Close ;;; fail err))
             (fun _ => failAuth "internal_error" "challenge_id generation failed"))
      (fun _ => failAuth "internal_error" "nonce generation failed").

(** Third part: receive [auth_proof]. *)
Definition receiveProof : M authProof :=
  try (readAuth TypeAuthProof)
      (fun proofMsg =>
         try (lift (unmarshalAndValidate (T := authProof) (Payload proofMsg) "auth_proof"))
             (fun proof => ret proof)
             (fun _ => failAuth "protocol_error" "invalid auth_proof"))
      (fun err => Close ;;; fail err).

(** Last part: challenge binding, freshness, signature, [auth_ok]. *)
Definition checkProof (agentID : string) (pub : list byte)
           (ch : authChallenge) (proof : authProof) : M unit :=
  if negb (proof_AgentID proof =? agentID)%string
  then failAuth "protocol_error" "agent_id mismatch"
  else if negb (proof_ChallengeID proof =? challenge_ChallengeID ch)%string
          || negb (proof_Nonce proof =? challenge_Nonce ch)%string
          || negb (proof_IssuedAtMS proof =? challenge_IssuedAtMS ch)
  then failAuth "replayed_challenge" EmptyString
  else
    now <- nowMS ;;
    if now >? challenge_ExpiresAtMS ch
    then failAuth "expired_challenge" EmptyString
    else match b64Decode (proof_Signature proof) with
         | None => failAuth "bad_signature" EmptyString
         | Some sigBytes =>
           if negb (length sigBytes =? SignatureSize)%nat
           then failAuth "bad_signature" EmptyString
           else
             let toVerify := stringToSignV1 agentID (proof_ChallengeID proof)
                                            (proof_Nonce proof)
                                            (proof_IssuedAtMS proof) in
             if negb (ed25519_Verify pub (list_byte_of_string toVerify) sigBytes)
             then failAuth "bad_signature" EmptyString
             else
               now2 <- nowMS ;;
               let okMsg := mkAuthOK "auth_ok" authVersion agentID now2 in
               try (lift (mustMarshalJSON okMsg))
                   (fun okPayload =>
                      try (sendAuth TypeAuthOK okPayload)
                          (fun _ => ret tt)
                          (fun err => Close ;;; fail err))
                   (fun err => Close ;;; fail err)
         end.

(** [WaitForAgentAuthentication].  The connection is the one of the
    world; a nil [lookupPublicKey] is [None]. *)
Definition WaitForAgentAuthentication
           (lookupPublicKey : option (string -> option (list byte))) : M unit :=
  match lookupPublicKey with
  | None => fail (ErrorNew "lookupPublicKey is nil")
  | Some lookup =>
    ap <- awaitBegin lookup ;;
    ch <- issueChallenge ;;
    proof <- receiveProof ;;
    checkProof (fst ap) (snd ap) ch proof
  end.

End Handshake.

End Auth.

Import Protocol.

(* ================================================================== *)
(** * Vocabulary of the specification *)
(* ================================================================== *)

(** What the statements below talk about: wire images, the conditions
    of the format on headers and envelopes, the shape of the frames of
    a message, equality of messages. *)
Module Spec.

(** The bytes one frame occupies on the wire. *)
Definition frameBytes (typ flags streamID : Z) (payload : list byte) : list byte :=
  header typ flags streamID payload ++ payload.

(** What the wire format says about the eighteen header bytes, stated
    on the bytes themselves. *)
Definition declaredFlags (hdr : list byte) : Z :=
  256 * idx hdr 4 + idx hdr 5.

Definition declaredLength (hdr : list byte) : Z :=
  256 * (256 * (256 * idx hdr 14 + idx hdr 15) + idx hdr 16) + idx hdr 17.

Definition badMagic (hdr : list byte) : Prop :=
  idx hdr 0 <> 0x53 \/ idx hdr 1 <> 0x42.

Definition badVersion (hdr : list byte) : Prop :=
  idx hdr 2 <> 0x01.

Definition unknownType (hdr : list byte) : Prop :=
  ~ In (idx hdr 3) [0x01; 0x02; 0x03; 0x04; 0x05; 0x10; 0xFE; 0xFF].

(** Some bit other than START (bit 0) and END (bit 1) is set. *)
Definition invalidFlags (hdr : list byte) : Prop :=
  exists i, 2 <= i /\ Z.testbit (declaredFlags hdr) i = true.

Definition tooLarge (hdr : list byte) (maxPayload : Z) : Prop :=
  declaredLength hdr > maxPayload.

(** The outcome of [decodeFrameFrom] when the header fails validation
    with [s]: that error, and exactly the header taken off the stream. *)
Definition rejects (r : netConn) (maxPayload : Z) (rest : list byte)
           (s : sentinel) : Prop :=
  decodeFrameFrom r maxPayload = (inr (Joined s), set_rx r rest).

(** What a read leaves of an endpoint: only [rx] changes. *)
Definition same_endpoint (r r' : netConn) : Prop :=
  closed r' = closed r /\ tx r' = tx r /\ tx_room r' = tx_room r /\
  rx_end r' = rx_end r /\ tx_fail r' = tx_fail r /\
  readDeadline r' = readDeadline r /\ writeDeadline r' = writeDeadline r.

(** The errors [decodeFrameFrom] produces, as opposed to those
    [ReadNext] raises itself on a frame that decoded. *)
Definition isDecodeFailure (err : error) : bool :=
  match err with
  | IOError _ => true
  | Joined (ErrBadMagic | ErrBadVersion | ErrUnknownType
           | ErrInvalidFlags | ErrFrameTooLarge) => true
  | _ => false
  end.

(** The same context while it is not yet done. *)
Definition notDone (ctx : context) : context :=
  mkContext (ctxDeadline ctx) None.

(** [c0] is [c'] after the best-effort close that follows a
    protocol-class error. *)
Definition closedAfter (err : error) (c' c0 : Conn) : Prop :=
  c0 = if isProtocolErr err then ConnClose c' else c'.

(** The four envelope bytes of a [message_payload] opener. *)
Definition envKind (p : list byte) : Z := idx p 0.
Definition envFormat (p : list byte) : Z := idx p 1.

Definition badEnvelope (p : list byte) : Prop :=
  (length p < 4)%nat \/
  (idx p 2 <> 0 \/ idx p 3 <> 0) \/
  envFormat p <> 0 \/
  ~ In (envKind p) [0x01; 0x02; 0x03].

(** A first frame after which [ReadNext] goes on to read continuation
    frames: START without END, and the checks of its type passed. *)
Definition opens (fr : frame) : Prop :=
  Z.land (flags fr) flagStart <> 0 /\
  Z.land (flags fr) flagEnd = 0 /\
  ((isAuthType (typ fr) = true /\ streamID fr = 0) \/
   (typ fr = TypeMessagePayload /\ streamID fr <> 0 /\
    ~ badEnvelope (payload fr))).

(** The bytes the opener contributes to the reassembled message. *)
Definition openerData (fr : frame) : list byte :=
  if typ fr =? TypeMessagePayload then skipn 4 (payload fr) else payload fr.

(** Middle frames: each one is read, belongs to the message and
    carries neither START nor END. *)
Inductive middles (ctx : context) (t s : Z)
  : Conn -> list byte -> Conn -> list byte -> Prop :=
| middles_nil c buf : middles ctx t s c buf c buf
| middles_cons c buf next c1 c2 buf2 :
    readFrame c ctx = (inl next, c1) ->
    typ next = t -> streamID next = s -> flags next = 0 ->
    middles ctx t s c1 (buf ++ payload next) c2 buf2 ->
    middles ctx t s c buf c2 buf2.

(** A continuation frame that breaks the fragmentation rules. *)
Definition violatesContinuation (t s : Z) (next : frame) : Prop :=
  typ next <> t \/ streamID next <> s \/
  Z.land (flags next) flagStart <> 0 \/
  (flags next <> 0 /\ flags next <> flagEnd).

(** The wire image of a sequence of frames of one logical message,
    each given by its flags and its payload chunk. *)
Definition wire (typ streamID : Z) (frames : list (Z * list byte)) : list byte :=
  concat (map (fun fp => frameBytes typ (fst fp) streamID (snd fp)) frames).

(** Flags along a run of chunks: START on the first one if [first],
    END on the last one. *)
Fixpoint flagged (first : bool) (chunks : list (list byte)) : list (Z * list byte) :=
  match chunks with
  | [] => []
  | c :: rest =>
    let f := if first then flagStart else 0 in
    match rest with
    | [] => [(Z.lor f flagEnd, c)]
    | _ :: _ => (f, c) :: flagged false rest
    end
  end.

(** The bytes a message puts into its frames: the payload, with the
    four-byte envelope in front for [message_payload]. *)
Definition logicalPayload (m : Message) : list byte :=
  if MsgType m =? TypeMessagePayload
  then [asByte (Kind m); asByte PayloadFormatOpaqueBytes; x00; x00] ++ Data m
  else Payload m.

(** The flag discipline on the frames of one message. *)
Definition disciplined (maxp : Z) (whole : list byte)
           (frames : list (Z * list byte)) : Prop :=
  concat (map snd frames) = whole /\
  Forall (fun fp => Z.of_nat (length (snd fp)) <= maxp) frames /\
  (Z.of_nat (length whole) <= maxp -> frames = [(startEndFlags, whole)]) /\
  (Z.of_nat (length whole) > maxp ->
   exists c0 mids cl,
     frames = (flagStart, c0) :: map (fun c => (0, c)) mids ++ [(flagEnd, cl)]).

(** The first frame of a [message_payload] starts with the envelope. *)
Definition envelopeFirst (m : Message) (frames : list (Z * list byte)) : Prop :=
  MsgType m = TypeMessagePayload ->
  exists f d0 more,
    frames = (f, [asByte (Kind m); asByte PayloadFormatOpaqueBytes; x00; x00] ++ d0)
               :: more.

(** What a successful [Send] has checked about the message. *)
Definition accepted (m : Message) : Prop :=
  isKnownType (MsgType m) = true /\
  (MsgType m = TypeMessagePayload ->
   StreamID m <> 0 /\ Format m = 0 /\ In (Kind m) [0x01; 0x02; 0x03]) /\
  (MsgType m <> TypeMessagePayload -> StreamID m = 0) /\
  (MsgType m = TypePing \/ MsgType m = TypePong -> Payload m = []).

(** The message [ReadNext] hands out for a message [m] that was sent:
    the fields of [m] that its type uses, the others zero. *)
Definition delivered (m : Message) : Message :=
  if MsgType m =? TypeMessagePayload
  then mkMessage TypeMessagePayload (StreamID m) [] (Kind m) 0 (Data m)
  else mkMessage (MsgType m) (StreamID m) (Payload m) 0 0 [].

(** Equality of messages as far as their type uses the fields. *)
Definition sameMessage (m m' : Message) : Prop :=
  MsgType m' = MsgType m /\
  StreamID m' = StreamID m /\
  if MsgType m =? TypeMessagePayload
  then Data m' = Data m /\ Kind m' = Kind m /\ Format m' = Format m
  else Payload m' = Payload m.

(** A receiving connection that is open and accepts frames up to
    [maxp] bytes, with [maxp] below the range of the length field. *)
Definition receiving (c : Conn) (maxp : Z) : Prop :=
  closed (nc c) = false /\ maxFramePayload c = maxp /\ 0 < maxp < 2 ^ 32.

(** An endpoint that takes everything written to it. *)
Definition writable (w : netConn) : Prop :=
  closed w = false /\ tx_room w = None.

(** The fields of a message that [Send] accepts, as the protocol
    states them. *)
Definition validFields (m : Message) : Prop :=
  ((MsgType m = TypePing \/ MsgType m = TypePong) /\
   StreamID m = 0 /\ Payload m = [] /\ Data m = []) \/
  (isAuthType (MsgType m) = true /\ StreamID m = 0) \/
  (MsgType m = TypeMessagePayload /\ 0 < StreamID m < 2 ^ 64 /\
   In (Kind m) [0x01; 0x02; 0x03] /\ Format m = PayloadFormatOpaqueBytes).

(** The base-256 digits of [v], least significant first. *)
Fixpoint digits (n : nat) (v : Z) : Z :=
  match n with
  | O => 0
  | S n' => v mod 256 + 256 * digits n' (v / 256)
  end.

End Spec.
Import Spec.

(** What the statements on the handshake talk about. *)
Module HandshakeSpec.
Import Auth.

(** The error [failAuth] returns for a code and a message. *)
Definition authFailure (code message : string) : herror :=
  if (message =? EmptyString)%string
  then Errorf "auth failed: %s" [code]
  else Errorf "auth failed: %s (%s)" [code; message].

(** The payload of the [auth_error] frame for a code and a message. *)
Definition authErrorPayload {jsonError : JSON authError}
           (code message : string) : list byte :=
  match mustMarshalJSON (mkAuthError "auth_error" authVersion code message) with
  | inl b => b
  | inr _ => []
  end.

(** The handshake fails with [code]: an [auth_error] frame with that
    code is sent, whatever becomes of the send, then the connection is
    closed, and the caller gets the error that names the code. *)
Definition failsWith {A : Type} {jsonError : JSON authError}
           (timeouts : Timeouts) (code message : string) (w : World)
           (res : option ((A + herror) * World)) : Prop :=
  exists r w1,
    sendAuth timeouts TypeAuthError (authErrorPayload code message) w = Some (r, w1) /\
    res = Some (inr (authFailure code message),
                set_connection w1 (ConnClose (connection w1))) /\
    closed (nc (ConnClose (connection w1))) = true.

(** The bound fields of a proof are those of the challenge. *)
Definition boundFieldsMatch (agentID : string) (ch : authChallenge)
           (proof : authProof) : Prop :=
  proof_AgentID proof = agentID /\
  proof_ChallengeID proof = challenge_ChallengeID ch /\
  proof_Nonce proof = challenge_Nonce ch /\
  proof_IssuedAtMS proof = challenge_IssuedAtMS ch.

(** [challenge_ttl_ms]: the TTL in whole milliseconds. *)
Definition challengeTTLms (timeouts : Timeouts) : Z :=
  int64 (Z.quot (challengeTTL timeouts) Millisecond).

(** The reading of [nowMS] in a world. *)
Definition nowMSat (w : World) : Z := int64 (clock w (ticks w) / Millisecond).

(** The world after one reading of the clock. *)
Definition tick (w : World) : World :=
  mkWorld (connection w) (clock w) (S (ticks w)) (entropy w) (ctxState w).

End HandshakeSpec.
Import HandshakeSpec.

(** Concrete connections, messages and stand-ins for the external
    packages, used to run the model. *)
Module Samples.
Import Auth.

(** An open endpoint with [input] waiting to be read, the peer gone
    after it, and no limit on writes. *)
Definition endpoint (input : list byte) : netConn :=
  mkNet input EOF [] None ErrReset false None None.

(** An endpoint whose next write fails with a timeout. *)
Definition stalled (input : list byte) : netConn :=
  mkNet input ErrTimeout [] (Some O) ErrTimeout false None None.

Definition connOn (w : netConn) : Conn := New w [].

Definition smallConn (input : list byte) : Conn :=
  New (endpoint input) [WithMaxFramePayloadBytes 16].

(** A connection configured with a limit of 2^32 bytes. *)
Definition hugeConn (input : list byte) : Conn :=
  New (endpoint input) [WithMaxFramePayloadBytes (2 ^ 32)].

Definition cancelled : context := mkContext None (Some Canceled).

Definition ping : Message := mkMessage TypePing 0 [] 0 0 [].

Definition hello : list byte := list_byte_of_string "hello world".

Definition authBeginMsg : Message := mkMessage TypeAuthBegin 0 hello 0 0 [].


Definition request : Message :=
  mkMessage TypeMessagePayload 123 [] PayloadKindRequest
            PayloadFormatOpaqueBytes (hello ++ hello ++ hello).

(** The messages of conn_test.go (the JSON text with single quotes). *)
Definition authBeginJSON : Message :=
  mkMessage TypeAuthBegin 0
            (list_byte_of_string "{'type':'auth_begin','v':1,'agent_id':'abc'}")
            0 0 [].

Definition helloRequest : Message :=
  mkMessage TypeMessagePayload 123 [] PayloadKindRequest
            PayloadFormatOpaqueBytes hello.

Definition hundredBytes : Message :=
  mkMessage TypeMessagePayload 999 [] PayloadKindResponse 0
            (map (fun i => asByte (Z.of_nat i)) (seq 0 100)).

(** What a message leaves on the wire of a fresh connection like [c]. *)
Definition sentBy (c : Conn) (m : Message) : list byte :=
  match Send c None m with
  | Some (_, c') => tx (nc c')
  | None => []
  end.

(** What [ReadNext] on [c] returns for what [Send] on a connection
    like [c] wrote for [m]. *)
Definition echo (c : list byte -> Conn) (m : Message) : option (Message + error) :=
  option_map fst (ReadNext (c (sentBy (c []) m)) None).

(** A frame of the unknown type 0x99. *)
Definition unknownTypeFrame : list byte :=
  frameBytes 0x99 startEndFlags 0 [].

(** Eighteen zero bytes: a header that is wrong in magic, version and
    type at once. *)
Definition zeroHeader : list byte := repeat x00 18.

(** A well-formed header with an unknown flag bit and a declared
    length above 16. *)
Definition badFlagsHeader : list byte :=
  [x53; x42; x01; x01; x00; x04; x00; x00; x00; x00; x00; x00; x00; x00;
   x00; x00; x01; x00].

(** A [message_payload] frame on stream 0 without payload. *)
Definition streamZeroFrame : list byte :=
  frameBytes TypeMessagePayload startEndFlags 0 [].

(** A [message_payload] frame on stream 7 whose payload is too short
    for the envelope. *)
Definition shortEnvelopeFrame : list byte :=
  frameBytes TypeMessagePayload startEndFlags 7 [x01; x00].

(** An [auth_begin] frame that carries END but not START. *)
Definition noStartFrame : list byte :=
  frameBytes TypeAuthBegin flagEnd 0 hello.

(** An [auth_begin] opener followed by a frame of another type. *)
Definition mixedFrames : list byte :=
  frameBytes TypeAuthBegin flagStart 0 hello
  ++ frameBytes TypeAuthProof flagEnd 0 hello.

(** Stand-ins for [encoding/json]: every value is written as [{}], and
    every payload is read as the given value. *)
Definition fixedJSON {T : Type} (v : T) : JSON T :=
  Build_JSON T (fun _ => inl [x7b; x7d]) (fun _ => inl v).

(** Stand-ins for [crypto/ed25519], [encoding/base64] and [strings]:
    every signature verifies and decodes to 64 zero bytes. *)
Definition laxExternals : Externals :=
  Build_Externals (fun _ _ _ => true) Hex.EncodeToString
                  (fun _ => Some (repeat x00 64)) (fun s => s).

(** Clock readings one millisecond apart. *)
Definition readings : list Z :=
  [1700000000000000000; 1700000000001000000; 1700000000002000000;
   1700000000003000000; 1700000000004000000; 1700000000005000000].

Definition world (c : Conn) : World :=
  mkWorld c (fun n => nth n readings 1700000000006000000)
          0 [Some (repeat x01 32); Some (repeat x02 24)] None.

Definition sampleChallenge : authChallenge :=
  mkAuthChallenge "auth_challenge" authVersion "cid" "nonce"
                  1700000000000 1700000030000.

Definition goodProof : authProof :=
  mkAuthProof "auth_proof" authVersion "alice" "cid" "nonce" 1700000000000 "sig".

(** The proof of another agent for the same challenge. *)
Definition foreignProof : authProof :=
  mkAuthProof "auth_proof" authVersion "mallory" "cid" "nonce" 1700000000000 "sig".

(** A proof for another challenge. *)
Definition staleProof : authProof :=
  mkAuthProof "auth_proof" authVersion "alice" "old" "nonce" 1700000000000 "sig".

(** A challenge that expired before the clock of [world] started. *)
Definition expiredChallenge : authChallenge :=
  mkAuthChallenge "auth_challenge" authVersion "cid" "nonce"
                  1700000000000 1699999999999.

Definition errorJSON : JSON authError :=
  fixedJSON (mkAuthError "auth_error" authVersion EmptyString EmptyString).

Definition okJSON : JSON authOK :=
  fixedJSON (mkAuthOK "auth_ok" authVersion EmptyString 0).

Definition challengeJSON : JSON authChallenge := fixedJSON sampleChallenge.

(** A 32-byte public key and the agent it identifies. *)
Definition zeroKey : list byte := repeat x00 32.

Definition zeroAgent : string :=
  "66687aadf862bd776c8fc18b8e9f8e20089714856ee233b3902a591d0d5f2925".

Definition registry (agentID : string) : option (list byte) :=
  if (agentID =? zeroAgent)%string then Some zeroKey else None.

(** A client that sends [auth_begin] and [auth_proof] in one go.  The
    stand-in codecs tell the two payloads apart by their first byte
    and read them as the begin and the proof this client means. *)
Definition clientInput : list byte :=
  frameBytes TypeAuthBegin startEndFlags 0 [x62]
  ++ frameBytes TypeAuthProof startEndFlags 0 [x70].

Definition headerJSON : JSON header :=
  Build_JSON header (fun _ => inl [x7b; x7d])
             (fun payload =>
                match payload with
                | x62 :: _ => inl (mkHeader "auth_begin" authVersion)
                | _ => inl (mkHeader "auth_proof" authVersion)
                end).

Definition beginJSON : JSON authBegin :=
  fixedJSON (mkAuthBegin "auth_begin" authVersion zeroAgent 0).

Definition proofJSON : JSON authProof :=
  fixedJSON (mkAuthProof "auth_proof" authVersion zeroAgent
                         (Hex.EncodeToString (repeat x02 24))
                         (Hex.EncodeToString (repeat x01 32))
                         1700000000001 "sig").

(** The outcome of the server side of the handshake against
    [clientInput], with the given timeouts. *)
Definition serverRun (t : Timeouts) : option (unit + herror) :=
  option_map fst
    (WaitForAgentAuthentication
       (jsonBegin := beginJSON) (jsonChallenge := challengeJSON)
       (jsonProof := proofJSON) (jsonOK := okJSON) (jsonError := errorJSON)
       (jsonHeader := headerJSON) (ext := laxExternals)
       t (Some registry) (world (connOn (endpoint clientInput)))).

End Samples.
Import Samples.

(* ================================================================== *)
(** * The agent side of the handshake (handshake.go) *)
(* ================================================================== *)

Module Client.
Import Auth.
Local Open Scope auth_scope.

(** [ed25519.Sign(priv, message)]. *)
Class Signer : Type := {
  ed25519_Sign : list byte -> list byte -> list byte
}.

Section Handshake.

Context {jsonBegin : JSON authBegin} {jsonChallenge : JSON authChallenge}
        {jsonProof : JSON authProof} {jsonOK : JSON authOK}
        {jsonError : JSON authError} {jsonHeader : JSON header}
        {ext : Externals} {signer : Signer}.
Variable timeouts : Timeouts.

(** [AuthenticateAsClient], first part: announce the agent. *)
Definition clientBegin (agentID : string) : M unit :=
  now <- nowMS ;;
  let begin := mkAuthBegin "auth_begin" authVersion agentID now in
  beginPayload <- lift (mustMarshalJSON begin) ;;
  sendAuth timeouts TypeAuthBegin beginPayload.

(** Second part: read the challenge, sign it, send the proof. *)
Definition clientProve (priv : list byte) (agentID : string) : M unit :=
  chMsg <- readAuth timeouts TypeAuthChallenge ;;
  challenge <- lift (unmarshalAndValidate (T := authChallenge)
                                          (Payload chMsg) "auth_challenge") ;;
  if (TrimSpace (challenge_ChallengeID challenge) =? EmptyString)%string
     || (TrimSpace (challenge_Nonce challenge) =? EmptyString)%string
  then fail (ErrorNew "invalid auth_challenge (missing challenge_id/nonce)")
  else
    let toSign := stringToSignV1 agentID (challenge_ChallengeID challenge)
                                 (challenge_Nonce challenge)
                                 (challenge_IssuedAtMS challenge) in
    let sig := ed25519_Sign priv (list_byte_of_string toSign) in
    let proof := mkAuthProof "auth_proof" authVersion agentID
                             (challenge_ChallengeID challenge)
                             (challenge_Nonce challenge)
                             (challenge_IssuedAtMS challenge)
                             (b64Encode sig) in
    proofPayload <- lift (mustMarshalJSON proof) ;;
    sendAuth timeouts TypeAuthProof proofPayload.

(** Last part: the verdict of the proxy. *)
Definition clientResult (agentID : string) : M unit :=
  msg <- readNextWithTimeout (readTimeout timeouts) ;;
  if MsgType msg =? TypeAuthOK then
    ok <- lift (unmarshalAndValidate (T := authOK) (Payload msg) "auth_ok") ;;
    if negb (ok_AgentID ok =? agentID)%string
    then fail (Errorf "auth_ok agent_id mismatch: got %q want %q"
                      [ok_AgentID ok; agentID])
    else ret tt
  else if MsgType msg =? TypeAuthError then
    ae <- lift (unmarshalAndValidate (T := authError) (Payload msg) "auth_error") ;;
    if negb (error_Message ae =? EmptyString)%string
    then fail (Errorf "authentication failed: %s (%s)"
                      [error_Code ae; error_Message ae])
    else fail (Errorf "authentication failed: %s" [error_Code ae])
  else
    Close ;;;
    fail (Errorf "unexpected frame type %d while waiting for auth result"
                 [FormatInt (MsgType msg)]).

(** [AuthenticateAsClient].  The connection is the one of the world;
    [loadOrCreateAgentKey] is the computation that yields the private
    key, the public key and the agent id. *)
Definition AuthenticateAsClient
           (loadOrCreateAgentKey : M (list byte * list byte * string)) : M unit :=
  key <- loadOrCreateAgentKey ;;
  let priv := fst (fst key) in
  let agentID := snd key in
  clientBegin agentID ;;;
  clientProve priv agentID ;;;
  clientResult agentID.

End Handshake.

End Client.
Import Client.

(* ================================================================== *)
(** * What a run of the proxy side went through *)
(* ================================================================== *)

Module HandshakeRun.
Import Auth.

Section Run.

Context {jsonBegin : JSON authBegin} {jsonChallenge : JSON authChallenge}
        {jsonProof : JSON authProof} {jsonHeader : JSON header}
        {ext : Externals}.
Variable timeouts : Timeouts.

(** The run of [WaitForAgentAuthentication] from [w] to [w'] has
    authenticated an agent.  [auth_begin] was read first, and its
    agent id is registered with a 32-byte key whose SHA-256 in hex is
    that id.  Then 32 and 24 bytes were drawn from the random source,
    and the challenge made of them, of the time after [auth_begin]
    and of the TTL was sent.  Then [auth_proof] was read: it names
    the agent of [auth_begin] and carries the id, nonce and issue time
    of that challenge, it was checked before the challenge expired,
    and its signature decodes to 64 bytes which [ed25519.Verify]
    accepts for the registered key and the string to sign of the
    challenge.  The connection is open at the end. *)
Definition authenticated (lookup : string -> option (list byte))
           (w w' : World) : Prop :=
  exists beginMsg begin pub w1 nonceBytes wn challengeIDBytes wr
         chPayload w2 proofMsg proof w3 sigBytes,
    let agentID := begin_AgentID begin in
    let ch := mkAuthChallenge "auth_challenge" authVersion
                              (b64Encode challengeIDBytes) (b64Encode nonceBytes)
                              (nowMSat w1)
                              (int64 (nowMSat w1 + challengeTTLms timeouts)) in
    readAuth timeouts TypeAuthBegin w = Some (inl beginMsg, w1) /\
    unmarshalAndValidate (T := authBegin) (Payload beginMsg) "auth_begin"
    = inl begin /\
    lookup agentID = Some pub /\
    length pub = 32%nat /\
    agentID = Hex.EncodeToString (Sha256.Sum256 pub) /\
    randomBytes 32 (tick w1) = Some (inl nonceBytes, wn) /\
    randomBytes 24 wn = Some (inl challengeIDBytes, wr) /\
    length nonceBytes = 32%nat /\ length challengeIDBytes = 24%nat /\
    mustMarshalJSON ch = inl chPayload /\
    sendAuth timeouts TypeAuthChallenge chPayload wr = Some (inl tt, w2) /\
    readAuth timeouts TypeAuthProof w2 = Some (inl proofMsg, w3) /\
    unmarshalAndValidate (T := authProof) (Payload proofMsg) "auth_proof"
    = inl proof /\
    boundFieldsMatch agentID ch proof /\
    nowMSat w3 <= challenge_ExpiresAtMS ch /\
    b64Decode (proof_Signature proof) = Some sigBytes /\
    length sigBytes = 64%nat /\
    ed25519_Verify pub
                   (list_byte_of_string
                      (stringToSignV1 agentID (challenge_ChallengeID ch)
                                      (challenge_Nonce ch) (challenge_IssuedAtMS ch)))
                   sigBytes = true /\
    closed (nc (connection w')) = false.

End Run.

End HandshakeRun.
Import HandshakeRun.

(* ================================================================== *)
(** * What [Send] may change *)
(* ================================================================== *)

Module SendSpec.

(** The connection after a [Send] that wrote nothing: as before, with
    the write deadline cleared. *)
Definition untouched (c : Conn) : Conn := restoreWriteDeadline c.

(** [res] is a refusal with [e]: the error comes back and the
    connection has neither written nor read nor been closed.  Under a
    context that is not done the whole connection is as before, with
    the write deadline cleared. *)
Definition refusal (c : Conn) (ctx : option context)
           (res : option (option error * Conn)) (e : error) : Prop :=
  exists c',
    res = Some (Some e, c') /\
    maxFramePayload c' = maxFramePayload c /\
    tx (nc c') = tx (nc c) /\ tx_room (nc c') = tx_room (nc c) /\
    rx (nc c') = rx (nc c) /\ closed (nc c') = closed (nc c) /\
    (ctxErr (ctxOrBackground ctx) = None -> c' = untouched c).

(** What a write leaves of an endpoint: [tx] grows, the room for
    further writes may shrink, everything else stays. *)
Definition writesOnly (w w' : netConn) : Prop :=
  rx w' = rx w /\ rx_end w' = rx_end w /\ tx_fail w' = tx_fail w /\
  closed w' = closed w /\ readDeadline w' = readDeadline w /\
  writeDeadline w' = writeDeadline w /\
  (tx_room w = None -> tx_room w' = None) /\
  exists more, tx w' = tx w ++ more.

End SendSpec.
Import SendSpec.

(* ================================================================== *)
(** * What [ReadNext] may change *)
(* ================================================================== *)

Module ReadSpec.

(** What a read leaves of a connection: bytes are taken off the front
    of [rx]; the closed flag and the read deadline apart, everything
    else stays. *)
Definition readsOnly (c c' : Conn) : Prop :=
  maxFramePayload c' = maxFramePayload c /\
  tx (nc c') = tx (nc c) /\ tx_room (nc c') = tx_room (nc c) /\
  rx_end (nc c') = rx_end (nc c) /\ tx_fail (nc c') = tx_fail (nc c) /\
  writeDeadline (nc c') = writeDeadline (nc c) /\
  exists consumed, rx (nc c) = consumed ++ rx (nc c').

(** Whether an outcome is a protocol-class error. *)
Definition protocolFailure {A : Type} (res : A + error) : bool :=
  match res with
  | inl _ => false
  | inr err => isProtocolErr err
  end.

(** One step of reading: [c'] comes from [c] by reading, and was closed
    on the way exactly if [p]. *)
Definition step (c c' : Conn) (p : bool) : Prop :=
  readsOnly c c' /\ readDeadline (nc c') = readDeadline (nc c) /\
  closed (nc c') = closed (nc c) || p.

End ReadSpec.
Import ReadSpec.

(* ================================================================== *)
(** * Sending and reading in sequence *)
(* ================================================================== *)

Module StreamSpec.

(** [Send] for each message of a list in turn, up to the first one
    that fails. *)
Fixpoint sendAll (c : Conn) (ms : list Message) : option (option error * Conn) :=
  match ms with
  | [] => Some (None, c)
  | m :: rest =>
    match Send c None m with
    | Some (None, c') => sendAll c' rest
    | other => other
    end
  end.

(** [ReadNext] up to [n] times: the messages read, and the error that
    stopped the reading, if any. *)
Fixpoint readMany (n : nat) (c : Conn)
  : option (list Message * option error * Conn) :=
  match n with
  | O => Some ([], None, c)
  | S n' =>
    match ReadNext c None with
    | None => None
    | Some (inr e, c') => Some ([], Some e, c')
    | Some (inl m, c') =>
      match readMany n' c' with
      | None => None
      | Some (ms, e, c'') => Some (m :: ms, e, c'')
      end
    end
  end.

End StreamSpec.
Import StreamSpec.

(* ================================================================== *)
(** * Fields of the string to sign *)
(* ================================================================== *)

Module SigningSpec.
Import Auth.

(** No line feed in a string. *)
Fixpoint noLF (s : string) : bool :=
  match s with
  | EmptyString => true
  | String c rest => negb (Ascii.eqb c (ascii_of_nat 10)) && noLF rest
  end.

End SigningSpec.
Import SigningSpec.

(* ================================================================== *)
(** * Two ends of one connection *)
(* ================================================================== *)

Module Interop.
Import Auth.

(** The bytes the connection of a world has written so far, and those
    written between two of its states. *)
Definition written (w : World) : list byte := tx (nc (connection w)).

Definition since (before after : World) : list byte :=
  skipn (length (written before)) (written after).

(** Bytes of the peer arrive on the connection of a world. *)
Definition arrive (w : World) (bytes : list byte) : World :=
  set_connection
    w (with_nc (connection w)
               (set_rx (nc (connection w)) (rx (nc (connection w)) ++ bytes))).

(** A world whose connection is open, takes every write, has the frame
    limit [m] and has nothing waiting to be read. *)
Definition idle (w : World) (m : Z) : Prop :=
  writable (nc (connection w)) /\ maxFramePayload (connection w) = m /\
  rx (nc (connection w)) = [].

(** The world [n] readings of the clock later. *)
Definition later (n : nat) (w : World) : World := Nat.iter n tick w.

(** [encoding/json] writes [v] as a payload that reads back as [v],
    and whose [type] and [v] fields read [ty] and the auth version. *)
Definition encodes {T : Type} {jsonT : JSON T} {jsonHeader : JSON Auth.header}
           (v : T) (ty : string) : Prop :=
  exists b, json_Marshal v = inl b /\ b <> [] /\
            json_Unmarshal (T := T) b = inl v /\
            json_Unmarshal (T := Auth.header) b = inl (mkHeader ty authVersion).

Section Laws.

Context {jsonBegin : JSON authBegin} {jsonChallenge : JSON authChallenge}
        {jsonProof : JSON authProof} {jsonOK : JSON authOK}
        {jsonError : JSON authError} {jsonHeader : JSON Auth.header}
        {ext : Externals} {signer : Signer}.

(** What the handshake needs of [encoding/json], [encoding/base64] and
    [strings.TrimSpace] for the messages of an agent: they survive the
    encoding, base64 text decodes to what was encoded, and neither
    base64 text of something nor the agent id is blank. *)
Record codecsAgree (agentID : string) : Prop := {
  begin_encodes : forall t,
      encodes (mkAuthBegin "auth_begin" authVersion agentID t) "auth_begin";
  challenge_encodes : forall cb nb i e,
      encodes (mkAuthChallenge "auth_challenge" authVersion
                               (b64Encode cb) (b64Encode nb) i e) "auth_challenge";
  proof_encodes : forall cb nb i sig,
      encodes (mkAuthProof "auth_proof" authVersion agentID
                           (b64Encode cb) (b64Encode nb) i (b64Encode sig))
              "auth_proof";
  ok_encodes : forall t,
      encodes (mkAuthOK "auth_ok" authVersion agentID t) "auth_ok";
  b64_decodes : forall x, b64Decode (b64Encode x) = Some x;
  b64_not_blank : forall x, x <> [] -> TrimSpace (b64Encode x) <> EmptyString;
  agent_not_blank : TrimSpace agentID <> EmptyString
}.

(** [priv] and [pub] are the halves of one key pair: a signature made
    with [priv] has 64 bytes and verifies under [pub]. *)
Definition keyPair (priv pub : list byte) : Prop :=
  forall message,
    length (ed25519_Sign priv message) = 64%nat /\
    ed25519_Verify pub message (ed25519_Sign priv message) = true.

End Laws.

End Interop.
Import Interop.

(* ================================================================== *)
(** * The bytes of an auth message *)
(* ================================================================== *)

Module Wire.
Import Auth.

(** A payload cut into chunks of [m] bytes, the last one shorter or
    full; an empty payload is one empty chunk. *)
Fixpoint cut (fuel m : nat) (l : list byte) : list (list byte) :=
  match fuel with
  | O => []
  | S fuel' =>
    if (length l <=? m)%nat then [l]
    else firstn m l :: cut fuel' m (skipn m l)
  end.

(** The bytes of an auth message of type [t] with payload [p] on the
    wire of a connection with limit [m]. *)
Definition authWire (m t : Z) (p : list byte) : list byte :=
  wire t 0 (flagged true (cut (S (length p)) (Z.to_nat m) p)).

End Wire.
Import Wire.

(* ================================================================== *)
(** * The clock and the input of a world *)
(* ================================================================== *)

Module Progress.
Import Auth.

(** The clock of [w'] is that of [w], [n] readings later; the random
    source and the state of the timeout contexts are the same. *)
Definition advance (n : nat) (w w' : World) : Prop :=
  clock w' = clock w /\ ticks w' = (n + ticks w)%nat /\
  entropy w' = entropy w /\ ctxState w' = ctxState w.

(** A world whose connection takes writes, has limit [m] and holds
    [input] to be read. *)
Definition ready (w : World) (m : Z) (input : list byte) : Prop :=
  writable (nc (connection w)) /\ maxFramePayload (connection w) = m /\
  rx (nc (connection w)) = input.

(** The clock alone. *)
Definition elapsed (n : nat) (w w' : World) : Prop :=
  clock w' = clock w /\ ticks w' = (n + ticks w)%nat.

End Progress.
Import Progress.

(* ================================================================== *)
(** * An encoding that reads back what it writes *)
(* ================================================================== *)

(** A stand-in for [encoding/json] that reads back what it writes: a
    string goes out character by character, each behind a 01 byte,
    and ends with a 00 byte; a number goes out as the string of its
    decimal digits; a struct as its fields in order. *)
Module Toy.
Import Auth.

Definition parser (A : Type) : Type := list byte -> option (A * list byte).

Definition andThen {A B : Type} (p : parser A) (k : A -> parser B) : parser B :=
  fun l => match p l with
           | Some (a, r) => k a r
           | None => None
           end.

Definition done {A : Type} (a : A) : parser A := fun l => Some (a, l).

Fixpoint putString (s : string) : list byte :=
  match s with
  | EmptyString => [x00]
  | String c s' => x01 :: byte_of_ascii c :: putString s'
  end.

Fixpoint getString (l : list byte) : option (string * list byte) :=
  match l with
  | [] => None
  | t :: r =>
    if Byte.eqb t x00 then Some (EmptyString, r)
    else match r with
         | [] => None
         | b :: r' =>
           match getString r' with
           | Some (s, r'') => Some (String (ascii_of_byte b) s, r'')
           | None => None
           end
         end
  end.

Definition putInt (v : Z) : list byte := putString (FormatInt v).

Definition getInt : parser Z :=
  andThen getString
          (fun s => match DecimalString.NilZero.int_of_string s with
                    | Some d => done (Z.of_int d)
                    | None => fun _ => None
                    end).

(** The whole payload as one value. *)
Definition whole {A : Type} (p : parser A) (l : list byte) : A + string :=
  match p l with
  | Some (a, []) => inl a
  | _ => inr "malformed payload"%string
  end.

(** The leading fields of a payload. *)
Definition leading {A : Type} (p : parser A) (l : list byte) : A + string :=
  match p l with
  | Some (a, _) => inl a
  | None => inr "malformed payload"%string
  end.

Definition beginCodec : JSON authBegin :=
  Build_JSON
    authBegin
    (fun v => inl (putString (begin_Type v) ++ putInt (begin_V v)
                   ++ putString (begin_AgentID v) ++ putInt (begin_ClientTimeMS v)))
    (whole (andThen getString (fun t =>
            andThen getInt (fun v =>
            andThen getString (fun a =>
            andThen getInt (fun c => done (mkAuthBegin t v a c))))))).

Definition challengeCodec : JSON authChallenge :=
  Build_JSON
    authChallenge
    (fun v => inl (putString (challenge_Type v) ++ putInt (challenge_V v)
                   ++ putString (challenge_ChallengeID v)
                   ++ putString (challenge_Nonce v)
                   ++ putInt (challenge_IssuedAtMS v)
                   ++ putInt (challenge_ExpiresAtMS v)))
    (whole (andThen getString (fun t =>
            andThen getInt (fun v =>
            andThen getString (fun c =>
            andThen getString (fun n =>
            andThen getInt (fun i =>
            andThen getInt (fun e => done (mkAuthChallenge t v c n i e))))))))).

Definition proofCodec : JSON authProof :=
  Build_JSON
    authProof
    (fun v => inl (putString (proof_Type v) ++ putInt (proof_V v)
                   ++ putString (proof_AgentID v)
                   ++ putString (proof_ChallengeID v)
                   ++ putString (proof_Nonce v)
                   ++ putInt (proof_IssuedAtMS v)
                   ++ putString (proof_Signature v)))
    (whole (andThen getString (fun t =>
            andThen getInt (fun v =>
            andThen getString (fun a =>
            andThen getString (fun c =>
            andThen getString (fun n =>
            andThen getInt (fun i =>
            andThen getString (fun s => done (mkAuthProof t v a c n i s)))))))))).

Definition okCodec : JSON authOK :=
  Build_JSON
    authOK
    (fun v => inl (putString (ok_Type v) ++ putInt (ok_V v)
                   ++ putString (ok_AgentID v) ++ putInt (ok_AuthenticatedAtMS v)))
    (whole (andThen getString (fun t =>
            andThen getInt (fun v =>
            andThen getString (fun a =>
            andThen getInt (fun c => done (mkAuthOK t v a c))))))).

Definition errorCodec : JSON authError :=
  Build_JSON
    authError
    (fun v => inl (putString (error_Type v) ++ putInt (error_V v)
                   ++ putString (error_Code v) ++ putString (error_Message v)))
    (whole (andThen getString (fun t =>
            andThen getInt (fun v =>
            andThen getString (fun c =>
            andThen getString (fun m => done (mkAuthError t v c m))))))).

Definition headerCodec : JSON header :=
  Build_JSON
    header
    (fun v => inl (putString (header_Type v) ++ putInt (header_V v)))
    (leading (andThen getString (fun t =>
              andThen getInt (fun v => done (mkHeader t v))))).

(** A stand-in for [crypto/ed25519] in which the private and the
    public key are the same bytes: the signature of a message is the
    first 64 bytes of the key, the message and a padding of zeros. *)
Definition sign (key message : list byte) : list byte :=
  firstn 64 (key ++ message ++ repeat x00 64).

Fixpoint sameBytes (a b : list byte) : bool :=
  match a, b with
  | [], [] => true
  | x :: a', y :: b' => Byte.eqb x y && sameBytes a' b'
  | _, _ => false
  end.

Definition signer : Signer := Build_Signer sign.

(** Hex digits in the place of base64, and no white space to trim. *)
Definition externals : Externals :=
  Build_Externals (fun pub message sig => sameBytes sig (sign pub message))
                  Hex.EncodeToString Hex.DecodeString (fun s => s).

(** The agent of [zeroKey] and the proxy that knows it, before the
    handshake: both connections are open and have nothing to read. *)
Definition agentWorld : World :=
  mkWorld (connOn (endpoint [])) (fun n => nth n readings 1700000000006000000)
          0 [] None.

Definition proxyWorld : World := world (connOn (endpoint [])).

(** What the codec writes for a value. *)
Definition payloadOf {T : Type} (codec : JSON T) (v : T) : list byte :=
  match json_Marshal v with
  | inl b => b
  | inr _ => []
  end.

(** The agent with one message of the proxy waiting to be read. *)
Definition agentFacing (typ : Z) (payload : list byte) : World :=
  mkWorld (connOn (endpoint (frameBytes typ startEndFlags 0 payload)))
          (fun n => nth n readings 1700000000006000000) 0 [] None.

Definition toyChallenge : authChallenge :=
  mkAuthChallenge "auth_challenge" authVersion
                  (Hex.EncodeToString (repeat x02 24))
                  (Hex.EncodeToString (repeat x01 32))
                  1700000000001 1700000030001.

Definition toyOK : authOK :=
  mkAuthOK "auth_ok" authVersion zeroAgent 1700000000005.

End Toy.

(* ================================================================== *)
(** * Sample traffic *)
(* ================================================================== *)

Module Traffic.
Import Auth.

(** Three messages of three kinds, and what they leave on the wire of
    a connection with a 16-byte limit. *)
Definition traffic : list Message := [ping; request; authBeginMsg].

Definition sentAllBy (c : Conn) (ms : list Message) : list byte :=
  match sendAll c ms with
  | Some (_, c') => tx (nc c')
  | None => []
  end.

(** An [auth_begin] frame followed by [hello]. *)
Definition helloFrame : list byte :=
  frameBytes TypeAuthBegin startEndFlags 0 hello.

End Traffic.
Import Traffic.

(* ================================================================== *)
(** * A proxy that knows nobody *)
(* ================================================================== *)

Module Strangers.
Import Auth.

(** A registry that knows nobody. *)
Definition nobody (agentID : string) : option (list byte) := None.

End Strangers.
Import Strangers.

(* ================================================================== *)
(** * Facts about bytes and big-endian integers *)
(* ================================================================== *)

Module BytesFacts.

Lemma b2z_range (b : byte) : 0 <= b2z b < 256.
Proof.
  unfold b2z. pose proof (Byte.to_N_bounded b). lia.
Qed.

Lemma asByte_b2z (b : byte) : asByte (b2z b) = b.
Proof.
  unfold asByte. rewrite Z.mod_small by apply b2z_range.
  unfold b2z. rewrite N2Z.id, Byte.of_to_N. reflexivity.
Qed.

Lemma b2z_asByte (v : Z) : b2z (asByte v) = v mod 256.
Proof.
  unfold asByte, b2z.
  assert (Hr : 0 <= v mod 256 < 256) by (apply Z.mod_pos_bound; lia).
  destruct (Byte.of_N (Z.to_N (v mod 256))) as [b|] eqn:E.
  - apply Byte.to_of_N in E. rewrite E. apply Z2N.id. lia.
  - apply Byte.of_N_None_iff in E. lia.
Qed.

Lemma b2z_asByte_small (v : Z) : 0 <= v < 256 -> b2z (asByte v) = v.
Proof.
  intros H. rewrite b2z_asByte. apply Z.mod_small; assumption.
Qed.

(** Disjoint bit ranges: or-ing a shifted value is addition. *)
Lemma lor_shiftl_add (lo hi k : Z) :
  0 <= k -> 0 <= lo < 2 ^ k ->
  Z.lor lo (Z.shiftl hi k) = lo + hi * 2 ^ k.
Proof.
  intros Hk Hlo.
  rewrite <- Z.shiftl_mul_pow2 by assumption.
  rewrite <- Z.add_lor_land.
  assert (E : Z.land lo (Z.shiftl hi k) = 0).
  { apply Z.bits_inj'. intros n Hn.
    rewrite Z.land_spec, Z.bits_0.
    destruct (Z.ltb_spec n k).
    - rewrite (Z.shiftl_spec_low hi k n) by assumption.
      apply andb_false_r.
    - assert (Z.testbit lo n = false) as ->; [|reflexivity].
      destruct (Z.eq_dec lo 0) as [->|Hnz]; [apply Z.bits_0|].
      apply Z.bits_above_log2; [lia|].
      apply Z.lt_le_trans with k; [|assumption].
      apply Z.log2_lt_pow2; lia. }
  rewrite E. lia.
Qed.

Lemma mod_split (v k : Z) :
  0 <= k -> v mod 2 ^ (8 + k) = v mod 256 + 256 * ((v / 256) mod 2 ^ k).
Proof.
  intros Hk. rewrite Z.pow_add_r by lia.
  change (2 ^ 8) with 256.
  apply Z.rem_mul_r; [lia|]. apply Z.pow_pos_nonneg; lia.
Qed.

Lemma shiftr_step (v k : Z) :
  0 <= k -> Z.shiftr v (8 + k) = Z.shiftr v k / 256.
Proof.
  intros Hk. rewrite !Z.shiftr_div_pow2 by lia.
  rewrite Z.pow_add_r by lia. change (2 ^ 8) with 256.
  rewrite (Z.mul_comm 256), <- Z.div_div by (try apply Z.pow_pos_nonneg; lia).
  reflexivity.
Qed.

Lemma Uint16_bytes (b0 b1 : byte) :
  Uint16 [b0; b1] = b2z b1 + 256 * b2z b0.
Proof.
  unfold Uint16, idx. cbn [nth].
  pose proof (b2z_range b1).
  rewrite lor_shiftl_add by lia. lia.
Qed.

Lemma Uint32_bytes (b0 b1 b2 b3 : byte) :
  Uint32 [b0; b1; b2; b3]
  = b2z b3 + 256 * (b2z b2 + 256 * (b2z b1 + 256 * b2z b0)).
Proof.
  unfold Uint32, idx. cbn [nth].
  pose proof (b2z_range b0). pose proof (b2z_range b1).
  pose proof (b2z_range b2). pose proof (b2z_range b3).
  rewrite (lor_shiftl_add (b2z b3)) by lia.
  rewrite (lor_shiftl_add _ (b2z b1)) by lia.
  rewrite lor_shiftl_add by lia. lia.
Qed.

Lemma Uint64_bytes (b0 b1 b2 b3 b4 b5 b6 b7 : byte) :
  Uint64 [b0; b1; b2; b3; b4; b5; b6; b7]
  = b2z b7 + 256 * (b2z b6 + 256 * (b2z b5 + 256 * (b2z b4 + 256 *
    (b2z b3 + 256 * (b2z b2 + 256 * (b2z b1 + 256 * b2z b0)))))).
Proof.
  unfold Uint64, idx. cbn [nth].
  pose proof (b2z_range b0). pose proof (b2z_range b1).
  pose proof (b2z_range b2). pose proof (b2z_range b3).
  pose proof (b2z_range b4). pose proof (b2z_range b5).
  pose proof (b2z_range b6). pose proof (b2z_range b7).
  rewrite (lor_shiftl_add (b2z b7)) by lia.
  rewrite (lor_shiftl_add _ (b2z b5)) by lia.
  rewrite (lor_shiftl_add _ (b2z b4)) by lia.
  rewrite (lor_shiftl_add _ (b2z b3)) by lia.
  rewrite (lor_shiftl_add _ (b2z b2)) by lia.
  rewrite (lor_shiftl_add _ (b2z b1)) by lia.
  rewrite lor_shiftl_add by lia. lia.
Qed.

Lemma digits_mod (n : nat) (v : Z) : digits n v = v mod 2 ^ (8 * Z.of_nat n).
Proof.
  revert v. induction n as [|n IH]; intros v.
  - cbn. symmetry. apply Z.mod_1_r.
  - cbn [digits]. rewrite IH.
    replace (8 * Z.of_nat (S n)) with (8 + 8 * Z.of_nat n) by lia.
    rewrite mod_split by lia. reflexivity.
Qed.

Lemma shiftr_8 (v : Z) : Z.shiftr v 8 = v / 256.
Proof. rewrite Z.shiftr_div_pow2 by lia. reflexivity. Qed.

Lemma Uint16_PutUint16 (v : Z) : Uint16 (PutUint16 v) = v mod 2 ^ 16.
Proof.
  unfold PutUint16. rewrite Uint16_bytes, !b2z_asByte, shiftr_8.
  change (2 ^ 16) with (2 ^ (8 * Z.of_nat 2)).
  rewrite <- digits_mod. cbn [digits]. lia.
Qed.

Lemma Uint32_PutUint32 (v : Z) : Uint32 (PutUint32 v) = v mod 2 ^ 32.
Proof.
  unfold PutUint32. rewrite Uint32_bytes, !b2z_asByte.
  change 24 with (8 + (8 + 8)). change 16 with (8 + 8).
  rewrite !shiftr_step, shiftr_8 by lia.
  change (2 ^ 32) with (2 ^ (8 * Z.of_nat 4)).
  rewrite <- digits_mod. cbn [digits]. lia.
Qed.

Lemma Uint64_PutUint64 (v : Z) : Uint64 (PutUint64 v) = v mod 2 ^ 64.
Proof.
  unfold PutUint64. rewrite Uint64_bytes, !b2z_asByte.
  change 56 with (8 + (8 + (8 + (8 + (8 + (8 + 8)))))).
  change 48 with (8 + (8 + (8 + (8 + (8 + 8))))).
  change 40 with (8 + (8 + (8 + (8 + 8)))).
  change 32 with (8 + (8 + (8 + 8))).
  change 24 with (8 + (8 + 8)). change 16 with (8 + 8).
  rewrite !shiftr_step, shiftr_8 by lia.
  change (2 ^ 64) with (2 ^ (8 * Z.of_nat 8)).
  rewrite <- digits_mod. cbn [digits]. lia.
Qed.

End BytesFacts.
Import BytesFacts.

(* ================================================================== *)
(** * The frame codec *)
(* ================================================================== *)

Module CodecFacts.

Lemma header_length typ flags sid p : length (header typ flags sid p) = headerLen.
Proof. reflexivity. Qed.

Lemma isKnownType_cases t :
  isKnownType t = true <->
  t = TypeAuthBegin \/ t = TypeAuthChallenge \/ t = TypeAuthProof \/
  t = TypeAuthOK \/ t = TypeAuthError \/ t = TypeMessagePayload \/
  t = TypePing \/ t = TypePong.
Proof.
  split.
  - unfold isKnownType, TypeAuthBegin, TypeAuthChallenge, TypeAuthProof,
      TypeAuthOK, TypeAuthError, TypeMessagePayload, TypePing, TypePong.
    intros H. destruct t as [|p|p]; try discriminate.
    repeat (match goal with
            | q : positive |- _ => destruct q as [q|q|]
            end; try discriminate; try tauto).
  - intros [-> | [-> | [-> | [-> | [-> | [-> | [-> | ->]]]]]]]; reflexivity.
Qed.

Lemma isKnownType_range t : isKnownType t = true -> 0 <= t < 256.
Proof.
  intros H. apply isKnownType_cases in H.
  destruct H as [-> | [-> | [-> | [-> | [-> | [-> | [-> | ->]]]]]]];
    cbv; split; congruence.
Qed.

(** Flag words without a bit outside [START|END]. *)
Lemma flags_ok_cases f :
  0 <= f -> (Z.ldiff f (Z.lor flagStart flagEnd) =? 0) = true ->
  f = 0 \/ f = flagStart \/ f = flagEnd \/ f = startEndFlags.
Proof.
  intros Hf H. apply Z.eqb_eq in H.
  assert (E : f = Z.land f 3).
  { rewrite <- (Z.lor_ldiff_and f 3) at 1.
    change (Z.lor flagStart flagEnd) with 3 in H. rewrite H.
    apply Z.lor_0_l. }
  change 3 with (Z.ones 2) in E. rewrite Z.land_ones in E by lia.
  assert (0 <= f mod 2 ^ 2 < 4) by (apply Z.mod_pos_bound; lia).
  unfold flagStart, flagEnd, startEndFlags. cbn. lia.
Qed.

Lemma Write_open w p :
  closed w = false -> tx_room w = None ->
  Write w p = (None, set_tx w (tx w ++ p) None).
Proof.
  intros Hc Hr. unfold Write. rewrite Hc, Hr. reflexivity.
Qed.

Lemma encodeFrameTo_open w typ flags sid p :
  closed w = false -> tx_room w = None ->
  encodeFrameTo w typ flags sid p
  = (None, set_tx w (tx w ++ frameBytes typ flags sid p) None).
Proof.
  intros Hc Hr. unfold encodeFrameTo, frameBytes.
  rewrite Write_open by assumption.
  destruct p as [|b p].
  - cbn [length Nat.eqb]. rewrite app_nil_r. reflexivity.
  - cbn [length Nat.eqb]. rewrite Write_open; [|exact Hc|reflexivity].
    unfold set_tx; cbn. rewrite <- app_assoc. reflexivity.
Qed.

Lemma ReadFull_prefix r (p rest : list byte) :
  closed r = false -> rx r = p ++ rest ->
  ReadFull r (length p) = (p, None, set_rx r rest).
Proof.
  intros Hc Hrx. unfold ReadFull.
  destruct (length p) eqn:El.
  - destruct p; [|discriminate]. cbn in Hrx.
    destruct r; cbn in *; subst; reflexivity.
  - rewrite Hc, <- El, Hrx.
    assert ((length p <=? length (p ++ rest))%nat = true) as ->.
    { apply Nat.leb_le. rewrite length_app. lia. }
    rewrite firstn_app, firstn_all, Nat.sub_diag, firstn_O, app_nil_r.
    rewrite skipn_app, skipn_all, Nat.sub_diag, skipn_O. reflexivity.
Qed.

(** Decoding what [encodeFrameTo] wrote gives the frame back, provided
    the fields fit their wire widths and the payload passes the size
    check. *)
Lemma decode_frameBytes r maxp typ flags sid p rest :
  closed r = false ->
  rx r = frameBytes typ flags sid p ++ rest ->
  isKnownType typ = true ->
  (flags = 0 \/ flags = flagStart \/ flags = flagEnd \/ flags = startEndFlags) ->
  0 <= sid < 2 ^ 64 ->
  Z.of_nat (length p) < 2 ^ 32 ->
  Z.of_nat (length p) <= uint32 maxp ->
  decodeFrameFrom r maxp
  = (inl (mkFrame typ flags sid p (Z.of_nat (length p))), set_rx r rest).
Proof.
  intros Hc Hrx Hk Hf Hs Hl32 Hmax.
  unfold decodeFrameFrom.
  unfold frameBytes in Hrx. rewrite <- app_assoc in Hrx.
  rewrite <- (header_length typ flags sid p).
  rewrite (ReadFull_prefix r _ _ Hc Hrx).
  pose proof (isKnownType_range _ Hk) as Ht.
  assert (Ei : forall i, (i < 4)%nat ->
             idx (header typ flags sid p) i
             = nth i [v1Magic0; v1Magic1; v1Version; typ] 0).
  { intros i Hi. unfold idx, header.
    do 4 (destruct i as [|i]; [cbn [nth app]; apply b2z_asByte_small;
                               unfold v1Magic0, v1Magic1, v1Version; lia|]).
    lia. }
  rewrite !Ei by lia. cbn [nth].
  rewrite !Z.eqb_refl. cbn [negb orb].
  rewrite Hk. cbn [negb].
  assert (E16 : slice (header typ flags sid p) 4 6 = PutUint16 flags) by reflexivity.
  assert (E64 : slice (header typ flags sid p) 6 14 = PutUint64 sid) by reflexivity.
  assert (E32 : slice (header typ flags sid p) 14 18
                = PutUint32 (uint32 (Z.of_nat (length p)))) by reflexivity.
  rewrite E16, E64, E32.
  rewrite Uint16_PutUint16, Uint64_PutUint64, Uint32_PutUint32.
  assert (Hfr : flags mod 2 ^ 16 = flags).
  { apply Z.mod_small.
    destruct Hf as [-> | [-> | [-> | ->]]]; cbv; split; congruence. }
  rewrite Hfr.
  assert (Hfl : (Z.ldiff flags (Z.lor flagStart flagEnd) =? 0) = true).
  { destruct Hf as [-> | [-> | [-> | ->]]]; reflexivity. }
  rewrite Hfl. cbn [negb].
  rewrite (Z.mod_small sid) by assumption.
  assert (El : uint32 (Z.of_nat (length p)) mod 2 ^ 32 = Z.of_nat (length p)).
  { unfold uint32. rewrite Z.mod_mod by lia. apply Z.mod_small. lia. }
  rewrite !El.
  assert ((Z.of_nat (length p) >? uint32 maxp) = false) as ->.
  { rewrite Z.gtb_ltb. apply Z.ltb_ge. assumption. }
  destruct (Z.of_nat (length p) >? 0) eqn:Epos.
  - rewrite Nat2Z.id.
    assert (Hc' : closed (set_rx r (p ++ rest)) = false) by exact Hc.
    rewrite (ReadFull_prefix (set_rx r (p ++ rest)) p rest Hc' eq_refl).
    reflexivity.
  - rewrite Z.gtb_ltb in Epos. apply Z.ltb_ge in Epos.
    destruct p; [reflexivity|cbn [length] in Epos; lia].
Qed.

End CodecFacts.
Import CodecFacts.

(* ================================================================== *)
(** * Header validation order *)
(* ================================================================== *)

Module HeaderOrder.

Lemma high_bit_iff (f : Z) :
  0 <= f -> ((exists i, 2 <= i /\ Z.testbit f i = true) <-> 4 <= f).
Proof.
  intros Hf. split.
  - intros [i [Hi Hb]].
    destruct (Z.lt_ge_cases f 4) as [Hlt|]; [|assumption].
    exfalso.
    destruct (Z.eq_dec f 0) as [->|Hnz].
    + rewrite Z.bits_0 in Hb. discriminate.
    + rewrite Z.bits_above_log2 in Hb; [discriminate|lia|].
      apply Z.lt_le_trans with 2; [|assumption].
      apply Z.log2_lt_pow2; [lia|]. exact Hlt.
  - intros H4. exists (Z.log2 f). split.
    + change 2 with (Z.log2 4). apply Z.log2_le_mono. assumption.
    + apply Z.bit_log2. lia.
Qed.

Lemma ldiff3_zero_iff (f : Z) :
  0 <= f -> (Z.ldiff f (Z.lor flagStart flagEnd) =? 0) = true <-> f < 4.
Proof.
  intros Hf. change (Z.lor flagStart flagEnd) with 3. split.
  - intros H.
    destruct (flags_ok_cases f Hf H) as [-> | [-> | [-> | ->]]]; cbv; congruence.
  - intros H.
    assert (f = 0 \/ f = 1 \/ f = 2 \/ f = 3) as [-> | [-> | [-> | ->]]] by lia;
      reflexivity.
Qed.

Lemma isKnownType_In (t : Z) :
  isKnownType t = true <-> In t [0x01; 0x02; 0x03; 0x04; 0x05; 0x10; 0xFE; 0xFF].
Proof.
  rewrite isKnownType_cases. cbn [In].
  unfold TypeAuthBegin, TypeAuthChallenge, TypeAuthProof, TypeAuthOK,
    TypeAuthError, TypeMessagePayload, TypePing, TypePong.
  intuition congruence.
Qed.

(** C4.  [decodeFrameFrom] takes exactly the eighteen header bytes off
    the stream, and a header that breaks several rules is rejected with
    the first of: bad magic, bad version, unknown type, invalid flags
    (a bit outside START|END), frame too large (declared payload length
    above the configured maximum). *)
Theorem decodeFrameFrom_rejection_order
        (r : netConn) (maxPayload : Z) (hdr rest : list byte) :
  closed r = false ->
  rx r = hdr ++ rest ->
  length hdr = headerLen ->
  0 < maxPayload ->
  (badMagic hdr -> rejects r maxPayload rest ErrBadMagic) /\
  (~ badMagic hdr -> badVersion hdr ->
   rejects r maxPayload rest ErrBadVersion) /\
  (~ badMagic hdr -> ~ badVersion hdr -> unknownType hdr ->
   rejects r maxPayload rest ErrUnknownType) /\
  (~ badMagic hdr -> ~ badVersion hdr -> ~ unknownType hdr ->
   invalidFlags hdr ->
   rejects r maxPayload rest ErrInvalidFlags) /\
  (~ badMagic hdr -> ~ badVersion hdr -> ~ unknownType hdr ->
   ~ invalidFlags hdr -> tooLarge hdr maxPayload ->
   rejects r maxPayload rest ErrFrameTooLarge).
Proof.
  intros Hc Hrx Hlen Hmax.
  unfold rejects, decodeFrameFrom.
  rewrite <- Hlen, (ReadFull_prefix r hdr rest Hc Hrx).
  destruct hdr as [|h0 [|h1 [|h2 [|h3 [|h4 [|h5 [|h6 [|h7 [|h8 [|h9 [|h10
    [|h11 [|h12 [|h13 [|h14 [|h15 [|h16 [|h17 [|? ?]]]]]]]]]]]]]]]]]]];
    try discriminate Hlen.
  clear Hlen Hrx.
  unfold badMagic, badVersion, unknownType, invalidFlags, tooLarge,
    declaredFlags, declaredLength.
  rewrite <- isKnownType_In.
  unfold slice. cbn [Nat.sub skipn firstn].
  rewrite Uint16_bytes, Uint32_bytes.
  unfold idx. cbn [nth].
  unfold v1Magic0, v1Magic1, v1Version.
  pose proof (b2z_range h0). pose proof (b2z_range h1).
  pose proof (b2z_range h2). pose proof (b2z_range h3).
  pose proof (b2z_range h4). pose proof (b2z_range h5).
  pose proof (b2z_range h14). pose proof (b2z_range h15).
  pose proof (b2z_range h16). pose proof (b2z_range h17).
  assert (Hflags : forall f, 0 <= f ->
            ((exists i, 2 <= i /\ Z.testbit f i = true) <->
             (Z.ldiff f (Z.lor flagStart flagEnd) =? 0) = false)).
  { intros f Hf. rewrite high_bit_iff by assumption.
    pose proof (ldiff3_zero_iff f Hf) as E.
    destruct (Z.ldiff f (Z.lor flagStart flagEnd) =? 0) eqn:E0.
    - assert (f < 4) by (apply E; reflexivity).
      split; [lia | discriminate].
    - split; [reflexivity|]. intros _.
      destruct (Z.lt_ge_cases f 4) as [Hlt|]; [|assumption].
      apply E in Hlt. discriminate. }
  repeat split.
  - intros [Hb|Hb]; apply Z.eqb_neq in Hb; rewrite Hb; cbn;
      [reflexivity | rewrite orb_true_r; reflexivity].
  - intros Hm Hv.
    assert (b2z h0 = 83 /\ b2z h1 = 66) as [-> ->] by lia.
    apply Z.eqb_neq in Hv. rewrite Hv. reflexivity.
  - intros Hm Hv Ht.
    assert (b2z h0 = 83 /\ b2z h1 = 66 /\ b2z h2 = 1) as [-> [-> ->]] by lia.
    cbn. destruct (isKnownType (b2z h3)); [exfalso; auto | reflexivity].
  - intros Hm Hv Ht Hf.
    assert (b2z h0 = 83 /\ b2z h1 = 66 /\ b2z h2 = 1) as [-> [-> ->]] by lia.
    cbn [Z.eqb Z.compare Pos.compare Pos.compare_cont negb orb Pos.eqb].
    destruct (isKnownType (b2z h3)); [|exfalso; auto]. cbn [negb].
    replace (b2z h5 + 256 * b2z h4) with (256 * b2z h4 + b2z h5) by lia.
    apply Hflags in Hf; [|lia]. rewrite Hf. reflexivity.
  - intros Hm Hv Ht Hf Hl.
    assert (b2z h0 = 83 /\ b2z h1 = 66 /\ b2z h2 = 1) as [-> [-> ->]] by lia.
    cbn [Z.eqb Z.compare Pos.compare Pos.compare_cont negb orb Pos.eqb].
    destruct (isKnownType (b2z h3)); [|exfalso; auto]. cbn [negb].
    replace (b2z h5 + 256 * b2z h4) with (256 * b2z h4 + b2z h5) by lia.
    destruct (Z.ldiff (256 * b2z h4 + b2z h5) (Z.lor flagStart flagEnd) =? 0) eqn:E;
      [|exfalso; apply Hf, Hflags; [lia|assumption]].
    cbn [negb].
    match goal with
    | |- (if ?c then _ else _) = _ => assert (c = true) as ->; [|reflexivity]
    end.
    rewrite Z.gtb_ltb. apply Z.ltb_lt.
    assert (maxPayload < 2 ^ 32) by lia.
    unfold uint32. rewrite Z.mod_small by lia. lia.
Qed.

End HeaderOrder.
Import HeaderOrder.

(* ================================================================== *)
(** * Reading frames from a connection *)
(* ================================================================== *)

Module ReadFacts.

Lemma same_endpoint_refl r : same_endpoint r r.
Proof. repeat split. Qed.

Lemma same_endpoint_trans r1 r2 r3 :
  same_endpoint r1 r2 -> same_endpoint r2 r3 -> same_endpoint r1 r3.
Proof.
  unfold same_endpoint. intros H1 H2.
  destruct H1 as (?&?&?&?&?&?&?), H2 as (?&?&?&?&?&?&?).
  repeat split; congruence.
Qed.

Lemma ReadFull_spec r n bs e r' :
  ReadFull r n = (bs, e, r') ->
  same_endpoint r r' /\
  (length (rx r') <= length (rx r))%nat /\
  (e = None -> (length (rx r') + n = length (rx r))%nat /\ rx r = bs ++ rx r').
Proof.
  unfold ReadFull. destruct n as [|n].
  - intros H. injection H as <- <- <-. split; [apply same_endpoint_refl|].
    split; [lia|]. intros _. split; [lia|reflexivity].
  - remember (S n) as k eqn:Ek.
    destruct (closed r).
    + intros H. injection H as <- <- <-. split; [apply same_endpoint_refl|].
      split; [lia|]. discriminate.
    + destruct (Nat.leb_spec k (length (rx r))) as [Hle|Hgt].
      * intros H. injection H as <- <- <-. split; [repeat split|].
        unfold set_rx; cbn [rx]. rewrite length_skipn. split; [lia|].
        intros _. split; [lia|]. symmetry. apply firstn_skipn.
      * intros H. injection H as <- <- <-. split; [repeat split|].
        unfold set_rx; cbn [rx length]. split; [lia|].
        destruct (rx r), (rx_end r); discriminate.
Qed.

(** [decodeFrameFrom] never closes the endpoint; a frame it returns
    took at least the header off the stream. *)
Lemma decodeFrameFrom_spec r maxp res r' :
  decodeFrameFrom r maxp = (res, r') ->
  same_endpoint r r' /\
  (length (rx r') <= length (rx r))%nat /\
  (forall fr, res = inl fr ->
     (length (rx r') + headerLen <= length (rx r))%nat).
Proof.
  unfold decodeFrameFrom.
  destruct (ReadFull r headerLen) as [[hdr e] r1] eqn:E1.
  apply ReadFull_spec in E1. destruct E1 as (S1 & L1 & K1).
  destruct e as [e|].
  { intros H. inversion H; subst. repeat split; try apply S1; try lia.
    discriminate. }
  specialize (K1 eq_refl). destruct K1 as [K1 _].
  repeat match goal with
         | |- context [if ?b then _ else _] => destruct b
         | |- (_, _) = _ -> _ =>
           intros H; inversion H; subst; clear H;
           (split; [exact S1|]); (split; [lia|]); intros; try discriminate; lia
         end.
  destruct (ReadFull r1 _) as [[p e2] r2] eqn:E2.
  apply ReadFull_spec in E2. destruct E2 as (S2 & L2 & _).
  destruct e2; intros H; inversion H; subst; clear H;
    (split; [eapply same_endpoint_trans; eassumption|]);
    (split; [lia|]); intros; try discriminate; lia.
Qed.

Lemma decodeFrameFrom_errors r maxp err r' :
  decodeFrameFrom r maxp = (inr err, r') -> isDecodeFailure err = true.
Proof.
  unfold decodeFrameFrom.
  destruct (ReadFull r headerLen) as [[hdr e] r1].
  destruct e as [e|]; [intros H; inversion H; reflexivity|].
  destruct (ReadFull r1 _) as [[p [e2|]] r2];
  repeat match goal with
         | |- context [if ?b then _ else _] => destruct b
         end;
    intros H; inversion H; subst; reflexivity.
Qed.

Lemma readFrame_ok c ctx fr c' :
  readFrame c ctx = (inl fr, c') ->
  decodeFrameFrom (nc c) (maxFramePayload c) = (inl fr, nc c') /\
  maxFramePayload c' = maxFramePayload c /\
  same_endpoint (nc c) (nc c') /\
  (length (rx (nc c')) + headerLen <= length (rx (nc c)))%nat.
Proof.
  unfold readFrame.
  destruct (decodeFrameFrom (nc c) (maxFramePayload c)) as [[f|err] r] eqn:E.
  - intros H. inversion H; subst. cbn.
    apply decodeFrameFrom_spec in E. destruct E as (S1 & _ & K).
    repeat split; try apply S1. apply (K fr eq_refl).
  - destruct (ctxErr ctx); [discriminate|].
    destruct (isProtocolErr err); discriminate.
Qed.

Lemma readFrame_shrinks c ctx res c' :
  readFrame c ctx = (res, c') ->
  maxFramePayload c' = maxFramePayload c /\
  (length (rx (nc c')) <= length (rx (nc c)))%nat.
Proof.
  unfold readFrame.
  destruct (decodeFrameFrom (nc c) (maxFramePayload c)) as [[f|err] r] eqn:E;
    apply decodeFrameFrom_spec in E; destruct E as (_ & L & _).
  - intros H. inversion H; subst. cbn. split; [reflexivity|lia].
  - destruct (ctxErr ctx); [|destruct (isProtocolErr err)];
      intros H; inversion H; subst; cbn; split; (reflexivity || lia).
Qed.

(** With more fuel than bytes left on the stream the reassembly loop
    returns, and its result does not depend on the fuel. *)
Lemma reassemble_enough_fuel fuel :
  forall c ctx t s d buf,
    (length (rx (nc c)) < fuel)%nat ->
    exists res,
      forall fuel', (length (rx (nc c)) < fuel')%nat ->
                    reassemble fuel' c ctx t s d buf = Some res.
Proof.
  induction fuel as [|fuel IH]; intros c ctx t s d buf Hf; [lia|].
  destruct d.
  { exists (inl buf, c). intros [|f'] _; reflexivity. }
  destruct (readFrame c ctx) as [[next|err] c1] eqn:E.
  - pose proof (readFrame_ok _ _ _ _ E) as (_ & _ & _ & Hlen).
    unfold headerLen in Hlen.
    destruct (IH c1 ctx t s (negb (Z.land (flags next) flagEnd =? 0))
                 (buf ++ payload next)) as [res Hres]; [lia|].
    destruct (negb (typ next =? t) || negb (streamID next =? s)) eqn:B1;
      [|destruct (negb (Z.land (flags next) flagStart =? 0)) eqn:B2;
        [|destruct (negb (flags next =? 0) && negb (flags next =? flagEnd)) eqn:B3]].
    4: exists res.
    1-3: exists (inr (Joined ErrFragmentation), ConnClose c1).
    all: intros [|f'] Hf'; [lia|]; cbn [reassemble]; rewrite E, B1;
      try rewrite B2; try rewrite B3; try reflexivity.
    apply Hres. lia.
  - exists (inr err, c1). intros [|f'] Hf'; [lia|].
    cbn [reassemble]. rewrite E. reflexivity.
Qed.

Lemma reassemble_fuel c ctx t s d buf fuel fuel' :
  (length (rx (nc c)) < fuel)%nat -> (length (rx (nc c)) < fuel')%nat ->
  reassemble fuel c ctx t s d buf = reassemble fuel' c ctx t s d buf.
Proof.
  intros H H'.
  destruct (reassemble_enough_fuel fuel c ctx t s d buf H) as [res Hres].
  rewrite (Hres fuel H), (Hres fuel' H'). reflexivity.
Qed.

(** [ReadNext] always returns. *)
Lemma readBody_total c ctx : exists res, readBody c ctx = Some res.
Proof.
  unfold readBody.
  destruct (readFrame c ctx) as [[fr|err] c1]; [|eauto].
  repeat match goal with
         | |- context [if ?b then _ else _] => destruct b; eauto
         end.
  all: match goal with
       | |- context [reassemble ?f ?c ?x ?t ?s ?d ?b] =>
         destruct (reassemble_enough_fuel f c x t s d b (Nat.lt_succ_diag_r _))
           as [[[r|e] c2] Hr];
           rewrite (Hr _ (Nat.lt_succ_diag_r _)); eauto
       end.
Qed.

Theorem ReadNext_total c ctx : exists res, ReadNext c ctx = Some res.
Proof.
  unfold ReadNext.
  destruct (readBody_total (applyReadContext c (ctxOrBackground ctx))
                           (ctxOrBackground ctx)) as [[res c2] H].
  rewrite H. eauto.
Qed.

End ReadFacts.
Import ReadFacts.

(* ================================================================== *)
(** * Cancellation on the receive path *)
(* ================================================================== *)

Module Cancellation.

Lemma readFrame_ok_any_ctx c ctx ctx' fr c1 :
  readFrame c ctx = (inl fr, c1) -> readFrame c ctx' = (inl fr, c1).
Proof.
  unfold readFrame.
  destruct (decodeFrameFrom (nc c) (maxFramePayload c)) as [[f|err] r];
    [exact (fun H => H)|].
  destruct (ctxErr ctx); [|destruct (isProtocolErr err)]; discriminate.
Qed.

(** The error of a failed transport read as [readFrame] reports it:
    the context's error if the context is done, else the error as it
    is; the connection stays open either way. *)
Lemma readFrame_io_error c ctx e r :
  decodeFrameFrom (nc c) (maxFramePayload c) = (inr (IOError e), r) ->
  readFrame c ctx
  = (inr (match ctxErr ctx with
          | Some ce => CtxError ce
          | None => IOError e
          end), with_nc c r).
Proof.
  intros E. unfold readFrame. rewrite E.
  destruct (ctxErr ctx); reflexivity.
Qed.

Lemma readFrame_failure c ctx e err c0 :
  ctxErr ctx = Some e ->
  readFrame c (notDone ctx) = (inr err, c0) ->
  isDecodeFailure err = true /\
  exists c', readFrame c ctx = (inr (CtxError e), c') /\
             closedAfter err c' c0 /\
             closed (nc c') = closed (nc c).
Proof.
  intros He. unfold readFrame. rewrite He. cbn [notDone ctxErr].
  destruct (decodeFrameFrom (nc c) (maxFramePayload c)) as [[f|err1] r] eqn:E;
    [discriminate|].
  pose proof (decodeFrameFrom_errors _ _ _ _ E) as Hd.
  apply decodeFrameFrom_spec in E. destruct E as ((Hcl & _) & _).
  intros H.
  assert (err1 = err /\ c0 = if isProtocolErr err1
                             then ConnClose (with_nc c r) else with_nc c r)
    as [-> ->].
  { destruct (isProtocolErr err1); inversion H; auto. }
  split; [assumption|].
  exists (with_nc c r). repeat split. exact Hcl.
Qed.

Lemma reassemble_masks fuel :
  forall c ctx e t s d buf err c0,
    ctxErr ctx = Some e ->
    reassemble fuel c (notDone ctx) t s d buf = Some (inr err, c0) ->
    isDecodeFailure err = true ->
    exists c', reassemble fuel c ctx t s d buf = Some (inr (CtxError e), c') /\
               closedAfter err c' c0 /\
               closed (nc c') = closed (nc c).
Proof.
  induction fuel as [|fuel IH]; intros c ctx e t s d buf err c0 He.
  - destruct d; discriminate.
  - cbn [reassemble]. destruct d; [discriminate|].
    destruct (readFrame c (notDone ctx)) as [[next|err1] c1] eqn:E.
    + rewrite (readFrame_ok_any_ctx _ _ ctx _ _ E).
      pose proof (readFrame_ok _ _ _ _ E) as (_ & _ & (Hcl & _) & _).
      repeat match goal with
             | |- context [if ?b then _ else _] => destruct b
             end;
        try (intros H Hd; inversion H; subst; discriminate Hd).
      intros H Hd.
      destruct (IH _ _ _ _ _ _ _ _ _ He H Hd) as (c' & R & CA & Hc).
      exists c'. repeat split; try assumption. congruence.
    + intros H Hd. inversion H; subst.
      destruct (readFrame_failure _ _ _ _ _ He E) as (_ & c' & R & CA & Hc).
      rewrite R. exists c'. auto.
Qed.

Lemma readBody_masks c ctx e err c0 :
  ctxErr ctx = Some e ->
  readBody c (notDone ctx) = Some (inr err, c0) ->
  isDecodeFailure err = true ->
  exists c', readBody c ctx = Some (inr (CtxError e), c') /\
             closedAfter err c' c0 /\
             closed (nc c') = closed (nc c).
Proof.
  intros He. unfold readBody.
  destruct (readFrame c (notDone ctx)) as [[fr|err1] c1] eqn:E.
  - rewrite (readFrame_ok_any_ctx _ _ ctx _ _ E).
    pose proof (readFrame_ok _ _ _ _ E) as (_ & _ & (Hcl & _) & _).
    repeat match goal with
           | |- context [if ?b then _ else _] => destruct b
           end;
      try (intros H Hd; inversion H; subst; discriminate Hd).
    all: match goal with
         | |- context [reassemble ?f ?c1 (notDone ?x) ?t ?s ?d ?b] =>
           destruct (reassemble f c1 (notDone x) t s d b)
             as [[[r|err2] c2]|] eqn:R; try discriminate;
             intros H Hd; inversion H; subst;
             destruct (reassemble_masks _ _ _ _ _ _ _ _ _ _ He R Hd)
               as (c' & R' & CA & Hc);
             rewrite R'; exists c'; repeat split; try assumption; congruence
         end.
  - intros H Hd. inversion H; subst.
    destruct (readFrame_failure _ _ _ _ _ He E) as (_ & c' & R & CA & Hc).
    rewrite R. exists c'. auto.
Qed.

(** The first frame read of [ReadNext] under a context that is done:
    whatever [decodeFrameFrom] fails with, the caller gets the
    context's error, and the endpoint is closed only if it was
    before. *)
Lemma ReadNext_first_read_fails c ctx e err r :
  ctxErr ctx = Some e ->
  decodeFrameFrom (nc (applyReadContext c ctx)) (maxFramePayload c) = (inr err, r) ->
  ReadNext c (Some ctx)
  = Some (inr (CtxError e),
          restoreReadDeadline (with_nc (applyReadContext c ctx) r)) /\
  closed r = closed (nc c).
Proof.
  intros He E.
  assert (Hm : maxFramePayload (applyReadContext c ctx) = maxFramePayload c)
    by (unfold applyReadContext; destruct (ctxDeadline ctx); reflexivity).
  assert (Hc : closed (nc (applyReadContext c ctx)) = closed (nc c))
    by (unfold applyReadContext; destruct (ctxDeadline ctx); reflexivity).
  split.
  - unfold ReadNext, readBody, readFrame. cbn [ctxOrBackground].
    rewrite Hm, E, He. reflexivity.
  - apply decodeFrameFrom_spec in E. destruct E as ((Hcl & _) & _).
    congruence.
Qed.

(** C10.  Take an input on which [ReadNext] fails in a frame read (a
    transport error, bad magic, bad version, unknown type, invalid
    flags or frame too large) while the context is not done.  When the
    context is done at that moment, [ReadNext] returns the context's
    error instead and the connection is as open as it was before the
    call, whereas the call under the live context leaves it closed
    exactly if it was closed before or the error is protocol-class. *)
Theorem ReadNext_done_context_leaves_open c ctx e err c0 :
  ctxErr ctx = Some e ->
  ReadNext c (Some (notDone ctx)) = Some (inr err, c0) ->
  isDecodeFailure err = true ->
  exists c', ReadNext c (Some ctx) = Some (inr (CtxError e), c') /\
             closed (nc c') = closed (nc c) /\
             closed (nc c0) = closed (nc c) || isProtocolErr err.
Proof.
  intros He. unfold ReadNext. cbn [ctxOrBackground].
  assert (Ea : applyReadContext c (notDone ctx) = applyReadContext c ctx)
    by reflexivity.
  rewrite Ea.
  destruct (readBody (applyReadContext c ctx) (notDone ctx))
    as [[res c2]|] eqn:B; [|discriminate].
  intros H Hd. inversion H; subst.
  destruct (readBody_masks _ _ _ _ _ He B Hd) as (c' & B' & CA & Hc).
  assert (Hc' : closed (nc c') = closed (nc c)).
  { rewrite Hc. unfold applyReadContext. destruct (ctxDeadline ctx); reflexivity. }
  rewrite B'. exists (restoreReadDeadline c'). split; [reflexivity|].
  split; [exact Hc'|].
  unfold closedAfter in CA. rewrite CA.
  destruct (isProtocolErr err); cbn; rewrite ?Hc', ?orb_true_r, ?orb_false_r;
    reflexivity.
Qed.

End Cancellation.
Import Cancellation.

(* ================================================================== *)
(** * Fragmentation and envelope checks of [ReadNext] *)
(* ================================================================== *)

Module ReceiveChecks.

Lemma middles_shrink ctx t s c buf c2 buf2 :
  middles ctx t s c buf c2 buf2 ->
  (length (rx (nc c2)) <= length (rx (nc c)))%nat.
Proof.
  induction 1 as [|c buf next c1 c2 buf2 E _ _ _ _ IH]; [lia|].
  apply readFrame_shrinks in E. lia.
Qed.

Lemma reassemble_middles ctx t s c buf c2 buf2 :
  middles ctx t s c buf c2 buf2 ->
  forall fuel, (length (rx (nc c)) < fuel)%nat ->
    reassemble fuel c ctx t s false buf = reassemble fuel c2 ctx t s false buf2.
Proof.
  induction 1 as [|c buf next c1 c2 buf2 E Ht Hs Hf M IH]; [reflexivity|].
  intros [|fuel] Hfuel; [lia|].
  pose proof (readFrame_ok _ _ _ _ E) as (_ & _ & _ & Hlen).
  unfold headerLen in Hlen.
  pose proof (middles_shrink _ _ _ _ _ _ _ M) as Hsh.
  transitivity (reassemble fuel c1 ctx t s false (buf ++ payload next)).
  { cbn [reassemble]. rewrite E, Ht, Hs, Hf, !Z.eqb_refl. reflexivity. }
  rewrite IH by lia. apply reassemble_fuel; lia.
Qed.

Lemma reassemble_violation fuel c ctx t s buf bad c1 :
  readFrame c ctx = (inl bad, c1) ->
  violatesContinuation t s bad ->
  reassemble (S fuel) c ctx t s false buf
  = Some (inr (Joined ErrFragmentation), ConnClose c1).
Proof.
  intros E V. cbn [reassemble]. rewrite E.
  destruct (negb (typ bad =? t) || negb (streamID bad =? s)) eqn:B1;
    [reflexivity|].
  destruct (negb (Z.land (flags bad) flagStart =? 0)) eqn:B2; [reflexivity|].
  destruct (negb (flags bad =? 0) && negb (flags bad =? flagEnd)) eqn:B3;
    [reflexivity|].
  exfalso.
  apply orb_false_iff in B1. destruct B1 as [B1a B1b].
  apply negb_false_iff, Z.eqb_eq in B1a, B1b, B2.
  apply andb_false_iff in B3.
  destruct V as [V | [V | [V | [V1 V2]]]]; try contradiction.
  destruct B3 as [B3|B3]; apply negb_false_iff, Z.eqb_eq in B3; contradiction.
Qed.

Lemma opens_checks fr :
  opens fr ->
  (Z.land (flags fr) flagStart =? 0) = false /\
  negb (Z.land (flags fr) flagEnd =? 0) = false /\
  ((typ fr =? TypePing) || (typ fr =? TypePong)) = false /\
  (isAuthType (typ fr) && negb (streamID fr =? 0)) = false /\
  ((typ fr =? TypeMessagePayload) && (streamID fr =? 0)) = false.
Proof.
  intros (Hs & He & Ht).
  split; [apply Z.eqb_neq; assumption|].
  split; [rewrite He; reflexivity|].
  destruct Ht as [[Ha H0] | (Hp & Hn & _)].
  - rewrite Ha, H0. cbn.
    unfold isAuthType in Ha.
    repeat (apply orb_true_iff in Ha; destruct Ha as [Ha|Ha]);
      apply Z.eqb_eq in Ha; rewrite Ha; repeat split; reflexivity.
  - rewrite Hp. apply Z.eqb_neq in Hn. rewrite Hn. repeat split; reflexivity.
Qed.

Lemma reserved_zero a b :
  0 <= a -> 0 <= b -> (Z.lor (Z.shiftl a 8) b = 0 <-> a = 0 /\ b = 0).
Proof.
  intros Ha Hb. rewrite Z.lor_eq_0_iff, Z.shiftl_eq_0_iff by lia. tauto.
Qed.

Lemma envelope_checks p :
  ~ badEnvelope p <->
  (length p <? 4)%nat = false /\
  negb (Z.lor (Z.shiftl (idx p 2) 8) (idx p 3) =? 0) = false /\
  negb (idx p 1 =? PayloadFormatOpaqueBytes) = false /\
  (negb (idx p 0 =? PayloadKindRequest)
   && negb (idx p 0 =? PayloadKindResponse)
   && negb (idx p 0 =? PayloadKindOneway)) = false.
Proof.
  unfold badEnvelope, envFormat, envKind, PayloadFormatOpaqueBytes,
    PayloadKindRequest, PayloadKindResponse, PayloadKindOneway.
  pose proof (b2z_range (nth 2 p x00)) as R2.
  pose proof (b2z_range (nth 3 p x00)) as R3.
  fold (idx p 2) in R2. fold (idx p 3) in R3.
  pose proof (reserved_zero (idx p 2) (idx p 3) (proj1 R2) (proj1 R3)) as RZ.
  cbn [In].
  destruct (Nat.ltb_spec (length p) 4);
    destruct (Z.eqb_spec (Z.lor (Z.shiftl (idx p 2) 8) (idx p 3)) 0);
    destruct (Z.eqb_spec (idx p 1) 0);
    destruct (Z.eqb_spec (idx p 0) 1);
    destruct (Z.eqb_spec (idx p 0) 2);
    destruct (Z.eqb_spec (idx p 0) 3); cbn; intuition (try lia; try congruence).
Qed.

(** C5.  The first frame must carry START, and every continuation
    frame read during reassembly must have the opener's type and
    stream id, START clear and flags 0 or END; otherwise the connection
    is closed and [ReadNext] fails with a fragmentation error. *)
Theorem ReadNext_fragmentation_errors (c : Conn) (ctx : option context) :
  let cx := ctxOrBackground ctx in
  let c0 := applyReadContext c cx in
  (forall fr c1,
      readFrame c0 cx = (inl fr, c1) ->
      Z.land (flags fr) flagStart = 0 ->
      exists c', ReadNext c ctx = Some (inr (Joined ErrFragmentation), c') /\
                 closed (nc c') = true) /\
  (forall fr c1 c2 buf2 bad c3,
      readFrame c0 cx = (inl fr, c1) ->
      opens fr ->
      middles cx (typ fr) (streamID fr) c1 (openerData fr) c2 buf2 ->
      readFrame c2 cx = (inl bad, c3) ->
      violatesContinuation (typ fr) (streamID fr) bad ->
      exists c', ReadNext c ctx = Some (inr (Joined ErrFragmentation), c') /\
                 closed (nc c') = true).
Proof.
  intros cx c0. split.
  - intros fr c1 E Hs. unfold ReadNext, readBody. fold cx. fold c0.
    rewrite E, Hs. cbn [Z.eqb]. eexists. split; reflexivity.
  - intros fr c1 c2 buf2 bad c3 E Ho M Eb V.
    unfold ReadNext, readBody. fold cx. fold c0. rewrite E.
    destruct (opens_checks _ Ho) as (K1 & K2 & K3 & K4 & K5).
    rewrite K1, K2, K3, K4, K5.
    assert (R : reassemble (S (length (rx (nc c1)))) c1 cx (typ fr) (streamID fr)
                           false (openerData fr)
                = Some (inr (Joined ErrFragmentation), ConnClose c3)).
    { rewrite (reassemble_middles _ _ _ _ _ _ _ M) by lia.
      apply reassemble_violation with (bad := bad); assumption. }
    unfold openerData in R.
    destruct (typ fr =? TypeMessagePayload) eqn:Tp.
    + destruct Ho as (_ & _ & [[Ha _] | (_ & _ & Henv)]).
      { apply Z.eqb_eq in Tp. rewrite Tp in Ha. discriminate. }
      apply envelope_checks in Henv. destruct Henv as (E1 & E2 & E3 & E4).
      rewrite E1, E2, E3, E4, R. eexists. split; reflexivity.
    + rewrite R. eexists. split; reflexivity.
Qed.

(** C6, as the code has it.  A [message_payload] opener that carries
    START and a non-zero stream id, and whose envelope is short, has a
    non-zero reserved field, a format other than opaque bytes or an
    unknown kind, makes [ReadNext] close the connection and fail with
    an envelope error. *)
Theorem ReadNext_envelope_errors (c : Conn) (ctx : option context) fr c1 :
  readFrame (applyReadContext c (ctxOrBackground ctx)) (ctxOrBackground ctx)
  = (inl fr, c1) ->
  Z.land (flags fr) flagStart <> 0 ->
  typ fr = TypeMessagePayload ->
  streamID fr <> 0 ->
  badEnvelope (payload fr) ->
  exists c', ReadNext c ctx = Some (inr (Joined ErrEnvelope), c') /\
             closed (nc c') = true.
Proof.
  intros E Hs Ht Hn Hbad.
  unfold ReadNext, readBody. rewrite E.
  apply Z.eqb_neq in Hs, Hn. rewrite Hs, Ht.
  change ((TypeMessagePayload =? TypePing) || (TypeMessagePayload =? TypePong))
    with false.
  change (isAuthType TypeMessagePayload) with false.
  change (TypeMessagePayload =? TypeMessagePayload) with true.
  rewrite Hn. cbn [andb negb].
  destruct (length (payload fr) <? 4)%nat eqn:E1;
    [eexists; split; reflexivity|].
  destruct (negb (Z.lor (Z.shiftl (idx (payload fr) 2) 8) (idx (payload fr) 3) =? 0))
    eqn:E2; [eexists; split; reflexivity|].
  destruct (negb (idx (payload fr) 1 =? PayloadFormatOpaqueBytes)) eqn:E3;
    [eexists; split; reflexivity|].
  destruct (negb (idx (payload fr) 0 =? PayloadKindRequest)
            && negb (idx (payload fr) 0 =? PayloadKindResponse)
            && negb (idx (payload fr) 0 =? PayloadKindOneway)) eqn:E4;
    [eexists; split; reflexivity|].
  exfalso. revert Hbad. apply envelope_checks. auto.
Qed.

End ReceiveChecks.
Import ReceiveChecks.

(* ================================================================== *)
(** * What [Send] writes *)
(* ================================================================== *)

Module SendFacts.

Lemma Write_ok w p w' :
  Write w p = (None, w') ->
  tx w' = tx w ++ p /\ closed w = false.
Proof.
  unfold Write. destruct (closed w); [discriminate|].
  destruct (tx_room w) as [room|].
  - destruct (length p <=? room)%nat; [|discriminate].
    intros H. inversion H. auto.
  - intros H. inversion H. auto.
Qed.

Lemma encodeFrameTo_ok w typ flags sid p w' :
  encodeFrameTo w typ flags sid p = (None, w') ->
  tx w' = tx w ++ frameBytes typ flags sid p.
Proof.
  unfold encodeFrameTo, frameBytes.
  destruct (Write w (header typ flags sid p)) as [[e|] w1] eqn:E1; [discriminate|].
  apply Write_ok in E1. destruct E1 as [E1 _].
  destruct p as [|b p].
  - cbn [length Nat.eqb]. intros H. inversion H; subst.
    rewrite app_nil_r. assumption.
  - cbn [length Nat.eqb].
    destruct (Write w1 (b :: p)) as [[e|] w2] eqn:E2; [discriminate|].
    apply Write_ok in E2. destruct E2 as [E2 _].
    intros H. inversion H; subst. rewrite E2, E1, app_assoc. reflexivity.
Qed.

Lemma takeChunk_prefix maxp remaining :
  takeChunk maxp remaining = firstn (length (takeChunk maxp remaining)) remaining.
Proof.
  unfold takeChunk. destruct (Z.of_nat (length remaining) >? maxp).
  - rewrite length_firstn.
    destruct (Nat.le_ge_cases (Z.to_nat maxp) (length remaining)) as [Hle|Hge].
    + rewrite Nat.min_l by assumption. reflexivity.
    + rewrite Nat.min_r by assumption.
      rewrite firstn_all, firstn_all2 by assumption. reflexivity.
  - rewrite firstn_all. reflexivity.
Qed.

Lemma takeChunk_length maxp remaining :
  0 < maxp -> remaining <> [] ->
  (0 < length (takeChunk maxp remaining))%nat /\
  Z.of_nat (length (takeChunk maxp remaining)) <= maxp /\
  (Z.of_nat (length remaining) > maxp ->
   (length (takeChunk maxp remaining) < length remaining)%nat).
Proof.
  intros Hm Hne. unfold takeChunk.
  assert (0 < length remaining)%nat
    by (destruct remaining; [contradiction|cbn; lia]).
  destruct (Z.of_nat (length remaining) >? maxp) eqn:E.
  - rewrite Z.gtb_ltb in E. apply Z.ltb_lt in E.
    rewrite length_firstn. lia.
  - rewrite Z.gtb_ltb in E. apply Z.ltb_ge in E. lia.
Qed.

Lemma skipn_nil_iff {A} n (l : list A) :
  (length (skipn n l) =? 0)%nat = true <-> (length l <= n)%nat.
Proof.
  rewrite Nat.eqb_eq, length_skipn. lia.
Qed.

(** The frames the loop of [sendWithFragmentation] emits. *)
Lemma fragmentLoop_ok maxp typ sid : 0 < maxp ->
  forall fuel w remaining first w',
    fragmentLoop fuel w maxp typ sid remaining first = Some (None, w') ->
    exists chunks,
      concat chunks = remaining /\
      Forall (fun c => (0 < length c)%nat /\ Z.of_nat (length c) <= maxp) chunks /\
      (Z.of_nat (length remaining) > maxp -> (2 <= length chunks)%nat) /\
      tx w' = tx w ++ wire typ sid (flagged first chunks).
Proof.
  intros Hm. induction fuel as [|fuel IH]; intros w remaining first w'.
  - cbn [fragmentLoop]. destruct remaining; [|discriminate].
    intros H. inversion H; subst. exists []. cbn.
    rewrite app_nil_r. repeat split; auto; lia.
  - cbn [fragmentLoop].
    destruct (length remaining =? 0)%nat eqn:Elen.
    { apply Nat.eqb_eq in Elen. destruct remaining; [|discriminate].
      intros H. inversion H; subst. exists []. cbn.
      rewrite app_nil_r. repeat split; auto; lia. }
    assert (Hne : remaining <> []).
    { intros ->. discriminate. }
    pose proof (takeChunk_length maxp remaining Hm Hne) as (L1 & L2 & L3).
    pose proof (takeChunk_prefix maxp remaining) as Pf.
    set (chunk := takeChunk maxp remaining) in *.
    set (rest := skipn (length chunk) remaining) in *.
    assert (Hcat : chunk ++ rest = remaining).
    { unfold rest. rewrite Pf at 1. apply firstn_skipn. }
    match goal with
    | |- context [encodeFrameTo w typ ?f sid chunk] =>
      set (fl := f);
        destruct (encodeFrameTo w typ fl sid chunk) as [[e|] w1] eqn:En
    end; [intros H; inversion H|].
    apply encodeFrameTo_ok in En.
    intros H. apply IH in H. destruct H as (chunks & C1 & C2 & C3 & C4).
    exists (chunk :: chunks). split; [cbn; rewrite C1; exact Hcat|].
    split; [constructor; auto|].
    split.
    { intros Hbig. specialize (L3 Hbig).
      destruct chunks; [|cbn; lia].
      cbn in C1. rewrite <- C1, app_nil_r in Hcat.
      rewrite Hcat in L3. lia. }
    rewrite C4, En, <- app_assoc. f_equal.
    destruct chunks as [|c2 chunks'].
    + cbn in C1. unfold wire. cbn [flagged map concat fst snd].
      assert ((length rest =? 0)%nat = true) as E0 by (rewrite <- C1; reflexivity).
      unfold fl. rewrite E0, !app_nil_r. destruct first; reflexivity.
    + assert ((length rest =? 0)%nat = false) as E0.
      { apply Nat.eqb_neq. rewrite <- C1.
        pose proof (Forall_inv C2) as [Hc2 _].
        cbn [concat]. rewrite length_app. lia. }
      unfold fl. rewrite E0.
      change (flagged first (chunk :: c2 :: chunks'))
        with ((if first then flagStart else 0, chunk)
                :: flagged false (c2 :: chunks')).
      unfold wire. cbn [map concat fst snd].
      destruct first; reflexivity.
Qed.

Lemma payloadLoop_fragmentLoop fuel :
  forall w maxp sid remaining,
    payloadLoop fuel w maxp sid remaining
    = fragmentLoop fuel w maxp TypeMessagePayload sid remaining false.
Proof.
  induction fuel as [|fuel IH]; intros; [reflexivity|].
  cbn [payloadLoop fragmentLoop].
  destruct (length remaining =? 0)%nat; [reflexivity|].
  destruct (length (skipn (length (takeChunk maxp remaining)) remaining) =? 0)%nat;
    cbn [Z.lor];
    destruct (encodeFrameTo _ _ _ _ _) as [[e|] w1]; auto.
Qed.

(** Flags of a run that does not start a message: zeros, then END. *)
Lemma flagged_false chunks :
  chunks <> [] ->
  exists mids cl, chunks = mids ++ [cl] /\
                  flagged false chunks = map (fun c => (0, c)) mids ++ [(flagEnd, cl)].
Proof.
  induction chunks as [|c rest IH]; [contradiction|]. intros _.
  destruct rest as [|c2 rest'].
  - exists [], c. split; reflexivity.
  - destruct IH as (mids & cl & E1 & E2); [discriminate|].
    exists (c :: mids), cl. split.
    + cbn. rewrite E1. reflexivity.
    + change (flagged false (c :: c2 :: rest'))
        with ((0, c) :: flagged false (c2 :: rest')).
      rewrite E2. reflexivity.
Qed.

Lemma flagged_snd first chunks : map snd (flagged first chunks) = chunks.
Proof.
  revert first. induction chunks as [|c rest IH]; intros first; [reflexivity|].
  destruct rest as [|c2 rest']; [reflexivity|].
  change (flagged first (c :: c2 :: rest'))
    with ((if first then flagStart else 0, c) :: flagged false (c2 :: rest')).
  cbn [map snd]. rewrite IH. reflexivity.
Qed.

End SendFacts.
Import SendFacts.

Module SendDiscipline.

Lemma wire_single t s f p : wire t s [(f, p)] = frameBytes t f s p.
Proof. unfold wire. cbn [map concat fst snd]. apply app_nil_r. Qed.

Lemma sendWithFragmentation_ok w maxp typ sid payload w' :
  0 < maxp ->
  sendWithFragmentation w maxp typ sid payload = Some (None, w') ->
  exists frames,
    tx w' = tx w ++ wire typ sid frames /\ disciplined maxp payload frames.
Proof.
  intros Hm. unfold sendWithFragmentation.
  destruct (Z.leb_spec (Z.of_nat (length payload)) maxp) as [Hfit|Hbig].
  - intros H. inversion H as [En]. apply encodeFrameTo_ok in En.
    exists [(startEndFlags, payload)]. split.
    + rewrite En, wire_single. reflexivity.
    + repeat split.
      * cbn. apply app_nil_r.
      * repeat constructor. assumption.
      * intros; lia.
  - intros H. apply fragmentLoop_ok in H; [|assumption].
    destruct H as (chunks & C1 & C2 & C3 & C4).
    specialize (C3 ltac:(lia)).
    destruct chunks as [|c0 [|c1 rest]]; try (cbn in C3; lia).
    destruct (flagged_false (c1 :: rest)) as (mids & cl & E1 & E2);
      [discriminate|].
    exists (flagged true (c0 :: c1 :: rest)). split; [assumption|].
    repeat split.
    + rewrite flagged_snd. assumption.
    + apply Forall_forall. intros [f p] Hin.
      apply (in_map snd) in Hin. rewrite flagged_snd in Hin. cbn [snd].
      rewrite Forall_forall in C2. apply C2 in Hin. tauto.
    + intros; lia.
    + intros _. exists c0, mids, cl.
      change (flagged true (c0 :: c1 :: rest))
        with ((flagStart, c0) :: flagged false (c1 :: rest)).
      rewrite E2. reflexivity.
Qed.

Lemma isAuthType_not_payload t :
  isAuthType t = true -> (t =? TypeMessagePayload) = false.
Proof.
  unfold isAuthType. intros H.
  repeat (apply orb_true_iff in H; destruct H as [H|H]);
    apply Z.eqb_eq in H; subst; reflexivity.
Qed.

Lemma Send_frames (c : Conn) (ctx : option context) (m : Message) c' :
  0 < maxFramePayload c ->
  Send c ctx m = Some (None, c') ->
  exists frames,
    tx (nc c') = tx (nc c) ++ wire (MsgType m) (StreamID m) frames /\
    disciplined (maxFramePayload c) (logicalPayload m) frames /\
    envelopeFirst m frames /\ accepted m.
Proof.
  intros Hm. unfold Send.
  set (c1 := applyWriteContext c (ctxOrBackground ctx)).
  assert (Htx : tx (nc c1) = tx (nc c))
    by (unfold c1, applyWriteContext; destruct (ctxDeadline _); reflexivity).
  assert (Hmx : maxFramePayload c1 = maxFramePayload c)
    by (unfold c1, applyWriteContext; destruct (ctxDeadline _); reflexivity).
  rewrite Hmx.
  destruct (sendSwitch (nc c1) (maxFramePayload c) m) as [[err w]|] eqn:Sw;
    [|discriminate].
  intros H. injection H as -> <-.
  cbn [restoreReadDeadline restoreWriteDeadline with_nc nc SetWriteDeadline tx].
  rewrite <- Htx. clear Htx Hmx. generalize dependent (nc c1). clear c1.
  intros w0 Sw. unfold sendSwitch in Sw.
  unfold logicalPayload, envelopeFirst, accepted.
  destruct ((MsgType m =? TypePing) || (MsgType m =? TypePong)) eqn:Tping.
  { (* ping / pong *)
    assert (Tp : MsgType m = TypePing \/ MsgType m = TypePong).
    { apply orb_true_iff in Tping. destruct Tping as [T|T];
        apply Z.eqb_eq in T; auto. }
    assert (Tk : isKnownType (MsgType m) = true /\ MsgType m <> TypeMessagePayload).
    { destruct Tp as [-> | ->]; split; (reflexivity || discriminate). }
    destruct Tk as [Tk Tn].
    apply Z.eqb_neq in Tn. rewrite Tn. apply Z.eqb_neq in Tn.
    destruct (Z.eqb_spec (StreamID m) 0) as [S0|]; [|discriminate].
    cbn [negb] in Sw.
    destruct (Payload m) as [|? ?] eqn:Ep; [|discriminate].
    destruct (Data m) as [|? ?]; [|discriminate].
    cbn in Sw. inversion Sw as [En]. apply encodeFrameTo_ok in En.
    exists [(startEndFlags, [])]. rewrite S0.
    split; [rewrite En, wire_single; reflexivity|].
    split; [|split; [intros; contradiction | tauto]].
    repeat split; try reflexivity.
    - repeat constructor. cbn. lia.
    - cbn. intros; lia. }
  destruct (isAuthType (MsgType m)) eqn:Tauth.
  { pose proof (isAuthType_not_payload _ Tauth) as Tn. rewrite Tn.
    apply Z.eqb_neq in Tn.
    assert (Tk : isKnownType (MsgType m) = true).
    { unfold isAuthType in Tauth.
      repeat (apply orb_true_iff in Tauth; destruct Tauth as [Tauth|Tauth]);
        apply Z.eqb_eq in Tauth; rewrite Tauth; reflexivity. }
    destruct (Z.eqb_spec (StreamID m) 0) as [S0|]; [|discriminate].
    cbn [negb] in Sw. rewrite S0.
    destruct (sendWithFragmentation_ok _ _ _ _ _ _ Hm Sw) as (frames & F1 & F2).
    exists frames. split; [assumption|]. split; [assumption|].
    split; [intros; contradiction|].
    repeat split; try tauto.
    apply orb_false_iff in Tping. destruct Tping as [T1 T2].
    apply Z.eqb_neq in T1, T2. tauto. }
  destruct (Z.eqb_spec (MsgType m) TypeMessagePayload) as [Tp|]; [|discriminate].
  destruct (Z.eqb_spec (StreamID m) 0) as [|Sn]; [discriminate|].
  set (format := if Format m =? 0 then PayloadFormatOpaqueBytes else Format m) in Sw.
  destruct (Z.eqb_spec format PayloadFormatOpaqueBytes) as [Ef|]; [|discriminate].
  cbn [negb] in Sw.
  destruct (negb (Kind m =? PayloadKindRequest)
            && negb (Kind m =? PayloadKindResponse)
            && negb (Kind m =? PayloadKindOneway)) eqn:Ek; [discriminate|].
  assert (Hacc : isKnownType (MsgType m) = true /\
                 (MsgType m = TypeMessagePayload ->
                  StreamID m <> 0 /\ Format m = 0 /\ In (Kind m) [1; 2; 3]) /\
                 (MsgType m <> TypeMessagePayload -> StreamID m = 0) /\
                 (MsgType m = TypePing \/ MsgType m = TypePong -> Payload m = [])).
  { rewrite Tp. split; [reflexivity|]. split; [|split].
    - intros _. split; [assumption|]. split.
      + unfold format, PayloadFormatOpaqueBytes in Ef.
        destruct (Z.eqb_spec (Format m) 0); assumption.
      + unfold PayloadKindRequest, PayloadKindResponse, PayloadKindOneway in Ek.
        cbn [In].
        destruct (Z.eqb_spec (Kind m) 1); [auto|].
        destruct (Z.eqb_spec (Kind m) 2); [auto|].
        destruct (Z.eqb_spec (Kind m) 3); [auto|]. discriminate.
    - intros; contradiction.
    - intros [?|?]; discriminate. }
  rewrite Ef in Sw.
  set (envelope := [asByte (Kind m); asByte PayloadFormatOpaqueBytes; x00; x00]) in *.
  change (Z.of_nat (length envelope)) with 4 in Sw.
  destruct (Z.gtb_spec 4 (maxFramePayload c)) as [|Hcap]; [discriminate|].
  set (cap := maxFramePayload c - 4) in Sw.
  rewrite Tp. change (TypeMessagePayload =? TypeMessagePayload) with true. cbv iota.
  destruct (Z.gtb_spec (Z.of_nat (length (Data m))) cap) as [Hbig|Hfit].
  - (* the data does not fit behind the envelope *)
    set (firstData := firstn (Z.to_nat cap) (Data m)) in Sw.
    assert (Lf : length firstData = Z.to_nat cap)
      by (unfold firstData; rewrite length_firstn; lia).
    set (remaining := skipn (length firstData) (Data m)) in Sw.
    assert (Hd : firstData ++ remaining = Data m).
    { unfold remaining. rewrite Lf. apply firstn_skipn. }
    assert (Lr : (0 < length remaining)%nat).
    { unfold remaining. rewrite length_skipn. lia. }
    destruct (length remaining =? 0)%nat eqn:E0;
      [apply Nat.eqb_eq in E0; lia|].
    destruct (encodeFrameTo w0 TypeMessagePayload flagStart (StreamID m)
                            (envelope ++ firstData)) as [[e|] w1] eqn:En;
      [inversion Sw|].
    apply encodeFrameTo_ok in En.
    rewrite payloadLoop_fragmentLoop in Sw.
    apply fragmentLoop_ok in Sw; [|assumption].
    destruct Sw as (chunks & C1 & C2 & _ & C4).
    assert (Hc : chunks <> []).
    { intros ->. cbn in C1. rewrite <- C1 in Lr. cbn in Lr. lia. }
    destruct (flagged_false chunks Hc) as (mids & cl & E1 & E2).
    exists ((flagStart, envelope ++ firstData) :: flagged false chunks).
    split; [rewrite C4, En, <- app_assoc; reflexivity|].
    split; [|split; [intros _; eauto | rewrite Tp in Hacc; exact Hacc]].
    repeat split.
    + cbn [map snd concat]. rewrite flagged_snd, C1, <- app_assoc, Hd.
      reflexivity.
    + constructor.
      * cbn [snd]. rewrite length_app, Lf.
        change (length envelope) with 4%nat. unfold cap. lia.
      * apply Forall_forall. intros [f p] Hin.
        apply (in_map snd) in Hin. rewrite flagged_snd in Hin. cbn [snd].
        rewrite Forall_forall in C2. apply C2 in Hin. tauto.
    + intros Hle. exfalso. rewrite length_app in Hle.
      change (length envelope) with 4%nat in Hle. unfold cap in Hbig. lia.
    + intros _. exists (envelope ++ firstData), mids, cl.
      rewrite E2. reflexivity.
  - (* everything fits into the first frame *)
    rewrite skipn_all in Sw. cbn [length Nat.eqb] in Sw.
    inversion Sw as [En]. apply encodeFrameTo_ok in En.
    exists [(startEndFlags, envelope ++ Data m)].
    split; [rewrite En, wire_single; reflexivity|].
    split; [|split; [intros _; eauto | rewrite Tp in Hacc; exact Hacc]].
    repeat split.
    + cbn [map snd concat]. apply app_nil_r.
    + repeat constructor. cbn [snd]. rewrite length_app.
      change (length envelope) with 4%nat. unfold cap in Hfit. lia.
    + intros Hgt. exfalso. rewrite length_app in Hgt.
      change (length envelope) with 4%nat in Hgt. unfold cap in Hfit. lia.
Qed.

End SendDiscipline.
Import SendDiscipline.

(* ================================================================== *)
(** * Round trip *)
(* ================================================================== *)

Module RoundTrip.

Lemma wire_cons typ sid f p frames :
  wire typ sid ((f, p) :: frames) = frameBytes typ f sid p ++ wire typ sid frames.
Proof. reflexivity. Qed.

Lemma readFrame_wire c ctx maxp ty f sid p rest :
  receiving c maxp ->
  rx (nc c) = frameBytes ty f sid p ++ rest ->
  isKnownType ty = true ->
  (f = 0 \/ f = flagStart \/ f = flagEnd \/ f = startEndFlags) ->
  0 <= sid < 2 ^ 64 ->
  Z.of_nat (length p) <= maxp ->
  exists c', readFrame c ctx = (inl (mkFrame ty f sid p (Z.of_nat (length p))), c') /\
             rx (nc c') = rest /\ receiving c' maxp /\
             (length (rx (nc c')) < length (rx (nc c)))%nat.
Proof.
  intros (Hc & Hm & Hr) Hrx Hk Hf Hs Hl.
  unfold readFrame. rewrite Hm.
  rewrite (decode_frameBytes (nc c) maxp ty f sid p rest); try assumption;
    try lia.
  - exists (with_nc c (set_rx (nc c) rest)). split; [reflexivity|].
    split; [reflexivity|]. split; [repeat split; assumption || lia|].
    cbn. rewrite Hrx. unfold frameBytes. rewrite !length_app, header_length.
    unfold headerLen. lia.
  - unfold uint32. rewrite Z.mod_small by lia. assumption.
Qed.

(** Reading the continuation frames of a message up to its END. *)
Lemma reassemble_wire ctx maxp ty sid cl rest mids :
  isKnownType ty = true -> 0 <= sid < 2 ^ 64 ->
  Forall (fun p => Z.of_nat (length p) <= maxp) (mids ++ [cl]) ->
  forall c buf fuel,
    receiving c maxp ->
    rx (nc c) = wire ty sid (map (fun p => (0, p)) mids ++ [(flagEnd, cl)]) ++ rest ->
    (length (rx (nc c)) < fuel)%nat ->
    exists c', reassemble fuel c ctx ty sid false buf
               = Some (inl (buf ++ concat mids ++ cl), c') /\
               rx (nc c') = rest /\ receiving c' maxp.
Proof.
  intros Hk Hs. induction mids as [|p mids IH]; intros Hall c buf fuel Hr Hrx Hf.
  - cbn [map app] in Hrx. rewrite wire_cons in Hrx. cbn [wire map concat] in Hrx.
    rewrite app_nil_r in Hrx.
    apply Forall_inv in Hall.
    destruct (readFrame_wire c ctx maxp ty flagEnd sid cl rest Hr Hrx Hk
                             ltac:(auto) Hs Hall) as (c' & E & R1 & R2 & _).
    destruct fuel as [|fuel]; [lia|].
    cbn [reassemble]. rewrite E. cbn [typ streamID flags payload].
    rewrite !Z.eqb_refl.
    change (negb true || negb true) with false.
    change (negb (Z.land flagEnd flagStart =? 0)) with false.
    change (negb (flagEnd =? 0) && negb true) with false.
    change (negb (Z.land flagEnd flagEnd =? 0)) with true.
    cbn [negb orb andb].
    exists c'. split; [|auto].
    destruct fuel; cbn [reassemble concat app]; reflexivity.
  - cbn [map app] in Hrx. rewrite wire_cons, <- app_assoc in Hrx.
    pose proof (Forall_inv Hall) as Hp. cbn [app] in Hall.
    apply Forall_inv_tail in Hall.
    destruct (readFrame_wire c ctx maxp ty 0 sid p _ Hr Hrx Hk
                             ltac:(auto) Hs Hp) as (c1 & E & R1 & R2 & R3).
    destruct fuel as [|fuel]; [lia|].
    destruct (IH Hall c1 (buf ++ p) fuel R2 R1 ltac:(lia)) as (c' & E' & R').
    exists c'. split; [|assumption].
    cbn [reassemble]. rewrite E. cbn [typ streamID flags payload].
    rewrite !Z.eqb_refl.
    change (negb true || negb true) with false.
    change (negb (Z.land 0 flagStart =? 0)) with false.
    change (negb true && negb (0 =? flagEnd)) with false.
    change (negb (Z.land 0 flagEnd =? 0)) with false.
    cbn [negb orb andb]. rewrite E'. cbn [concat]. rewrite <- !app_assoc. reflexivity.
Qed.

Lemma frames_chunks c0 mids cl :
  map snd ((flagStart, c0) :: map (fun p : list byte => (0, p)) mids ++ [(flagEnd, cl)])
  = c0 :: mids ++ [cl].
Proof.
  cbn [map snd]. f_equal. rewrite map_app, map_map. cbn [map snd].
  rewrite map_id. reflexivity.
Qed.

Lemma Forall_frames maxp (frames : list (Z * list byte)) :
  Forall (fun fp => Z.of_nat (length (snd fp)) <= maxp) frames ->
  Forall (fun p => Z.of_nat (length p) <= maxp) (map snd frames).
Proof.
  intros H. apply Forall_forall. intros p Hin.
  apply in_map_iff in Hin. destruct Hin as (fp & <- & Hin).
  rewrite Forall_forall in H. apply H. assumption.
Qed.

Lemma reassemble_done fuel c ctx t s buf :
  reassemble fuel c ctx t s true buf = Some (inl buf, c).
Proof. destruct fuel; reflexivity. Qed.

Ltac type_switch :=
  cbv [isAuthType TypeAuthBegin TypeAuthChallenge TypeAuthProof TypeAuthOK
       TypeAuthError TypeMessagePayload TypePing TypePong
       Z.eqb Pos.eqb orb andb negb].

Ltac known_type_cases H :=
  apply (proj1 (isKnownType_cases _)) in H;
  destruct H as [H | [H | [H | [H | [H | [H | [H | H]]]]]]].

(** The receiving side: the frames of an accepted message, read back
    by [ReadNext]'s body, give the message. *)
Lemma readBody_delivers c ctx maxp m frames rest :
  accepted m -> 0 <= StreamID m < 2 ^ 64 ->
  disciplined maxp (logicalPayload m) frames ->
  envelopeFirst m frames ->
  receiving c maxp ->
  rx (nc c) = wire (MsgType m) (StreamID m) frames ++ rest ->
  exists c', readBody c ctx = Some (inl (delivered m), c') /\
             rx (nc c') = rest /\ receiving c' maxp.
Proof.
  intros (Hk & Hpay & Hnp & Hping) Hs (Hcat & Hall & Hfit & Hbig) Henv Hr Hrx.
  assert (Hmax : 0 < maxp < 2 ^ 32) by apply Hr.
  unfold delivered, logicalPayload in *.
  destruct (Z.le_gt_cases (Z.of_nat (length
             (if MsgType m =? TypeMessagePayload
              then [asByte (Kind m); asByte PayloadFormatOpaqueBytes; x00; x00] ++ Data m
              else Payload m))) maxp) as [Hle|Hgt].
  - (* a single frame *)
    specialize (Hfit Hle). clear Hbig. subst frames.
    rewrite wire_single in Hrx.
    apply Forall_inv in Hall. cbn [snd] in Hall.
    edestruct (readFrame_wire c ctx maxp) as (c1 & E & R1 & R2 & _);
      [exact Hr | exact Hrx | exact Hk | auto | exact Hs | exact Hall |].
    unfold readBody. rewrite E. clear E Hrx.
    cbn [typ streamID flags payload].
    change (Z.land startEndFlags flagStart =? 0) with false.
    change (negb (Z.land startEndFlags flagEnd =? 0)) with true.
    cbv iota.
    destruct (Z.eqb_spec (MsgType m) TypeMessagePayload) as [Tp|Tn].
    + destruct (Hpay Tp) as (Hs0 & Hfm & Hkind).
      rewrite Tp.
      change ((TypeMessagePayload =? TypePing) || (TypeMessagePayload =? TypePong))
        with false.
      change (isAuthType TypeMessagePayload) with false.
      change (TypeMessagePayload =? TypeMessagePayload) with true.
      apply Z.eqb_neq in Hs0. rewrite Hs0.
      cbn [andb negb app length Nat.ltb Nat.leb skipn].
      unfold idx. cbn [nth].
      rewrite !b2z_asByte_small
        by (unfold PayloadFormatOpaqueBytes; cbn [In] in Hkind; lia).
      change (b2z "000") with 0.
      change (Z.lor (Z.shiftl 0 8) 0 =? 0) with true.
      change (PayloadFormatOpaqueBytes =? PayloadFormatOpaqueBytes) with true.
      assert ((negb (Kind m =? PayloadKindRequest)
               && negb (Kind m =? PayloadKindResponse)
               && negb (Kind m =? PayloadKindOneway)) = false) as ->.
      { cbn [In] in Hkind.
        destruct Hkind as [<- | [<- | [<- | []]]]; reflexivity. }
      cbn [negb]. rewrite reassemble_done.
      exists c1. auto.
    + rewrite (Hnp Tn) in *.
      known_type_cases Hk; try contradiction; rewrite Hk in *.
      1-5: type_switch; rewrite reassemble_done; exists c1; auto.
      all: rewrite (Hping ltac:(auto)) in *.
      all: type_switch; cbn [length Nat.eqb]; exists c1; auto.
  - (* several frames *)
    specialize (Hbig (Z.lt_gt _ _ Hgt)). clear Hfit. destruct Hbig as (c0 & mids & cl & ->).
    rewrite frames_chunks in Hcat. cbn [concat] in Hcat.
    rewrite concat_app in Hcat. cbn [concat] in Hcat. rewrite app_nil_r in Hcat.
    apply Forall_frames in Hall. rewrite frames_chunks in Hall.
    pose proof (Forall_inv Hall) as H0. apply Forall_inv_tail in Hall.
    rewrite wire_cons, <- app_assoc in Hrx.
    edestruct (readFrame_wire c ctx maxp) as (c1 & E & R1 & R2 & _);
      [exact Hr | exact Hrx | exact Hk | auto | exact Hs | exact H0 |].
    unfold readBody. rewrite E. clear E Hrx.
    cbn [typ streamID flags payload].
    change (Z.land flagStart flagStart =? 0) with false.
    change (negb (Z.land flagStart flagEnd =? 0)) with false.
    cbv iota.
    destruct (Z.eqb_spec (MsgType m) TypeMessagePayload) as [Tp|Tn].
    + destruct (Hpay Tp) as (Hs0 & Hfm & Hkind).
      destruct (Henv Tp) as (f & d0 & more & Hfr).
      injection Hfr as _ -> _.
      rewrite Tp in *.
      edestruct (reassemble_wire ctx maxp TypeMessagePayload (StreamID m) cl rest mids)
        as (c2 & E2 & R3 & R4);
        [reflexivity | exact Hs | exact Hall | exact R2 | exact R1 | |].
      2: {
      change ((TypeMessagePayload =? TypePing) || (TypeMessagePayload =? TypePong))
        with false.
      change (isAuthType TypeMessagePayload) with false.
      change (TypeMessagePayload =? TypeMessagePayload) with true.
      apply Z.eqb_neq in Hs0. rewrite Hs0.
      cbn [andb negb app length Nat.ltb Nat.leb skipn].
      unfold idx. cbn [nth].
      rewrite !b2z_asByte_small
        by (unfold PayloadFormatOpaqueBytes; cbn [In] in Hkind; lia).
      change (b2z "000") with 0.
      change (Z.lor (Z.shiftl 0 8) 0 =? 0) with true.
      change (PayloadFormatOpaqueBytes =? PayloadFormatOpaqueBytes) with true.
      assert ((negb (Kind m =? PayloadKindRequest)
               && negb (Kind m =? PayloadKindResponse)
               && negb (Kind m =? PayloadKindOneway)) = false) as ->.
      { cbn [In] in Hkind.
        destruct Hkind as [<- | [<- | [<- | []]]]; reflexivity. }
      cbn [negb]. rewrite E2.
      exists c2. split; [|auto].
      cbn [app] in Hcat. injection Hcat as Hcat.
      rewrite Hcat. reflexivity. }
      apply Nat.lt_succ_diag_r.
    + rewrite (Hnp Tn) in *.
      edestruct (reassemble_wire ctx maxp (MsgType m) 0 cl rest mids)
        as (c2 & E2 & R3 & R4);
        [exact Hk | lia | exact Hall | exact R2 | exact R1
         | apply Nat.lt_succ_diag_r |].
      apply Z.eqb_neq in Tn.
      known_type_cases Hk; rewrite Hk in *; try discriminate Tn.
      1-5: type_switch;
        cbv [TypeAuthBegin TypeAuthChallenge TypeAuthProof TypeAuthOK
             TypeAuthError] in E2;
        rewrite E2, Hcat; exists c2; auto.
      all: rewrite (Hping ltac:(auto)) in Hgt; cbn in Hgt; lia.
Qed.

Lemma encodeFrameTo_writable w t f sid p :
  writable w ->
  exists w', encodeFrameTo w t f sid p = (None, w') /\ writable w'.
Proof.
  intros [Hc Hr]. rewrite encodeFrameTo_open by assumption.
  eexists. split; [reflexivity|]. split; [exact Hc|reflexivity].
Qed.

(** On a writable endpoint the fragment loop runs to its end. *)
Lemma fragmentLoop_succeeds maxp t sid : 0 < maxp ->
  forall fuel w remaining first,
    writable w -> (length remaining <= fuel)%nat ->
    exists w', fragmentLoop fuel w maxp t sid remaining first = Some (None, w') /\
               writable w'.
Proof.
  intros Hm. induction fuel as [|fuel IH]; intros w remaining first Hw Hf.
  - destruct remaining; [|cbn in Hf; lia]. exists w. split; [reflexivity|assumption].
  - cbn [fragmentLoop].
    destruct (length remaining =? 0)%nat eqn:E0; [eauto|].
    assert (Hne : remaining <> []) by (intros ->; discriminate).
    pose proof (takeChunk_length maxp remaining Hm Hne) as (L1 & _ & _).
    match goal with
    | |- context [encodeFrameTo w t ?f sid ?p] =>
      destruct (encodeFrameTo_writable w t f sid p Hw) as (w1 & E & Hw1)
    end.
    rewrite E. apply IH; [assumption|].
    rewrite length_skipn. lia.
Qed.

Lemma sendSwitch_succeeds w maxp m :
  validFields m -> 4 <= maxp -> writable w ->
  exists w', sendSwitch w maxp m = Some (None, w').
Proof.
  intros Hv Hm Hw. unfold sendSwitch.
  destruct Hv as [(Ht & Hs & Hp & Hd) | [(Ht & Hs) | (Ht & Hs & Hk & Hf)]].
  - assert (((MsgType m =? TypePing) || (MsgType m =? TypePong)) = true) as ->.
    { destruct Ht as [-> | ->]; reflexivity. }
    rewrite Hs, Hp, Hd. cbn [Z.eqb negb length Nat.eqb orb].
    destruct (encodeFrameTo_writable w (MsgType m) startEndFlags 0 [] Hw)
      as (w' & E & _).
    rewrite E. eauto.
  - assert (((MsgType m =? TypePing) || (MsgType m =? TypePong)) = false) as ->.
    { unfold isAuthType in Ht.
      repeat (apply orb_true_iff in Ht; destruct Ht as [Ht|Ht]);
        apply Z.eqb_eq in Ht; rewrite Ht; reflexivity. }
    rewrite Ht, Hs. cbn [Z.eqb negb]. unfold sendWithFragmentation.
    destruct (Z.of_nat (length (Payload m)) <=? maxp).
    + destruct (encodeFrameTo_writable w (MsgType m) startEndFlags 0 (Payload m) Hw)
        as (w' & E & _).
      rewrite E. eauto.
    + destruct (fragmentLoop_succeeds maxp (MsgType m) 0 ltac:(lia)
                  (length (Payload m)) w (Payload m) true Hw (le_n _))
        as (w' & E & _).
      eauto.
  - rewrite Ht.
    change ((TypeMessagePayload =? TypePing) || (TypeMessagePayload =? TypePong))
      with false.
    change (isAuthType TypeMessagePayload) with false.
    change (TypeMessagePayload =? TypeMessagePayload) with true.
    cbv iota.
    assert ((StreamID m =? 0) = false) as -> by (apply Z.eqb_neq; lia).
    rewrite Hf.
    change (PayloadFormatOpaqueBytes =? 0) with true. cbv iota.
    change (negb (PayloadFormatOpaqueBytes =? PayloadFormatOpaqueBytes)) with false.
    cbv iota.
    assert ((negb (Kind m =? PayloadKindRequest)
             && negb (Kind m =? PayloadKindResponse)
             && negb (Kind m =? PayloadKindOneway)) = false) as ->.
    { cbn [In] in Hk. destruct Hk as [<- | [<- | [<- | []]]]; reflexivity. }
    cbn [length]. change (Z.of_nat 4) with 4.
    assert ((4 >? maxp) = false) as -> by (rewrite Z.gtb_ltb; apply Z.ltb_ge; lia).
    match goal with
    | |- context [encodeFrameTo w TypeMessagePayload startEndFlags ?s ?p] =>
      destruct (encodeFrameTo_writable w TypeMessagePayload startEndFlags s p Hw)
        as (wa & Ea & _);
      destruct (encodeFrameTo_writable w TypeMessagePayload flagStart s p Hw)
        as (wb & Eb & Hwb)
    end.
    rewrite Ea, Eb.
    match goal with
    | |- context [if ?b then _ else _] => destruct b; [eauto|]
    end.
    rewrite payloadLoop_fragmentLoop.
    match goal with
    | |- context [fragmentLoop ?n wb maxp ?t ?s ?r false] =>
      destruct (fragmentLoop_succeeds maxp t s ltac:(lia) n wb r false Hwb (le_n _))
        as (w' & E & _)
    end.
    eauto.
Qed.

(** On a writable connection [Send] emits every valid message. *)
Lemma Send_succeeds c ctx m :
  validFields m -> 4 <= maxFramePayload c -> writable (nc c) ->
  exists c', Send c ctx m = Some (None, c').
Proof.
  intros Hv Hm Hw. unfold Send.
  set (c1 := applyWriteContext c (ctxOrBackground ctx)).
  assert (Hw1 : writable (nc c1) /\ maxFramePayload c1 = maxFramePayload c).
  { unfold c1, applyWriteContext. destruct (ctxDeadline _); split;
      try reflexivity; exact Hw. }
  destruct Hw1 as [Hw1 Hm1]. rewrite Hm1.
  destruct (sendSwitch_succeeds (nc c1) (maxFramePayload c) m Hv Hm Hw1) as (w' & E).
  rewrite E. eauto.
Qed.

Lemma sameMessage_delivered m :
  validFields m -> sameMessage m (delivered m).
Proof.
  intros Hv. unfold sameMessage, delivered.
  destruct (Z.eqb_spec (MsgType m) TypeMessagePayload) as [Tp|Tn]; cbn.
  - destruct Hv as [([T|T] & _) | [(T & _) | (_ & _ & _ & Hf)]];
      try (rewrite Tp in T; discriminate T).
    repeat split; try congruence. rewrite Hf. reflexivity.
  - repeat split.
Qed.

(** Round trip.  For a message with valid fields and a maximum frame
    payload from 5 up to the largest value the four-byte length field
    can carry, [Send] on a writable connection emits frames which
    [ReadNext], on a connection with the same maximum, turns back into
    the message: same type and stream id, the same payload bytes, and
    for [message_payload] the same kind, format and data. *)
Theorem Send_ReadNext_roundtrip (cs cr : Conn) ctxs ctxr (m : Message) rest :
  validFields m ->
  5 <= maxFramePayload cs < 2 ^ 32 ->
  maxFramePayload cr = maxFramePayload cs ->
  writable (nc cs) ->
  closed (nc cr) = false ->
  exists cs' sent,
    Send cs ctxs m = Some (None, cs') /\
    tx (nc cs') = tx (nc cs) ++ sent /\
    (rx (nc cr) = sent ++ rest ->
     exists m' cr',
       ReadNext cr ctxr = Some (inl m', cr') /\
       sameMessage m m' /\ rx (nc cr') = rest).
Proof.
  intros Hv Hmax Hsame Hw Hc.
  destruct (Send_succeeds cs ctxs m Hv ltac:(lia) Hw) as (cs' & Hsend).
  destruct (Send_frames cs ctxs m cs' ltac:(lia) Hsend)
    as (frames & Htx & Hd & He & Ha).
  exists cs', (wire (MsgType m) (StreamID m) frames).
  split; [assumption|]. split; [assumption|].
  intros Hrx. unfold ReadNext.
  set (cx := ctxOrBackground ctxr).
  assert (Hr : receiving (applyReadContext cr cx) (maxFramePayload cs) /\
               rx (nc (applyReadContext cr cx)) = rx (nc cr)).
  { unfold applyReadContext. destruct (ctxDeadline cx);
      (split; [repeat split; (assumption || lia)|reflexivity]). }
  destruct Hr as [Hr Hrx'].
  assert (Hs : 0 <= StreamID m < 2 ^ 64).
  { destruct Hv as [(_ & -> & _) | [(_ & ->) | (_ & Hs & _)]]; lia. }
  rewrite <- Hrx' in Hrx.
  destruct (readBody_delivers (applyReadContext cr cx) cx (maxFramePayload cs)
                              m frames rest Ha Hs Hd He Hr Hrx)
    as (c' & E & R1 & _).
  rewrite E. exists (delivered m), (restoreReadDeadline c').
  split; [reflexivity|]. split; [apply sameMessage_delivered; assumption|].
  exact R1.
Qed.

End RoundTrip.
Import RoundTrip.

(* ================================================================== *)
(** * The flag discipline of [Send] *)
(* ================================================================== *)

Module FlagDiscipline.



End FlagDiscipline.
Import FlagDiscipline.

(* ================================================================== *)
(** * Agent identity *)
(* ================================================================== *)

Module IdentityFacts.
Import Auth.

Lemma round_length s kw : length s = 8%nat -> length (Sha256.round s kw) = 8%nat.
Proof.
  intros H.
  do 9 (destruct s as [|? s]; try discriminate H). reflexivity.
Qed.

Lemma rounds_length kws : forall s,
  length s = 8%nat -> length (fold_left Sha256.round kws s) = 8%nat.
Proof.
  induction kws as [|kw kws IH]; intros s H; [assumption|].
  cbn [fold_left]. apply IH, round_length, H.
Qed.

Lemma compress_length h block :
  length h = 8%nat -> length (Sha256.compress h block) = 8%nat.
Proof.
  intros H. unfold Sha256.compress.
  rewrite length_map, length_combine, rounds_length by assumption.
  rewrite H. reflexivity.
Qed.

Lemma blocks_length k : forall h data,
  length h = 8%nat -> length (Sha256.blocks k h data) = 8%nat.
Proof.
  induction k as [|k IH]; intros h data H; [assumption|].
  cbn [Sha256.blocks]. apply IH, compress_length, H.
Qed.

(** A SHA-256 digest has 32 bytes. *)
Lemma Sum256_length msg : length (Sha256.Sum256 msg) = 32%nat.
Proof.
  unfold Sha256.Sum256.
  pose proof (blocks_length (length (Sha256.pad msg) / 64) Sha256.H0
                            (Sha256.pad msg) eq_refl) as H.
  destruct (Sha256.blocks _ _ _) as [|a [|b [|c [|d [|e [|f [|g [|h [|? ?]]]]]]]]];
    try discriminate H.
  reflexivity.
Qed.

(** The two digits of every byte value, checked by running over all
    256 of them. *)
Lemma hex_digits_all :
  forallb (fun n =>
             let v := Z.of_nat n in
             match Hex.fromHexChar (Hex.digit (Z.shiftr v 4)),
                   Hex.fromHexChar (Hex.digit (Z.land v 0x0f)) with
             | Some hi, Some lo =>
               (Z.lor (Z.shiftl hi 4) lo =? v)
               && Hex.isLowerHex (Hex.digit (Z.shiftr v 4))
               && Hex.isLowerHex (Hex.digit (Z.land v 0x0f))
             | _, _ => false
             end) (seq 0 256) = true.
Proof. vm_compute. reflexivity. Qed.

Lemma hex_byte (b : byte) :
  exists hi lo,
    Hex.fromHexChar (Hex.digit (Z.shiftr (b2z b) 4)) = Some hi /\
    Hex.fromHexChar (Hex.digit (Z.land (b2z b) 0x0f)) = Some lo /\
    asByte (Z.lor (Z.shiftl hi 4) lo) = b /\
    Hex.isLowerHex (Hex.digit (Z.shiftr (b2z b) 4)) = true /\
    Hex.isLowerHex (Hex.digit (Z.land (b2z b) 0x0f)) = true.
Proof.
  pose proof (b2z_range b) as R.
  pose proof hex_digits_all as H. rewrite forallb_forall in H.
  specialize (H (Z.to_nat (b2z b))).
  rewrite Z2Nat.id in H by lia.
  assert (Hin : In (Z.to_nat (b2z b)) (seq 0 256)) by (apply in_seq; lia).
  specialize (H Hin). cbv zeta in H.
  destruct (Hex.fromHexChar (Hex.digit (Z.shiftr (b2z b) 4))) as [hi|];
    [|discriminate].
  destruct (Hex.fromHexChar (Hex.digit (Z.land (b2z b) 15))) as [lo|];
    [|discriminate].
  apply andb_true_iff in H. destruct H as [H H3].
  apply andb_true_iff in H. destruct H as [H1 H2].
  apply Z.eqb_eq in H1.
  exists hi, lo. repeat split; try assumption.
  rewrite H1. apply asByte_b2z.
Qed.

Lemma EncodeToString_length src :
  String.length (Hex.EncodeToString src) = (2 * length src)%nat.
Proof.
  induction src as [|b src IH]; [reflexivity|].
  cbn [Hex.EncodeToString String.length length]. rewrite IH. lia.
Qed.

Lemma EncodeToString_lower src :
  forallb Hex.isLowerHex (list_ascii_of_string (Hex.EncodeToString src)) = true.
Proof.
  induction src as [|b src IH]; [reflexivity|].
  destruct (hex_byte b) as (hi & lo & _ & _ & _ & H1 & H2).
  cbn [Hex.EncodeToString list_ascii_of_string forallb].
  rewrite H1, H2, IH. reflexivity.
Qed.

Lemma DecodeString_EncodeToString src :
  Hex.DecodeString (Hex.EncodeToString src) = Some src.
Proof.
  induction src as [|b src IH]; [reflexivity|].
  destruct (hex_byte b) as (hi & lo & H1 & H2 & H3 & _).
  cbn [Hex.EncodeToString Hex.DecodeString].
  rewrite H1, H2, IH, H3. reflexivity.
Qed.

(** C9.  For a 32-byte public key [agentIDFromPublicKey] returns, as a
    function of the key bytes alone, the 64 lower-case hexadecimal
    digits of the key's SHA-256 digest; for any other length it
    returns an error. *)
Theorem agentIDFromPublicKey_spec (pub : list byte) :
  (length pub = 32%nat ->
   exists id,
     agentIDFromPublicKey pub = inl id /\
     String.length id = 64%nat /\
     forallb Hex.isLowerHex (list_ascii_of_string id) = true /\
     Hex.DecodeString id = Some (Sha256.Sum256 pub)) /\
  (length pub <> 32%nat ->
   exists e, agentIDFromPublicKey pub = inr e).
Proof.
  unfold agentIDFromPublicKey, PublicKeySize. split.
  - intros H. rewrite H. cbn [Nat.eqb negb].
    exists (Hex.EncodeToString (Sha256.Sum256 pub)). split; [reflexivity|].
    split; [rewrite EncodeToString_length, Sum256_length; reflexivity|].
    split; [apply EncodeToString_lower | apply DecodeString_EncodeToString].
  - intros H. apply Nat.eqb_neq in H. rewrite H. cbn [negb]. eauto.
Qed.

End IdentityFacts.
Import IdentityFacts.

(* ================================================================== *)
(** * [Send] returns *)
(* ================================================================== *)

Module SendReturns.

Lemma fragmentLoop_returns maxp t sid : 0 < maxp ->
  forall fuel w remaining first,
    (length remaining <= fuel)%nat ->
    exists r, fragmentLoop fuel w maxp t sid remaining first = Some r.
Proof.
  intros Hm. induction fuel as [|fuel IH]; intros w remaining first Hf.
  - destruct remaining; [|cbn in Hf; lia]. eexists; reflexivity.
  - cbn [fragmentLoop].
    destruct (length remaining =? 0)%nat eqn:E0; [eauto|].
    assert (Hne : remaining <> []) by (intros ->; discriminate).
    pose proof (takeChunk_length maxp remaining Hm Hne) as (L1 & _ & _).
    destruct (encodeFrameTo _ _ _ _ _) as [[e|] w1]; [eauto|].
    apply IH. rewrite length_skipn. lia.
Qed.

(** With a positive frame limit [Send] always returns. *)
Lemma Send_returns c ctx m :
  0 < maxFramePayload c -> exists r, Send c ctx m = Some r.
Proof.
  intros Hm. unfold Send.
  set (c1 := applyWriteContext c (ctxOrBackground ctx)).
  assert (Hm1 : maxFramePayload c1 = maxFramePayload c).
  { unfold c1, applyWriteContext. destruct (ctxDeadline _); reflexivity. }
  rewrite Hm1.
  assert (exists r, sendSwitch (nc c1) (maxFramePayload c) m = Some r)
    as [[err w] ->]; [|eauto].
  unfold sendSwitch, sendWithFragmentation.
  repeat match goal with
         | |- context [if ?b then _ else _] => destruct b; eauto
         end.
  all: try (apply fragmentLoop_returns; [assumption|lia]).
  all: destruct (encodeFrameTo _ _ _ _ _) as [[e|] w1]; [eauto|];
    rewrite payloadLoop_fragmentLoop;
    apply fragmentLoop_returns; [assumption|lia].
Qed.

Lemma Send_max c ctx m r c' :
  Send c ctx m = Some (r, c') -> maxFramePayload c' = maxFramePayload c.
Proof.
  unfold Send.
  destruct (sendSwitch _ _ _) as [[e w]|]; [|discriminate].
  intros H. inversion H. cbn.
  unfold applyWriteContext. destruct (ctxDeadline _); reflexivity.
Qed.

End SendReturns.
Import SendReturns.

(* ================================================================== *)
(** * The server side of the handshake *)
(* ================================================================== *)

Module HandshakeFacts.
Import Auth SendReturns.

Section Server.

Context {jsonBegin : JSON authBegin} {jsonChallenge : JSON authChallenge}
        {jsonProof : JSON authProof} {jsonOK : JSON authOK}
        {jsonError : JSON authError} {jsonHeader : JSON header}
        {ext : Externals}.
Variable timeouts : Timeouts.

Lemma sendAuth_returns typ payload w :
  0 < maxFramePayload (connection w) ->
  exists r w1, sendAuth timeouts typ payload w = Some (r, w1) /\
               maxFramePayload (connection w1) = maxFramePayload (connection w) /\
               clock w1 = clock w /\ ticks w1 = S (ticks w).
Proof.
  intros Hm. unfold sendAuth, withTimeout, bind, timeNow. cbn.
  match goal with
  | |- context [Send ?c ?x ?m] =>
    destruct (Send_returns c x m Hm) as [[r c1] E];
      rewrite E; pose proof (Send_max _ _ _ _ _ E) as Hmax
  end.
  destruct r; eexists; eexists; (split; [reflexivity|]); cbn; auto.
Qed.

Lemma failAuth_failsWith {A : Type} code message w :
  0 < maxFramePayload (connection w) ->
  failsWith timeouts code message w (failAuth (A := A) timeouts code message w).
Proof.
  intros Hm.
  destruct (sendAuth_returns TypeAuthError (authErrorPayload code message) w Hm)
    as (r & w1 & E & _).
  exists r, w1. split; [assumption|]. split; [|reflexivity].
  unfold failAuth, discard, bind. fold (authErrorPayload code message).
  rewrite E. unfold authFailure.
  destruct (message =? EmptyString)%string; reflexivity.
Qed.

(** C2, as the code has it.  A proof whose [agent_id] differs from the
    one of [auth_begin] fails the handshake with [protocol_error]; a
    proof with that [agent_id] whose [challenge_id], [nonce] or
    [issued_at_ms] differs from the challenge fails it with
    [replayed_challenge].  Either way [auth_error] is sent best-effort
    and the connection is closed. *)
Theorem checkProof_binding agentID pub ch proof w :
  0 < maxFramePayload (connection w) ->
  (proof_AgentID proof <> agentID ->
   failsWith timeouts "protocol_error" "agent_id mismatch" w
             (checkProof timeouts agentID pub ch proof w)) /\
  (proof_AgentID proof = agentID ->
   proof_ChallengeID proof <> challenge_ChallengeID ch \/
   proof_Nonce proof <> challenge_Nonce ch \/
   proof_IssuedAtMS proof <> challenge_IssuedAtMS ch ->
   failsWith timeouts "replayed_challenge" EmptyString w
             (checkProof timeouts agentID pub ch proof w)).
Proof.
  intros Hm. unfold checkProof. split.
  - intros Hne. apply String.eqb_neq in Hne. rewrite Hne. cbn [negb].
    apply failAuth_failsWith. assumption.
  - intros He Hne. apply String.eqb_eq in He. rewrite He. cbn [negb].
    assert ((negb (proof_ChallengeID proof =? challenge_ChallengeID ch)%string
             || negb (proof_Nonce proof =? challenge_Nonce ch)%string
             || negb (proof_IssuedAtMS proof =? challenge_IssuedAtMS ch)) = true)
      as ->.
    { destruct Hne as [H | [H | H]].
      - apply String.eqb_neq in H. rewrite H. reflexivity.
      - apply String.eqb_neq in H. rewrite H. apply orb_true_iff. left.
        apply orb_true_r.
      - apply Z.eqb_neq in H. rewrite H. apply orb_true_r. }
    apply failAuth_failsWith. assumption.
Qed.

Lemma nowMS_eq w : nowMS w = Some (inl (nowMSat w), tick w).
Proof. reflexivity. Qed.

Lemma issueChallenge_mints w ch w' :
  issueChallenge timeouts w = Some (inl ch, w') ->
  challenge_IssuedAtMS ch = nowMSat w /\
  challenge_ExpiresAtMS ch = int64 (nowMSat w + challengeTTLms timeouts).
Proof.
  unfold issueChallenge, bind. rewrite nowMS_eq.
  unfold try.
  destruct (randomBytes 32 (tick w)) as [[[nb|e] w1]|]; [| |discriminate].
  2: { unfold failAuth, bind, discard, fail.
       destruct (sendAuth _ _ _ _) as [[? ?]|]; discriminate. }
  destruct (randomBytes 24 w1) as [[[cb|e] w2]|]; [| |discriminate].
  2: { unfold failAuth, bind, discard, fail.
       destruct (sendAuth _ _ _ _) as [[? ?]|]; discriminate. }
  unfold lift.
  destruct (mustMarshalJSON _) as [b|e]; [|discriminate].
  destruct (sendAuth _ _ _ _) as [[[u|e] w3]|]; [| |discriminate].
  - unfold ret. intros H. inversion H; subst. split; reflexivity.
  - unfold Close, bind, fail. discriminate.
Qed.

(** C8.  The challenge expires [challenge_ttl_ms] after it was issued,
    and a proof whose bound fields match is refused with
    [expired_challenge] exactly when the clock, read at the freshness
    check, is past that instant: the handshake only succeeds when
    [now_ms <= expires_at_ms]. *)
Theorem challenge_freshness :
  (forall w ch w',
      issueChallenge timeouts w = Some (inl ch, w') ->
      - 2 ^ 63 <= nowMSat w + challengeTTLms timeouts < 2 ^ 63 ->
      challenge_IssuedAtMS ch = nowMSat w /\
      challenge_ExpiresAtMS ch = challenge_IssuedAtMS ch + challengeTTLms timeouts) /\
  (forall agentID pub ch proof w,
      0 < maxFramePayload (connection w) ->
      boundFieldsMatch agentID ch proof ->
      (nowMSat w > challenge_ExpiresAtMS ch ->
       failsWith timeouts "expired_challenge" EmptyString (tick w)
                 (checkProof timeouts agentID pub ch proof w)) /\
      (forall w', checkProof timeouts agentID pub ch proof w = Some (inl tt, w') ->
                  nowMSat w <= challenge_ExpiresAtMS ch)).
Proof.
  split.
  - intros w ch w' H Hr.
    destruct (issueChallenge_mints _ _ _ H) as [E1 E2].
    split; [assumption|]. rewrite E2, E1.
    unfold int64 at 1. rewrite Z.mod_small by lia. lia.
  - intros agentID pub ch proof w Hm (B1 & B2 & B3 & B4).
    assert (Hcp : forall rest,
               checkProof timeouts agentID pub ch proof w = rest ->
               nowMSat w > challenge_ExpiresAtMS ch ->
               rest = failAuth timeouts "expired_challenge" EmptyString (tick w)).
    { intros rest <- Hgt. unfold checkProof.
      rewrite B1, B2, B3, B4, !String.eqb_refl, Z.eqb_refl. cbn [negb orb].
      unfold bind at 1. rewrite nowMS_eq. cbv beta iota.
      assert ((nowMSat w >? challenge_ExpiresAtMS ch) = true) as ->
        by (rewrite Z.gtb_ltb; apply Z.ltb_lt; lia).
      reflexivity. }
    split.
    + intros Hgt. rewrite (Hcp _ eq_refl Hgt).
      apply failAuth_failsWith. exact Hm.
    + intros w' Hok.
      destruct (Z.le_gt_cases (nowMSat w) (challenge_ExpiresAtMS ch)) as [|Hgt];
        [assumption|].
      rewrite (Hcp _ eq_refl (Z.lt_gt _ _ Hgt)) in Hok.
      destruct (failAuth_failsWith (A := unit) "expired_challenge" EmptyString (tick w) Hm)
        as (r & w1 & _ & E & _).
      rewrite E in Hok. discriminate.
Qed.

End Server.

End HandshakeFacts.
Import HandshakeFacts.

(* ================================================================== *)
(** * The theorems at concrete inputs *)
(* ================================================================== *)

Module Instances.
Import Auth.

Lemma New_maxFramePayload_pos w opts_n :
  0 < maxFramePayload (New w (map WithMaxFramePayloadBytes opts_n)).
Proof.
  unfold New.
  assert (H : forall c, 0 < maxFramePayload c ->
            0 < maxFramePayload (fold_left (fun c (opt : Option) => opt c)
                                           (map WithMaxFramePayloadBytes opts_n) c)).
  { induction opts_n as [|n ns IH]; intros c Hc; [assumption|].
    cbn [map fold_left]. apply IH. unfold WithMaxFramePayloadBytes.
    destruct (Z.gtb_spec n 0); cbn; lia. }
  apply H. cbn. unfold defaultMaxFramePayload. cbn. lia.
Qed.

(** C4 at a header that breaks several rules at once. *)
Lemma decodeFrameFrom_rejection_order_witness :
  rejects (endpoint (zeroHeader ++ hello)) 16 hello ErrBadMagic /\
  rejects (endpoint (badFlagsHeader ++ hello)) 16 hello ErrInvalidFlags.
Proof.
  split.
  - apply (decodeFrameFrom_rejection_order
             (endpoint (zeroHeader ++ hello)) 16 zeroHeader hello
             eq_refl eq_refl eq_refl eq_refl).
    left. vm_compute. discriminate.
  - apply (decodeFrameFrom_rejection_order
             (endpoint (badFlagsHeader ++ hello)) 16 badFlagsHeader hello
             eq_refl eq_refl eq_refl eq_refl).
    + intros [H|H]; vm_compute in H; congruence.
    + intros H; vm_compute in H; congruence.
    + intros H. apply H. vm_compute. auto.
    + exists 2. split; [lia|reflexivity].
Defined.

(** C5 at a first frame without START and at a continuation frame of
    another type. *)
Lemma ReadNext_fragmentation_errors_witness :
  (exists c', ReadNext (connOn (endpoint noStartFrame)) None
              = Some (inr (Joined ErrFragmentation), c') /\
              closed (nc c') = true) /\
  (exists c', ReadNext (connOn (endpoint mixedFrames)) None
              = Some (inr (Joined ErrFragmentation), c') /\
              closed (nc c') = true).
Proof.
  split.
  - eapply (proj1 (ReadNext_fragmentation_errors
                     (connOn (endpoint noStartFrame)) None)).
    + vm_compute. reflexivity.
    + reflexivity.
  - eapply (proj2 (ReadNext_fragmentation_errors
                     (connOn (endpoint mixedFrames)) None)).
    + vm_compute. reflexivity.
    + split; [discriminate|]. split; [reflexivity|].
      left. split; reflexivity.
    + apply middles_nil.
    + vm_compute. reflexivity.
    + left. discriminate.
Defined.

(** C6 at an opener on stream 7 whose payload has two bytes. *)
Lemma ReadNext_envelope_errors_witness :
  exists c', ReadNext (connOn (endpoint shortEnvelopeFrame)) None
             = Some (inr (Joined ErrEnvelope), c') /\
             closed (nc c') = true.
Proof.
  eapply (ReadNext_envelope_errors (connOn (endpoint shortEnvelopeFrame)) None).
  - vm_compute. reflexivity.
  - discriminate.
  - reflexivity.
  - discriminate.
  - left. cbn. lia.
Defined.

(** The envelope check is not reached for every [message_payload]
    opener: on stream 0 an opener with a short envelope is refused
    with an invalid stream id. *)
Lemma envelope_error_needs_stream_id :
  ~ (forall c ctx fr c1,
        readFrame (applyReadContext c (ctxOrBackground ctx)) (ctxOrBackground ctx)
        = (inl fr, c1) ->
        typ fr = TypeMessagePayload ->
        badEnvelope (payload fr) ->
        exists c', ReadNext c ctx = Some (inr (Joined ErrEnvelope), c') /\
                   closed (nc c') = true).
Proof.
  intros H.
  assert (E : exists fr c1,
             readFrame (applyReadContext (connOn (endpoint streamZeroFrame))
                                         (ctxOrBackground None))
                       (ctxOrBackground None) = (inl fr, c1) /\
             typ fr = TypeMessagePayload /\ badEnvelope (payload fr)).
  { eexists. eexists. split; [vm_compute; reflexivity|].
    split; [reflexivity|]. left. cbn. lia. }
  destruct E as (fr & c1 & E1 & E2 & E3).
  destruct (H _ _ _ _ E1 E2 E3) as (c' & E & _).
  vm_compute in E. discriminate E.
Qed.


(** C10 at a stream that opens with eighteen zero bytes: under a live
    context the bad magic closes the connection, under a cancelled one
    the cancellation is reported and the connection stays open. *)
Lemma ReadNext_done_context_leaves_open_witness :
  exists c0 c',
    ReadNext (connOn (endpoint zeroHeader)) (Some (notDone cancelled))
    = Some (inr (Joined ErrBadMagic), c0) /\
    ReadNext (connOn (endpoint zeroHeader)) (Some cancelled)
    = Some (inr (CtxError Canceled), c') /\
    closed (nc c') = false /\ closed (nc c0) = true.
Proof.
  assert (E : exists c0, ReadNext (connOn (endpoint zeroHeader))
                                  (Some (notDone cancelled))
                         = Some (inr (Joined ErrBadMagic), c0)).
  { eexists. vm_compute. reflexivity. }
  destruct E as [c0 E].
  destruct (ReadNext_done_context_leaves_open
              (connOn (endpoint zeroHeader)) cancelled Canceled
              (Joined ErrBadMagic) c0 eq_refl E eq_refl) as (c' & R & Hc & H0).
  exists c0, c'. split; [exact E|]. split; [exact R|]. split; [exact Hc|exact H0].
Defined.

(** Round trip of a fragmented request at a limit of 16 bytes. *)
Lemma Send_ReadNext_roundtrip_witness :
  exists cs' sent,
    Send (smallConn []) None request = Some (None, cs') /\
    tx (nc cs') = sent /\
    exists m' cr',
      ReadNext (smallConn (sent ++ hello)) None = Some (inl m', cr') /\
      sameMessage request m' /\ rx (nc cr') = hello.
Proof.
  destruct (Send_ReadNext_roundtrip
              (smallConn []) (smallConn (sentBy (smallConn []) request ++ hello))
              None None request hello)
    as (cs' & sent & S1 & S2 & S3).
  - right. right. repeat split; try reflexivity. cbn. auto.
  - split; vm_compute; congruence.
  - reflexivity.
  - split; reflexivity.
  - reflexivity.
  - exists cs', sent. split; [exact S1|]. split; [exact S2|].
    assert (Hs : sentBy (smallConn []) request = sent).
    { unfold sentBy. rewrite S1. exact S2. }
    rewrite Hs in S3. apply S3. reflexivity.
Defined.

(** C1 at a limit of 2^32 bytes.  [Send] emits [auth_begin] with its
    eleven payload bytes as one frame; [ReadNext] on a connection with
    the same limit compares the declared length with the limit cut
    down to 32 bits, which is zero, and refuses the frame. *)
Theorem roundtrip_fails_at_limit_2_32 :
  exists cs' cr',
    Send (hugeConn []) None authBeginMsg = Some (None, cs') /\
    ReadNext (hugeConn (tx (nc cs'))) None
    = Some (inr (Joined ErrFrameTooLarge), cr') /\
    closed (nc cr') = true.
Proof.
  eexists. eexists. split; [vm_compute; reflexivity|].
  split; vm_compute; reflexivity.
Qed.

(** [Send] never looks at the state of its context. *)
Lemma Send_ignores_done c ctx m :
  Send c (Some ctx) m = Send c (Some (notDone ctx)) m.
Proof. reflexivity. Qed.

(** C3 at a cancelled context and an endpoint whose I/O times out:
    [ReadNext] reports the cancellation, [Send] reports the timeout of
    the write. *)
Theorem Send_reports_io_error_when_cancelled :
  (exists c', ReadNext (connOn (stalled [])) (Some cancelled)
              = Some (inr (CtxError Canceled), c')) /\
  (exists c', Send (connOn (stalled [])) (Some cancelled) ping
              = Some (Some (IOError ErrTimeout), c')).
Proof.
  split; eexists; vm_compute; reflexivity.
Qed.

(** C9 at the all-zero key. *)
Lemma agentIDFromPublicKey_spec_witness :
  exists id,
    agentIDFromPublicKey zeroKey = inl id /\
    String.length id = 64%nat /\
    forallb Hex.isLowerHex (list_ascii_of_string id) = true /\
    Hex.DecodeString id = Some (Sha256.Sum256 zeroKey).
Proof.
  exact (proj1 (agentIDFromPublicKey_spec zeroKey) eq_refl).
Defined.

(** The scenarios of conn_test.go. *)
Example TestPingRoundTrip :
  echo (fun i => connOn (endpoint i)) ping = Some (inl ping).
Proof. vm_compute. reflexivity. Qed.

Example TestAuthFrameRoundTrip :
  echo (fun i => connOn (endpoint i)) authBeginJSON = Some (inl authBeginJSON).
Proof. vm_compute. reflexivity. Qed.

Example TestMessagePayloadRoundTrip :
  echo (fun i => connOn (endpoint i)) helloRequest = Some (inl helloRequest).
Proof. vm_compute. reflexivity. Qed.

Example TestMessagePayloadFragmentation :
  echo smallConn hundredBytes = Some (inl hundredBytes).
Proof. vm_compute. reflexivity. Qed.

Example TestUnknownTypeCloses :
  option_map (fun r => (fst r, closed (nc (snd r))))
             (ReadNext (connOn (endpoint unknownTypeFrame)) None)
  = Some (inr (Joined ErrUnknownType), true).
Proof. vm_compute. reflexivity. Qed.

Example TestContextCancelUnblocksRead :
  option_map fst (ReadNext (connOn (stalled [])) (Some cancelled))
  = Some (inr (CtxError Canceled)).
Proof. vm_compute. reflexivity. Qed.

(** The handshake run against a client with the registered key
    succeeds; with a challenge TTL of one millisecond the proof, which
    is checked three milliseconds after the challenge was issued, is
    refused as expired. *)
Example handshake_happy_path : serverRun defaultTimeouts = Some (inl tt).
Proof. vm_compute. reflexivity. Qed.

Example handshake_expired_challenge :
  serverRun (mkTimeouts (30 * Second) (5 * Second) (1 * Millisecond))
  = Some (inr (Errorf "auth failed: %s" ["expired_challenge"%string])).
Proof. vm_compute. reflexivity. Qed.

Example Sum256_abc :
  Hex.EncodeToString (Sha256.Sum256 (list_byte_of_string "abc"))
  = "ba7816bf8f01cfea414140de5dae2223b00361a396177a9cb410ff61f20015ad"%string.
Proof. vm_compute. reflexivity. Qed.

Example agentID_zeroKey :
  agentIDFromPublicKey zeroKey
  = inl "66687aadf862bd776c8fc18b8e9f8e20089714856ee233b3902a591d0d5f2925"%string.
Proof. vm_compute. reflexivity. Qed.

(** C2 at the proof of another agent and at a proof for another
    challenge. *)
Lemma checkProof_binding_witness :
  failsWith (jsonError := errorJSON) defaultTimeouts
            "protocol_error" "agent_id mismatch" (world (connOn (endpoint [])))
            (checkProof (jsonOK := okJSON) (jsonError := errorJSON)
                        (ext := laxExternals) defaultTimeouts
                        "alice" zeroKey sampleChallenge foreignProof
                        (world (connOn (endpoint [])))) /\
  failsWith (jsonError := errorJSON) defaultTimeouts
            "replayed_challenge" EmptyString (world (connOn (endpoint [])))
            (checkProof (jsonOK := okJSON) (jsonError := errorJSON)
                        (ext := laxExternals) defaultTimeouts
                        "alice" zeroKey sampleChallenge staleProof
                        (world (connOn (endpoint [])))).
Proof.
  split.
  - apply (proj1 (checkProof_binding (jsonOK := okJSON) (jsonError := errorJSON)
                   (ext := laxExternals) defaultTimeouts
                   "alice" zeroKey sampleChallenge foreignProof
                   (world (connOn (endpoint []))) eq_refl)).
    discriminate.
  - apply (proj2 (checkProof_binding (jsonOK := okJSON) (jsonError := errorJSON)
                   (ext := laxExternals) defaultTimeouts
                   "alice" zeroKey sampleChallenge staleProof
                   (world (connOn (endpoint []))) eq_refl)).
    + reflexivity.
    + left. discriminate.
Defined.

(** A proof with a foreign [agent_id] does not fail the handshake with
    [replayed_challenge]. *)
Lemma agent_id_mismatch_is_not_replayed_challenge :
  ~ (forall (jsonOK : JSON authOK) (jsonError : JSON authError)
            (ext : Externals) timeouts agentID pub ch proof w,
        0 < maxFramePayload (connection w) ->
        proof_AgentID proof <> agentID \/
        proof_ChallengeID proof <> challenge_ChallengeID ch \/
        proof_Nonce proof <> challenge_Nonce ch \/
        proof_IssuedAtMS proof <> challenge_IssuedAtMS ch ->
        failsWith timeouts "replayed_challenge" EmptyString w
                  (checkProof timeouts agentID pub ch proof w)).
Proof.
  intros H.
  assert (Hne : proof_AgentID foreignProof <> "alice"%string) by discriminate.
  destruct (H okJSON errorJSON laxExternals defaultTimeouts
              "alice"%string zeroKey sampleChallenge foreignProof
              (world (connOn (endpoint []))) eq_refl (or_introl Hne))
    as (r & w1 & _ & E & _).
  apply (f_equal (option_map fst)) in E.
  vm_compute in E. discriminate E.
Qed.

(** C8 at a fresh world and at a challenge that has expired. *)
Lemma challenge_freshness_witness :
  (exists ch w',
      issueChallenge (jsonChallenge := challengeJSON) (jsonError := errorJSON)
                     (ext := laxExternals) defaultTimeouts
                     (world (connOn (endpoint []))) = Some (inl ch, w') /\
      challenge_IssuedAtMS ch = 1700000000000 /\
      challenge_ExpiresAtMS ch = challenge_IssuedAtMS ch + 30000) /\
  failsWith (jsonError := errorJSON) defaultTimeouts "expired_challenge" EmptyString
            (tick (world (connOn (endpoint []))))
            (checkProof (jsonOK := okJSON) (jsonError := errorJSON)
                        (ext := laxExternals) defaultTimeouts
                        "alice" zeroKey expiredChallenge goodProof
                        (world (connOn (endpoint [])))).
Proof.
  pose proof (challenge_freshness (jsonChallenge := challengeJSON)
                (jsonOK := okJSON) (jsonError := errorJSON)
                (ext := laxExternals) defaultTimeouts) as [Hmint Hfresh].
  split.
  - assert (E : exists ch w',
               issueChallenge (jsonChallenge := challengeJSON)
                              (jsonError := errorJSON) (ext := laxExternals)
                              defaultTimeouts (world (connOn (endpoint [])))
               = Some (inl ch, w')).
    { eexists. eexists. vm_compute. reflexivity. }
    destruct E as (ch & w' & E).
    exists ch, w'. split; [exact E|].
    assert (Hrange : - 2 ^ 63 <= nowMSat (world (connOn (endpoint [])))
                                 + challengeTTLms defaultTimeouts < 2 ^ 63).
    { vm_compute. split; [discriminate | reflexivity]. }
    destruct (Hmint (world (connOn (endpoint []))) ch w' E Hrange) as [H1 H2].
    split; [exact H1 | exact H2].
  - apply (Hfresh "alice"%string zeroKey expiredChallenge goodProof
                  (world (connOn (endpoint []))) eq_refl).
    + repeat split.
    + vm_compute. reflexivity.
Defined.

End Instances.
Import Instances.

(* ================================================================== *)
(** * [New] and its options *)
(* ================================================================== *)

Module Construction.

Lemma New_app w opts1 opts2 :
  New w (opts1 ++ opts2) = fold_left (fun c (opt : Option) => opt c) opts2 (New w opts1).
Proof. unfold New. apply fold_left_app. Qed.

Lemma New_nc w ns : nc (New w (map WithMaxFramePayloadBytes ns)) = w.
Proof.
  unfold New.
  assert (H : forall c, nc (fold_left (fun c (opt : Option) => opt c)
                                      (map WithMaxFramePayloadBytes ns) c) = nc c).
  { induction ns as [|n ns IH]; intros c; [reflexivity|].
    cbn [map fold_left]. rewrite IH. unfold WithMaxFramePayloadBytes.
    destruct (n >? 0); reflexivity. }
  rewrite H. reflexivity.
Qed.

(** X1.  [New] wraps the endpoint it is given and starts from a limit
    of 16 MiB; an option [WithMaxFramePayloadBytes n] replaces the
    limit if [n] is positive and leaves it alone otherwise, so the
    limit of a connection is positive whatever options it was built
    with. *)
Theorem New_options (w : netConn) (ns : list Z) (n : Z) :
  nc (New w (map WithMaxFramePayloadBytes ns)) = w /\
  maxFramePayload (New w []) = 16 * 1024 * 1024 /\
  0 < maxFramePayload (New w (map WithMaxFramePayloadBytes ns)) /\
  (0 < n ->
   maxFramePayload (New w (map WithMaxFramePayloadBytes (ns ++ [n]))) = n) /\
  (n <= 0 ->
   maxFramePayload (New w (map WithMaxFramePayloadBytes (ns ++ [n])))
   = maxFramePayload (New w (map WithMaxFramePayloadBytes ns))).
Proof.
  split; [apply New_nc|]. split; [reflexivity|].
  split; [apply New_maxFramePayload_pos|].
  rewrite map_app, New_app. cbn [map fold_left]. unfold WithMaxFramePayloadBytes.
  split; intros Hn.
  - assert ((n >? 0) = true) as -> by (rewrite Z.gtb_ltb; apply Z.ltb_lt; lia).
    reflexivity.
  - assert ((n >? 0) = false) as -> by (rewrite Z.gtb_ltb; apply Z.ltb_ge; lia).
    reflexivity.
Qed.

End Construction.
Import Construction.

(* ================================================================== *)
(** * Big-endian integers read back *)
(* ================================================================== *)

Module CodecInverse.

Lemma asByte_of (v : Z) (b : byte) : v mod 256 = b2z b -> asByte v = b.
Proof.
  intros H. rewrite <- (asByte_b2z b). unfold asByte. rewrite H.
  rewrite Z.mod_small by apply b2z_range. reflexivity.
Qed.

Lemma base256_mod (lo hi : Z) : 0 <= lo < 256 -> (lo + 256 * hi) mod 256 = lo.
Proof.
  intros H. replace (lo + 256 * hi) with (lo + hi * 256) by lia.
  rewrite Z.mod_add by lia. apply Z.mod_small. assumption.
Qed.

Lemma base256_div (lo hi : Z) : 0 <= lo < 256 -> (lo + 256 * hi) / 256 = hi.
Proof.
  intros H. replace (lo + 256 * hi) with (lo + hi * 256) by lia.
  rewrite Z.div_add by lia. rewrite Z.div_small by assumption. lia.
Qed.

Ltac peel :=
  repeat match goal with
         | |- context [(?lo + 256 * ?hi) / 256] =>
           rewrite (base256_div lo hi) by apply b2z_range
         | |- context [(?lo + 256 * ?hi) mod 256] =>
           rewrite (base256_mod lo hi) by apply b2z_range
         end.

Lemma PutUint16_Uint16 (b0 b1 : byte) : PutUint16 (Uint16 [b0; b1]) = [b0; b1].
Proof.
  rewrite Uint16_bytes. unfold PutUint16. rewrite shiftr_8.
  repeat (apply (f_equal2 cons); [apply asByte_of; peel;
                    try reflexivity; apply Z.mod_small, b2z_range|]).
  reflexivity.
Qed.

Lemma PutUint32_Uint32 (b0 b1 b2 b3 : byte) :
  PutUint32 (Uint32 [b0; b1; b2; b3]) = [b0; b1; b2; b3].
Proof.
  rewrite Uint32_bytes. unfold PutUint32.
  change 24 with (8 + (8 + 8)). change 16 with (8 + 8).
  rewrite !shiftr_step, shiftr_8 by lia.
  repeat (apply (f_equal2 cons); [apply asByte_of; peel;
                    try reflexivity; apply Z.mod_small, b2z_range|]).
  reflexivity.
Qed.

Lemma PutUint64_Uint64 (b0 b1 b2 b3 b4 b5 b6 b7 : byte) :
  PutUint64 (Uint64 [b0; b1; b2; b3; b4; b5; b6; b7])
  = [b0; b1; b2; b3; b4; b5; b6; b7].
Proof.
  rewrite Uint64_bytes. unfold PutUint64.
  change 56 with (8 + (8 + (8 + (8 + (8 + (8 + 8)))))).
  change 48 with (8 + (8 + (8 + (8 + (8 + 8))))).
  change 40 with (8 + (8 + (8 + (8 + 8)))).
  change 32 with (8 + (8 + (8 + 8))).
  change 24 with (8 + (8 + 8)). change 16 with (8 + 8).
  rewrite !shiftr_step, shiftr_8 by lia.
  repeat (apply (f_equal2 cons); [apply asByte_of; peel;
                    try reflexivity; apply Z.mod_small, b2z_range|]).
  reflexivity.
Qed.

End CodecInverse.
Import CodecInverse.

(* ================================================================== *)
(** * What [decodeFrameFrom] accepts *)
(* ================================================================== *)

Module DecodeFacts.
Import CodecInverse.

Lemma ReadFull_ok r n bs r' :
  ReadFull r n = (bs, None, r') ->
  length bs = n /\ rx r = bs ++ rx r' /\ r' = set_rx r (rx r') /\
  (n <> O -> closed r = false).
Proof.
  unfold ReadFull. destruct n as [|n].
  - intros H. injection H as <- <-. destruct r; repeat split; tauto.
  - remember (S n) as k eqn:Ek.
    destruct (closed r); [discriminate|].
    destruct (Nat.leb_spec k (length (rx r))) as [Hle|Hgt]; [|discriminate].
    intros H. injection H as <- <-. cbn [rx set_rx].
    split; [rewrite length_firstn; lia|].
    split; [symmetry; apply firstn_skipn|]. split; reflexivity.
Qed.

Lemma ldiff_flags (f : Z) :
  0 <= f -> (Z.ldiff f (Z.lor flagStart flagEnd) =? 0) = true ->
  In f [0; flagStart; flagEnd; startEndFlags].
Proof.
  intros Hf H. destruct (flags_ok_cases f Hf H) as [-> | [-> | [-> | ->]]];
    cbn; auto.
Qed.

(** What [decodeFrameFrom] has checked about a frame it returns, and
    the bytes it took for it. *)
Lemma decodeFrameFrom_fields r maxp fr r' :
  decodeFrameFrom r maxp = (inl fr, r') ->
  isKnownType (typ fr) = true /\
  In (flags fr) [0; flagStart; flagEnd; startEndFlags] /\
  0 <= streamID fr < 2 ^ 64 /\
  payloadLn fr = Z.of_nat (length (payload fr)) /\
  payloadLn fr <= uint32 maxp /\
  closed r = false /\
  rx r = frameBytes (typ fr) (flags fr) (streamID fr) (payload fr) ++ rx r' /\
  r' = set_rx r (rx r').
Proof.
  unfold decodeFrameFrom.
  destruct (ReadFull r headerLen) as [[hdr e] r1] eqn:E1.
  destruct e as [e|]; [discriminate|].
  apply ReadFull_ok in E1. destruct E1 as (Lh & Hrx & Hr1 & Hc).
  specialize (Hc ltac:(discriminate)).
  do 18 (destruct hdr as [|? hdr]; [discriminate Lh|]).
  destruct hdr; [|discriminate Lh]. clear Lh.
  unfold idx, slice. cbn [nth skipn firstn Nat.sub].
  destruct (negb (b2z b =? v1Magic0) || negb (b2z b0 =? v1Magic1)) eqn:Em;
    [discriminate|].
  apply orb_false_iff in Em. destruct Em as [M0 M1].
  apply negb_false_iff, Z.eqb_eq in M0, M1.
  destruct (Z.eqb_spec (b2z b1) v1Version) as [V|]; [|discriminate].
  cbn [negb].
  destruct (isKnownType (b2z b2)) eqn:K; [|discriminate]. cbn [negb].
  destruct (Z.ldiff (Uint16 [b3; b4]) (Z.lor flagStart flagEnd) =? 0) eqn:F;
    [|discriminate].
  cbn [negb].
  destruct (Z.gtb_spec (Uint32 [b13; b14; b15; b16]) (uint32 maxp)) as [|Hmax];
    [discriminate|].
  assert (R16 : 0 <= Uint16 [b3; b4]).
  { rewrite Uint16_bytes. pose proof (b2z_range b3). pose proof (b2z_range b4). lia. }
  assert (R32 : 0 <= Uint32 [b13; b14; b15; b16] < 2 ^ 32).
  { rewrite <- (PutUint32_Uint32 b13 b14 b15 b16) at 1 2.
    rewrite Uint32_PutUint32. apply Z.mod_pos_bound. lia. }
  assert (R64 : 0 <= Uint64 [b5; b6; b7; b8; b9; b10; b11; b12] < 2 ^ 64).
  { rewrite <- (PutUint64_Uint64 b5 b6 b7 b8 b9 b10 b11 b12) at 1 2.
    rewrite Uint64_PutUint64. apply Z.mod_pos_bound. lia. }
  assert (Hhdr : forall p,
             Z.of_nat (length p) = Uint32 [b13; b14; b15; b16] ->
             header (b2z b2) (Uint16 [b3; b4])
                    (Uint64 [b5; b6; b7; b8; b9; b10; b11; b12]) p
             = [b; b0; b1; b2; b3; b4; b5; b6; b7; b8; b9; b10; b11; b12;
                b13; b14; b15; b16]).
  { intros p Hp. unfold header. rewrite Hp.
    unfold uint32. rewrite Z.mod_small by assumption.
    rewrite PutUint16_Uint16, PutUint64_Uint64, PutUint32_Uint32.
    rewrite <- M0, <- M1, <- V, !asByte_b2z. reflexivity. }
  destruct (Z.gtb_spec (Uint32 [b13; b14; b15; b16]) 0) as [Hpos|Hzero].
  - destruct (ReadFull r1 _) as [[p e2] r2] eqn:E2.
    destruct e2 as [e2|]; [discriminate|].
    apply ReadFull_ok in E2. destruct E2 as (Lp & Hrx2 & Hr2 & _).
    intros H. injection H as <- <-. cbn [typ flags streamID payload payloadLn].
    assert (Hp : Z.of_nat (length p) = Uint32 [b13; b14; b15; b16])
      by (rewrite Lp; lia).
    repeat split; try assumption; try lia.
    + apply ldiff_flags; assumption.
    + unfold frameBytes. rewrite (Hhdr p Hp), Hrx.
      rewrite <- app_assoc. f_equal. congruence.
    + rewrite Hr2, Hr1. reflexivity.
  - intros H. injection H as <- <-. cbn [typ flags streamID payload payloadLn].
    assert (Hp : Z.of_nat (@length byte []) = Uint32 [b13; b14; b15; b16])
      by (cbn [length]; lia).
    repeat split; try assumption; try lia.
    + apply ldiff_flags; assumption.
    + unfold frameBytes. rewrite (Hhdr [] Hp), Hrx, app_nil_r. reflexivity.
Qed.

End DecodeFacts.
Import DecodeFacts.

(* ================================================================== *)
(** * The frame codec, both ways *)
(* ================================================================== *)

Module CodecRoundTrip.
Import DecodeFacts.

(** X2.  A frame written by [encodeFrameTo] takes eighteen bytes plus
    its payload, and [decodeFrameFrom] reads it back field by field
    and leaves the bytes behind it on the stream, provided the type is
    known, the flags are within START|END, the stream id fits 64 bits
    and the payload is within a limit below 2^32. *)
Theorem encodeFrameTo_decodeFrameFrom
        (w r : netConn) (maxp typ flags sid : Z) (p rest : list byte) :
  writable w -> closed r = false ->
  isKnownType typ = true ->
  In flags [0; flagStart; flagEnd; startEndFlags] ->
  0 <= sid < 2 ^ 64 ->
  Z.of_nat (length p) <= maxp < 2 ^ 32 ->
  exists w' sent,
    encodeFrameTo w typ flags sid p = (None, w') /\
    tx w' = tx w ++ sent /\
    length sent = (18 + length p)%nat /\
    (rx r = sent ++ rest ->
     decodeFrameFrom r maxp
     = (inl (mkFrame typ flags sid p (Z.of_nat (length p))), set_rx r rest)).
Proof.
  intros [Hc Hroom] Hr Hk Hf Hs Hl.
  exists (set_tx w (tx w ++ frameBytes typ flags sid p) None),
         (frameBytes typ flags sid p).
  split; [apply encodeFrameTo_open; assumption|].
  split; [reflexivity|]. split.
  - unfold frameBytes. rewrite length_app, header_length. reflexivity.
  - intros Hrx. apply decode_frameBytes; try assumption; try lia.
    + cbn [In] in Hf. intuition.
    + unfold uint32. rewrite Z.mod_small by lia. lia.
Qed.

(** X3.  A frame [decodeFrameFrom] returns has a known type, flags
    within START|END, a stream id below 2^64 and a payload of the
    declared length, which is at most the limit cut to 32 bits; and
    writing that frame with [encodeFrameTo] reproduces exactly the
    bytes that were read for it. *)
Theorem decodeFrameFrom_encodeFrameTo
        (r r' w : netConn) (maxp : Z) (fr : frame) :
  decodeFrameFrom r maxp = (inl fr, r') ->
  writable w ->
  isKnownType (typ fr) = true /\
  In (flags fr) [0; flagStart; flagEnd; startEndFlags] /\
  0 <= streamID fr < 2 ^ 64 /\
  Z.of_nat (length (payload fr)) = payloadLn fr /\
  payloadLn fr <= uint32 maxp /\
  exists consumed,
    rx r = consumed ++ rx r' /\
    encodeFrameTo w (typ fr) (flags fr) (streamID fr) (payload fr)
    = (None, set_tx w (tx w ++ consumed) None).
Proof.
  intros Hd [Hc Hroom].
  destruct (decodeFrameFrom_fields _ _ _ _ Hd)
    as (Hk & Hf & Hs & Hl & Hm & _ & Hrx & _).
  repeat (split; [assumption || (symmetry; assumption) || lia|]).
  exists (frameBytes (typ fr) (flags fr) (streamID fr) (payload fr)).
  split; [assumption|]. apply encodeFrameTo_open; assumption.
Qed.

End CodecRoundTrip.
Import CodecRoundTrip.

(* ================================================================== *)
(** * What [Send] refuses *)
(* ================================================================== *)

Module SendChecks.

Lemma applyWriteContext_restore c ctx w :
  restoreWriteDeadline (with_nc (applyWriteContext c ctx) w)
  = restoreWriteDeadline (with_nc c w).
Proof. unfold applyWriteContext. destruct (ctxDeadline ctx); reflexivity. Qed.

Lemma restore_apply c ctx :
  restoreWriteDeadline (with_nc (applyWriteContext c ctx) (nc (applyWriteContext c ctx)))
  = untouched c.
Proof.
  unfold applyWriteContext, untouched, restoreWriteDeadline, with_nc.
  destruct (ctxDeadline ctx); reflexivity.
Qed.

(** [Send] in terms of its switch, when the switch wrote nothing. *)
Lemma Send_refused c ctx m e :
  (forall w, sendSwitch w (maxFramePayload c) m = Some (Some e, w)) ->
  refusal c ctx (Send c ctx m) e.
Proof.
  intros H. exists (untouched c). split; [|repeat split].
  unfold Send.
  assert (Hm : maxFramePayload (applyWriteContext c (ctxOrBackground ctx))
               = maxFramePayload c)
    by (unfold applyWriteContext; destruct (ctxDeadline _); reflexivity).
  rewrite Hm, H, restore_apply. reflexivity.
Qed.

Lemma not_auth_ping t :
  t = TypePing \/ t = TypePong -> isAuthType t = false /\ (t =? TypeMessagePayload) = false.
Proof. intros [-> | ->]; split; reflexivity. Qed.

(** X4.  The messages [Send] refuses, each with its error and without
    writing a byte, reading or closing: a ping or pong with a stream
    id or with payload or data, an auth message with a stream id, a
    [message_payload] on stream 0, with a format other than 0, with a
    kind outside 1..3, or on a connection whose limit is below the four
    envelope bytes, and any message of an unknown type. *)
Theorem Send_validation (c : Conn) (ctx : option context) (m : Message) :
  let refused e := refusal c ctx (Send c ctx m) e in
  (MsgType m = TypePing \/ MsgType m = TypePong ->
   StreamID m <> 0 -> refused (Joined ErrInvalidStreamID)) /\
  (MsgType m = TypePing \/ MsgType m = TypePong ->
   StreamID m = 0 -> Payload m <> [] \/ Data m <> [] ->
   refused (Wrapped "ping/pong payload must be empty" None)) /\
  (isAuthType (MsgType m) = true ->
   StreamID m <> 0 -> refused (Joined ErrInvalidStreamID)) /\
  (MsgType m = TypeMessagePayload ->
   StreamID m = 0 -> refused (Joined ErrInvalidStreamID)) /\
  (MsgType m = TypeMessagePayload -> StreamID m <> 0 ->
   Format m <> 0 ->
   refused (Wrapped "unsupported payload format" (Some (Format m)))) /\
  (MsgType m = TypeMessagePayload -> StreamID m <> 0 -> Format m = 0 ->
   ~ In (Kind m) [PayloadKindRequest; PayloadKindResponse; PayloadKindOneway] ->
   refused (Wrapped "unsupported payload kind" (Some (Kind m)))) /\
  (MsgType m = TypeMessagePayload -> StreamID m <> 0 -> Format m = 0 ->
   In (Kind m) [PayloadKindRequest; PayloadKindResponse; PayloadKindOneway] ->
   maxFramePayload c < 4 ->
   refused (Wrapped "maxFramePayload too small for envelope" None)) /\
  (isKnownType (MsgType m) = false -> refused (Joined ErrUnknownType)).
Proof.
  cbv zeta.
  repeat split.
  - intros Ht Hs. apply Send_refused. intros w. unfold sendSwitch.
    assert (((MsgType m =? TypePing) || (MsgType m =? TypePong)) = true) as ->
      by (destruct Ht as [-> | ->]; reflexivity).
    apply Z.eqb_neq in Hs. rewrite Hs. reflexivity.
  - intros Ht Hs Hp. apply Send_refused. intros w. unfold sendSwitch.
    assert (((MsgType m =? TypePing) || (MsgType m =? TypePong)) = true) as ->
      by (destruct Ht as [-> | ->]; reflexivity).
    rewrite Hs. cbn [Z.eqb negb].
    assert ((negb (length (Payload m) =? 0)%nat
             || negb (length (Data m) =? 0)%nat) = true) as ->; [|reflexivity].
    destruct Hp as [Hp|Hp].
    + destruct (Payload m); [contradiction|reflexivity].
    + destruct (Data m); [contradiction|]. apply orb_true_r.
  - intros Ht Hs. apply Send_refused. intros w. unfold sendSwitch.
    assert (((MsgType m =? TypePing) || (MsgType m =? TypePong)) = false) as ->.
    { unfold isAuthType in Ht.
      repeat (apply orb_true_iff in Ht; destruct Ht as [Ht|Ht]);
        apply Z.eqb_eq in Ht; rewrite Ht; reflexivity. }
    rewrite Ht. apply Z.eqb_neq in Hs. rewrite Hs. reflexivity.
  - intros Ht Hs. apply Send_refused. intros w. unfold sendSwitch.
    rewrite Ht, Hs. reflexivity.
  - intros Ht Hs Hf. apply Send_refused. intros w. unfold sendSwitch.
    rewrite Ht. apply Z.eqb_neq in Hs, Hf.
    change ((TypeMessagePayload =? TypePing) || (TypeMessagePayload =? TypePong))
      with false.
    change (isAuthType TypeMessagePayload) with false.
    change (TypeMessagePayload =? TypeMessagePayload) with true. cbv iota.
    rewrite Hs, Hf. unfold PayloadFormatOpaqueBytes. rewrite Hf. reflexivity.
  - intros Ht Hs Hf Hk. apply Send_refused. intros w. unfold sendSwitch.
    rewrite Ht, Hf. apply Z.eqb_neq in Hs.
    change ((TypeMessagePayload =? TypePing) || (TypeMessagePayload =? TypePong))
      with false.
    change (isAuthType TypeMessagePayload) with false.
    change (TypeMessagePayload =? TypeMessagePayload) with true. cbv iota.
    rewrite Hs. cbn [Z.eqb]. cbv iota.
    change (negb (PayloadFormatOpaqueBytes =? PayloadFormatOpaqueBytes)) with false.
    cbv iota.
    assert ((negb (Kind m =? PayloadKindRequest)
             && negb (Kind m =? PayloadKindResponse)
             && negb (Kind m =? PayloadKindOneway)) = true) as ->; [|reflexivity].
    cbn [In] in Hk.
    destruct (Z.eqb_spec (Kind m) PayloadKindRequest); [intuition congruence|].
    destruct (Z.eqb_spec (Kind m) PayloadKindResponse); [intuition congruence|].
    destruct (Z.eqb_spec (Kind m) PayloadKindOneway); [intuition congruence|].
    reflexivity.
  - intros Ht Hs Hf Hk Hm. apply Send_refused. intros w. unfold sendSwitch.
    rewrite Ht, Hf. apply Z.eqb_neq in Hs.
    change ((TypeMessagePayload =? TypePing) || (TypeMessagePayload =? TypePong))
      with false.
    change (isAuthType TypeMessagePayload) with false.
    change (TypeMessagePayload =? TypeMessagePayload) with true. cbv iota.
    rewrite Hs. cbn [Z.eqb]. cbv iota.
    change (negb (PayloadFormatOpaqueBytes =? PayloadFormatOpaqueBytes)) with false.
    cbv iota.
    assert ((negb (Kind m =? PayloadKindRequest)
             && negb (Kind m =? PayloadKindResponse)
             && negb (Kind m =? PayloadKindOneway)) = false) as ->.
    { cbn [In] in Hk. destruct Hk as [<- | [<- | [<- | []]]]; reflexivity. }
    cbn [length]. change (Z.of_nat 4) with 4.
    assert ((4 >? maxFramePayload c) = true) as ->
      by (rewrite Z.gtb_ltb; apply Z.ltb_lt; lia).
    reflexivity.
  - intros Hk. apply Send_refused. intros w. unfold sendSwitch.
    assert (((MsgType m =? TypePing) || (MsgType m =? TypePong)) = false) as ->.
    { destruct (Z.eqb_spec (MsgType m) TypePing) as [E|];
        [rewrite E in Hk; discriminate|].
      destruct (Z.eqb_spec (MsgType m) TypePong) as [E|];
        [rewrite E in Hk; discriminate|]. reflexivity. }
    assert (isAuthType (MsgType m) = false) as ->.
    { destruct (isAuthType (MsgType m)) eqn:Ha; [|reflexivity].
      unfold isAuthType in Ha.
      repeat (apply orb_true_iff in Ha; destruct Ha as [Ha|Ha]);
        apply Z.eqb_eq in Ha; rewrite Ha in Hk; discriminate. }
    destruct (Z.eqb_spec (MsgType m) TypeMessagePayload) as [E|];
      [rewrite E in Hk; discriminate|]. reflexivity.
Qed.

End SendChecks.
Import SendChecks.

(* ================================================================== *)
(** * [Send] only writes *)
(* ================================================================== *)

Module SendEffects.

Lemma writesOnly_refl w : writesOnly w w.
Proof.
  repeat split; [exact (fun H => H)|]. exists []. symmetry. apply app_nil_r.
Qed.

Lemma writesOnly_trans w1 w2 w3 :
  writesOnly w1 w2 -> writesOnly w2 w3 -> writesOnly w1 w3.
Proof.
  intros (A1 & A2 & A3 & A4 & A5 & A6 & Ar & m1 & A7)
         (B1 & B2 & B3 & B4 & B5 & B6 & Br & m2 & B7).
  repeat split; try congruence; [auto|].
  exists (m1 ++ m2). rewrite B7, A7, app_assoc. reflexivity.
Qed.

Lemma Write_writesOnly w p e w' : Write w p = (e, w') -> writesOnly w w'.
Proof.
  unfold Write. destruct (closed w) eqn:Hc.
  - intros H. injection H as <- <-. apply writesOnly_refl.
  - destruct (tx_room w) as [room|] eqn:Er.
    + assert (Hr : tx_room w = None -> forall x : option nat, x = None)
        by (rewrite Er; discriminate).
      destruct (length p <=? room)%nat; intros H; injection H as <- <-;
        unfold writesOnly; cbn [set_tx rx rx_end tx_fail closed readDeadline
                                writeDeadline tx tx_room];
        repeat split; try assumption; try (intros Hn; apply (Hr Hn)); eauto.
    + intros H; injection H as <- <-.
      unfold writesOnly; cbn [set_tx rx rx_end tx_fail closed readDeadline
                              writeDeadline tx tx_room].
      repeat split; try assumption; eauto.
Qed.

Lemma encodeFrameTo_writesOnly w t f s p e w' :
  encodeFrameTo w t f s p = (e, w') -> writesOnly w w'.
Proof.
  unfold encodeFrameTo.
  destruct (Write w (header t f s p)) as [[e1|] w1] eqn:E1;
    apply Write_writesOnly in E1.
  - intros H. injection H as <- <-. assumption.
  - destruct (length p =? 0)%nat.
    + intros H. injection H as <- <-. assumption.
    + destruct (Write w1 p) as [[e2|] w2] eqn:E2;
        apply Write_writesOnly in E2;
        intros H; injection H as <- <-;
        eapply writesOnly_trans; eassumption.
Qed.

Lemma fragmentLoop_writesOnly maxp t s fuel :
  forall w remaining first e w',
    fragmentLoop fuel w maxp t s remaining first = Some (e, w') ->
    writesOnly w w'.
Proof.
  induction fuel as [|fuel IH]; intros w remaining first e w'; cbn [fragmentLoop].
  - destruct (length remaining =? 0)%nat; [|discriminate].
    intros H. injection H as <- <-. apply writesOnly_refl.
  - destruct (length remaining =? 0)%nat.
    { intros H. injection H as <- <-. apply writesOnly_refl. }
    destruct (encodeFrameTo _ _ _ _ _) as [[e1|] w1] eqn:E1;
      apply encodeFrameTo_writesOnly in E1.
    + intros H. injection H as <- <-. assumption.
    + intros H. apply IH in H. eapply writesOnly_trans; eassumption.
Qed.

(** A protocol-class error of the switch means that it wrote nothing. *)
Lemma sendSwitch_effects w maxp m e w' :
  sendSwitch w maxp m = Some (e, w') ->
  writesOnly w w' /\
  (forall err, e = Some err -> isProtocolErr err = true -> w' = w) /\
  (forall err, e = Some err -> isProtocolErr err = false ->
               exists io, err = IOError io).
Proof.
  unfold sendSwitch, sendWithFragmentation.
  assert (Hrefuse : forall err,
             isProtocolErr err = true ->
             Some (Some err, w) = Some (e, w') ->
             writesOnly w w' /\
             (forall err, e = Some err -> isProtocolErr err = true -> w' = w) /\
             (forall err, e = Some err -> isProtocolErr err = false ->
                          exists io, err = IOError io)).
  { intros err Hp H. injection H as <- <-. split; [apply writesOnly_refl|].
    split; [reflexivity|]. intros err' H'. injection H' as <-. congruence. }
  assert (Hio : forall (r : option error * netConn),
             (forall err, fst r = Some err -> exists io, err = IOError io) ->
             writesOnly w (snd r) ->
             Some r = Some (e, w') ->
             writesOnly w w' /\
             (forall err, e = Some err -> isProtocolErr err = true -> w' = w) /\
             (forall err, e = Some err -> isProtocolErr err = false ->
                          exists io, err = IOError io)).
  { intros r Hr Hw H. injection H as ->. cbn [fst snd] in *.
    split; [assumption|]. split.
    - intros err -> Hp. destruct (Hr err eq_refl) as [io ->]. discriminate.
    - intros err -> _. apply Hr. reflexivity. }
  assert (Henc : forall w0 t f s p,
             forall err, fst (encodeFrameTo w0 t f s p) = Some err ->
                         exists io, err = IOError io).
  { intros w0 t f s p err. unfold encodeFrameTo.
    destruct (Write w0 _) as [[e1|] w1]; [cbn; intros [= <-]; eauto|].
    destruct (length p =? 0)%nat; [discriminate|].
    destruct (Write w1 p) as [[e2|] w2]; [cbn; intros [= <-]; eauto|discriminate]. }
  assert (Hloop : forall fuel w0 t s rem first r,
             fragmentLoop fuel w0 maxp t s rem first = Some r ->
             forall err, fst r = Some err -> exists io, err = IOError io).
  { induction fuel as [|fuel IH]; intros w0 t s rem first r; cbn [fragmentLoop].
    - destruct (length rem =? 0)%nat; [|discriminate].
      intros [= <-]. discriminate.
    - destruct (length rem =? 0)%nat; [intros [= <-]; discriminate|].
      match goal with
      | |- context [encodeFrameTo ?a ?b ?c ?d ?p] =>
        pose proof (Henc a b c d p) as He;
          destruct (encodeFrameTo a b c d p) as [[e1|] w1]
      end.
      + intros [= <-]. exact He.
      + apply IH. }
  repeat match goal with
         | |- context [if ?b then _ else _] => destruct b
         end;
    try (apply Hrefuse; reflexivity).
  all: try match goal with
            | |- Some (encodeFrameTo ?a ?b ?c ?d ?p) = _ -> _ =>
              apply Hio; [apply Henc|];
                destruct (encodeFrameTo a b c d p) eqn:E;
                apply encodeFrameTo_writesOnly in E; assumption
            | |- fragmentLoop ?n ?a ?mx ?t ?s ?r ?f = _ -> _ =>
              destruct (fragmentLoop n a mx t s r f) as [[e2 w2]|] eqn:E;
                [|discriminate];
                apply (Hio (e2, w2));
                [eapply Hloop; eassumption
                |eapply fragmentLoop_writesOnly; eassumption]
            end.
  all: match goal with
       | |- context [encodeFrameTo ?a ?b ?c ?d ?p] =>
         pose proof (Henc a b c d p) as He;
           destruct (encodeFrameTo a b c d p) as [[e1|] w1] eqn:E
       end; apply encodeFrameTo_writesOnly in E;
    [apply (Hio (Some e1, w1)); assumption|].
  all: rewrite payloadLoop_fragmentLoop;
    match goal with
    | |- fragmentLoop ?n ?a ?mx ?t ?s ?r ?f = _ -> _ =>
      destruct (fragmentLoop n a mx t s r f) as [[e2 w2]|] eqn:E2;
        [|discriminate];
        apply (Hio (e2, w2)); [eapply Hloop; eassumption|];
        apply fragmentLoop_writesOnly in E2;
        eapply writesOnly_trans; eassumption
    end.
Qed.

(** X5.  Whatever [Send] returns, it has only written: the input
    stream, the closed flag and the read deadline of the endpoint are
    as before, the limit is unchanged, and the bytes already written
    are still there in front of the new ones.  An error of [Send] is
    either protocol-class, and then nothing was written, or the error
    of a failed write.  Under a context that is not done the write
    deadline is cleared on return. *)
Theorem Send_effects (c : Conn) (ctx : option context) (m : Message)
        (e : option error) (c' : Conn) :
  Send c ctx m = Some (e, c') ->
  maxFramePayload c' = maxFramePayload c /\
  rx (nc c') = rx (nc c) /\
  closed (nc c') = closed (nc c) /\
  readDeadline (nc c') = readDeadline (nc c) /\
  (exists more, tx (nc c') = tx (nc c) ++ more) /\
  (forall err, e = Some err ->
     (isProtocolErr err = true /\ tx (nc c') = tx (nc c)) \/
     (exists io, err = IOError io)) /\
  (ctxErr (ctxOrBackground ctx) = None -> writeDeadline (nc c') = None).
Proof.
  unfold Send.
  set (c1 := applyWriteContext c (ctxOrBackground ctx)).
  destruct (sendSwitch (nc c1) (maxFramePayload c1) m) as [[e0 w]|] eqn:Sw;
    [|discriminate].
  intros H. injection H as <- <-.
  destruct (sendSwitch_effects _ _ _ _ _ Sw)
    as ((R1 & R2 & R3 & R4 & R5 & R6 & _ & more & R7) & Hp & Hio).
  assert (Hc1 : maxFramePayload c1 = maxFramePayload c /\
                rx (nc c1) = rx (nc c) /\ closed (nc c1) = closed (nc c) /\
                readDeadline (nc c1) = readDeadline (nc c) /\
                tx (nc c1) = tx (nc c)).
  { unfold c1, applyWriteContext. destruct (ctxDeadline _); repeat split. }
  destruct Hc1 as (C1 & C2 & C3 & C4 & C5).
  cbn [restoreWriteDeadline with_nc nc maxFramePayload SetWriteDeadline
       rx closed readDeadline writeDeadline tx].
  repeat split; try congruence.
  - exists more. congruence.
  - intros err ->. destruct (isProtocolErr err) eqn:P.
    + left. split; [reflexivity|].
      rewrite (Hp err eq_refl P). exact C5.
    + right. apply (Hio err eq_refl P).
Qed.

End SendEffects.
Import SendEffects.

(* ================================================================== *)
(** * The chunks of the fragmentation loop *)
(* ================================================================== *)

Module SendChunks.

Lemma takeChunk_full maxp remaining :
  0 < maxp -> Z.of_nat (length remaining) > maxp ->
  Z.of_nat (length (takeChunk maxp remaining)) = maxp.
Proof.
  intros Hm Hbig. unfold takeChunk.
  assert ((Z.of_nat (length remaining) >? maxp) = true) as ->
    by (rewrite Z.gtb_ltb; apply Z.ltb_lt; lia).
  rewrite length_firstn. lia.
Qed.

Lemma takeChunk_all maxp remaining :
  Z.of_nat (length remaining) <= maxp -> takeChunk maxp remaining = remaining.
Proof.
  intros Hfit. unfold takeChunk.
  assert ((Z.of_nat (length remaining) >? maxp) = false) as ->
    by (rewrite Z.gtb_ltb; apply Z.ltb_ge; lia).
  reflexivity.
Qed.

Lemma flagged_app_last first full last :
  full <> [] ->
  flagged first (full ++ [last])
  = match full with
    | [] => []
    | c :: rest => (if first then flagStart else 0, c) :: flagged false (rest ++ [last])
    end.
Proof.
  destruct full as [|c rest]; [contradiction|]. intros _.
  cbn [app]. destruct (rest ++ [last]) eqn:E.
  - destruct rest; discriminate.
  - reflexivity.
Qed.

(** The loop of [sendWithFragmentation] cuts greedily: every chunk but
    the last has the full size. *)
Lemma fragmentLoop_full maxp typ sid : 0 < maxp ->
  forall fuel w remaining first w',
    fragmentLoop fuel w maxp typ sid remaining first = Some (None, w') ->
    remaining <> [] ->
    exists full last,
      concat full ++ last = remaining /\
      Forall (fun c => Z.of_nat (length c) = maxp) full /\
      last <> [] /\ Z.of_nat (length last) <= maxp /\
      tx w' = tx w ++ wire typ sid (flagged first (full ++ [last])).
Proof.
  intros Hm. induction fuel as [|fuel IH]; intros w remaining first w'.
  - cbn [fragmentLoop]. destruct remaining; [contradiction|discriminate].
  - cbn [fragmentLoop]. intros H Hne.
    destruct remaining as [|b0 rem0] eqn:Erem; [contradiction|].
    rewrite <- Erem in *. clear Hne.
    assert (Hne : remaining <> []) by (rewrite Erem; discriminate).
    assert ((length remaining =? 0)%nat = false) as E0
      by (rewrite Erem; reflexivity).
    rewrite E0 in H.
    pose proof (takeChunk_prefix maxp remaining) as Pf.
    destruct (Z.le_gt_cases (Z.of_nat (length remaining)) maxp) as [Hfit|Hbig].
    + (* the last chunk *)
      rewrite (takeChunk_all _ _ Hfit) in H.
      rewrite skipn_all in H. cbn [length Nat.eqb] in H.
      destruct (encodeFrameTo w typ _ sid remaining) as [[e|] w1] eqn:En;
        [discriminate|].
      apply encodeFrameTo_ok in En.
      assert (w1 = w') as <-
          by (destruct fuel; cbn [fragmentLoop length Nat.eqb] in H; congruence).
      exists [], remaining.
      split; [reflexivity|]. split; [constructor|].
      split; [assumption|]. split; [assumption|].
      unfold wire. cbn [flagged app map concat fst snd].
      rewrite En, app_nil_r. destruct first; reflexivity.
    + (* a full chunk, and more to come *)
      pose proof (takeChunk_full maxp remaining Hm ltac:(lia)) as Lc.
      set (chunk := takeChunk maxp remaining) in *.
      set (rest := skipn (length chunk) remaining) in *.
      assert (Hcat : chunk ++ rest = remaining).
      { unfold rest. rewrite Pf at 1. apply firstn_skipn. }
      assert (Lr : (0 < length rest)%nat).
      { unfold rest. rewrite length_skipn. lia. }
      assert ((length rest =? 0)%nat = false) as E1 by (apply Nat.eqb_neq; lia).
      rewrite E1 in H.
      destruct (encodeFrameTo w typ _ sid chunk) as [[e|] w1] eqn:En;
        [discriminate|].
      apply encodeFrameTo_ok in En.
      apply IH in H; [|intros Hr; rewrite Hr in Lr; cbn in Lr; lia].
      destruct H as (full & last & C1 & C2 & C3 & C4 & C5).
      exists (chunk :: full), last.
      split; [cbn [concat]; rewrite <- app_assoc, C1; exact Hcat|].
      split; [constructor; assumption|].
      split; [assumption|]. split; [assumption|].
      rewrite C5, En, <- app_assoc. f_equal.
      rewrite (flagged_app_last first (chunk :: full) last) by discriminate.
      unfold wire. cbn [map concat fst snd]. destruct first; reflexivity.
Qed.

End SendChunks.
Import SendChunks.

(* ================================================================== *)
(** * [Send] fills its frames *)
(* ================================================================== *)

Module SendGreedy.
Import SendChunks.

Lemma wire_length t s frames :
  length (wire t s frames)
  = (18 * length frames + length (concat (map snd frames)))%nat.
Proof.
  induction frames as [|[f p] frames IH]; [reflexivity|].
  rewrite wire_cons. cbn [map snd concat length].
  rewrite !length_app, IH. unfold frameBytes.
  rewrite length_app, header_length. unfold headerLen. lia.
Qed.

(** The number of full chunks in front of the last one. *)
Lemma full_count (maxp : Z) (full : list (list byte)) (last whole : list byte) :
  0 < maxp ->
  concat full ++ last = whole ->
  Forall (fun c => Z.of_nat (length c) = maxp) full ->
  Z.of_nat (length last) <= maxp -> (full <> [] -> last <> []) ->
  length full = ((length whole - 1) / Z.to_nat maxp)%nat.
Proof.
  intros Hm Hcat Hfull Hlast Hne.
  assert (Lc : length (concat full) = (length full * Z.to_nat maxp)%nat).
  { clear Hne Hcat. induction Hfull as [|c full Hc _ IH]; [reflexivity|].
    cbn [concat length]. rewrite length_app, IH. lia. }
  assert (Lw : length whole = (length full * Z.to_nat maxp + length last)%nat).
  { rewrite <- Hcat, length_app, Lc. reflexivity. }
  rewrite Lw.
  destruct full as [|c full].
  - cbn [length Nat.mul Nat.add]. symmetry. apply Nat.div_small. lia.
  - assert (0 < length last)%nat.
    { destruct last; [exfalso; apply Hne; [discriminate|reflexivity]|cbn; lia]. }
    apply Nat.div_unique with (r := (length last - 1)%nat); lia.
Qed.

(** X6.  [Send] cuts a message greedily: every frame but the last
    carries exactly the configured maximum, the last one what is left
    (at least one byte once there is more than one frame), START is on
    the first frame and END on the last.  So a message of [n] payload
    bytes, envelope included, goes out in [(n - 1) / max + 1] frames
    and takes [18] bytes per frame plus [n] on the wire. *)
Theorem Send_fills_frames (c : Conn) (ctx : option context) (m : Message) (c' : Conn) :
  0 < maxFramePayload c ->
  Send c ctx m = Some (None, c') ->
  exists full last,
    concat full ++ last = logicalPayload m /\
    Forall (fun p => Z.of_nat (length p) = maxFramePayload c) full /\
    Z.of_nat (length last) <= maxFramePayload c /\
    (full <> [] -> last <> []) /\
    tx (nc c') = tx (nc c)
                 ++ wire (MsgType m) (StreamID m) (flagged true (full ++ [last])) /\
    length full = ((length (logicalPayload m) - 1) / Z.to_nat (maxFramePayload c))%nat /\
    length (tx (nc c'))
    = (length (tx (nc c)) + 18 * (length full + 1) + length (logicalPayload m))%nat.
Proof.
  intros Hm Hsend.
  assert (Core : exists full last,
             concat full ++ last = logicalPayload m /\
             Forall (fun p => Z.of_nat (length p) = maxFramePayload c) full /\
             Z.of_nat (length last) <= maxFramePayload c /\
             (full <> [] -> last <> []) /\
             tx (nc c') = tx (nc c)
                 ++ wire (MsgType m) (StreamID m) (flagged true (full ++ [last]))).
  { revert Hsend. unfold Send.
    set (c1 := applyWriteContext c (ctxOrBackground ctx)).
    assert (Htx : tx (nc c1) = tx (nc c))
      by (unfold c1, applyWriteContext; destruct (ctxDeadline _); reflexivity).
    assert (Hmx : maxFramePayload c1 = maxFramePayload c)
      by (unfold c1, applyWriteContext; destruct (ctxDeadline _); reflexivity).
    rewrite Hmx.
    destruct (sendSwitch (nc c1) (maxFramePayload c) m) as [[err w]|] eqn:Sw;
      [|discriminate].
    intros H. injection H as -> <-.
    cbn [restoreWriteDeadline with_nc nc SetWriteDeadline tx].
    rewrite <- Htx. clear Htx Hmx. generalize dependent (nc c1). clear c1.
    intros w0 Sw. unfold sendSwitch in Sw. unfold logicalPayload.
    destruct ((MsgType m =? TypePing) || (MsgType m =? TypePong)) eqn:Tping.
    { assert (Tn : (MsgType m =? TypeMessagePayload) = false).
      { apply orb_true_iff in Tping. destruct Tping as [T|T];
          apply Z.eqb_eq in T; rewrite T; reflexivity. }
      rewrite Tn.
      destruct (Z.eqb_spec (StreamID m) 0) as [S0|]; [|discriminate].
      cbn [negb] in Sw.
      destruct (Payload m) as [|? ?] eqn:Ep; [|discriminate].
      destruct (Data m) as [|? ?]; [|discriminate].
      cbn in Sw. inversion Sw as [En]. apply encodeFrameTo_ok in En.
      exists [], []. rewrite S0.
      split; [reflexivity|]. split; [constructor|].
      split; [cbn; lia|]. split; [intros F; contradiction|].
      rewrite En. cbn [app flagged]. rewrite wire_single. reflexivity. }
    destruct (isAuthType (MsgType m)) eqn:Tauth.
    { rewrite (isAuthType_not_payload _ Tauth).
      destruct (Z.eqb_spec (StreamID m) 0) as [S0|]; [|discriminate].
      cbn [negb] in Sw. rewrite S0. unfold sendWithFragmentation in Sw.
      destruct (Z.leb_spec (Z.of_nat (length (Payload m))) (maxFramePayload c))
        as [Hfit|Hbig].
      - inversion Sw as [En]. apply encodeFrameTo_ok in En.
        exists [], (Payload m).
        split; [reflexivity|]. split; [constructor|].
        split; [assumption|]. split; [intros F; contradiction|].
        rewrite En. cbn [app flagged]. rewrite wire_single. reflexivity.
      - apply fragmentLoop_full in Sw; [|assumption|].
        + destruct Sw as (full & last & C1 & C2 & C3 & C4 & C5).
          exists full, last. auto.
        + intros E. rewrite E in Hbig. cbn in Hbig. lia. }
    destruct (Z.eqb_spec (MsgType m) TypeMessagePayload) as [Tp|]; [|discriminate].
    destruct (Z.eqb_spec (StreamID m) 0) as [|Sn]; [discriminate|].
    set (format := if Format m =? 0 then PayloadFormatOpaqueBytes else Format m) in Sw.
    destruct (Z.eqb_spec format PayloadFormatOpaqueBytes) as [Ef|]; [|discriminate].
    cbn [negb] in Sw.
    destruct (negb (Kind m =? PayloadKindRequest)
              && negb (Kind m =? PayloadKindResponse)
              && negb (Kind m =? PayloadKindOneway)); [discriminate|].
    rewrite Ef in Sw.
    set (envelope := [asByte (Kind m); asByte PayloadFormatOpaqueBytes; x00; x00]) in *.
    change (Z.of_nat (length envelope)) with 4 in Sw.
    destruct (Z.gtb_spec 4 (maxFramePayload c)) as [|Hcap]; [discriminate|].
    set (cap := maxFramePayload c - 4) in Sw.
    rewrite Tp.
    destruct (Z.gtb_spec (Z.of_nat (length (Data m))) cap) as [Hbig|Hfit].
    - set (firstData := firstn (Z.to_nat cap) (Data m)) in Sw.
      assert (Lf : length firstData = Z.to_nat cap)
        by (unfold firstData; rewrite length_firstn; lia).
      set (remaining := skipn (length firstData) (Data m)) in Sw.
      assert (Hd : firstData ++ remaining = Data m).
      { unfold remaining. rewrite Lf. apply firstn_skipn. }
      assert (Lr : (0 < length remaining)%nat).
      { unfold remaining. rewrite length_skipn. lia. }
      destruct (length remaining =? 0)%nat eqn:E0;
        [apply Nat.eqb_eq in E0; lia|].
      destruct (encodeFrameTo w0 TypeMessagePayload flagStart (StreamID m)
                              (envelope ++ firstData)) as [[e|] w1] eqn:En;
        [inversion Sw|].
      apply encodeFrameTo_ok in En.
      rewrite payloadLoop_fragmentLoop in Sw.
      apply fragmentLoop_full in Sw;
        [|assumption|intros E; rewrite E in Lr; cbn in Lr; lia].
      destruct Sw as (full & last & C1 & C2 & C3 & C4 & C5).
      exists ((envelope ++ firstData) :: full), last.
      split.
      { cbn [concat]. rewrite <- !app_assoc. rewrite C1, Hd. reflexivity. }
      split.
      { constructor; [|assumption]. rewrite length_app, Lf.
        change (length envelope) with 4%nat. unfold cap. lia. }
      split; [assumption|]. split; [intros _; assumption|].
      rewrite C5, En, <- app_assoc. f_equal.
      rewrite (flagged_app_last true ((envelope ++ firstData) :: full) last)
        by discriminate.
      reflexivity.
    - rewrite skipn_all in Sw. cbn [length Nat.eqb] in Sw.
      inversion Sw as [En]. apply encodeFrameTo_ok in En.
      exists [], (envelope ++ Data m).
      split; [reflexivity|]. split; [constructor|].
      split.
      { rewrite length_app. change (length envelope) with 4%nat.
        unfold cap in Hfit. lia. }
      split; [intros F; contradiction|].
      rewrite En. cbn [app flagged]. rewrite wire_single. reflexivity. }
  destruct Core as (full & last & C1 & C2 & C3 & C4 & C5).
  exists full, last.
  repeat (split; [assumption|]).
  split.
  - apply full_count with last; assumption.
  - rewrite C5, length_app, wire_length, flagged_snd.
    assert (length (flagged true (full ++ [last])) = length (full ++ [last])) as ->.
    { rewrite <- (flagged_snd true (full ++ [last])) at 2.
      rewrite length_map. reflexivity. }
    rewrite concat_app, !length_app. cbn [concat length].
    rewrite app_nil_r, <- C1, length_app. lia.
Qed.

End SendGreedy.
Import SendGreedy.

(* ================================================================== *)
(** * [ReadNext] only reads *)
(* ================================================================== *)

Module ReadEffects.

Lemma ReadFull_suffix r n bs e r' :
  ReadFull r n = (bs, e, r') -> rx r = bs ++ rx r'.
Proof.
  unfold ReadFull. destruct n as [|n].
  - intros H. injection H as <- <- <-. reflexivity.
  - remember (S n) as k. destruct (closed r).
    + intros H. injection H as <- <- <-. reflexivity.
    + destruct (k <=? length (rx r))%nat; intros H; injection H as <- <- <-.
      * symmetry. apply firstn_skipn.
      * symmetry. apply app_nil_r.
Qed.

Lemma decodeFrameFrom_suffix r maxp res r' :
  decodeFrameFrom r maxp = (res, r') -> exists consumed, rx r = consumed ++ rx r'.
Proof.
  unfold decodeFrameFrom.
  destruct (ReadFull r headerLen) as [[hdr e] r1] eqn:E1.
  apply ReadFull_suffix in E1.
  destruct e as [e|]; [intros H; injection H as <- <-; eauto|].
  repeat match goal with
         | |- context [if ?b then _ else _] => destruct b
         | |- (_, _) = _ -> _ => intros H; injection H as <- <-; eauto
         end.
  destruct (ReadFull r1 _) as [[p e2] r2] eqn:E2.
  apply ReadFull_suffix in E2.
  assert (rx r = (hdr ++ p) ++ rx r2) by (rewrite <- app_assoc; congruence).
  destruct e2; intros H'; injection H' as <- <-; eauto.
Qed.

Lemma step_refl c : step c c false.
Proof.
  repeat split; try (symmetry; apply orb_false_r). exists []. reflexivity.
Qed.

Lemma step_trans c1 c2 c3 p :
  step c1 c2 false -> step c2 c3 p -> step c1 c3 p.
Proof.
  intros ((A1 & A2 & A3 & A4 & A5 & A6 & m1 & A7) & A8 & A9)
         ((B1 & B2 & B3 & B4 & B5 & B6 & m2 & B7) & B8 & B9).
  rewrite orb_false_r in A9.
  repeat split; try congruence.
  exists (m1 ++ m2). rewrite <- app_assoc. congruence.
Qed.

Lemma step_close c1 c2 :
  step c1 c2 false -> step c1 (ConnClose c2) true.
Proof.
  intros ((A1 & A2 & A3 & A4 & A5 & A6 & m1 & A7) & A8 & A9).
  repeat split; try assumption.
  - exists m1. assumption.
  - cbn. symmetry. apply orb_true_r.
Qed.

Lemma readFrame_step c ctx res c' :
  readFrame c ctx = (res, c') -> step c c' (protocolFailure res).
Proof.
  unfold readFrame.
  destruct (decodeFrameFrom (nc c) (maxFramePayload c)) as [[fr|err] r] eqn:E.
  all: pose proof (decodeFrameFrom_suffix _ _ _ _ E) as Hs;
    apply decodeFrameFrom_spec in E;
    destruct E as ((S1 & S2 & S3 & S4 & S5 & S6 & S7) & _).
  all: assert (Hok : step c (with_nc c r) false)
    by (repeat split; cbn; try assumption; rewrite ?orb_false_r; assumption).
  - intros H. injection H as <- <-. exact Hok.
  - destruct (ctxErr ctx).
    + intros H. injection H as <- <-. exact Hok.
    + destruct (isProtocolErr err) eqn:P; intros H; injection H as <- <-;
        cbn [protocolFailure]; rewrite P; [apply step_close|]; exact Hok.
Qed.

Lemma reassemble_step fuel :
  forall c ctx t s d buf res c',
    reassemble fuel c ctx t s d buf = Some (res, c') ->
    step c c' (protocolFailure res).
Proof.
  induction fuel as [|fuel IH]; intros c ctx t s d buf res c'; cbn [reassemble].
  - destruct d; [|discriminate]. intros H. injection H as <- <-. apply step_refl.
  - destruct d; [intros H; injection H as <- <-; apply step_refl|].
    destruct (readFrame c ctx) as [[next|err] c1] eqn:E;
      apply readFrame_step in E; cbn [protocolFailure] in E.
    + repeat match goal with
             | |- context [if ?b then _ else _] => destruct b
             end;
        try (intros H; injection H as <- <-; apply step_close; exact E).
      intros H. apply IH in H. eapply step_trans; eassumption.
    + intros H. injection H as <- <-. exact E.
Qed.

Lemma readBody_step c ctx res c' :
  readBody c ctx = Some (res, c') -> step c c' (protocolFailure res).
Proof.
  unfold readBody.
  destruct (readFrame c ctx) as [[fr|err] c1] eqn:E;
    apply readFrame_step in E; cbn [protocolFailure] in E.
  2: { intros H. injection H as <- <-. exact E. }
  repeat match goal with
         | |- context [if ?b then _ else _] => destruct b
         end;
    try (intros H; injection H as <- <-;
         first [apply step_close; exact E | exact E]).
  all: match goal with
       | |- context [reassemble ?f ?a ?x ?t ?s ?d ?b] =>
         destruct (reassemble f a x t s d b) as [[[r|e2] c2]|] eqn:R;
           [| |discriminate];
           apply reassemble_step in R; cbn [protocolFailure] in R;
           intros H; injection H as <- <-;
           eapply step_trans; eassumption
       end.
Qed.

(** X7.  Whatever [ReadNext] returns, it has only read: the limit and
    everything written are as before, what is left of the input is a
    suffix of what was there, and the connection is closed afterwards
    exactly if it was closed before or the result is a protocol-class
    error.  So a message, a transport error and the error of the
    context all leave the connection as open as it was.  Under a
    context that is not done the read deadline is cleared on return. *)
Theorem ReadNext_effects (c : Conn) (ctx : option context)
        (res : Message + error) (c' : Conn) :
  ReadNext c ctx = Some (res, c') ->
  readsOnly c c' /\
  closed (nc c') = closed (nc c) || protocolFailure res /\
  (ctxErr (ctxOrBackground ctx) = None -> readDeadline (nc c') = None).
Proof.
  unfold ReadNext.
  set (cx := ctxOrBackground ctx).
  destruct (readBody (applyReadContext c cx) cx) as [[r c2]|] eqn:B; [|discriminate].
  intros H. injection H as <- <-.
  apply readBody_step in B.
  destruct B as ((A1 & A2 & A3 & A4 & A5 & A6 & m1 & A7) & A8 & A9).
  assert (Ha : maxFramePayload (applyReadContext c cx) = maxFramePayload c /\
               tx (nc (applyReadContext c cx)) = tx (nc c) /\
               tx_room (nc (applyReadContext c cx)) = tx_room (nc c) /\
               rx_end (nc (applyReadContext c cx)) = rx_end (nc c) /\
               tx_fail (nc (applyReadContext c cx)) = tx_fail (nc c) /\
               writeDeadline (nc (applyReadContext c cx)) = writeDeadline (nc c) /\
               rx (nc (applyReadContext c cx)) = rx (nc c) /\
               closed (nc (applyReadContext c cx)) = closed (nc c)).
  { unfold applyReadContext. destruct (ctxDeadline cx); repeat split. }
  destruct Ha as (H1 & H2 & H3 & H4 & H5 & H6 & H7 & H8).
  unfold readsOnly.
  cbn [restoreReadDeadline with_nc nc maxFramePayload SetReadDeadline
       rx closed readDeadline writeDeadline tx tx_room rx_end tx_fail].
  repeat split; try congruence.
  exists m1. congruence.
Qed.

End ReadEffects.
Import ReadEffects.

(* ================================================================== *)
(** * The messages [ReadNext] returns *)
(* ================================================================== *)

Module Delivery.

Lemma known_not_ping_not_auth t :
  isKnownType t = true ->
  ((t =? TypePing) || (t =? TypePong)) = false ->
  isAuthType t = false ->
  t = TypeMessagePayload.
Proof.
  intros Hk Hp Ha. known_type_cases Hk; subst t; try discriminate. reflexivity.
Qed.

(** The message the body of [ReadNext] hands out. *)
Lemma readBody_message c ctx m c' :
  readBody c ctx = Some (inl m, c') ->
  validFields m /\ delivered m = m.
Proof.
  unfold readBody.
  destruct (readFrame c ctx) as [[fr|err] c1] eqn:E; [|discriminate].
  apply readFrame_ok in E. destruct E as (Hd & _).
  destruct (decodeFrameFrom_fields _ _ _ _ Hd) as (Hk & _ & Hs & _).
  destruct (Z.land (flags fr) flagStart =? 0); [discriminate|].
  cbv zeta.
  destruct ((typ fr =? TypePing) || (typ fr =? TypePong)) eqn:Tping.
  { destruct (negb (streamID fr =? 0) || negb (length (payload fr) =? 0)%nat
              || negb (flags fr =? startEndFlags)); [discriminate|].
    intros H. injection H as <- <-.
    assert (Tp : typ fr = TypePing \/ typ fr = TypePong).
    { apply orb_true_iff in Tping. destruct Tping as [T|T];
        apply Z.eqb_eq in T; auto. }
    split.
    - left. cbn. auto.
    - unfold delivered. cbn [MsgType StreamID Payload Kind Format Data].
      destruct Tp as [-> | ->]; reflexivity. }
  destruct (isAuthType (typ fr)) eqn:Ta.
  { destruct (Z.eqb_spec (streamID fr) 0) as [S0|]; [|discriminate].
    cbn [negb andb].
    rewrite (isAuthType_not_payload _ Ta). cbn [andb].
    destruct (reassemble _ _ _ _ _ _ _) as [[[p|e] c2]|]; try discriminate.
    intros H. injection H as <- <-.
    split.
    - right. left. cbn. auto.
    - unfold delivered. cbn [MsgType StreamID Payload Kind Format Data].
      rewrite (isAuthType_not_payload _ Ta). reflexivity. }
  cbn [andb].
  pose proof (known_not_ping_not_auth _ Hk Tping Ta) as Tp. rewrite Tp.
  change (TypeMessagePayload =? TypeMessagePayload) with true. cbn [andb].
  destruct (Z.eqb_spec (streamID fr) 0) as [|Sn]; [discriminate|].
  destruct (length (payload fr) <? 4)%nat; [discriminate|].
  destruct (negb (Z.lor (Z.shiftl (idx (payload fr) 2) 8) (idx (payload fr) 3) =? 0));
    [discriminate|].
  destruct (Z.eqb_spec (idx (payload fr) 1) PayloadFormatOpaqueBytes) as [Ef|];
    [|discriminate].
  cbn [negb].
  destruct (negb (idx (payload fr) 0 =? PayloadKindRequest)
            && negb (idx (payload fr) 0 =? PayloadKindResponse)
            && negb (idx (payload fr) 0 =? PayloadKindOneway)) eqn:Ek;
    [discriminate|].
  destruct (reassemble _ _ _ _ _ _ _) as [[[p|e] c2]|]; try discriminate.
  intros H. injection H as <- <-.
  split.
  - right. right. cbn [MsgType StreamID Payload Kind Format Data].
    split; [reflexivity|]. split; [lia|]. split; [|assumption].
    unfold PayloadKindRequest, PayloadKindResponse, PayloadKindOneway in Ek.
    cbn [In].
    destruct (Z.eqb_spec (idx (payload fr) 0) 1); [auto|].
    destruct (Z.eqb_spec (idx (payload fr) 0) 2); [auto|].
    destruct (Z.eqb_spec (idx (payload fr) 0) 3); [auto|]. discriminate.
  - unfold delivered. cbn [MsgType StreamID Payload Kind Format Data].
    change (TypeMessagePayload =? TypeMessagePayload) with true. cbv iota.
    rewrite Ef. reflexivity.
Qed.

Lemma ReadNext_body c ctx res c' :
  ReadNext c ctx = Some (res, c') ->
  exists c2, readBody (applyReadContext c (ctxOrBackground ctx))
                      (ctxOrBackground ctx) = Some (res, c2) /\
             c' = restoreReadDeadline c2.
Proof.
  unfold ReadNext.
  destruct (readBody _ _) as [[r c2]|]; [|discriminate].
  intros H. injection H as <- <-. eauto.
Qed.

(** X8.  A message [ReadNext] returns is well formed: a ping or pong
    has stream 0 and no payload, an auth message has stream 0, a
    [message_payload] has a stream id from 1 to 2^64-1, a kind from 1 to
    3 and format 0, and the fields its type does not use are zero.  The
    connection is then open. *)
Theorem ReadNext_message_valid (c : Conn) (ctx : option context)
        (m : Message) (c' : Conn) :
  ReadNext c ctx = Some (inl m, c') ->
  validFields m /\ delivered m = m /\ closed (nc c') = false.
Proof.
  intros H.
  destruct (ReadNext_body _ _ _ _ H) as (c2 & Hb & ->).
  destruct (readBody_message _ _ _ _ Hb) as [Hv Hd].
  split; [assumption|]. split; [assumption|].
  (* a frame was read, so the endpoint was open, and stays so *)
  assert (Hc : closed (nc (restoreReadDeadline c2)) = closed (nc c)).
  { destruct (ReadEffects.readBody_step _ _ _ _ Hb) as (_ & _ & Hc).
    cbn [protocolFailure] in Hc. rewrite orb_false_r in Hc.
    cbn [restoreReadDeadline with_nc nc SetReadDeadline closed].
    rewrite Hc. unfold applyReadContext. destruct (ctxDeadline _); reflexivity. }
  rewrite Hc. unfold readBody in Hb.
  destruct (readFrame _ _) as [[fr|err] c1] eqn:E; [|discriminate].
  apply readFrame_ok in E. destruct E as (Hdec & _).
  apply decodeFrameFrom_fields in Hdec.
  destruct Hdec as (_ & _ & _ & _ & _ & Hcl & _).
  unfold applyReadContext in Hcl. destruct (ctxDeadline _); exact Hcl.
Qed.

End Delivery.
Import Delivery.

(* ================================================================== *)
(** * Passing a message on *)
(* ================================================================== *)

Module Relay.
Import Delivery.

(** X9.  A message read with [ReadNext] can be passed on: [Send] on
    any writable connection with a limit from 4 up to 2^32-1 accepts
    it, whatever the limit of the connection it came from, and
    [ReadNext] on a connection with the limit of the sender returns the
    very same message and leaves what follows it on the stream. *)
Theorem ReadNext_Send_relay (c c' cs cr : Conn) (ctx ctxs ctxr : option context)
        (m : Message) (rest : list byte) :
  ReadNext c ctx = Some (inl m, c') ->
  4 <= maxFramePayload cs < 2 ^ 32 ->
  maxFramePayload cr = maxFramePayload cs ->
  writable (nc cs) ->
  closed (nc cr) = false ->
  exists cs' sent,
    Send cs ctxs m = Some (None, cs') /\
    tx (nc cs') = tx (nc cs) ++ sent /\
    (rx (nc cr) = sent ++ rest ->
     exists cr', ReadNext cr ctxr = Some (inl m, cr') /\ rx (nc cr') = rest).
Proof.
  intros Hread Hmax Hsame Hw Hc.
  destruct (ReadNext_body _ _ _ _ Hread) as (c2 & Hb & _).
  destruct (readBody_message _ _ _ _ Hb) as [Hv Hd].
  destruct (Send_succeeds cs ctxs m Hv ltac:(lia) Hw) as (cs' & Hsend).
  destruct (Send_frames cs ctxs m cs' ltac:(lia) Hsend)
    as (frames & Htx & Hdisc & He & Ha).
  exists cs', (wire (MsgType m) (StreamID m) frames).
  split; [assumption|]. split; [assumption|].
  intros Hrx. unfold ReadNext.
  set (cx := ctxOrBackground ctxr).
  assert (Hr : receiving (applyReadContext cr cx) (maxFramePayload cs) /\
               rx (nc (applyReadContext cr cx)) = rx (nc cr)).
  { unfold applyReadContext. destruct (ctxDeadline cx);
      (split; [repeat split; (assumption || lia)|reflexivity]). }
  destruct Hr as [Hr Hrx'].
  assert (Hs : 0 <= StreamID m < 2 ^ 64).
  { destruct Hv as [(_ & -> & _) | [(_ & ->) | (_ & Hs & _)]]; lia. }
  rewrite <- Hrx' in Hrx.
  destruct (readBody_delivers (applyReadContext cr cx) cx (maxFramePayload cs)
                              m frames rest Ha Hs Hdisc He Hr Hrx)
    as (c3 & E & R1 & _).
  rewrite E, Hd. exists (restoreReadDeadline c3).
  split; [reflexivity|exact R1].
Qed.

End Relay.
Import Relay.

(* ================================================================== *)
(** * The checks on a first frame *)
(* ================================================================== *)

Module FirstFrame.

(** The outcomes of [ReadNext] by its first frame, with the connection
    each one leaves in the model. *)
Lemma first_frame_outcomes (c : Conn) (ctx : option context)
      (fr : frame) (c1 : Conn) :
  readFrame (applyReadContext c (ctxOrBackground ctx)) (ctxOrBackground ctx)
  = (inl fr, c1) ->
  Z.land (flags fr) flagStart <> 0 ->
  let fails e := ReadNext c ctx
                 = Some (inr e, restoreReadDeadline (ConnClose c1)) in
  (typ fr = TypePing \/ typ fr = TypePong ->
   (streamID fr <> 0 \/ payload fr <> [] \/ flags fr <> startEndFlags ->
    fails (Wrapped "ping/pong must have stream_id=0, empty payload, START|END" None)) /\
   (streamID fr = 0 -> payload fr = [] -> flags fr = startEndFlags ->
    ReadNext c ctx
    = Some (inl (mkMessage (typ fr) 0 [] 0 0 []), restoreReadDeadline c1))) /\
  (isAuthType (typ fr) = true -> streamID fr <> 0 ->
   fails (Joined ErrInvalidStreamID)) /\
  (typ fr = TypeMessagePayload -> streamID fr = 0 ->
   fails (Joined ErrInvalidStreamID)).
Proof.
  intros E Hstart. cbv zeta. unfold ReadNext, readBody. rewrite E.
  apply Z.eqb_neq in Hstart. rewrite Hstart. cbv zeta.
  split; [|split].
  - intros Ht.
    assert (((typ fr =? TypePing) || (typ fr =? TypePong)) = true) as ->
      by (destruct Ht as [-> | ->]; reflexivity).
    split.
    + intros Hbad.
      assert ((negb (streamID fr =? 0) || negb (length (payload fr) =? 0)%nat
               || negb (flags fr =? startEndFlags)) = true) as ->; [|reflexivity].
      destruct Hbad as [H | [H | H]].
      * apply Z.eqb_neq in H. rewrite H. reflexivity.
      * destruct (payload fr); [contradiction|].
        cbn [length Nat.eqb negb]. rewrite orb_true_r. reflexivity.
      * apply Z.eqb_neq in H. rewrite H. apply orb_true_r.
    + intros -> -> ->. reflexivity.
  - intros Ha Hs.
    assert (((typ fr =? TypePing) || (typ fr =? TypePong)) = false) as ->.
    { unfold isAuthType in Ha.
      repeat (apply orb_true_iff in Ha; destruct Ha as [Ha|Ha]);
        apply Z.eqb_eq in Ha; rewrite Ha; reflexivity. }
    rewrite Ha. apply Z.eqb_neq in Hs. rewrite Hs. reflexivity.
  - intros -> ->. reflexivity.
Qed.

(** X10.  The checks of [ReadNext] on a first frame that carries
    START, by type: a ping or pong must have stream 0, no payload and
    flags START|END, and is then returned at once, with the connection
    open; an auth frame must have stream 0 and a [message_payload]
    frame a stream other than 0.  A frame that fails its check closes
    the connection.  In each case nothing behind the first frame has
    been read. *)
Theorem ReadNext_first_frame_checks (c : Conn) (ctx : option context)
        (fr : frame) (c1 : Conn) :
  readFrame (applyReadContext c (ctxOrBackground ctx)) (ctxOrBackground ctx)
  = (inl fr, c1) ->
  Z.land (flags fr) flagStart <> 0 ->
  let fails e :=
      exists c', ReadNext c ctx = Some (inr e, c') /\
                 closed (nc c') = true /\ rx (nc c') = rx (nc c1) in
  let returns msg :=
      exists c', ReadNext c ctx = Some (inl msg, c') /\
                 closed (nc c') = false /\ rx (nc c') = rx (nc c1) in
  (typ fr = TypePing \/ typ fr = TypePong ->
   (streamID fr <> 0 \/ payload fr <> [] \/ flags fr <> startEndFlags ->
    fails (Wrapped "ping/pong must have stream_id=0, empty payload, START|END" None)) /\
   (streamID fr = 0 -> payload fr = [] -> flags fr = startEndFlags ->
    returns (mkMessage (typ fr) 0 [] 0 0 []))) /\
  (isAuthType (typ fr) = true -> streamID fr <> 0 ->
   fails (Joined ErrInvalidStreamID)) /\
  (typ fr = TypeMessagePayload -> streamID fr = 0 ->
   fails (Joined ErrInvalidStreamID)).
Proof.
  intros E Hstart. cbv zeta.
  destruct (first_frame_outcomes c ctx fr c1 E Hstart) as (H1 & H2 & H3).
  assert (Hopen : closed (nc c1) = false).
  { destruct (readFrame_ok _ _ _ _ E) as (D & _).
    destruct (decodeFrameFrom_fields _ _ _ _ D) as (_ & _ & _ & _ & _ & Hc & _ & Hr).
    rewrite Hr. cbn [closed set_rx].
    unfold applyReadContext in Hc |- *.
    destruct (ctxDeadline (ctxOrBackground ctx)); exact Hc. }
  split; [|split].
  - intros Ht. destruct (H1 Ht) as [Ha Hb]. split.
    + intros Hbad. eexists. split; [exact (Ha Hbad)|]. split; reflexivity.
    + intros Hs Hp Hf. eexists. split; [exact (Hb Hs Hp Hf)|].
      split; [exact Hopen|reflexivity].
  - intros Ha Hs. eexists. split; [exact (H2 Ha Hs)|]. split; reflexivity.
  - intros Ht Hs. eexists. split; [exact (H3 Ht Hs)|]. split; reflexivity.
Qed.

End FirstFrame.
Import FirstFrame.

(* ================================================================== *)
(** * Streams that end early *)
(* ================================================================== *)

Module Truncation.

(** Decoding a stream that starts with a header [encodeFrameTo] wrote:
    the header passes every check, and the payload read decides. *)
Lemma decode_header r maxp typ flags sid p q :
  closed r = false ->
  rx r = header typ flags sid p ++ q ->
  isKnownType typ = true ->
  In flags [0; flagStart; flagEnd; startEndFlags] ->
  0 <= sid < 2 ^ 64 ->
  0 < Z.of_nat (length p) <= maxp -> maxp < 2 ^ 32 ->
  decodeFrameFrom r maxp
  = match ReadFull (set_rx r q) (length p) with
    | (_, Some e, r2) => (inr (IOError e), r2)
    | (payload, None, r2) =>
      (inl (mkFrame typ flags sid payload (Z.of_nat (length p))), r2)
    end.
Proof.
  intros Hc Hrx Hk Hf Hs Hl Hmax.
  unfold decodeFrameFrom.
  rewrite <- (header_length typ flags sid p).
  rewrite (ReadFull_prefix r _ _ Hc Hrx).
  pose proof (isKnownType_range _ Hk) as Ht.
  assert (Ei : forall i, (i < 4)%nat ->
             idx (header typ flags sid p) i
             = nth i [v1Magic0; v1Magic1; v1Version; typ] 0).
  { intros i Hi. unfold idx, header.
    do 4 (destruct i as [|i]; [cbn [nth app]; apply b2z_asByte_small;
                               unfold v1Magic0, v1Magic1, v1Version; lia|]).
    lia. }
  rewrite !Ei by lia. cbn [nth].
  rewrite !Z.eqb_refl. cbn [negb orb].
  rewrite Hk. cbn [negb].
  assert (E16 : slice (header typ flags sid p) 4 6 = PutUint16 flags) by reflexivity.
  assert (E64 : slice (header typ flags sid p) 6 14 = PutUint64 sid) by reflexivity.
  assert (E32 : slice (header typ flags sid p) 14 18
                = PutUint32 (uint32 (Z.of_nat (length p)))) by reflexivity.
  rewrite E16, E64, E32.
  rewrite Uint16_PutUint16, Uint64_PutUint64, Uint32_PutUint32.
  assert (Hfr : flags mod 2 ^ 16 = flags).
  { apply Z.mod_small. cbn [In] in Hf.
    destruct Hf as [<- | [<- | [<- | [<- | []]]]]; cbv; split; congruence. }
  rewrite Hfr.
  assert (Hfl : (Z.ldiff flags (Z.lor flagStart flagEnd) =? 0) = true).
  { cbn [In] in Hf. destruct Hf as [<- | [<- | [<- | [<- | []]]]]; reflexivity. }
  rewrite Hfl. cbn [negb].
  rewrite (Z.mod_small sid) by assumption.
  assert (El : uint32 (Z.of_nat (length p)) mod 2 ^ 32 = Z.of_nat (length p)).
  { unfold uint32. rewrite Z.mod_mod by lia. apply Z.mod_small. lia. }
  rewrite !El.
  assert ((Z.of_nat (length p) >? uint32 maxp) = false) as ->.
  { rewrite Z.gtb_ltb. apply Z.ltb_ge. unfold uint32.
    rewrite Z.mod_small by lia. lia. }
  assert ((Z.of_nat (length p) >? 0) = true) as ->
    by (rewrite Z.gtb_ltb; apply Z.ltb_lt; lia).
  rewrite Nat2Z.id. reflexivity.
Qed.

(** A read of [n] bytes from an open endpoint that holds fewer, at the
    end of a stream the peer closed. *)
Lemma ReadFull_short r n :
  closed r = false -> rx_end r = EOF -> (length (rx r) < n)%nat ->
  ReadFull r n
  = (rx r, Some (match rx r with [] => EOF | _ :: _ => ErrUnexpectedEOF end),
     set_rx r []).
Proof.
  intros Hc He Hn. unfold ReadFull.
  destruct n as [|n]; [lia|]. rewrite Hc.
  assert ((S n <=? length (rx r))%nat = false) as -> by (apply Nat.leb_gt; lia).
  rewrite He. destruct (rx r); reflexivity.
Qed.

Lemma ReadNext_io_failure c ctx e r :
  ctxErr (ctxOrBackground ctx) = None ->
  decodeFrameFrom (nc (applyReadContext c (ctxOrBackground ctx))) (maxFramePayload c)
  = (inr (IOError e), r) ->
  ReadNext c ctx
  = Some (inr (IOError e),
          restoreReadDeadline (with_nc (applyReadContext c (ctxOrBackground ctx)) r)).
Proof.
  intros Hctx E. unfold ReadNext, readBody, readFrame.
  assert (Hm : maxFramePayload (applyReadContext c (ctxOrBackground ctx))
               = maxFramePayload c)
    by (unfold applyReadContext; destruct (ctxDeadline _); reflexivity).
  rewrite Hm, E, Hctx. reflexivity.
Qed.

End Truncation.
Import Truncation.

(* ================================================================== *)
(** * [ReadNext] at the end of the stream *)
(* ================================================================== *)

Module EndOfStream.
Import Truncation.

(** X11.  [ReadNext] on an open connection whose peer has closed the
    stream, under a context that is not done.  With nothing left to
    read it fails with [io.EOF]; with a header cut short, or a payload
    cut short after at least one byte, with [io.ErrUnexpectedEOF].  A
    stream that ends right behind a header announcing a payload, or
    behind a first fragment whose continuation never comes, also gives
    [io.EOF].  In every case the input is used up and the connection is
    left open. *)
Theorem ReadNext_end_of_stream (c : Conn) (ctx : option context) :
  closed (nc c) = false ->
  rx_end (nc c) = EOF ->
  ctxErr (ctxOrBackground ctx) = None ->
  let drained e :=
      exists c', ReadNext c ctx = Some (inr (IOError e), c') /\
                 closed (nc c') = false /\ rx (nc c') = [] in
  (rx (nc c) = [] -> drained EOF) /\
  ((0 < length (rx (nc c)) < 18)%nat -> drained ErrUnexpectedEOF) /\
  (forall t f s p q,
      isKnownType t = true -> In f [0; flagStart; flagEnd; startEndFlags] ->
      0 <= s < 2 ^ 64 ->
      0 < Z.of_nat (length p) <= maxFramePayload c -> maxFramePayload c < 2 ^ 32 ->
      rx (nc c) = header t f s p ++ q -> (length q < length p)%nat ->
      drained (match q with [] => EOF | _ :: _ => ErrUnexpectedEOF end)) /\
  (forall t p,
      isAuthType t = true ->
      Z.of_nat (length p) <= maxFramePayload c -> 0 < maxFramePayload c < 2 ^ 32 ->
      rx (nc c) = frameBytes t flagStart 0 p ->
      drained EOF).
Proof.
  intros Hc He Hctx. cbv zeta.
  set (cx := ctxOrBackground ctx) in *.
  assert (Ha : closed (nc (applyReadContext c cx)) = false /\
               rx_end (nc (applyReadContext c cx)) = EOF /\
               rx (nc (applyReadContext c cx)) = rx (nc c) /\
               maxFramePayload (applyReadContext c cx) = maxFramePayload c).
  { unfold applyReadContext. destruct (ctxDeadline cx); repeat split; assumption. }
  destruct Ha as (Hc1 & He1 & Hrx1 & Hm1).
  set (c0 := applyReadContext c cx) in *.
  assert (Hshort : (length (rx (nc c)) < 18)%nat ->
            exists c', ReadNext c ctx
                       = Some (inr (IOError (match rx (nc c) with
                                             | [] => EOF
                                             | _ :: _ => ErrUnexpectedEOF
                                             end)), c') /\
                       closed (nc c') = false /\ rx (nc c') = []).
  { intros Hlen. eexists. split.
    - apply ReadNext_io_failure; [exact Hctx|]. fold cx. fold c0.
      unfold decodeFrameFrom.
      rewrite (ReadFull_short (nc c0) headerLen Hc1 He1)
        by (rewrite Hrx1; exact Hlen).
      rewrite Hrx1. reflexivity.
    - split; [exact Hc1|reflexivity]. }
  split; [|split; [|split]].
  - intros Hnil. destruct Hshort as (c' & R & H1 & H2); [rewrite Hnil; cbn; lia|].
    rewrite Hnil in R. eauto.
  - intros Hlen. destruct Hshort as (c' & R & H1 & H2); [lia|].
    destruct (rx (nc c)); [cbn in Hlen; lia|]. eauto.
  - intros t f s p q Hk Hf Hs Hp Hmax Hrx Hq.
    rewrite <- Hrx1 in Hrx.
    eexists. split.
    + apply ReadNext_io_failure; [exact Hctx|]. fold cx. fold c0.
      rewrite (decode_header (nc c0) (maxFramePayload c) t f s p q
                             Hc1 Hrx Hk Hf Hs Hp Hmax).
      rewrite (ReadFull_short (set_rx (nc c0) q) (length p) Hc1 He1 Hq).
      reflexivity.
    + split; [exact Hc1|reflexivity].
  - intros t p Ha Hp Hmax Hrx.
    assert (Hk : isKnownType t = true).
    { unfold isAuthType in Ha.
      repeat (apply orb_true_iff in Ha; destruct Ha as [Ha|Ha]);
        apply Z.eqb_eq in Ha; rewrite Ha; reflexivity. }
    assert (Hr : receiving c0 (maxFramePayload c))
      by (repeat split; (assumption || lia)).
    rewrite <- Hrx1, <- (app_nil_r (frameBytes _ _ _ _)) in Hrx.
    destruct (readFrame_wire c0 cx (maxFramePayload c) t flagStart 0 p []
                             Hr Hrx Hk ltac:(auto)
                             ltac:(split; [discriminate | reflexivity]) Hp)
      as (c1 & E & R1 & (Hc2 & Hm2 & _) & _).
    assert (Hping : ((t =? TypePing) || (t =? TypePong)) = false).
    { unfold isAuthType in Ha.
      repeat (apply orb_true_iff in Ha; destruct Ha as [Ha|Ha]);
        apply Z.eqb_eq in Ha; rewrite Ha; reflexivity. }
    assert (E2 : readFrame c1 cx = (inr (IOError EOF), with_nc c1 (set_rx (nc c1) []))).
    { unfold readFrame, decodeFrameFrom.
      assert (He2 : rx_end (nc c1) = EOF).
      { apply readFrame_ok in E. destruct E as (_ & _ & (_ & _ & _ & S4 & _) & _).
        congruence. }
      rewrite (ReadFull_short (nc c1) headerLen Hc2 He2)
        by (rewrite R1; unfold headerLen; cbn; lia).
      rewrite R1, Hctx. reflexivity. }
    eexists. split.
    + unfold ReadNext, readBody. fold cx. fold c0. rewrite E.
      cbn [typ streamID flags payload].
      change (Z.land flagStart flagStart =? 0) with false. cbv iota zeta.
      rewrite Hping, Ha, (isAuthType_not_payload _ Ha).
      cbn [Z.eqb negb andb]. rewrite R1.
      cbn [length reassemble].
      change (negb (Z.land flagStart flagEnd =? 0)) with false. cbv iota.
      rewrite E2. reflexivity.
    + split; [exact Hc2|reflexivity].
Qed.

End EndOfStream.
Import EndOfStream.

(* ================================================================== *)
(** * Messages in sequence *)
(* ================================================================== *)

Module Stream.

Lemma Send_writable c ctx m c' :
  Send c ctx m = Some (None, c') -> writable (nc c) ->
  writable (nc c') /\ maxFramePayload c' = maxFramePayload c.
Proof.
  intros H [Hc Hr]. split; [|eapply Send_max; eassumption].
  unfold Send in H.
  destruct (sendSwitch _ _ _) as [[e w]|] eqn:Sw; [|discriminate].
  injection H as -> <-.
  apply SendEffects.sendSwitch_effects in Sw.
  destruct Sw as ((_ & _ & _ & S4 & _ & _ & S7 & _) & _).
  unfold writable.
  cbn [restoreWriteDeadline with_nc nc SetWriteDeadline closed tx_room].
  split.
  - rewrite S4. unfold applyWriteContext. destruct (ctxDeadline _); exact Hc.
  - apply S7. unfold applyWriteContext. destruct (ctxDeadline _); exact Hr.
Qed.

(** X12.  Messages come out in the order they went in.  [Send] for a
    list of valid messages on a writable connection succeeds for every
    one of them, and as many calls of [ReadNext] on a connection with
    the same limit, fed with the bytes written, return the messages in
    order and leave what follows on the stream. *)
Theorem stream_in_order (ms : list Message) :
  forall (cs cr : Conn) (rest : list byte),
    Forall validFields ms ->
    4 <= maxFramePayload cs < 2 ^ 32 ->
    maxFramePayload cr = maxFramePayload cs ->
    writable (nc cs) ->
    closed (nc cr) = false ->
    exists cs' sent,
      sendAll cs ms = Some (None, cs') /\
      tx (nc cs') = tx (nc cs) ++ sent /\
      (rx (nc cr) = sent ++ rest ->
       exists cr', readMany (length ms) cr = Some (map delivered ms, None, cr') /\
                   rx (nc cr') = rest).
Proof.
  induction ms as [|m ms IH]; intros cs cr rest Hv Hmax Hsame Hw Hc.
  - exists cs, []. split; [reflexivity|]. split; [symmetry; apply app_nil_r|].
    intros Hrx. exists cr. split; [reflexivity|exact Hrx].
  - pose proof (Forall_inv Hv) as Hm. apply Forall_inv_tail in Hv.
    destruct (Send_succeeds cs None m Hm ltac:(lia) Hw) as (cs1 & Hsend).
    destruct (Send_frames cs None m cs1 ltac:(lia) Hsend)
      as (frames & Htx & Hd & He & Ha).
    destruct (Send_writable _ _ _ _ Hsend Hw) as [Hw1 Hm1].
    set (sent1 := wire (MsgType m) (StreamID m) frames) in *.
    assert (Hs : 0 <= StreamID m < 2 ^ 64).
    { destruct Hm as [(_ & -> & _) | [(_ & ->) | (_ & Hs & _)]]; lia. }
    (* the receiving side after the first message *)
    assert (Hrecv : forall tail,
               rx (nc cr) = sent1 ++ tail ->
               exists cr1, ReadNext cr None = Some (inl (delivered m), cr1) /\
                           rx (nc cr1) = tail /\ closed (nc cr1) = false /\
                           maxFramePayload cr1 = maxFramePayload cs).
    { intros tail Hrx. unfold ReadNext. cbn [ctxOrBackground].
      change (applyReadContext cr Background) with cr.
      assert (Hr : receiving cr (maxFramePayload cs))
        by (repeat split; (assumption || lia)).
      destruct (readBody_delivers cr Background (maxFramePayload cs)
                                  m frames tail Ha Hs Hd He Hr Hrx)
        as (c3 & E & R1 & (R2 & R3 & _)).
      rewrite E. exists (restoreReadDeadline c3). repeat split; assumption. }
    (* the rest of the list, by induction *)
    assert (Hrest : exists cs' sent2,
               sendAll cs1 ms = Some (None, cs') /\
               tx (nc cs') = tx (nc cs1) ++ sent2 /\
               forall cr1, maxFramePayload cr1 = maxFramePayload cs ->
                           closed (nc cr1) = false ->
                           rx (nc cr1) = sent2 ++ rest ->
                           exists cr', readMany (length ms) cr1
                                       = Some (map delivered ms, None, cr') /\
                                       rx (nc cr') = rest).
    { destruct (IH cs1 cs1 rest Hv ltac:(lia) eq_refl Hw1 (proj1 Hw1))
        as (cs' & sent2 & A1 & A2 & _).
      exists cs', sent2. split; [assumption|]. split; [assumption|].
      intros cr1 Hmr Hcr Hrx.
      destruct (IH cs1 cr1 rest Hv ltac:(lia) ltac:(congruence) Hw1 Hcr)
        as (cs'' & sent2' & B1 & B2 & B3).
      assert (sent2' = sent2).
      { rewrite A1 in B1. injection B1 as <-. rewrite A2 in B2.
        apply app_inv_head in B2. congruence. }
      subst sent2'. apply B3. assumption. }
    destruct Hrest as (cs' & sent2 & A1 & A2 & A3).
    exists cs', (sent1 ++ sent2).
    split; [cbn [sendAll]; rewrite Hsend; exact A1|].
    split; [rewrite A2, Htx, app_assoc; reflexivity|].
    intros Hrx. rewrite <- app_assoc in Hrx.
    destruct (Hrecv _ Hrx) as (cr1 & R & R1 & R2 & R3).
    destruct (A3 cr1 R3 R2 R1) as (cr' & Q1 & Q2).
    exists cr'. split; [|assumption].
    cbn [length readMany map]. rewrite R, Q1. reflexivity.
Qed.

End Stream.
Import Stream.

(* ================================================================== *)
(** * The string to sign *)
(* ================================================================== *)

Module SigningString.
Import Auth.

Lemma append_inv_head (p x y : string) : (p ++ x = p ++ y)%string -> x = y.
Proof.
  induction p as [|c p IH]; [exact (fun H => H)|].
  cbn. intros H. injection H as H. auto.
Qed.

Lemma append_assoc (a b c : string) : ((a ++ b) ++ c = a ++ (b ++ c))%string.
Proof. induction a as [|x a IH]; cbn; [reflexivity|]. rewrite IH. reflexivity. Qed.

Lemma length_append (a b : string) :
  String.length (a ++ b) = (String.length a + String.length b)%nat.
Proof. induction a as [|x a IH]; cbn; [reflexivity|]. rewrite IH. reflexivity. Qed.

Lemma append_inv_tail (x y s : string) : (x ++ s = y ++ s)%string -> x = y.
Proof.
  revert y. induction x as [|c x IH]; intros [|d y] H; cbn in H.
  - reflexivity.
  - apply (f_equal String.length) in H. cbn in H. rewrite length_append in H. lia.
  - apply (f_equal String.length) in H. cbn in H. rewrite length_append in H. lia.
  - injection H as -> H. f_equal. auto.
Qed.

(** A field that holds no line feed ends at the first line feed. *)
Lemma split_at_LF (a a' r r' : string) :
  noLF a = true -> noLF a' = true ->
  (a ++ LF ++ r = a' ++ LF ++ r')%string -> a = a' /\ r = r'.
Proof.
  revert a'. induction a as [|c a IH]; intros [|d a'] Ha Ha' H; cbn in *.
  - injection H as H. auto.
  - injection H as <- _. cbn in Ha'. discriminate.
  - injection H as -> _. cbn in Ha. discriminate.
  - injection H as -> H.
    apply andb_true_iff in Ha, Ha'. destruct Ha as [_ Ha], Ha' as [_ Ha'].
    destruct (IH a' Ha Ha' H) as [-> ->]. auto.
Qed.

Lemma to_int_nonnil (v : Z) :
  Z.to_int v <> Decimal.Pos Decimal.Nil /\ Z.to_int v <> Decimal.Neg Decimal.Nil.
Proof.
  destruct v; cbn; split; try discriminate;
    intros H; injection H as H; revert H; apply DecimalPos.Unsigned.to_uint_nonnil.
Qed.

Lemma FormatInt_inj (a b : Z) : FormatInt a = FormatInt b -> a = b.
Proof.
  unfold FormatInt. intros H.
  apply (f_equal DecimalString.NilZero.int_of_string) in H.
  destruct (to_int_nonnil a), (to_int_nonnil b).
  rewrite !DecimalString.NilZero.isi in H by assumption.
  injection H as H. apply DecimalZ.to_int_inj. assumption.
Qed.

(** X13.  The string the agent signs determines its four fields, as
    long as the agent id, the challenge id and the nonce hold no line
    feed: two tuples with the same string to sign are the same. *)
Theorem stringToSignV1_injective (a c n a' c' n' : string) (t t' : Z) :
  noLF a = true -> noLF c = true -> noLF n = true ->
  noLF a' = true -> noLF c' = true -> noLF n' = true ->
  stringToSignV1 a c n t = stringToSignV1 a' c' n' t' ->
  a = a' /\ c = c' /\ n = n' /\ t = t'.
Proof.
  intros Ha Hc Hn Ha' Hc' Hn' H. unfold stringToSignV1 in H.
  apply append_inv_head in H. apply append_inv_head in H.
  apply append_inv_head in H.
  apply split_at_LF in H; [|assumption..]. destruct H as [-> H].
  apply append_inv_head in H.
  apply split_at_LF in H; [|assumption..]. destruct H as [-> H].
  apply append_inv_head in H.
  apply split_at_LF in H; [|assumption..]. destruct H as [-> H].
  apply append_inv_head in H. apply append_inv_tail in H.
  apply FormatInt_inj in H. auto.
Qed.

(** X14.  Without that condition the string to sign is ambiguous: the
    fields are joined without escaping, so a line feed inside the
    challenge id can move text over into the nonce. *)
Theorem stringToSignV1_ambiguous :
  exists c n c' n',
    (c, n) <> (c', n') /\
    forall a t, stringToSignV1 a c n t = stringToSignV1 a c' n' t.
Proof.
  exists ("b" ++ LF ++ "nonce=c")%string, "d"%string,
         "b"%string, ("c" ++ LF ++ "nonce=d")%string.
  split; [discriminate|]. intros a t. unfold stringToSignV1.
  apply (f_equal (append "switchboard-auth-v1")), (f_equal (append LF)),
    (f_equal (append "agent_id=")), (f_equal (append a)), (f_equal (append LF)),
    (f_equal (append "challenge_id=")).
  rewrite !append_assoc. reflexivity.
Qed.

End SigningString.
Import SigningString.

(* ================================================================== *)
(** * Sending on the proxy side *)
(* ================================================================== *)

Module ServerFacts.
Import Auth.

Lemma encodeFrameTo_closed w t f s p :
  closed w = true -> exists e, encodeFrameTo w t f s p = (Some e, w).
Proof.
  intros Hc. unfold encodeFrameTo, Write. rewrite Hc. eauto.
Qed.

(** On a closed endpoint every [Send] fails. *)
Lemma sendSwitch_closed w maxp m e w' :
  closed w = true -> 0 < maxp ->
  sendSwitch w maxp m = Some (e, w') -> e <> None.
Proof.
  intros Hc Hm. unfold sendSwitch, sendWithFragmentation.
  assert (Henc : forall t f s p r,
             Some (encodeFrameTo w t f s p) = Some r -> fst r <> None).
  { intros t f s p r. destruct (encodeFrameTo_closed w t f s p Hc) as [e0 ->].
    intros [= <-]. discriminate. }
  assert (Hloop : forall t s rem first r,
             rem <> [] ->
             fragmentLoop (length rem) w maxp t s rem first = Some r ->
             fst r <> None).
  { intros t s rem first r Hne. destruct rem as [|b rem]; [contradiction|].
    cbn [length fragmentLoop Nat.eqb].
    match goal with
    | |- context [encodeFrameTo w ?t ?f ?s ?p] =>
      destruct (encodeFrameTo_closed w t f s p Hc) as [e0 ->]
    end.
    intros [= <-]. discriminate. }
  repeat match goal with
         | |- context [if ?b then _ else _] => destruct b eqn:?
         end;
    try (intros [= <- <-]; discriminate);
    try (intros H; apply Henc in H; exact H).
  all: try match goal with
           | Hl : forall t s rem first r, _ -> _ -> fst r <> None
             |- fragmentLoop _ _ _ _ _ _ _ = Some (?e1, ?w1) -> _ =>
             intros H; apply (Hl _ _ _ _ (e1, w1)) in H; [exact H|];
               intros E; rewrite E in *; cbn in *;
               match goal with
               | H : (0 <=? _) = false |- _ => apply Z.leb_gt in H; lia
               end
           end.
  all: match goal with
       | Hcl : closed ?w0 = true |- context [encodeFrameTo ?w0 ?t ?f ?s ?p] =>
         destruct (encodeFrameTo_closed w0 t f s p Hcl) as [e0 ->]
       end;
    intros [= <- <-]; discriminate.
Qed.

Lemma Send_ok_open c ctx m c' :
  0 < maxFramePayload c ->
  Send c ctx m = Some (None, c') -> closed (nc c') = false.
Proof.
  intros Hm H. unfold Send in H.
  destruct (sendSwitch _ _ _) as [[e w]|] eqn:Sw; [|discriminate].
  injection H as -> <-.
  pose proof (SendEffects.sendSwitch_effects _ _ _ _ _ Sw)
    as ((_ & _ & _ & S4 & _) & _).
  cbn [restoreWriteDeadline with_nc nc SetWriteDeadline closed]. rewrite S4.
  destruct (closed (nc (applyWriteContext c (ctxOrBackground ctx)))) eqn:Hc;
    [|reflexivity].
  exfalso. eapply sendSwitch_closed; [exact Hc| |exact Sw|reflexivity].
  unfold applyWriteContext. destruct (ctxDeadline _); exact Hm.
Qed.

Section Server.

Context {jsonBegin : JSON authBegin} {jsonChallenge : JSON authChallenge}
        {jsonProof : JSON authProof} {jsonOK : JSON authOK}
        {jsonError : JSON authError} {jsonHeader : JSON header}
        {ext : Externals}.
Variable timeouts : Timeouts.

Lemma failAuth_never_ok {A : Type} code message w (a : A) w' :
  failAuth timeouts code message w <> Some (inl a, w').
Proof.
  unfold failAuth, bind, discard, Auth.Close, fail.
  destruct (sendAuth _ _ _ _) as [[r w1]|]; [|discriminate].
  destruct (negb (message =? EmptyString)%string); discriminate.
Qed.

Lemma sendAuth_ok typ payload w w1 :
  sendAuth timeouts typ payload w = Some (inl tt, w1) ->
  exists ctx,
    Send (connection w) (Some ctx) (mkMessage typ 0 payload 0 0 [])
    = Some (None, connection w1) /\
    clock w1 = clock w /\ ticks w1 = S (ticks w) /\ entropy w1 = entropy w /\
    ctxState w1 = ctxState w.
Proof.
  unfold sendAuth, withTimeout, bind, timeNow. cbn.
  match goal with
  | |- context [Send ?c ?x ?m] => destruct (Send c x m) as [[[e|] c1]|] eqn:E
  end; try discriminate.
  intros H. injection H as <-. eexists. split; [exact E|]. cbn. auto.
Qed.

End Server.

End ServerFacts.
Import ServerFacts.

(* ================================================================== *)
(** * The stages of [WaitForAgentAuthentication] *)
(* ================================================================== *)

Module ServerOutcomes.
Import Auth.
Import ServerFacts.

Section Server.

Context {jsonBegin : JSON authBegin} {jsonChallenge : JSON authChallenge}
        {jsonProof : JSON authProof} {jsonOK : JSON authOK}
        {jsonError : JSON authError} {jsonHeader : JSON header}
        {ext : Externals}.
Variable timeouts : Timeouts.

(** X16.  The first stage of [WaitForAgentAuthentication], once
    [auth_begin] has arrived.  A payload that does not validate
    closes the connection without an [auth_error].  A blank agent id
    is a [protocol_error]; an agent the registry does not know, or
    whose registered key does not hash to the agent id, an
    [unknown_agent]; a registered key of the wrong length an
    [internal_error].  Only an agent id that is the hash of its
    registered 32-byte key gets through. *)
Theorem awaitBegin_outcomes (lookup : string -> option (list byte))
        (w w1 : World) (msg : Message) :
  readAuth timeouts TypeAuthBegin w = Some (inl msg, w1) ->
  0 < maxFramePayload (connection w1) ->
  let result := awaitBegin timeouts lookup w in
  (forall e,
      unmarshalAndValidate (T := authBegin) (Payload msg) "auth_begin" = inr e ->
      result = Some (inr e, set_connection w1 (ConnClose (connection w1)))) /\
  (forall begin,
      unmarshalAndValidate (T := authBegin) (Payload msg) "auth_begin" = inl begin ->
      let agentID := begin_AgentID begin in
      (TrimSpace agentID = EmptyString ->
       failsWith timeouts "protocol_error" "missing agent_id" w1 result) /\
      (TrimSpace agentID <> EmptyString ->
       (lookup agentID = None ->
        failsWith timeouts "unknown_agent" EmptyString w1 result) /\
       (forall pub,
           lookup agentID = Some pub ->
           (length pub <> 32%nat ->
            failsWith timeouts "internal_error" "invalid configured public key"
                      w1 result) /\
           (length pub = 32%nat ->
            agentID <> Hex.EncodeToString (Sha256.Sum256 pub) ->
            failsWith timeouts "unknown_agent" EmptyString w1 result) /\
           (length pub = 32%nat ->
            agentID = Hex.EncodeToString (Sha256.Sum256 pub) ->
            result = Some (inl (agentID, pub), w1))))).
Proof.
  intros Hread Hm. cbv zeta. unfold awaitBegin, bind. rewrite Hread.
  unfold try, lift.
  split.
  - intros e ->. reflexivity.
  - intros begin ->. split.
    + intros Hb. rewrite Hb. cbn [String.eqb].
      apply failAuth_failsWith. assumption.
    + intros Hb. apply String.eqb_neq in Hb. rewrite Hb. split.
      * intros ->. apply failAuth_failsWith. assumption.
      * intros pub ->. unfold agentIDFromPublicKey, PublicKeySize.
        split; [|split].
        -- intros Hl. apply Nat.eqb_neq in Hl. rewrite Hl. cbn [negb].
           apply failAuth_failsWith. assumption.
        -- intros Hl Hne. rewrite Hl. cbn [Nat.eqb negb].
           apply String.eqb_neq in Hne. rewrite Hne. cbn [negb].
           apply failAuth_failsWith. assumption.
        -- intros Hl He. rewrite Hl. cbn [Nat.eqb negb].
           apply String.eqb_eq in He. rewrite He. reflexivity.
Qed.

(** X17.  The third stage of [WaitForAgentAuthentication].  A failed
    read closes the connection; an [auth_proof] whose payload does not
    validate is answered with [protocol_error]; a valid one is handed
    on. *)
Theorem receiveProof_outcomes (w w1 : World) (r : Message + herror) :
  readAuth timeouts TypeAuthProof w = Some (r, w1) ->
  match r with
  | inr e =>
    receiveProof timeouts w
    = Some (inr e, set_connection w1 (ConnClose (connection w1)))
  | inl msg =>
    0 < maxFramePayload (connection w1) ->
    match unmarshalAndValidate (T := authProof) (Payload msg) "auth_proof" with
    | inr _ => failsWith timeouts "protocol_error" "invalid auth_proof" w1
                         (receiveProof timeouts w)
    | inl proof => receiveProof timeouts w = Some (inl proof, w1)
    end
  end.
Proof.
  intros H. unfold receiveProof, try. rewrite H.
  destruct r as [msg|e]; [|reflexivity].
  intros Hm. unfold lift.
  destruct (unmarshalAndValidate (Payload msg) "auth_proof") as [proof|e];
    [reflexivity|].
  apply failAuth_failsWith. assumption.
Qed.

End Server.

End ServerOutcomes.
Import ServerOutcomes.

(* ================================================================== *)
(** * The checks on a proof *)
(* ================================================================== *)

Module ProofChecks.
Import Auth.
Import ServerFacts.

Section Server.

Context {jsonBegin : JSON authBegin} {jsonChallenge : JSON authChallenge}
        {jsonProof : JSON authProof} {jsonOK : JSON authOK}
        {jsonError : JSON authError} {jsonHeader : JSON header}
        {ext : Externals}.
Variable timeouts : Timeouts.

(** [checkProof] once binding and freshness have passed. *)
Lemma checkProof_fresh agentID pub ch proof w :
  boundFieldsMatch agentID ch proof ->
  nowMSat w <= challenge_ExpiresAtMS ch ->
  checkProof timeouts agentID pub ch proof w
  = match b64Decode (proof_Signature proof) with
    | None => failAuth timeouts "bad_signature" EmptyString (tick w)
    | Some sigBytes =>
      if negb (length sigBytes =? SignatureSize)%nat
      then failAuth timeouts "bad_signature" EmptyString (tick w)
      else if negb (ed25519_Verify
                      pub
                      (list_byte_of_string
                         (stringToSignV1 agentID (challenge_ChallengeID ch)
                                         (challenge_Nonce ch)
                                         (challenge_IssuedAtMS ch)))
                      sigBytes)
      then failAuth timeouts "bad_signature" EmptyString (tick w)
      else
        match mustMarshalJSON (mkAuthOK "auth_ok" authVersion agentID
                                        (nowMSat (tick w))) with
        | inr e => Some (inr e, set_connection (tick (tick w))
                                               (ConnClose (connection w)))
        | inl okPayload =>
          match sendAuth timeouts TypeAuthOK okPayload (tick (tick w)) with
          | None => None
          | Some (inl _, w2) => Some (inl tt, w2)
          | Some (inr e, w2) =>
            Some (inr e, set_connection w2 (ConnClose (connection w2)))
          end
        end
    end.
Proof.
  intros (B1 & B2 & B3 & B4) Hfresh. unfold checkProof.
  rewrite B1, B2, B3, B4, !String.eqb_refl, Z.eqb_refl. cbn [negb orb].
  unfold bind at 1. rewrite nowMS_eq. cbv beta iota.
  assert ((nowMSat w >? challenge_ExpiresAtMS ch) = false) as ->
    by (rewrite Z.gtb_ltb; apply Z.ltb_ge; lia).
  destruct (b64Decode (proof_Signature proof)) as [sigBytes|]; [|reflexivity].
  destruct (negb (length sigBytes =? SignatureSize)%nat); [reflexivity|].
  destruct (negb (ed25519_Verify _ _ _)); [reflexivity|].
  unfold bind. rewrite nowMS_eq. cbv beta iota. unfold try, lift.
  destruct (mustMarshalJSON _) as [okPayload|e]; [|reflexivity].
  destruct (sendAuth _ _ _ _) as [[[[]|e] w2]|]; reflexivity.
Qed.

(** X18.  The signature check of [WaitForAgentAuthentication], for a
    proof that is bound to the challenge and arrives before it
    expires.  A signature that is not base64, that does not decode to
    64 bytes, or that [ed25519.Verify] rejects for the registered key
    and the string to sign of the challenge, fails the handshake with
    [bad_signature]: [auth_error] is sent and the connection closed. *)
Theorem checkProof_bad_signature (agentID : string) (pub : list byte)
        (ch : authChallenge) (proof : authProof) (w : World) :
  0 < maxFramePayload (connection w) ->
  boundFieldsMatch agentID ch proof ->
  nowMSat w <= challenge_ExpiresAtMS ch ->
  let signed := list_byte_of_string
                  (stringToSignV1 agentID (challenge_ChallengeID ch)
                                  (challenge_Nonce ch) (challenge_IssuedAtMS ch)) in
  let rejected := failsWith timeouts "bad_signature" EmptyString (tick w)
                            (checkProof timeouts agentID pub ch proof w) in
  (b64Decode (proof_Signature proof) = None -> rejected) /\
  (forall sigBytes,
      b64Decode (proof_Signature proof) = Some sigBytes ->
      (length sigBytes <> 64%nat -> rejected) /\
      (ed25519_Verify pub signed sigBytes = false -> rejected)).
Proof.
  intros Hm Hb Hfresh. cbv zeta.
  rewrite (checkProof_fresh agentID pub ch proof w Hb Hfresh).
  assert (Hf : failsWith timeouts "bad_signature" EmptyString (tick w)
                 (failAuth (A := unit) timeouts "bad_signature" EmptyString (tick w)))
    by (apply failAuth_failsWith; exact Hm).
  split.
  - intros ->. exact Hf.
  - intros sigBytes ->. split.
    + intros Hl. apply Nat.eqb_neq in Hl. unfold SignatureSize. rewrite Hl. exact Hf.
    + intros Hv. rewrite Hv. cbn [negb].
      destruct (negb (length sigBytes =? SignatureSize)%nat); exact Hf.
Qed.

(** X19.  A proof that is bound to the challenge, arrives before it
    expires and carries a 64-byte signature that verifies is accepted:
    on a writable connection [auth_ok] goes out as one frame, the
    handshake returns without error and the connection stays open. *)
Theorem checkProof_accepts (agentID : string) (pub sigBytes okPayload : list byte)
        (ch : authChallenge) (proof : authProof) (w : World) :
  boundFieldsMatch agentID ch proof ->
  nowMSat w <= challenge_ExpiresAtMS ch ->
  b64Decode (proof_Signature proof) = Some sigBytes ->
  length sigBytes = 64%nat ->
  ed25519_Verify pub
                 (list_byte_of_string
                    (stringToSignV1 agentID (challenge_ChallengeID ch)
                                    (challenge_Nonce ch) (challenge_IssuedAtMS ch)))
                 sigBytes = true ->
  mustMarshalJSON (mkAuthOK "auth_ok" authVersion agentID (nowMSat (tick w)))
  = inl okPayload ->
  writable (nc (connection w)) ->
  Z.of_nat (length okPayload) <= maxFramePayload (connection w) ->
  exists w',
    checkProof timeouts agentID pub ch proof w = Some (inl tt, w') /\
    tx (nc (connection w'))
    = tx (nc (connection w)) ++ frameBytes TypeAuthOK startEndFlags 0 okPayload /\
    closed (nc (connection w')) = false.
Proof.
  intros Hb Hfresh Hdec Hlen Hver Hjson [Hc Hroom] Hfit.
  rewrite (checkProof_fresh agentID pub ch proof w Hb Hfresh).
  rewrite Hdec. unfold SignatureSize. rewrite Hlen. cbn [Nat.eqb negb].
  rewrite Hver. cbn [negb]. rewrite Hjson.
  unfold sendAuth, withTimeout, bind, timeNow. cbn [tick connection clock ticks
                                                   entropy ctxState].
  unfold Send, sendSwitch. cbn [ctxOrBackground applyWriteContext ctxDeadline
                                MsgType StreamID Payload].
  change ((TypeAuthOK =? TypePing) || (TypeAuthOK =? TypePong)) with false.
  change (isAuthType TypeAuthOK) with true. cbn [Z.eqb negb].
  cbv iota. unfold sendWithFragmentation.
  cbn [with_nc maxFramePayload nc].
  assert ((Z.of_nat (length okPayload) <=? maxFramePayload (connection w)) = true)
    as -> by (apply Z.leb_le; exact Hfit).
  rewrite encodeFrameTo_open by assumption.
  eexists. split; [reflexivity|]. cbn. split; [reflexivity|exact Hc].
Qed.

(** What [checkProof] has established when it returns without
    error. *)
Lemma checkProof_ok agentID pub ch proof w w' :
  checkProof timeouts agentID pub ch proof w = Some (inl tt, w') ->
  boundFieldsMatch agentID ch proof /\
  nowMSat w <= challenge_ExpiresAtMS ch /\
  exists sigBytes okPayload,
    b64Decode (proof_Signature proof) = Some sigBytes /\
    length sigBytes = 64%nat /\
    ed25519_Verify pub
                   (list_byte_of_string
                      (stringToSignV1 agentID (challenge_ChallengeID ch)
                                      (challenge_Nonce ch) (challenge_IssuedAtMS ch)))
                   sigBytes = true /\
    okPayload <> [] /\
    sendAuth timeouts TypeAuthOK okPayload (tick (tick w)) = Some (inl tt, w').
Proof.
  intros H.
  assert (Hb : boundFieldsMatch agentID ch proof).
  { unfold checkProof in H. unfold boundFieldsMatch.
    destruct (String.eqb_spec (proof_AgentID proof) agentID) as [E1|];
      [|exfalso; eapply failAuth_never_ok; exact H].
    destruct (String.eqb_spec (proof_ChallengeID proof) (challenge_ChallengeID ch))
      as [E2|]; [|exfalso; eapply failAuth_never_ok; exact H].
    destruct (String.eqb_spec (proof_Nonce proof) (challenge_Nonce ch))
      as [E3|]; [|exfalso; eapply failAuth_never_ok; exact H].
    destruct (Z.eqb_spec (proof_IssuedAtMS proof) (challenge_IssuedAtMS ch))
      as [E4|]; [|exfalso; eapply failAuth_never_ok; exact H].
    auto. }
  assert (Hfresh : nowMSat w <= challenge_ExpiresAtMS ch).
  { destruct (Z.le_gt_cases (nowMSat w) (challenge_ExpiresAtMS ch)) as [|Hgt];
      [assumption|].
    exfalso. unfold checkProof in H.
    destruct Hb as (B1 & B2 & B3 & B4).
    rewrite B1, B2, B3, B4, !String.eqb_refl, Z.eqb_refl in H.
    cbn [negb orb] in H. unfold bind at 1 in H. rewrite nowMS_eq in H.
    cbv beta iota in H.
    assert ((nowMSat w >? challenge_ExpiresAtMS ch) = true) as E
      by (rewrite Z.gtb_ltb; apply Z.ltb_lt; lia).
    rewrite E in H. eapply failAuth_never_ok; exact H. }
  split; [assumption|]. split; [assumption|].
  rewrite (checkProof_fresh agentID pub ch proof w Hb Hfresh) in H.
  destruct (b64Decode (proof_Signature proof)) as [sigBytes|];
    [|exfalso; eapply failAuth_never_ok; exact H].
  destruct (Nat.eqb_spec (length sigBytes) SignatureSize) as [Hl|];
    [|exfalso; eapply failAuth_never_ok; exact H].
  cbn [negb] in H.
  destruct (ed25519_Verify _ _ _) eqn:Hv;
    [|exfalso; eapply failAuth_never_ok; exact H].
  cbn [negb] in H.
  destruct (mustMarshalJSON _) as [okPayload|e] eqn:J; [|discriminate].
  exists sigBytes, okPayload. repeat split; try assumption.
  - unfold mustMarshalJSON in J. destruct (json_Marshal _) as [b0|e]; [|discriminate].
    destruct b0; [discriminate|]. injection J as <-. discriminate.
  - destruct (sendAuth _ _ _ _) as [[[[]|e] w2]|]; try discriminate.
    congruence.
Qed.

End Server.

End ProofChecks.
Import ProofChecks.

(* ================================================================== *)
(** * What a successful handshake establishes *)
(* ================================================================== *)

Module Soundness.
Import Auth.
Import ServerFacts ProofChecks.

Lemma encodeFrameTo_ok_open w t f s p w' :
  encodeFrameTo w t f s p = (None, w') -> closed w = false.
Proof.
  unfold encodeFrameTo.
  destruct (Write w (Protocol.header t f s p)) as [[e|] w1] eqn:E1; [discriminate|].
  intros _. apply Write_ok in E1. tauto.
Qed.

(** An auth message with a payload that went out found the connection
    open, and leaves it open. *)
Lemma Send_auth_ok_open c ctx t payload c' :
  isAuthType t = true -> payload <> [] ->
  Send c ctx (mkMessage t 0 payload 0 0 []) = Some (None, c') ->
  closed (nc c') = false.
Proof.
  intros Ht Hp H. unfold Send in H.
  destruct (sendSwitch _ _ _) as [[e w]|] eqn:Sw; [|discriminate].
  injection H as -> <-.
  pose proof (SendEffects.sendSwitch_effects _ _ _ _ _ Sw)
    as ((_ & _ & _ & S4 & _) & _).
  cbn [restoreWriteDeadline with_nc nc SetWriteDeadline closed]. rewrite S4.
  clear S4. revert Sw. generalize (nc (applyWriteContext c (ctxOrBackground ctx))).
  generalize (maxFramePayload (applyWriteContext c (ctxOrBackground ctx))).
  intros maxp w0. unfold sendSwitch. cbn [MsgType StreamID Payload].
  assert (((t =? TypePing) || (t =? TypePong)) = false) as ->.
  { unfold isAuthType in Ht.
    repeat (apply orb_true_iff in Ht; destruct Ht as [Ht|Ht]);
      apply Z.eqb_eq in Ht; rewrite Ht; reflexivity. }
  rewrite Ht. cbn [Z.eqb negb]. unfold sendWithFragmentation.
  destruct (Z.of_nat (length payload) <=? maxp).
  - intros H. injection H as H. eapply encodeFrameTo_ok_open; exact H.
  - destruct payload as [|b payload]; [contradiction|].
    cbn [length fragmentLoop Nat.eqb].
    destruct (encodeFrameTo w0 _ _ _ _) as [[e|] w1] eqn:E; [discriminate|].
    intros _. eapply encodeFrameTo_ok_open; exact E.
Qed.

Section Server.

Context {jsonBegin : JSON authBegin} {jsonChallenge : JSON authChallenge}
        {jsonProof : JSON authProof} {jsonOK : JSON authOK}
        {jsonError : JSON authError} {jsonHeader : JSON header}
        {ext : Externals}.
Variable timeouts : Timeouts.

Lemma awaitBegin_ok lookup w agentID pub w1 :
  awaitBegin timeouts lookup w = Some (inl (agentID, pub), w1) ->
  lookup agentID = Some pub /\ length pub = 32%nat /\
  agentID = Hex.EncodeToString (Sha256.Sum256 pub) /\
  TrimSpace agentID <> EmptyString.
Proof.
  unfold awaitBegin, bind, try, lift.
  destruct (readAuth _ _ _) as [[[msg|e] w0]|]; try discriminate.
  destruct (unmarshalAndValidate _ _) as [begin|e]; [|discriminate].
  destruct (String.eqb_spec (TrimSpace (begin_AgentID begin)) EmptyString) as [|Hb];
    [intros H; exfalso; eapply failAuth_never_ok; exact H|].
  destruct (lookup (begin_AgentID begin)) as [pub0|] eqn:L;
    [|intros H; exfalso; eapply failAuth_never_ok; exact H].
  unfold agentIDFromPublicKey, PublicKeySize.
  destruct (Nat.eqb_spec (length pub0) 32) as [Hl|];
    [|intros H; exfalso; eapply failAuth_never_ok; exact H].
  cbn [negb].
  destruct (String.eqb_spec (begin_AgentID begin)
                            (Hex.EncodeToString (Sha256.Sum256 pub0))) as [He|];
    [|intros H; exfalso; eapply failAuth_never_ok; exact H].
  cbn [negb]. unfold ret. intros H. injection H as <- <- <-. auto.
Qed.

Lemma randomBytes_ok n w b w1 :
  randomBytes n w = Some (inl b, w1) ->
  0 < n /\ length b = Z.to_nat n /\ connection w1 = connection w /\
  clock w1 = clock w /\ ticks w1 = ticks w.
Proof.
  unfold randomBytes. destruct (Z.leb_spec n 0) as [|Hn]; [discriminate|].
  destruct (entropy w) as [|[e|] rest]; try discriminate.
  intros H. injection H as <- <-. cbn.
  repeat split; try assumption.
  rewrite length_firstn, length_app, repeat_length. lia.
Qed.

Lemma awaitBegin_run lookup w agentID pub w1 :
  awaitBegin timeouts lookup w = Some (inl (agentID, pub), w1) ->
  exists beginMsg begin,
    readAuth timeouts TypeAuthBegin w = Some (inl beginMsg, w1) /\
    unmarshalAndValidate (T := authBegin) (Payload beginMsg) "auth_begin"
    = inl begin /\
    agentID = begin_AgentID begin.
Proof.
  unfold awaitBegin, bind, try, lift.
  destruct (readAuth _ _ _) as [[[msg|e] w0]|]; try discriminate.
  destruct (unmarshalAndValidate _ _) as [begin|e] eqn:U; [|discriminate].
  destruct (String.eqb_spec (TrimSpace (begin_AgentID begin)) EmptyString) as [|Hb];
    [intros H; exfalso; eapply failAuth_never_ok; exact H|].
  destruct (lookup (begin_AgentID begin)) as [pub0|] eqn:L;
    [|intros H; exfalso; eapply failAuth_never_ok; exact H].
  unfold agentIDFromPublicKey, PublicKeySize.
  destruct (Nat.eqb_spec (length pub0) 32) as [Hl|];
    [|intros H; exfalso; eapply failAuth_never_ok; exact H].
  cbn [negb].
  destruct (String.eqb_spec (begin_AgentID begin)
                            (Hex.EncodeToString (Sha256.Sum256 pub0))) as [He|];
    [|intros H; exfalso; eapply failAuth_never_ok; exact H].
  cbn [negb]. unfold ret. intros H. injection H as <- <- <-.
  exists msg, begin. auto.
Qed.

Lemma issueChallenge_run w ch w2 :
  issueChallenge timeouts w = Some (inl ch, w2) ->
  exists nonceBytes wn challengeIDBytes wr chPayload,
    randomBytes 32 (tick w) = Some (inl nonceBytes, wn) /\
    randomBytes 24 wn = Some (inl challengeIDBytes, wr) /\
    ch = mkAuthChallenge "auth_challenge" authVersion
                         (b64Encode challengeIDBytes) (b64Encode nonceBytes)
                         (nowMSat w)
                         (int64 (nowMSat w + challengeTTLms timeouts)) /\
    mustMarshalJSON ch = inl chPayload /\
    sendAuth timeouts TypeAuthChallenge chPayload wr = Some (inl tt, w2).
Proof.
  unfold issueChallenge, bind. rewrite nowMS_eq. unfold try.
  destruct (randomBytes 32 (tick w)) as [[[nb|e] wn]|] eqn:R1; try discriminate.
  2: { intros H; exfalso; eapply failAuth_never_ok; exact H. }
  destruct (randomBytes 24 wn) as [[[cb|e] wr]|] eqn:R2; try discriminate.
  2: { intros H; exfalso; eapply failAuth_never_ok; exact H. }
  unfold lift. destruct (mustMarshalJSON _) as [b|e] eqn:Mj; [|discriminate].
  destruct (sendAuth _ _ _ _) as [[[[]|e] w4]|] eqn:S; try discriminate.
  unfold ret. intros H. injection H as <- <-.
  exists nb, wn, cb, wr, b. auto.
Qed.

Lemma receiveProof_run w proof w3 :
  receiveProof timeouts w = Some (inl proof, w3) ->
  exists proofMsg,
    readAuth timeouts TypeAuthProof w = Some (inl proofMsg, w3) /\
    unmarshalAndValidate (T := authProof) (Payload proofMsg) "auth_proof"
    = inl proof.
Proof.
  unfold receiveProof, try, lift, bind.
  destruct (readAuth _ _ _) as [[[msg|e] w0]|]; try discriminate.
  destruct (unmarshalAndValidate _ _) as [p|e] eqn:U.
  - unfold ret. intros H. injection H as <- <-. exists msg. auto.
  - intros H. exfalso. eapply failAuth_never_ok. exact H.
Qed.

(** X20.  What a successful [WaitForAgentAuthentication] has
    established, stage by stage of the run.  The agent id is the one
    of the [auth_begin] that was read, and it is registered with a
    32-byte public key whose SHA-256 in hex is that agent id; the
    challenge is the one minted and sent in this run, from 32 and 24
    bytes of the random source; the proof is the [auth_proof] read
    after the challenge went out, it names that agent and carries the
    challenge id, nonce and issue time of that challenge, and it was
    checked before the challenge expired; its signature decodes to 64
    bytes which [ed25519.Verify] accepts for the registered key and
    the string to sign of the challenge; and the connection is
    open. *)
Theorem WaitForAgentAuthentication_sound
        (lookup : string -> option (list byte)) (w w' : World) :
  WaitForAgentAuthentication timeouts (Some lookup) w = Some (inl tt, w') ->
  authenticated timeouts lookup w w'.
Proof.
  unfold WaitForAgentAuthentication, bind.
  destruct (awaitBegin timeouts lookup w) as [[[[agentID pub]|e] w1]|] eqn:A;
    try discriminate.
  destruct (issueChallenge timeouts w1) as [[[ch|e] w2]|] eqn:I; try discriminate.
  destruct (receiveProof timeouts w2) as [[[proof|e] w3]|] eqn:R; try discriminate.
  cbn [fst snd]. intros C.
  pose proof (awaitBegin_ok _ _ _ _ _ A) as (A1 & A2 & A3 & _).
  apply awaitBegin_run in A. destruct A as (beginMsg & begin & B1 & B2 & B3).
  apply issueChallenge_run in I.
  destruct I as (nb & wn & cb & wr & chPayload & I1 & I2 & I3 & I4 & I5).
  pose proof (randomBytes_ok _ _ _ _ I1) as (_ & N1 & _).
  pose proof (randomBytes_ok _ _ _ _ I2) as (_ & N2 & _).
  apply receiveProof_run in R. destruct R as (proofMsg & R1 & R2).
  apply checkProof_ok in C.
  destruct C as (C1 & C0 & sigBytes & okPayload & C2 & C3 & C4 & C5 & C6).
  subst agentID ch.
  exists beginMsg, begin, pub, w1, nb, wn, cb, wr, chPayload, w2, proofMsg, proof,
         w3, sigBytes.
  cbv zeta.
  repeat (split; [assumption|]).
  (* the send of auth_ok went through, so the connection is open *)
  apply sendAuth_ok in C6. destruct C6 as (ctx & S & _).
  eapply Send_auth_ok_open; [| |exact S]; [reflexivity|assumption].
Qed.

End Server.

End Soundness.
Import Soundness.

(* ================================================================== *)
(** * Issuing the challenge *)
(* ================================================================== *)

Module ChallengeOutcomes.
Import Auth.
Import ServerFacts.

Section Server.

Context {jsonBegin : JSON authBegin} {jsonChallenge : JSON authChallenge}
        {jsonProof : JSON authProof} {jsonOK : JSON authOK}
        {jsonError : JSON authError} {jsonHeader : JSON header}
        {ext : Externals}.
Variable timeouts : Timeouts.

(** X21.  The second stage of [WaitForAgentAuthentication].  The nonce
    is drawn before the challenge id; if the random source fails for
    either, the handshake fails with [internal_error] and the message
    that names which.  A challenge that cannot be marshalled is
    returned as an error with the connection left as it is, open and
    without [auth_error]; a challenge that cannot be sent closes the
    connection; otherwise the challenge sent is the one returned. *)
Theorem issueChallenge_outcomes (w : World) :
  0 < maxFramePayload (connection w) ->
  let result := issueChallenge timeouts w in
  (entropy w = [] \/ (exists rest, entropy w = None :: rest) ->
   exists w1, connection w1 = connection w /\
              failsWith timeouts "internal_error" "nonce generation failed"
                        w1 result) /\
  (forall e1,
      entropy w = [Some e1] \/ (exists rest, entropy w = Some e1 :: None :: rest) ->
      exists w1, connection w1 = connection w /\
                 failsWith timeouts "internal_error" "challenge_id generation failed"
                           w1 result) /\
  (forall e1 e2 rest,
      entropy w = Some e1 :: Some e2 :: rest ->
      exists ch w1,
        connection w1 = connection w /\
        challenge_IssuedAtMS ch = nowMSat w /\
        (forall e, mustMarshalJSON ch = inr e -> result = Some (inr e, w1)) /\
        (forall payload,
            mustMarshalJSON ch = inl payload ->
            match sendAuth timeouts TypeAuthChallenge payload w1 with
            | Some (inl _, w2) => result = Some (inl ch, w2)
            | Some (inr e, w2) =>
              result = Some (inr e, set_connection w2 (ConnClose (connection w2)))
            | None => result = None
            end)).
Proof.
  intros Hm. cbv zeta. unfold issueChallenge, bind. rewrite nowMS_eq.
  unfold try. cbv beta iota.
  split; [|split].
  - intros He.
    assert (exists w1 e, randomBytes 32 (tick w) = Some (inr e, w1) /\
                         connection w1 = connection w) as (w1 & e & -> & Hc).
    { unfold randomBytes. cbn [Z.leb Z.compare tick entropy].
      destruct He as [-> | [rest ->]]; eexists; eexists; split; reflexivity. }
    exists w1. split; [exact Hc|]. apply failAuth_failsWith. rewrite Hc. exact Hm.
  - intros e1 He.
    assert (exists b w1, randomBytes 32 (tick w) = Some (inl b, w1) /\
                         exists w2 e, randomBytes 24 w1 = Some (inr e, w2) /\
                                      connection w2 = connection w)
      as (b & w1 & -> & w2 & e & -> & Hc).
    { unfold randomBytes. cbn [Z.leb Z.compare tick entropy].
      destruct He as [-> | [rest ->]]; eexists; eexists; (split; [reflexivity|]);
        cbn [entropy]; eexists; eexists; split; reflexivity. }
    exists w2. split; [exact Hc|]. apply failAuth_failsWith. rewrite Hc. exact Hm.
  - intros e1 e2 rest He.
    exists (mkAuthChallenge
              "auth_challenge" authVersion
              (b64Encode (firstn 24 (e2 ++ repeat x00 24)))
              (b64Encode (firstn 32 (e1 ++ repeat x00 32)))
              (nowMSat w) (int64 (nowMSat w + challengeTTLms timeouts))),
           (mkWorld (connection w) (clock w) (S (ticks w)) rest (ctxState w)).
    split; [reflexivity|]. split; [reflexivity|].
    unfold randomBytes. cbn [Z.leb Z.compare tick entropy]. rewrite He.
    cbn [entropy connection clock ticks ctxState]. unfold lift.
    change (Z.to_nat 32) with 32%nat. change (Z.to_nat 24) with 24%nat.
    fold (challengeTTLms timeouts).
    split.
    + intros e Hj. rewrite Hj. reflexivity.
    + intros payload Hj. rewrite Hj.
      destruct (sendAuth _ _ _ _) as [[[u|e] w2]|]; reflexivity.
Qed.

End Server.

End ChallengeOutcomes.
Import ChallengeOutcomes.

(* ================================================================== *)
(** * The stages of [AuthenticateAsClient] *)
(* ================================================================== *)

Module ClientOutcomes.
Import Auth.

Section Client.

Context {jsonBegin : JSON authBegin} {jsonChallenge : JSON authChallenge}
        {jsonProof : JSON authProof} {jsonOK : JSON authOK}
        {jsonError : JSON authError} {jsonHeader : JSON header}
        {ext : Externals} {signer : Signer}.
Variable timeouts : Timeouts.

(** X22.  The answer of [AuthenticateAsClient] to a challenge that
    validates.  A challenge whose id or nonce is blank is refused
    with an error, and nothing is sent.  Otherwise the proof that goes
    out names the agent, repeats the challenge id, the nonce and the
    issue time of the challenge, and carries the base64 of the
    signature of their string to sign. *)
Theorem clientProve_outcomes (priv : list byte) (agentID : string)
        (w w1 : World) (msg : Message) (challenge : authChallenge) :
  readAuth timeouts TypeAuthChallenge w = Some (inl msg, w1) ->
  unmarshalAndValidate (T := authChallenge) (Payload msg) "auth_challenge"
  = inl challenge ->
  let result := clientProve timeouts priv agentID w in
  let cid := challenge_ChallengeID challenge in
  let nonce := challenge_Nonce challenge in
  let issued := challenge_IssuedAtMS challenge in
  (TrimSpace cid = EmptyString \/ TrimSpace nonce = EmptyString ->
   result = Some (inr (ErrorNew "invalid auth_challenge (missing challenge_id/nonce)"),
                  w1)) /\
  (TrimSpace cid <> EmptyString -> TrimSpace nonce <> EmptyString ->
   let signature :=
       ed25519_Sign priv (list_byte_of_string (stringToSignV1 agentID cid nonce issued)) in
   let proof := mkAuthProof "auth_proof" authVersion agentID cid nonce issued
                            (b64Encode signature) in
   match mustMarshalJSON proof with
   | inr e => result = Some (inr e, w1)
   | inl proofPayload => result = sendAuth timeouts TypeAuthProof proofPayload w1
   end).
Proof.
  intros Hread Hval. cbv zeta.
  assert (R : clientProve timeouts priv agentID w
              = (if (TrimSpace (challenge_ChallengeID challenge) =? EmptyString)%string
                    || (TrimSpace (challenge_Nonce challenge) =? EmptyString)%string
                 then Some (inr (ErrorNew "invalid auth_challenge (missing challenge_id/nonce)"),
                            w1)
                 else
                   match mustMarshalJSON
                           (mkAuthProof
                              "auth_proof" authVersion agentID
                              (challenge_ChallengeID challenge)
                              (challenge_Nonce challenge)
                              (challenge_IssuedAtMS challenge)
                              (b64Encode
                                 (ed25519_Sign
                                    priv
                                    (list_byte_of_string
                                       (stringToSignV1
                                          agentID
                                          (challenge_ChallengeID challenge)
                                          (challenge_Nonce challenge)
                                          (challenge_IssuedAtMS challenge)))))) with
                   | inr e => Some (inr e, w1)
                   | inl proofPayload => sendAuth timeouts TypeAuthProof proofPayload w1
                   end)).
  { unfold clientProve, bind. rewrite Hread. unfold lift. rewrite Hval.
    cbv beta iota.
    destruct ((TrimSpace (challenge_ChallengeID challenge) =? EmptyString)%string
              || (TrimSpace (challenge_Nonce challenge) =? EmptyString)%string);
      [reflexivity|].
    destruct (mustMarshalJSON _); reflexivity. }
  rewrite R. split.
  - intros Hblank.
    destruct Hblank as [H | H]; rewrite H; cbn [String.eqb orb];
      rewrite ?orb_true_r; reflexivity.
  - intros H1 H2. apply String.eqb_neq in H1, H2. rewrite H1, H2.
    cbn [orb]. destruct (mustMarshalJSON _); reflexivity.
Qed.

(** X23.  The end of [AuthenticateAsClient], by the message that
    comes back.  An [auth_ok] for this agent ends the handshake
    without error; an [auth_ok] for another agent and an [auth_error]
    are errors that leave the connection open; a message of any other
    type closes it. *)
Theorem clientResult_outcomes (agentID : string) (w w1 : World) (msg : Message) :
  readNextWithTimeout (readTimeout timeouts) w = Some (inl msg, w1) ->
  let result := clientResult timeouts agentID w in
  (MsgType msg = TypeAuthOK ->
   forall ok,
     unmarshalAndValidate (T := authOK) (Payload msg) "auth_ok" = inl ok ->
     (ok_AgentID ok = agentID -> result = Some (inl tt, w1)) /\
     (ok_AgentID ok <> agentID ->
      result = Some (inr (Errorf "auth_ok agent_id mismatch: got %q want %q"
                                 [ok_AgentID ok; agentID]), w1))) /\
  (MsgType msg = TypeAuthError ->
   forall ae,
     unmarshalAndValidate (T := authError) (Payload msg) "auth_error" = inl ae ->
     (error_Message ae = EmptyString ->
      result = Some (inr (Errorf "authentication failed: %s" [error_Code ae]), w1)) /\
     (error_Message ae <> EmptyString ->
      result = Some (inr (Errorf "authentication failed: %s (%s)"
                                 [error_Code ae; error_Message ae]), w1))) /\
  (MsgType msg <> TypeAuthOK -> MsgType msg <> TypeAuthError ->
   result
   = Some (inr (Errorf "unexpected frame type %d while waiting for auth result"
                       [FormatInt (MsgType msg)]),
           set_connection w1 (ConnClose (connection w1)))).
Proof.
  intros Hread. cbv zeta. unfold clientResult, bind. rewrite Hread.
  split; [|split].
  - intros -> ok Hok. cbn [Z.eqb Pos.eqb TypeAuthOK]. unfold lift. rewrite Hok.
    split; intros Ha.
    + rewrite Ha, String.eqb_refl. reflexivity.
    + apply String.eqb_neq in Ha. rewrite Ha. reflexivity.
  - intros -> ae Hae. cbn [Z.eqb Pos.eqb TypeAuthOK TypeAuthError].
    unfold lift. rewrite Hae. split; intros Hm.
    + rewrite Hm. reflexivity.
    + apply String.eqb_neq in Hm. rewrite Hm. reflexivity.
  - intros H1 H2. apply Z.eqb_neq in H1, H2. rewrite H1, H2. reflexivity.
Qed.

End Client.

End ClientOutcomes.
Import ClientOutcomes.

(* ================================================================== *)
(** * An auth message from one end to the other *)
(* ================================================================== *)

Module Exchange.
Import Auth.

Lemma isAuthType_known t : isAuthType t = true -> isKnownType t = true.
Proof.
  unfold isAuthType. intros H.
  repeat (apply orb_true_iff in H; destruct H as [H|H]);
    apply Z.eqb_eq in H; rewrite H; reflexivity.
Qed.

Lemma Send_rx c ctx m e c' :
  Send c ctx m = Some (e, c') -> rx (nc c') = rx (nc c).
Proof.
  unfold Send. destruct (sendSwitch _ _ _) as [[e0 w]|] eqn:Sw; [|discriminate].
  intros H. injection H as <- <-.
  apply SendEffects.sendSwitch_effects in Sw.
  destruct Sw as ((S1 & _) & _). cbn. rewrite S1.
  unfold applyWriteContext. destruct (ctxDeadline _); reflexivity.
Qed.

(** An auth message sent on an idle connection. *)
Lemma Send_auth_idle c ctx typ payload m :
  isAuthType typ = true ->
  writable (nc c) -> maxFramePayload c = m -> 4 <= m < 2 ^ 32 ->
  exists c' frames,
    Send c ctx (mkMessage typ 0 payload 0 0 []) = Some (None, c') /\
    writable (nc c') /\ maxFramePayload c' = m /\ rx (nc c') = rx (nc c) /\
    tx (nc c') = tx (nc c) ++ wire typ 0 frames /\
    disciplined m payload frames.
Proof.
  intros Ht Hw Hm Hr.
  set (msg := mkMessage typ 0 payload 0 0 []).
  assert (Hv : validFields msg) by (right; left; split; [exact Ht|reflexivity]).
  destruct (Send_succeeds c ctx msg Hv ltac:(lia) Hw) as (c' & Hs).
  destruct (Send_frames c ctx msg c' ltac:(lia) Hs) as (frames & F1 & F2 & _).
  destruct (Stream.Send_writable _ _ _ _ Hs Hw) as [W1 W2].
  exists c', frames. split; [exact Hs|]. split; [exact W1|].
  split; [congruence|]. split; [eapply Send_rx; exact Hs|].
  split; [exact F1|].
  unfold logicalPayload in F2. cbn [MsgType Payload msg] in F2.
  rewrite (isAuthType_not_payload _ Ht) in F2. rewrite <- Hm. exact F2.
Qed.

(** The frames of an auth message, read on an idle connection that
    they arrive on. *)
Lemma ReadNext_auth_arrived c ctx typ payload frames m rest :
  isAuthType typ = true ->
  closed (nc c) = false -> maxFramePayload c = m -> 0 < m < 2 ^ 32 ->
  rx (nc c) = wire typ 0 frames ++ rest ->
  disciplined m payload frames ->
  exists c',
    ReadNext c ctx = Some (inl (mkMessage typ 0 payload 0 0 []), c') /\
    closed (nc c') = false /\ maxFramePayload c' = m /\ rx (nc c') = rest /\
    tx (nc c') = tx (nc c) /\ tx_room (nc c') = tx_room (nc c).
Proof.
  intros Ht Hc Hm Hr Hrx Hd.
  set (msg := mkMessage typ 0 payload 0 0 []).
  assert (Ha : accepted msg).
  { split; [apply isAuthType_known; exact Ht|]. cbn [MsgType StreamID Payload msg].
    split; [|split].
    - intros E. rewrite E in Ht. discriminate.
    - reflexivity.
    - intros [E|E]; rewrite E in Ht; discriminate. }
  assert (He : envelopeFirst msg frames).
  { intros E. cbn [MsgType msg] in E. rewrite E in Ht. discriminate. }
  assert (Hd' : disciplined m (logicalPayload msg) frames).
  { unfold logicalPayload. cbn [MsgType Payload msg].
    rewrite (isAuthType_not_payload _ Ht). exact Hd. }
  set (cx := ctxOrBackground ctx).
  assert (Hrecv : receiving (applyReadContext c cx) m /\
                  rx (nc (applyReadContext c cx)) = wire typ 0 frames ++ rest /\
                  tx (nc (applyReadContext c cx)) = tx (nc c) /\
                  tx_room (nc (applyReadContext c cx)) = tx_room (nc c)).
  { unfold applyReadContext.
    destruct (ctxDeadline cx); repeat split; assumption || lia. }
  destruct Hrecv as (R1 & R2 & R3 & R4).
  destruct (readBody_delivers (applyReadContext c cx) cx m msg frames rest
                              Ha ltac:(cbn; split; [discriminate|reflexivity])
                              Hd' He R1 R2)
    as (c2 & B & B1 & (B2 & B3 & _)).
  pose proof (ReadEffects.readBody_step _ _ _ _ B)
    as ((_ & S2 & S3 & _) & _).
  exists (restoreReadDeadline c2).
  unfold ReadNext. fold cx. rewrite B.
  assert (Hdel : delivered msg = msg).
  { unfold delivered. cbn [MsgType msg].
    rewrite (isAuthType_not_payload _ Ht). reflexivity. }
  rewrite Hdel. split; [reflexivity|]. cbn.
  repeat split; try assumption; congruence.
Qed.

End Exchange.
Import Exchange.

(* ================================================================== *)
(** * The frames of an auth message *)
(* ================================================================== *)

Module WireFacts.
Import Auth Exchange.

Lemma cut_fuel m : forall fuel fuel' l,
    (0 < m)%nat -> (length l < fuel)%nat -> (length l < fuel')%nat ->
    cut fuel m l = cut fuel' m l.
Proof.
  induction fuel as [|fuel IH]; intros [|fuel'] l Hm H H'; try lia.
  cbn [cut]. destruct (Nat.leb_spec (length l) m); [reflexivity|].
  f_equal. apply IH; try assumption; rewrite length_skipn; lia.
Qed.

Lemma cut_nonempty fuel m l : (0 < fuel)%nat -> cut fuel m l <> [].
Proof.
  destruct fuel; [lia|]. intros _. cbn [cut].
  destruct (length l <=? m)%nat; discriminate.
Qed.

Lemma flagged_cons first c rest :
  rest <> [] ->
  flagged first (c :: rest) = (if first then flagStart else 0, c) :: flagged false rest.
Proof. destruct rest; [contradiction|reflexivity]. Qed.

(** On a writable endpoint the loop of [sendWithFragmentation] writes
    the chunks of [cut]. *)
Lemma fragmentLoop_cut maxp t s : 0 < maxp ->
  forall fuel w remaining first,
    writable w -> remaining <> [] -> (length remaining <= fuel)%nat ->
    fragmentLoop fuel w maxp t s remaining first
    = Some (None,
            set_tx w (tx w ++ wire t s (flagged first
                                          (cut (S (length remaining))
                                               (Z.to_nat maxp) remaining)))
                   None).
Proof.
  intros Hm. induction fuel as [|fuel IH]; intros w remaining first Hw Hne Hf.
  - destruct remaining; [contradiction|cbn in Hf; lia].
  - cbn [fragmentLoop].
    destruct remaining as [|b0 rem0] eqn:Er; [contradiction|].
    rewrite <- Er in *.
    assert ((length remaining =? 0)%nat = false) as -> by (rewrite Er; reflexivity).
    cbn [cut].
    destruct (Nat.leb_spec (length remaining) (Z.to_nat maxp)) as [Hfit|Hbig].
    + rewrite (SendChunks.takeChunk_all maxp remaining) by lia.
      rewrite skipn_all. cbn [length Nat.eqb].
      rewrite encodeFrameTo_open by apply Hw.
      assert (Hd : forall w0, fragmentLoop fuel w0 maxp t s [] false = Some (None, w0))
        by (intros w0; destruct fuel; reflexivity).
      rewrite Hd. unfold wire. cbn [flagged map concat fst snd].
      rewrite app_nil_r. destruct first; reflexivity.
    + pose proof (SendChunks.takeChunk_full maxp remaining Hm ltac:(lia)) as Lc.
      assert (Hc : takeChunk maxp remaining = firstn (Z.to_nat maxp) remaining).
      { rewrite (takeChunk_prefix maxp remaining) at 1.
        f_equal. lia. }
      rewrite Hc in *. clear Hc.
      assert (Lf : length (firstn (Z.to_nat maxp) remaining) = Z.to_nat maxp) by lia.
      rewrite Lf.
      set (rest := skipn (Z.to_nat maxp) remaining).
      assert (Lr : (0 < length rest)%nat)
        by (unfold rest; rewrite length_skipn; lia).
      assert ((length rest =? 0)%nat = false) as -> by (apply Nat.eqb_neq; lia).
      rewrite encodeFrameTo_open by apply Hw.
      assert (Hne' : rest <> []) by (intros E; rewrite E in Lr; cbn in Lr; lia).
      assert (E : wire t s (flagged first
                              (firstn (Z.to_nat maxp) remaining
                                      :: cut (length remaining) (Z.to_nat maxp) rest))
                  = frameBytes t (if first then Z.lor 0 flagStart else 0) s
                               (firstn (Z.to_nat maxp) remaining)
                    ++ wire t s (flagged false
                                   (cut (S (length rest)) (Z.to_nat maxp) rest))).
      { rewrite flagged_cons by (apply cut_nonempty; lia).
        rewrite wire_cons.
        rewrite (cut_fuel (Z.to_nat maxp) (S (length rest)) (length remaining) rest);
          try lia.
        - destruct first; reflexivity.
        - unfold rest. rewrite length_skipn. lia. }
      rewrite IH.
      * rewrite E, app_assoc. reflexivity.
      * split; [apply Hw|reflexivity].
      * exact Hne'.
      * unfold rest. rewrite length_skipn. lia.
Qed.

End WireFacts.
Import WireFacts.

(* ================================================================== *)
(** * Auth messages on the wire *)
(* ================================================================== *)

Module WireExchange.
Import Auth Exchange WireFacts.

(** What [Send] writes for an auth message on a writable connection. *)
Lemma Send_auth_wire c ctx typ payload m :
  isAuthType typ = true ->
  writable (nc c) -> maxFramePayload c = m -> 0 < m ->
  exists c',
    Send c ctx (mkMessage typ 0 payload 0 0 []) = Some (None, c') /\
    tx (nc c') = tx (nc c) ++ authWire m typ payload /\
    rx (nc c') = rx (nc c) /\ writable (nc c') /\ maxFramePayload c' = m.
Proof.
  intros Ht Hw Hm Hpos. unfold Send.
  set (c1 := applyWriteContext c (ctxOrBackground ctx)).
  assert (H1 : writable (nc c1) /\ maxFramePayload c1 = m /\
               tx (nc c1) = tx (nc c) /\ rx (nc c1) = rx (nc c)).
  { unfold c1, applyWriteContext. destruct (ctxDeadline _); repeat split;
      try assumption; apply Hw. }
  destruct H1 as (Hw1 & Hm1 & Htx1 & Hrx1).
  unfold sendSwitch. cbn [MsgType StreamID Payload].
  assert (((typ =? TypePing) || (typ =? TypePong)) = false) as ->.
  { unfold isAuthType in Ht.
    repeat (apply orb_true_iff in Ht; destruct Ht as [Ht|Ht]);
      apply Z.eqb_eq in Ht; rewrite Ht; reflexivity. }
  rewrite Ht. cbn [Z.eqb negb]. unfold sendWithFragmentation. rewrite Hm1.
  assert (Hout : exists w',
             (if Z.of_nat (length payload) <=? m
              then Some (encodeFrameTo (nc c1) typ startEndFlags 0 payload)
              else fragmentLoop (length payload) (nc c1) m typ 0 payload true)
             = Some (None, w') /\
             w' = set_tx (nc c1) (tx (nc c1) ++ authWire m typ payload) None).
  { eexists. split; [|reflexivity].
    unfold authWire. cbn [cut].
    destruct (Z.leb_spec (Z.of_nat (length payload)) m) as [Hfit|Hbig].
    - assert ((length payload <=? Z.to_nat m)%nat = true) as ->
        by (apply Nat.leb_le; lia).
      rewrite encodeFrameTo_open by apply Hw1.
      cbn [flagged]. rewrite wire_single. reflexivity.
    - assert ((length payload <=? Z.to_nat m)%nat = false) as Hl
        by (apply Nat.leb_gt; lia).
      rewrite (fragmentLoop_cut m typ 0 Hpos (length payload) (nc c1) payload true
                                Hw1);
        [|intros E; rewrite E in Hbig; cbn in Hbig; lia|lia].
      cbn [cut]. rewrite Hl. reflexivity. }
  destruct Hout as (w' & -> & ->).
  eexists. split; [reflexivity|].
  cbn [restoreWriteDeadline with_nc nc SetWriteDeadline set_tx tx rx maxFramePayload].
  split; [rewrite Htx1; reflexivity|]. split; [exact Hrx1|].
  split; [|exact Hm1]. split; [apply Hw1|reflexivity].
Qed.

(** The wire image of an auth message is that of frames which keep the
    flag discipline. *)
Lemma authWire_disciplined m typ payload :
  isAuthType typ = true -> 4 <= m < 2 ^ 32 ->
  exists frames, authWire m typ payload = wire typ 0 frames /\
                 disciplined m payload frames.
Proof.
  intros Ht Hm.
  set (c := mkConn (mkNet [] EOF [] None ErrReset false None None) m).
  assert (Hw : writable (nc c)) by (split; reflexivity).
  destruct (Send_auth_idle c None typ payload m Ht Hw eq_refl Hm)
    as (c' & frames & S1 & _ & _ & _ & S2 & S3).
  destruct (Send_auth_wire c None typ payload m Ht Hw eq_refl ltac:(lia))
    as (c'' & T1 & T2 & _).
  rewrite S1 in T1. injection T1 as <-.
  exists frames. split; [|exact S3].
  rewrite S2 in T2. cbn in T2. symmetry. exact T2.
Qed.

End WireExchange.
Import WireExchange.

(* ================================================================== *)
(** * One step of the handshake on the wire *)
(* ================================================================== *)

Module Stages.
Import Auth Exchange WireFacts WireExchange.

Lemma advance_elapsed n w w' : advance n w w' -> elapsed n w w'.
Proof. intros (A1 & A2 & _). split; assumption. Qed.

Lemma elapsed_trans a b w1 w2 w3 :
  elapsed a w1 w2 -> elapsed b w2 w3 -> elapsed (b + a) w1 w3.
Proof.
  intros (A1 & A2) (B1 & B2). split; try congruence. lia.
Qed.

Lemma later_elapsed n w : elapsed n w (later n w).
Proof.
  induction n as [|n IH]; [split; reflexivity|].
  change (later (S n) w) with (tick (later n w)).
  destruct IH as (A1 & A2). split; cbn; try assumption. lia.
Qed.

Lemma nowMSat_elapsed n w w' : elapsed n w w' -> nowMSat w' = nowMSat (later n w).
Proof.
  intros (A1 & A2). destruct (later_elapsed n w) as (B1 & B2).
  unfold nowMSat. rewrite A1, A2, B1, B2. reflexivity.
Qed.

Section Steps.

Context {jsonBegin : JSON authBegin} {jsonChallenge : JSON authChallenge}
        {jsonProof : JSON authProof} {jsonOK : JSON authOK}
        {jsonError : JSON authError} {jsonHeader : JSON Auth.header}
        {ext : Externals} {signer : Signer}.
Variable timeouts : Timeouts.

Lemma sendAuth_wire w typ payload m input :
  isAuthType typ = true -> ready w m input -> 0 < m ->
  exists w',
    sendAuth timeouts typ payload w = Some (inl tt, w') /\
    written w' = written w ++ authWire m typ payload /\
    ready w' m input /\ advance 1 w w'.
Proof.
  intros Ht (Hw & Hm & Hrx) Hpos.
  unfold sendAuth, withTimeout, bind, timeNow. cbn [connection ctxState].
  match goal with
  | |- context [Send ?c ?x ?msg] =>
    destruct (Send_auth_wire c x typ payload m Ht Hw Hm Hpos)
      as (c' & S1 & S2 & S3 & S4 & S5)
  end.
  rewrite S1. eexists. split; [reflexivity|].
  unfold written, ready, advance. cbn.
  repeat split; try assumption; try congruence; apply S4.
Qed.

Lemma readNext_wire w typ payload m rest d :
  isAuthType typ = true -> 4 <= m < 2 ^ 32 ->
  ready w m (authWire m typ payload ++ rest) ->
  exists w',
    readNextWithTimeout d w = Some (inl (mkMessage typ 0 payload 0 0 []), w') /\
    written w' = written w /\ ready w' m rest /\ advance 1 w w'.
Proof.
  intros Ht Hm ((Hc & Hroom) & Hmax & Hrx).
  destruct (authWire_disciplined m typ payload Ht Hm) as (frames & E & Hd).
  rewrite E in Hrx.
  unfold readNextWithTimeout, withTimeout, bind, timeNow. cbn [connection ctxState].
  match goal with
  | |- context [ReadNext ?c ?x] =>
    destruct (ReadNext_auth_arrived c x typ payload frames m rest Ht Hc Hmax
                                    ltac:(lia) Hrx Hd)
      as (c' & R1 & R2 & R3 & R4 & R5 & R6)
  end.
  rewrite R1. eexists. split; [reflexivity|].
  unfold written, ready, advance, writable. cbn.
  repeat split; try assumption; congruence.
Qed.

Lemma readAuth_wire w typ payload m rest :
  isAuthType typ = true -> 4 <= m < 2 ^ 32 ->
  ready w m (authWire m typ payload ++ rest) ->
  exists w',
    readAuth timeouts typ w = Some (inl (mkMessage typ 0 payload 0 0 []), w') /\
    written w' = written w /\ ready w' m rest /\ advance 1 w w'.
Proof.
  intros Ht Hm Hr.
  destruct (readNext_wire w typ payload m rest (readTimeout timeouts) Ht Hm Hr)
    as (w' & R & H1 & H2 & H3).
  exists w'. split; [|auto].
  unfold readAuth, bind. rewrite R. cbn [MsgType]. rewrite Z.eqb_refl. reflexivity.
Qed.

(** A value that survives the encoding passes [mustMarshalJSON] and
    [unmarshalAndValidate]. *)
Lemma encodes_validates {T : Type} {jsonT : JSON T} (v : T) (ty : string) :
  encodes v ty ->
  exists b, mustMarshalJSON v = inl b /\ unmarshalAndValidate (T := T) b ty = inl v.
Proof.
  intros (b & M & Hne & U & H). exists b. split.
  - unfold mustMarshalJSON. rewrite M. destruct b; [contradiction|reflexivity].
  - unfold unmarshalAndValidate. destruct b; [contradiction|].
    cbn [length Nat.eqb]. rewrite U, H. cbn [header_Type header_V].
    rewrite String.eqb_refl, Z.eqb_refl. reflexivity.
Qed.

End Steps.

End Stages.
Import Stages.

(* ================================================================== *)
(** * Each side against a well-behaved peer *)
(* ================================================================== *)

Module Runs.
Import Auth Exchange WireFacts WireExchange Stages.

Section Sides.

Context {jsonBegin : JSON authBegin} {jsonChallenge : JSON authChallenge}
        {jsonProof : JSON authProof} {jsonOK : JSON authOK}
        {jsonError : JSON authError} {jsonHeader : JSON Auth.header}
        {ext : Externals} {signer : Signer}.
Variable timeouts : Timeouts.

(** The client against a proxy that sends a valid challenge and then
    [auth_ok]. *)
Lemma client_run (w0 : World) (m : Z) (priv pub : list byte) (agentID : string)
      (bB bCh bP bOK : list byte) (ch : authChallenge) (ok : authOK) :
  4 <= m < 2 ^ 32 ->
  ready w0 m (authWire m TypeAuthChallenge bCh ++ authWire m TypeAuthOK bOK) ->
  mustMarshalJSON (mkAuthBegin "auth_begin" authVersion agentID (nowMSat w0))
  = inl bB ->
  unmarshalAndValidate (T := authChallenge) bCh "auth_challenge" = inl ch ->
  TrimSpace (challenge_ChallengeID ch) <> EmptyString ->
  TrimSpace (challenge_Nonce ch) <> EmptyString ->
  mustMarshalJSON
    (mkAuthProof "auth_proof" authVersion agentID
                 (challenge_ChallengeID ch) (challenge_Nonce ch)
                 (challenge_IssuedAtMS ch)
                 (b64Encode
                    (ed25519_Sign
                       priv
                       (list_byte_of_string
                          (stringToSignV1 agentID (challenge_ChallengeID ch)
                                          (challenge_Nonce ch)
                                          (challenge_IssuedAtMS ch))))))
  = inl bP ->
  unmarshalAndValidate (T := authOK) bOK "auth_ok" = inl ok ->
  ok_AgentID ok = agentID ->
  exists w',
    AuthenticateAsClient timeouts (ret (priv, pub, agentID)) w0 = Some (inl tt, w') /\
    written w' = written w0 ++ authWire m TypeAuthBegin bB
                 ++ authWire m TypeAuthProof bP /\
    ready w' m [].
Proof.
  intros Hm Hr HB HCh Hcid Hnonce HP HOK Hok.
  (* auth_begin goes out *)
  assert (Hr1 : ready (tick w0) m
                      (authWire m TypeAuthChallenge bCh ++ authWire m TypeAuthOK bOK))
    by exact Hr.
  destruct (sendAuth_wire timeouts (tick w0) TypeAuthBegin bB m _ eq_refl Hr1
                          ltac:(lia)) as (w1 & S1 & W1 & R1 & _).
  (* the challenge comes in *)
  destruct (readAuth_wire timeouts w1 TypeAuthChallenge bCh m _ eq_refl Hm R1)
    as (w2 & S2 & W2 & R2 & _).
  (* the proof goes out *)
  destruct (sendAuth_wire timeouts w2 TypeAuthProof bP m _ eq_refl R2 ltac:(lia))
    as (w3 & S3 & W3 & R3 & _).
  (* auth_ok comes in *)
  rewrite <- (app_nil_r (authWire m TypeAuthOK bOK)) in R3.
  destruct (readNext_wire w3 TypeAuthOK bOK m [] (readTimeout timeouts) eq_refl Hm R3)
    as (w4 & S4 & W4 & R4 & _).
  exists w4. split; [|split; [|exact R4]].
  - unfold AuthenticateAsClient, bind at 1, ret. cbn [fst snd].
    unfold bind at 1. unfold clientBegin, bind at 1. rewrite nowMS_eq.
    unfold bind at 1, lift at 1. rewrite HB, S1.
    unfold bind at 1.
    assert (P : clientProve timeouts priv agentID w1 = Some (inl tt, w3)).
    { apply String.eqb_neq in Hcid, Hnonce.
      unfold clientProve, bind. rewrite S2. cbn [Payload]. unfold lift.
      rewrite HCh, Hcid, Hnonce. cbn [orb]. rewrite HP. exact S3. }
    rewrite P.
    unfold clientResult, bind. rewrite S4. cbn [MsgType Payload].
    change (TypeAuthOK =? TypeAuthOK) with true. cbv iota.
    unfold lift. rewrite HOK, Hok, String.eqb_refl. reflexivity.
  - rewrite W4, W3, W2, W1. unfold written. cbn. rewrite app_assoc. reflexivity.
Qed.

(** The proxy against an agent that announces a registered agent id
    and then sends a proof for the challenge it got. *)
Lemma server_run (w0 : World) (m : Z) (lookup : string -> option (list byte))
      (agentID : string) (pub e1 e2 sigBytes : list byte)
      (rest0 : list (option (list byte)))
      (bB bCh bP bOK : list byte) (begin : authBegin) (proof : authProof) :
  4 <= m < 2 ^ 32 ->
  ready w0 m (authWire m TypeAuthBegin bB ++ authWire m TypeAuthProof bP) ->
  unmarshalAndValidate (T := authBegin) bB "auth_begin" = inl begin ->
  begin_AgentID begin = agentID ->
  TrimSpace agentID <> EmptyString ->
  lookup agentID = Some pub -> length pub = 32%nat ->
  agentID = Hex.EncodeToString (Sha256.Sum256 pub) ->
  entropy w0 = Some e1 :: Some e2 :: rest0 ->
  let ch := mkAuthChallenge "auth_challenge" authVersion
                            (b64Encode (firstn 24 (e2 ++ repeat x00 24)))
                            (b64Encode (firstn 32 (e1 ++ repeat x00 32)))
                            (nowMSat (later 1 w0))
                            (int64 (nowMSat (later 1 w0) + challengeTTLms timeouts)) in
  mustMarshalJSON ch = inl bCh ->
  unmarshalAndValidate (T := authProof) bP "auth_proof" = inl proof ->
  boundFieldsMatch agentID ch proof ->
  nowMSat (later 4 w0) <= challenge_ExpiresAtMS ch ->
  b64Decode (proof_Signature proof) = Some sigBytes ->
  length sigBytes = 64%nat ->
  ed25519_Verify pub
                 (list_byte_of_string
                    (stringToSignV1 agentID (challenge_ChallengeID ch)
                                    (challenge_Nonce ch) (challenge_IssuedAtMS ch)))
                 sigBytes = true ->
  mustMarshalJSON (mkAuthOK "auth_ok" authVersion agentID (nowMSat (later 5 w0)))
  = inl bOK ->
  exists w',
    WaitForAgentAuthentication timeouts (Some lookup) w0 = Some (inl tt, w') /\
    written w' = written w0 ++ authWire m TypeAuthChallenge bCh
                 ++ authWire m TypeAuthOK bOK /\
    ready w' m [].
Proof.
  intros Hm Hr HB Hid Hblank Hlook Hlen Hhash Hent ch HCh HP Hbound Hfresh
         Hdec Hsig Hver HOK.
  (* auth_begin comes in *)
  destruct (readAuth_wire timeouts w0 TypeAuthBegin bB m _ eq_refl Hm Hr)
    as (w1 & S1 & W1 & R1 & A1).
  assert (Aw : awaitBegin timeouts lookup w0 = Some (inl (agentID, pub), w1)).
  { unfold awaitBegin, bind. rewrite S1. cbn [Payload]. unfold try, lift.
    rewrite HB, Hid. apply String.eqb_neq in Hblank. rewrite Hblank, Hlook.
    unfold agentIDFromPublicKey, PublicKeySize. rewrite Hlen. cbn [Nat.eqb negb].
    rewrite <- Hhash, String.eqb_refl. reflexivity. }
  (* the challenge goes out *)
  pose proof (nowMSat_elapsed 1 w0 w1 (advance_elapsed _ _ _ A1)) as N1.
  destruct A1 as (C1 & T1 & E1 & U1).
  set (w1r := mkWorld (connection w1) (clock w1) (S (ticks w1)) rest0 (ctxState w1)).
  assert (Rr : ready w1r m (authWire m TypeAuthProof bP)) by exact R1.
  destruct (sendAuth_wire timeouts w1r TypeAuthChallenge bCh m _ eq_refl Rr
                          ltac:(lia)) as (w2 & S2 & W2 & R2 & A2).
  assert (Iw : issueChallenge timeouts w1 = Some (inl ch, w2)).
  { unfold issueChallenge, bind. rewrite nowMS_eq. unfold try.
    unfold randomBytes. cbn [Z.leb Z.compare tick entropy]. rewrite E1, Hent.
    cbn [entropy connection clock ticks ctxState]. unfold lift.
    change (Z.to_nat 32) with 32%nat. change (Z.to_nat 24) with 24%nat.
    fold (challengeTTLms timeouts). rewrite N1. fold ch. rewrite HCh.
    change (mkWorld (connection (tick w1)) (clock (tick w1)) (ticks (tick w1))
                    rest0 (ctxState (tick w1))) with w1r.
    rewrite S2. reflexivity. }
  (* the proof comes in *)
  rewrite <- (app_nil_r (authWire m TypeAuthProof bP)) in R2.
  destruct (readAuth_wire timeouts w2 TypeAuthProof bP m _ eq_refl Hm R2)
    as (w3 & S3 & W3 & R3 & A3).
  assert (Rw : receiveProof timeouts w2 = Some (inl proof, w3)).
  { unfold receiveProof, try. rewrite S3. cbn [Payload]. unfold lift.
    rewrite HP. reflexivity. }
  (* the checks pass and auth_ok goes out *)
  assert (A03 : elapsed 4 w0 w3).
  { assert (A1r : elapsed 2 w0 w1r) by (split; cbn; [congruence|lia]).
    pose proof (elapsed_trans _ _ _ _ _ A1r (advance_elapsed _ _ _ A2)) as A02.
    exact (elapsed_trans _ _ _ _ _ A02 (advance_elapsed _ _ _ A3)). }
  pose proof (nowMSat_elapsed 4 w0 w3 A03) as N3.
  assert (A05 : elapsed 5 w0 (tick w3)).
  { destruct A03 as (Q1 & Q2). split; cbn; [assumption|lia]. }
  pose proof (nowMSat_elapsed 5 w0 (tick w3) A05) as N5.
  assert (R5 : ready (tick (tick w3)) m []) by exact R3.
  destruct (sendAuth_wire timeouts (tick (tick w3)) TypeAuthOK bOK m _ eq_refl R5
                          ltac:(lia)) as (w4 & S4 & W4 & R4 & _).
  assert (Cw : checkProof timeouts agentID pub ch proof w3 = Some (inl tt, w4)).
  { rewrite (ProofChecks.checkProof_fresh timeouts agentID pub ch proof w3 Hbound)
      by (rewrite N3; exact Hfresh).
    rewrite Hdec. unfold SignatureSize. rewrite Hsig. cbn [Nat.eqb negb].
    rewrite Hver. cbn [negb]. rewrite N5, HOK, S4. reflexivity. }
  exists w4. split; [|split; [|exact R4]].
  - unfold WaitForAgentAuthentication, bind. rewrite Aw, Iw, Rw. exact Cw.
  - rewrite W4. change (written (tick (tick w3))) with (written w3).
    rewrite W3, W2. change (written w1r) with (written w1). rewrite W1.
    rewrite app_assoc. reflexivity.
Qed.

End Sides.

End Runs.
Import Runs.

(* ================================================================== *)
(** * The agent and the proxy together *)
(* ================================================================== *)

Module EndToEnd.
Import Auth Exchange WireFacts WireExchange Stages Runs.

Lemma since_written w w' more :
  written w' = written w ++ more -> since w w' = more.
Proof.
  intros H. unfold since. rewrite H, skipn_app, skipn_all, Nat.sub_diag.
  reflexivity.
Qed.

Lemma ready_arrive w m bytes : idle w m -> ready (arrive w bytes) m bytes.
Proof.
  intros (Hw & Hm & Hrx). unfold ready, arrive. cbn.
  rewrite Hrx. repeat split; try assumption; apply Hw.
Qed.

Section Both.

Context {jsonBegin : JSON authBegin} {jsonChallenge : JSON authChallenge}
        {jsonProof : JSON authProof} {jsonOK : JSON authOK}
        {jsonError : JSON authError} {jsonHeader : JSON Auth.header}
        {ext : Externals} {signer : Signer}.
Variable timeouts : Timeouts.

(** X24.  An agent whose key is registered with the proxy and a proxy
    that draws its random bytes and reads the proof before the
    challenge expires complete the handshake: each side, given the
    bytes the other one writes, returns nil, and both connections stay
    open with nothing left to read. *)
Theorem handshake_completes (client server : World) (m : Z)
        (priv pub : list byte) (agentID : string)
        (lookup : string -> option (list byte))
        (e1 e2 : list byte) (rest0 : list (option (list byte))) :
  4 <= m < 2 ^ 32 ->
  idle client m -> idle server m ->
  codecsAgree agentID -> keyPair priv pub ->
  length pub = 32%nat -> agentID = Hex.EncodeToString (Sha256.Sum256 pub) ->
  lookup agentID = Some pub ->
  entropy server = Some e1 :: Some e2 :: rest0 ->
  nowMSat (later 4 server)
  <= int64 (nowMSat (later 1 server) + challengeTTLms timeouts) ->
  exists client' server',
    AuthenticateAsClient timeouts (ret (priv, pub, agentID))
                         (arrive client (since server server'))
    = Some (inl tt, client') /\
    WaitForAgentAuthentication timeouts (Some lookup)
                               (arrive server (since client client'))
    = Some (inl tt, server') /\
    idle client' m /\ idle server' m.
Proof.
  intros Hm Ic Is Hc Hk Hlen Hhash Hlook Hent Hfresh.
  set (ch := mkAuthChallenge "auth_challenge" authVersion
                             (b64Encode (firstn 24 (e2 ++ repeat x00 24)))
                             (b64Encode (firstn 32 (e1 ++ repeat x00 32)))
                             (nowMSat (later 1 server))
                             (int64 (nowMSat (later 1 server)
                                     + challengeTTLms timeouts))).
  set (sig := ed25519_Sign
                priv
                (list_byte_of_string
                   (stringToSignV1 agentID (challenge_ChallengeID ch)
                                   (challenge_Nonce ch) (challenge_IssuedAtMS ch)))).
  set (proof := mkAuthProof "auth_proof" authVersion agentID
                            (challenge_ChallengeID ch) (challenge_Nonce ch)
                            (challenge_IssuedAtMS ch) (b64Encode sig)).
  destruct (encodes_validates _ _ (begin_encodes agentID Hc (nowMSat client)))
    as (bB & MB & UB).
  destruct (encodes_validates
              _ _ (challenge_encodes agentID Hc (firstn 24 (e2 ++ repeat x00 24))
                                     (firstn 32 (e1 ++ repeat x00 32))
                                     (nowMSat (later 1 server))
                                     (int64 (nowMSat (later 1 server)
                                             + challengeTTLms timeouts))))
    as (bCh & MCh & UCh).
  destruct (encodes_validates
              _ _ (proof_encodes agentID Hc (firstn 24 (e2 ++ repeat x00 24))
                                 (firstn 32 (e1 ++ repeat x00 32))
                                 (nowMSat (later 1 server)) sig))
    as (bP & MP & UP).
  destruct (encodes_validates _ _ (ok_encodes agentID Hc (nowMSat (later 5 server))))
    as (bOK & MOK & UOK).
  fold ch in MCh, UCh. 
  assert (N24 : firstn 24 (e2 ++ repeat x00 24) <> []).
  { intros E. apply (f_equal (@length byte)) in E.
    rewrite length_firstn, length_app, repeat_length in E.
    change (length (@nil byte)) with 0%nat in E. lia. }
  assert (N32 : firstn 32 (e1 ++ repeat x00 32) <> []).
  { intros E. apply (f_equal (@length byte)) in E.
    rewrite length_firstn, length_app, repeat_length in E.
    change (length (@nil byte)) with 0%nat in E. lia. }
  set (toClient := authWire m TypeAuthChallenge bCh ++ authWire m TypeAuthOK bOK).
  set (toServer := authWire m TypeAuthBegin bB ++ authWire m TypeAuthProof bP).
  destruct (client_run timeouts (arrive client toClient) m priv pub agentID
                       bB bCh bP bOK ch _ Hm (ready_arrive _ _ _ Ic) MB UCh
                       (b64_not_blank agentID Hc _ N24)
                       (b64_not_blank agentID Hc _ N32) MP UOK eq_refl)
    as (client' & RC & WC & ReC).
  destruct (Hk (list_byte_of_string
                  (stringToSignV1 agentID (challenge_ChallengeID ch)
                                  (challenge_Nonce ch) (challenge_IssuedAtMS ch))))
    as (K1 & K2).
  destruct (server_run timeouts (arrive server toServer) m lookup agentID pub
                       e1 e2 sig rest0 bB bCh bP bOK _ proof Hm
                       (ready_arrive _ _ _ Is) UB eq_refl
                       (agent_not_blank agentID Hc) Hlook Hlen Hhash Hent MCh UP
                       ltac:(repeat split) Hfresh (b64_decodes agentID Hc sig)
                       K1 K2 MOK)
    as (server' & RS & WS & ReS).
  exists client', server'.
  rewrite (since_written server server' toClient) by exact WS.
  rewrite (since_written client client' toServer) by exact WC.
  split; [exact RC|]. split; [exact RS|]. split; assumption.
Qed.

End Both.

End EndToEnd.
Import EndToEnd.

(* ================================================================== *)
(** * The stand-in encoding is lawful *)
(* ================================================================== *)

Module ToyFacts.
Import Auth Toy.

Lemma getString_putString s : forall rest,
  getString (putString s ++ rest) = Some (s, rest).
Proof.
  induction s as [|c s IH]; intros rest; [reflexivity|].
  cbn [putString app getString]. change (Byte.eqb x01 x00) with false. cbv iota.
  rewrite IH, ascii_of_byte_of_ascii. reflexivity.
Qed.

Lemma getInt_putInt v rest : getInt (putInt v ++ rest) = Some (v, rest).
Proof.
  unfold getInt, putInt, andThen. rewrite getString_putString.
  unfold FormatInt.
  destruct (SigningString.to_int_nonnil v) as [Hp Hn].
  rewrite DecimalString.NilZero.isi by assumption.
  unfold done. rewrite DecimalZ.of_to. reflexivity.
Qed.

Lemma getString_putString_end s : getString (putString s) = Some (s, []).
Proof. rewrite <- (app_nil_r (putString s)). apply getString_putString. Qed.

Lemma getInt_putInt_end v : getInt (putInt v) = Some (v, []).
Proof. rewrite <- (app_nil_r (putInt v)). apply getInt_putInt. Qed.

Lemma putString_nonempty s rest : putString s ++ rest <> [].
Proof. destruct s; discriminate. Qed.

Ltac reads :=
  cbn [json_Marshal json_Unmarshal beginCodec challengeCodec proofCodec okCodec
       errorCodec headerCodec];
  unfold whole, leading, andThen;
  repeat (rewrite <- ?app_assoc;
          first [rewrite getString_putString | rewrite getInt_putInt
                | rewrite getString_putString_end | rewrite getInt_putInt_end]);
  try reflexivity.

Ltac encoded :=
  eexists; split; [reflexivity|]; split; [apply putString_nonempty|];
  split; reads.

Lemma toy_codecsAgree :
  codecsAgree (jsonBegin := beginCodec) (jsonChallenge := challengeCodec)
              (jsonProof := proofCodec) (jsonOK := okCodec)
              (jsonHeader := headerCodec) (ext := externals) zeroAgent.
Proof.
  constructor.
  - intros t. encoded.
  - intros cb nb i e. encoded.
  - intros cb nb i sig. encoded.
  - intros t. encoded.
  - intros x. apply DecodeString_EncodeToString.
  - intros x Hx. destruct x as [|b x]; [contradiction|].
    cbn [TrimSpace externals b64Encode Hex.EncodeToString]. discriminate.
  - discriminate.
Qed.

Lemma sameBytes_refl a : sameBytes a a = true.
Proof.
  induction a as [|x a IH]; [reflexivity|].
  cbn [sameBytes]. rewrite IH, andb_true_r.
  apply Byte.byte_dec_lb. reflexivity.
Qed.

Lemma toy_keyPair key :
  keyPair (ext := externals) (signer := signer) key key.
Proof.
  intros message. split.
  - cbn [ed25519_Sign signer]. unfold sign.
    rewrite length_firstn, !length_app, repeat_length. lia.
  - cbn [ed25519_Verify externals ed25519_Sign signer]. apply sameBytes_refl.
Qed.

End ToyFacts.
Import ToyFacts.

(* ================================================================== *)
(** * Transport scenarios *)
(* ================================================================== *)

Module Scenarios.
Import Auth.

(** X2 at an [auth_begin] frame with eleven payload bytes. *)
Lemma encodeFrameTo_decodeFrameFrom_witness :
  exists w' sent,
    encodeFrameTo (endpoint []) TypeAuthBegin startEndFlags 0 hello = (None, w') /\
    tx w' = tx (endpoint []) ++ sent /\
    length sent = (18 + length hello)%nat /\
    (rx (endpoint (helloFrame ++ hello)) = sent ++ hello ->
     decodeFrameFrom (endpoint (helloFrame ++ hello)) 16
     = (inl (mkFrame TypeAuthBegin startEndFlags 0 hello (Z.of_nat (length hello))),
        set_rx (endpoint (helloFrame ++ hello)) hello)).
Proof.
  apply (encodeFrameTo_decodeFrameFrom
           (endpoint []) (endpoint (helloFrame ++ hello)) 16
           TypeAuthBegin startEndFlags 0 hello hello).
  - split; reflexivity.
  - reflexivity.
  - reflexivity.
  - right. right. right. left. reflexivity.
  - split; [discriminate | reflexivity].
  - split; [discriminate | reflexivity].
Defined.

(** X3 at the same frame, read from a stream. *)
Lemma decodeFrameFrom_encodeFrameTo_witness :
  exists fr r',
    decodeFrameFrom (endpoint (helloFrame ++ hello)) 16 = (inl fr, r') /\
    isKnownType (typ fr) = true /\
    In (flags fr) [0; flagStart; flagEnd; startEndFlags] /\
    0 <= streamID fr < 2 ^ 64 /\
    Z.of_nat (length (payload fr)) = payloadLn fr /\
    payloadLn fr <= uint32 16 /\
    exists consumed,
      rx (endpoint (helloFrame ++ hello)) = consumed ++ rx r' /\
      encodeFrameTo (endpoint []) (typ fr) (flags fr) (streamID fr) (payload fr)
      = (None, set_tx (endpoint []) (tx (endpoint []) ++ consumed) None).
Proof.
  assert (E : exists fr r',
             decodeFrameFrom (endpoint (helloFrame ++ hello)) 16 = (inl fr, r')).
  { eexists. eexists. vm_compute. reflexivity. }
  destruct E as (fr & r' & E).
  exists fr, r'. split; [exact E|].
  apply (decodeFrameFrom_encodeFrameTo
           (endpoint (helloFrame ++ hello)) r' (endpoint []) 16 fr E).
  split; reflexivity.
Defined.

(** X5 at a request of 33 bytes on a connection with a 16-byte limit,
    under a cancelled context. *)
Lemma Send_effects_witness :
  exists e c',
    Send (smallConn hello) (Some cancelled) request = Some (e, c') /\
    maxFramePayload c' = 16 /\
    rx (nc c') = hello /\
    closed (nc c') = false /\
    exists more, tx (nc c') = tx (nc (smallConn hello)) ++ more.
Proof.
  assert (E : exists e c',
             Send (smallConn hello) (Some cancelled) request = Some (e, c')).
  { eexists. eexists. vm_compute. reflexivity. }
  destruct E as (e & c' & E).
  destruct (Send_effects (smallConn hello) (Some cancelled) request e c' E)
    as (H1 & H2 & H3 & _ & (more & H5) & _).
  exists e, c'. split; [exact E|]. split; [exact H1|]. split; [exact H2|].
  split; [exact H3|]. exists more. exact H5.
Defined.

(** X6 at the same request: 37 bytes with the envelope go out as two
    full frames and one of five bytes. *)
Lemma Send_fills_frames_witness :
  exists c' full last,
    Send (smallConn []) None request = Some (None, c') /\
    concat full ++ last = logicalPayload request /\
    length full = 2%nat /\
    length (tx (nc c')) = (18 * 3 + 37)%nat.
Proof.
  assert (E : exists c', Send (smallConn []) None request = Some (None, c')).
  { eexists. vm_compute. reflexivity. }
  destruct E as (c' & E).
  destruct (Send_fills_frames (smallConn []) None request c' eq_refl E)
    as (full & last & H1 & _ & _ & _ & _ & H6 & H7).
  exists c', full, last. split; [exact E|]. split; [exact H1|].
  split; [exact H6|]. rewrite H7, H6. reflexivity.
Defined.

(** X7 at a stream that holds the frames of the request and then
    [hello]. *)
Lemma ReadNext_effects_witness :
  exists res c',
    ReadNext (smallConn (sentBy (smallConn []) request ++ hello)) None
    = Some (res, c') /\
    readsOnly (smallConn (sentBy (smallConn []) request ++ hello)) c' /\
    closed (nc c') = false || protocolFailure res /\
    readDeadline (nc c') = None.
Proof.
  assert (E : exists res c',
             ReadNext (smallConn (sentBy (smallConn []) request ++ hello)) None
             = Some (res, c')).
  { eexists. eexists. vm_compute. reflexivity. }
  destruct E as (res & c' & E).
  exists res, c'. split; [exact E|].
  destruct (ReadNext_effects _ None res c' E) as (H1 & H2 & H3).
  split; [exact H1|]. split; [exact H2|]. exact (H3 eq_refl).
Defined.

(** X8 at the same stream. *)
Lemma ReadNext_message_valid_witness :
  exists m c',
    ReadNext (smallConn (sentBy (smallConn []) request ++ hello)) None
    = Some (inl m, c') /\
    validFields m /\ delivered m = m /\ closed (nc c') = false.
Proof.
  assert (E : exists m c',
             ReadNext (smallConn (sentBy (smallConn []) request ++ hello)) None
             = Some (inl m, c')).
  { eexists. eexists. vm_compute. reflexivity. }
  destruct E as (m & c' & E).
  exists m, c'. split; [exact E|].
  exact (ReadNext_message_valid _ None m c' E).
Defined.

(** X9 at the same stream: the request read at a limit of 16 bytes is
    passed on over a connection with the default limit. *)
Lemma ReadNext_Send_relay_witness :
  exists m c' cs' sent,
    ReadNext (smallConn (sentBy (smallConn []) request ++ hello)) None
    = Some (inl m, c') /\
    Send (connOn (endpoint [])) None m = Some (None, cs') /\
    tx (nc cs') = tx (nc (connOn (endpoint []))) ++ sent /\
    (rx (nc (connOn (endpoint (sentBy (connOn (endpoint [])) request ++ hello))))
     = sent ++ hello ->
     exists cr',
       ReadNext (connOn (endpoint (sentBy (connOn (endpoint [])) request ++ hello)))
                None
       = Some (inl m, cr') /\
       rx (nc cr') = hello).
Proof.
  assert (E : exists m c',
             ReadNext (smallConn (sentBy (smallConn []) request ++ hello)) None
             = Some (inl m, c')).
  { eexists. eexists. vm_compute. reflexivity. }
  destruct E as (m & c' & E).
  destruct (ReadNext_Send_relay
              _ c' (connOn (endpoint []))
              (connOn (endpoint (sentBy (connOn (endpoint [])) request ++ hello)))
              None None None m hello E)
    as (cs' & sent & H1 & H2 & H3).
  - split; vm_compute; congruence.
  - reflexivity.
  - split; reflexivity.
  - reflexivity.
  - exists m, c', cs', sent. auto.
Defined.

(** X10 at a [message_payload] frame on stream 0. *)
Lemma ReadNext_first_frame_checks_witness :
  exists c',
    ReadNext (connOn (endpoint streamZeroFrame)) None
    = Some (inr (Joined ErrInvalidStreamID), c') /\
    closed (nc c') = true.
Proof.
  assert (E : exists fr c1,
             readFrame (applyReadContext (connOn (endpoint streamZeroFrame))
                                         (ctxOrBackground None))
                       (ctxOrBackground None) = (inl fr, c1) /\
             Z.land (flags fr) flagStart <> 0 /\
             typ fr = TypeMessagePayload /\ streamID fr = 0).
  { eexists. eexists. split; [vm_compute; reflexivity|].
    split; [vm_compute; discriminate|]. split; reflexivity. }
  destruct E as (fr & c1 & E & Hs & Ht & Hid).
  destruct (proj2 (proj2 (ReadNext_first_frame_checks
                            (connOn (endpoint streamZeroFrame)) None fr c1 E Hs))
                  Ht Hid) as (c' & R & Hc & _).
  exists c'. split; [exact R|exact Hc].
Defined.

(** X11 at a stream that ends after the first ten bytes of a header. *)
Lemma ReadNext_end_of_stream_witness :
  exists c',
    ReadNext (connOn (endpoint (firstn 10 helloFrame))) None
    = Some (inr (IOError ErrUnexpectedEOF), c') /\
    closed (nc c') = false /\ rx (nc c') = [].
Proof.
  apply (proj1 (proj2 (ReadNext_end_of_stream
                         (connOn (endpoint (firstn 10 helloFrame))) None
                         eq_refl eq_refl eq_refl))).
  change (length (rx (nc (connOn (endpoint (firstn 10 helloFrame)))))) with 10%nat.
  lia.
Defined.

(** X12 at three messages on connections with a 16-byte limit. *)
Lemma stream_in_order_witness :
  exists cs' sent,
    sendAll (smallConn []) traffic = Some (None, cs') /\
    tx (nc cs') = tx (nc (smallConn [])) ++ sent /\
    (rx (nc (smallConn (sentAllBy (smallConn []) traffic ++ hello))) = sent ++ hello ->
     exists cr',
       readMany (length traffic)
                (smallConn (sentAllBy (smallConn []) traffic ++ hello))
       = Some (map delivered traffic, None, cr') /\
       rx (nc cr') = hello).
Proof.
  apply (stream_in_order traffic (smallConn [])
                         (smallConn (sentAllBy (smallConn []) traffic ++ hello))
                         hello).
  - apply Forall_cons; [left; split; [left; reflexivity|repeat split]|].
    apply Forall_cons; [right; right; repeat split; try reflexivity; cbn; auto|].
    apply Forall_cons; [right; left; split; reflexivity|].
    apply Forall_nil.
  - split; vm_compute; congruence.
  - reflexivity.
  - split; reflexivity.
  - reflexivity.
Defined.

(** X13 at two equal tuples. *)
Lemma stringToSignV1_injective_witness :
  "alice"%string = "alice"%string /\ "cid"%string = "cid"%string /\
  "nonce"%string = "nonce"%string /\ 1700000000000 = 1700000000000.
Proof.
  exact (SigningString.stringToSignV1_injective
           "alice" "cid" "nonce" "alice" "cid" "nonce"
           1700000000000 1700000000000
           eq_refl eq_refl eq_refl eq_refl eq_refl eq_refl eq_refl).
Defined.

End Scenarios.
Import Scenarios.

(* ================================================================== *)
(** * Handshake scenarios *)
(* ================================================================== *)

Module HandshakeScenarios.
Import Auth.

(** X16 at the agent of [zeroKey], which the registry knows. *)
Lemma awaitBegin_outcomes_witness :
  exists w1,
    awaitBegin (jsonBegin := beginJSON) (jsonError := errorJSON)
               (jsonHeader := headerJSON) (ext := laxExternals)
               defaultTimeouts registry (world (connOn (endpoint clientInput)))
    = Some (inl (zeroAgent, zeroKey), w1).
Proof.
  assert (E : exists msg w1,
             readAuth defaultTimeouts TypeAuthBegin
                      (world (connOn (endpoint clientInput)))
             = Some (inl msg, w1) /\
             0 < maxFramePayload (connection w1) /\
             unmarshalAndValidate (H := beginJSON) (H0 := headerJSON)
                                  (Payload msg) "auth_begin"
             = inl (mkAuthBegin "auth_begin" authVersion zeroAgent 0)).
  { eexists. eexists. split; [vm_compute; reflexivity|].
    split; reflexivity. }
  destruct E as (msg & w1 & E & Hpos & U).
  exists w1.
  destruct (awaitBegin_outcomes (jsonBegin := beginJSON) (jsonError := errorJSON)
                                (jsonHeader := headerJSON) (ext := laxExternals)
                                defaultTimeouts registry _ w1 msg E Hpos)
    as (_ & H).
  destruct (H _ U) as (_ & H2).
  destruct (H2 ltac:(discriminate)) as (_ & H3).
  destruct (H3 zeroKey eq_refl) as (_ & _ & H4).
  apply H4; [reflexivity|]. vm_compute. reflexivity.
Defined.

(** X17 at a stream that holds a proof. *)
Lemma receiveProof_outcomes_witness :
  exists proof w1,
    receiveProof (jsonProof := proofJSON) (jsonError := errorJSON)
                 (jsonHeader := headerJSON) defaultTimeouts
                 (world (connOn (endpoint (frameBytes TypeAuthProof startEndFlags
                                                      0 [x70]))))
    = Some (inl proof, w1).
Proof.
  assert (E : exists msg w1,
             readAuth defaultTimeouts TypeAuthProof
                      (world (connOn (endpoint (frameBytes TypeAuthProof
                                                           startEndFlags 0 [x70]))))
             = Some (inl msg, w1) /\
             0 < maxFramePayload (connection w1) /\
             exists proof,
               unmarshalAndValidate (H := proofJSON) (H0 := headerJSON)
                                    (Payload msg) "auth_proof" = inl proof).
  { eexists. eexists. split; [vm_compute; reflexivity|].
    split; [reflexivity|]. eexists. vm_compute. reflexivity. }
  destruct E as (msg & w1 & E & Hpos & proof & U).
  exists proof, w1.
  pose proof (receiveProof_outcomes (jsonProof := proofJSON) (jsonError := errorJSON)
                                    (jsonHeader := headerJSON)
                                    defaultTimeouts _ w1 (inl msg) E Hpos) as H.
  rewrite U in H. exact H.
Defined.

(** X18 at a proof whose signature is not in the alphabet of the
    encoding. *)
Lemma checkProof_bad_signature_witness :
  failsWith (jsonError := Toy.errorCodec) defaultTimeouts
            "bad_signature" EmptyString (tick Toy.proxyWorld)
            (checkProof (jsonOK := Toy.okCodec) (jsonError := Toy.errorCodec)
                        (ext := Toy.externals) defaultTimeouts
                        "alice" zeroKey sampleChallenge goodProof Toy.proxyWorld).
Proof.
  apply (proj1 (checkProof_bad_signature
                  (jsonOK := Toy.okCodec) (jsonError := Toy.errorCodec)
                  (ext := Toy.externals) defaultTimeouts
                  "alice" zeroKey sampleChallenge goodProof Toy.proxyWorld
                  eq_refl ltac:(repeat split)
                  ltac:(vm_compute; discriminate))).
  vm_compute. reflexivity.
Defined.

(** X19 at a proof that the stand-in for [ed25519.Verify] accepts. *)
Lemma checkProof_accepts_witness :
  exists w',
    checkProof (jsonOK := okJSON) (jsonError := errorJSON) (ext := laxExternals)
               defaultTimeouts "alice" zeroKey sampleChallenge goodProof
               (world (connOn (endpoint [])))
    = Some (inl tt, w') /\
    tx (nc (connection w')) = frameBytes TypeAuthOK startEndFlags 0 [x7b; x7d] /\
    closed (nc (connection w')) = false.
Proof.
  apply (checkProof_accepts (jsonOK := okJSON) (jsonError := errorJSON)
                            (ext := laxExternals) defaultTimeouts
                            "alice" zeroKey (repeat x00 64) [x7b; x7d]
                            sampleChallenge goodProof
                            (world (connOn (endpoint [])))).
  - repeat split.
  - vm_compute. discriminate.
  - reflexivity.
  - reflexivity.
  - reflexivity.
  - reflexivity.
  - split; reflexivity.
  - vm_compute. discriminate.
Defined.

(** X20 at the run against a client with the registered key. *)
Lemma WaitForAgentAuthentication_sound_witness :
  exists w',
    WaitForAgentAuthentication
      (jsonBegin := beginJSON) (jsonChallenge := challengeJSON)
      (jsonProof := proofJSON) (jsonOK := okJSON) (jsonError := errorJSON)
      (jsonHeader := headerJSON) (ext := laxExternals)
      defaultTimeouts (Some registry) (world (connOn (endpoint clientInput)))
    = Some (inl tt, w') /\
    authenticated (jsonBegin := beginJSON) (jsonChallenge := challengeJSON)
                  (jsonProof := proofJSON) (jsonHeader := headerJSON)
                  (ext := laxExternals)
                  defaultTimeouts registry
                  (world (connOn (endpoint clientInput))) w'.
Proof.
  assert (E : exists w',
             WaitForAgentAuthentication
               (jsonBegin := beginJSON) (jsonChallenge := challengeJSON)
               (jsonProof := proofJSON) (jsonOK := okJSON) (jsonError := errorJSON)
               (jsonHeader := headerJSON) (ext := laxExternals)
               defaultTimeouts (Some registry) (world (connOn (endpoint clientInput)))
             = Some (inl tt, w')).
  { eexists. vm_compute. reflexivity. }
  destruct E as (w' & E).
  exists w'. split; [exact E|].
  exact (WaitForAgentAuthentication_sound
           (jsonBegin := beginJSON) (jsonChallenge := challengeJSON)
           (jsonProof := proofJSON) (jsonOK := okJSON) (jsonError := errorJSON)
           (jsonHeader := headerJSON) (ext := laxExternals)
           defaultTimeouts registry _ w' E).
Defined.

(** X21 at a world whose random source has bytes for both draws. *)
Lemma issueChallenge_outcomes_witness :
  exists ch w1,
    connection w1 = connection (world (connOn (endpoint []))) /\
    challenge_IssuedAtMS ch = 1700000000000 /\
    forall payload,
      mustMarshalJSON (H := challengeJSON) ch = inl payload ->
      match sendAuth defaultTimeouts TypeAuthChallenge payload w1 with
      | Some (inl _, w2) =>
        issueChallenge (jsonChallenge := challengeJSON) (jsonError := errorJSON)
                       (ext := laxExternals) defaultTimeouts
                       (world (connOn (endpoint []))) = Some (inl ch, w2)
      | Some (inr e, w2) =>
        issueChallenge (jsonChallenge := challengeJSON) (jsonError := errorJSON)
                       (ext := laxExternals) defaultTimeouts
                       (world (connOn (endpoint [])))
        = Some (inr e, set_connection w2 (ConnClose (connection w2)))
      | None =>
        issueChallenge (jsonChallenge := challengeJSON) (jsonError := errorJSON)
                       (ext := laxExternals) defaultTimeouts
                       (world (connOn (endpoint []))) = None
      end.
Proof.
  destruct (issueChallenge_outcomes
              (jsonChallenge := challengeJSON) (jsonError := errorJSON)
              (ext := laxExternals) defaultTimeouts
              (world (connOn (endpoint []))) eq_refl) as (_ & _ & H).
  destruct (H (repeat x01 32) (repeat x02 24) [] eq_refl)
    as (ch & w1 & H1 & H2 & _ & H4).
  exists ch, w1. split; [exact H1|]. split; [exact H2|]. exact H4.
Defined.

(** X22 at a challenge in the stand-in encoding. *)
Lemma clientProve_outcomes_witness :
  exists w1 proofPayload,
    clientProve (jsonChallenge := Toy.challengeCodec) (jsonProof := Toy.proofCodec)
                (jsonHeader := Toy.headerCodec) (ext := Toy.externals)
                (signer := Toy.signer) defaultTimeouts zeroKey zeroAgent
                (Toy.agentFacing TypeAuthChallenge
                                 (Toy.payloadOf Toy.challengeCodec Toy.toyChallenge))
    = sendAuth defaultTimeouts TypeAuthProof proofPayload w1.
Proof.
  assert (E : exists msg w1,
             readAuth defaultTimeouts TypeAuthChallenge
                      (Toy.agentFacing
                         TypeAuthChallenge
                         (Toy.payloadOf Toy.challengeCodec Toy.toyChallenge))
             = Some (inl msg, w1) /\
             unmarshalAndValidate (H := Toy.challengeCodec) (H0 := Toy.headerCodec)
                                  (Payload msg) "auth_challenge"
             = inl Toy.toyChallenge).
  { eexists. eexists. split; vm_compute; reflexivity. }
  destruct E as (msg & w1 & E & U).
  pose proof (proj2 (clientProve_outcomes
                       (jsonChallenge := Toy.challengeCodec)
                       (jsonProof := Toy.proofCodec)
                       (jsonHeader := Toy.headerCodec) (ext := Toy.externals)
                       (signer := Toy.signer) defaultTimeouts zeroKey zeroAgent
                       _ w1 msg Toy.toyChallenge E U)
                    ltac:(discriminate) ltac:(discriminate)) as H.
  cbv zeta in H.
  destruct (mustMarshalJSON _) as [proofPayload|e] eqn:M in H.
  - exists w1, proofPayload. exact H.
  - vm_compute in M. discriminate M.
Defined.

(** X23 at an [auth_ok] for this agent. *)
Lemma clientResult_outcomes_witness :
  exists w1,
    clientResult (jsonOK := Toy.okCodec) (jsonError := Toy.errorCodec)
                 (jsonHeader := Toy.headerCodec) defaultTimeouts zeroAgent
                 (Toy.agentFacing TypeAuthOK (Toy.payloadOf Toy.okCodec Toy.toyOK))
    = Some (inl tt, w1).
Proof.
  assert (E : exists msg w1,
             readNextWithTimeout
               (readTimeout defaultTimeouts)
               (Toy.agentFacing TypeAuthOK (Toy.payloadOf Toy.okCodec Toy.toyOK))
             = Some (inl msg, w1) /\
             MsgType msg = TypeAuthOK /\
             unmarshalAndValidate (H := Toy.okCodec) (H0 := Toy.headerCodec)
                                  (Payload msg) "auth_ok" = inl Toy.toyOK).
  { eexists. eexists. split; [vm_compute; reflexivity|].
    split; [reflexivity|]. vm_compute. reflexivity. }
  destruct E as (msg & w1 & E & Ht & U).
  exists w1.
  apply (proj1 (proj1 (clientResult_outcomes
                         (jsonOK := Toy.okCodec) (jsonError := Toy.errorCodec)
                         (jsonHeader := Toy.headerCodec) defaultTimeouts zeroAgent
                         _ w1 msg E)
                      Ht Toy.toyOK U)).
  reflexivity.
Defined.

(** X24 at the agent of [zeroKey] and a proxy that knows it, with the
    stand-in encoding and signatures. *)
Lemma handshake_completes_witness :
  exists client' server',
    AuthenticateAsClient
      (jsonBegin := Toy.beginCodec) (jsonChallenge := Toy.challengeCodec)
      (jsonProof := Toy.proofCodec) (jsonOK := Toy.okCodec)
      (jsonError := Toy.errorCodec) (jsonHeader := Toy.headerCodec)
      (ext := Toy.externals) (signer := Toy.signer)
      defaultTimeouts (ret (zeroKey, zeroKey, zeroAgent))
      (arrive Toy.agentWorld (since Toy.proxyWorld server'))
    = Some (inl tt, client') /\
    WaitForAgentAuthentication
      (jsonBegin := Toy.beginCodec) (jsonChallenge := Toy.challengeCodec)
      (jsonProof := Toy.proofCodec) (jsonOK := Toy.okCodec)
      (jsonError := Toy.errorCodec) (jsonHeader := Toy.headerCodec)
      (ext := Toy.externals)
      defaultTimeouts (Some registry)
      (arrive Toy.proxyWorld (since Toy.agentWorld client'))
    = Some (inl tt, server') /\
    idle client' (16 * 1024 * 1024) /\ idle server' (16 * 1024 * 1024).
Proof.
  apply (handshake_completes
           (jsonBegin := Toy.beginCodec) (jsonChallenge := Toy.challengeCodec)
           (jsonProof := Toy.proofCodec) (jsonOK := Toy.okCodec)
           (jsonError := Toy.errorCodec) (jsonHeader := Toy.headerCodec)
           (ext := Toy.externals) (signer := Toy.signer)
           defaultTimeouts Toy.agentWorld Toy.proxyWorld (16 * 1024 * 1024)
           zeroKey zeroKey zeroAgent registry
           (repeat x01 32) (repeat x02 24) []).
  - split; [discriminate | reflexivity].
  - repeat split.
  - repeat split.
  - exact toy_codecsAgree.
  - exact (toy_keyPair zeroKey).
  - reflexivity.
  - vm_compute. reflexivity.
  - reflexivity.
  - reflexivity.
  - vm_compute. discriminate.
Defined.

End HandshakeScenarios.
Import HandshakeScenarios.

(* ================================================================== *)
(** * An agent the proxy does not know *)
(* ================================================================== *)

Module Rejection.
Import Auth.

Section Unknown.

Context {jsonBegin : JSON authBegin} {jsonChallenge : JSON authChallenge}
        {jsonProof : JSON authProof} {jsonOK : JSON authOK}
        {jsonError : JSON authError} {jsonHeader : JSON Auth.header}
        {ext : Externals} {signer : Signer}.
Variable timeouts : Timeouts.

(** X25.  An agent the proxy does not know.  The proxy answers
    [auth_begin] with [auth_error] and fails with [unknown_agent]; the
    agent, which waits for the challenge with [readAuth], does not
    decode that [auth_error]: it closes its connection and reports
    an unexpected frame type 5 where it wanted 2.  Both connections
    end up closed. *)
Theorem handshake_unknown_agent (client server : World) (m : Z)
        (priv pub : list byte) (agentID : string)
        (lookup : string -> option (list byte)) :
  4 <= m < 2 ^ 32 ->
  idle client m -> idle server m ->
  encodes (mkAuthBegin "auth_begin" authVersion agentID (nowMSat client))
          "auth_begin" ->
  TrimSpace agentID <> EmptyString ->
  lookup agentID = None ->
  exists client' server',
    WaitForAgentAuthentication timeouts (Some lookup)
                               (arrive server (since client client'))
    = Some (inr (Errorf "auth failed: %s" ["unknown_agent"%string]), server') /\
    AuthenticateAsClient timeouts (ret (priv, pub, agentID))
                         (arrive client (since server server'))
    = Some (inr (Errorf "unexpected frame type %d (want %d)"
                        [FormatInt TypeAuthError; FormatInt TypeAuthChallenge]),
            client') /\
    closed (nc (connection server')) = true /\
    closed (nc (connection client')) = true.
Proof.
  intros Hm Ic Is Henc Hblank Hlook.
  destruct (encodes_validates _ _ Henc) as (bB & MB & UB).
  set (bE := authErrorPayload "unknown_agent" EmptyString).
  set (toClient := authWire m TypeAuthError bE).
  set (toServer := authWire m TypeAuthBegin bB).
  (* the proxy *)
  pose proof (ready_arrive server m toServer Is) as Rs.
  unfold toServer in Rs at 2.
  rewrite <- (app_nil_r (authWire m TypeAuthBegin bB)) in Rs.
  destruct (readAuth_wire timeouts _ TypeAuthBegin bB m [] eq_refl Hm Rs)
    as (s1 & S1 & SW1 & SR1 & _).
  destruct (sendAuth_wire timeouts s1 TypeAuthError bE m [] eq_refl SR1 ltac:(lia))
    as (s2 & S2 & SW2 & SR2 & _).
  set (server' := set_connection s2 (ConnClose (connection s2))).
  assert (RS : WaitForAgentAuthentication timeouts (Some lookup)
                                          (arrive server toServer)
               = Some (inr (Errorf "auth failed: %s" ["unknown_agent"%string]),
                       server')).
  { unfold WaitForAgentAuthentication, bind at 1.
    assert (A : awaitBegin timeouts lookup (arrive server toServer)
                = Some (inr (Errorf "auth failed: %s" ["unknown_agent"%string]),
                        server')).
    { unfold awaitBegin, bind. rewrite S1. cbn [Payload]. unfold try, lift.
      rewrite UB. cbn [begin_AgentID].
      apply String.eqb_neq in Hblank. rewrite Hblank, Hlook.
      unfold failAuth, discard, bind. fold (authErrorPayload "unknown_agent" EmptyString).
      fold bE. rewrite S2. reflexivity. }
    rewrite A. reflexivity. }
  assert (WS : written server' = written server ++ toClient).
  { unfold server'. change (written (set_connection s2 (ConnClose (connection s2))))
      with (written s2). rewrite SW2, SW1. reflexivity. }
  (* the agent *)
  pose proof (ready_arrive client m toClient Ic) as Rc.
  assert (Rc1 : ready (tick (arrive client toClient)) m toClient) by exact Rc.
  destruct (sendAuth_wire timeouts _ TypeAuthBegin bB m _ eq_refl Rc1 ltac:(lia))
    as (c1 & C1 & CW1 & CR1 & _).
  unfold toClient in CR1.
  rewrite <- (app_nil_r (authWire m TypeAuthError bE)) in CR1.
  destruct (readNext_wire c1 TypeAuthError bE m [] (readTimeout timeouts)
                          eq_refl Hm CR1)
    as (c2 & C2 & CW2 & CR2 & _).
  set (client' := set_connection c2 (ConnClose (connection c2))).
  assert (RC : AuthenticateAsClient timeouts (ret (priv, pub, agentID))
                                    (arrive client toClient)
               = Some (inr (Errorf "unexpected frame type %d (want %d)"
                                   [FormatInt TypeAuthError;
                                    FormatInt TypeAuthChallenge]),
                       client')).
  { unfold AuthenticateAsClient, bind at 1, ret. cbn [fst snd].
    unfold bind at 1. unfold clientBegin, bind at 1. rewrite nowMS_eq.
    unfold bind at 1, lift at 1.
    change (nowMSat (arrive client toClient)) with (nowMSat client).
    rewrite MB, C1.
    unfold bind at 1.
    assert (P : clientProve timeouts priv agentID c1
                = Some (inr (Errorf "unexpected frame type %d (want %d)"
                                    [FormatInt TypeAuthError;
                                     FormatInt TypeAuthChallenge]),
                        client')).
    { unfold clientProve, bind at 1. unfold readAuth, bind at 1. rewrite C2.
      cbn [MsgType]. reflexivity. }
    rewrite P. reflexivity. }
  assert (WC : written client' = written client ++ toServer).
  { unfold client'. change (written (set_connection c2 (ConnClose (connection c2))))
      with (written c2). rewrite CW2, CW1. reflexivity. }
  exists client', server'.
  rewrite (since_written client client' toServer) by exact WC.
  rewrite (since_written server server' toClient) by exact WS.
  split; [exact RS|]. split; [exact RC|]. split; reflexivity.
Qed.

End Unknown.

End Rejection.
Import Rejection.

(* ================================================================== *)
(** * Rejection scenarios *)
(* ================================================================== *)

Module RejectionScenarios.
Import Auth.

(** X25 at the agent of [zeroKey] and a proxy whose registry is
    empty. *)
Lemma handshake_unknown_agent_witness :
  exists client' server',
    WaitForAgentAuthentication
      (jsonBegin := Toy.beginCodec) (jsonChallenge := Toy.challengeCodec)
      (jsonProof := Toy.proofCodec) (jsonOK := Toy.okCodec)
      (jsonError := Toy.errorCodec) (jsonHeader := Toy.headerCodec)
      (ext := Toy.externals)
      defaultTimeouts (Some nobody)
      (arrive Toy.proxyWorld (since Toy.agentWorld client'))
    = Some (inr (Errorf "auth failed: %s" ["unknown_agent"%string]), server') /\
    AuthenticateAsClient
      (jsonBegin := Toy.beginCodec) (jsonChallenge := Toy.challengeCodec)
      (jsonProof := Toy.proofCodec) (jsonOK := Toy.okCodec)
      (jsonError := Toy.errorCodec) (jsonHeader := Toy.headerCodec)
      (ext := Toy.externals) (signer := Toy.signer)
      defaultTimeouts (ret (zeroKey, zeroKey, zeroAgent))
      (arrive Toy.agentWorld (since Toy.proxyWorld server'))
    = Some (inr (Errorf "unexpected frame type %d (want %d)"
                        [FormatInt TypeAuthError; FormatInt TypeAuthChallenge]),
            client') /\
    closed (nc (connection server')) = true /\
    closed (nc (connection client')) = true.
Proof.
  apply (handshake_unknown_agent
           (jsonBegin := Toy.beginCodec) (jsonChallenge := Toy.challengeCodec)
           (jsonProof := Toy.proofCodec) (jsonOK := Toy.okCodec)
           (jsonError := Toy.errorCodec) (jsonHeader := Toy.headerCodec)
           (ext := Toy.externals) (signer := Toy.signer)
           defaultTimeouts Toy.agentWorld Toy.proxyWorld (16 * 1024 * 1024)
           zeroKey zeroKey zeroAgent nobody).
  - split; [discriminate | reflexivity].
  - repeat split.
  - repeat split.
  - exact (begin_encodes zeroAgent toy_codecsAgree (nowMSat Toy.agentWorld)).
  - discriminate.
  - reflexivity.
Defined.

End RejectionScenarios.
Import RejectionScenarios.
